(** * cieft: GGUF container parser, tensor loader, dequantizers and kernels

    A shallow embedding of the C++ sources
      reader.h, gguf.h/gguf.cpp, gguf_loader.h/gguf_loader.cpp,
      aligned_alloc.h, weights.h/weights.cpp,
      ggml_fp16.h, ggml_quants.h, dequant_q4_k.cpp, dequant_q6_k.cpp,
      kernels/softmax.h, kernels/math.h, kernels/rope.h, kernels/matvec.h,
      kernels/rmsnorm.h, layer0.h/layer0.cpp
    followed by the properties established about them.

    Conventions.
    - [std::uint64_t] and [std::size_t] are 64-bit unsigned integers, modelled
      as [Z] with the wrap-around of every C++ operation written out.
    - [throw std::runtime_error(msg)] is the [Err] branch of [result]; the
      constructors of [error] are the messages of the sources.  A failed
      [assert] is an error as well (a build without [NDEBUG]).
    - Memory is available: an allocation ([reserve], [resize], [assign],
      [posix_memalign]) fails only where its arguments are refused, with the
      [std::length_error] of [reserve] above [max_size()] and the [EINVAL]
      of [posix_memalign].
    - A pointer into an array is the list of the elements from the pointer
      on; an array that a function fills is the list it has written.
    - Undefined behaviour is the error [E_undefined_behaviour]: the layer
      engine checks, where the C++ indexes through a pointer or divides,
      that the elements exist and that the divisor is not zero.
    - [float] is IEEE 754 binary32 and [double] binary64, modelled with the
      parametric [spec_float] operations of the standard library
      (round to nearest even, no NaN payloads).  The functions of the C++
      mathematical library are parameters. *)

From Stdlib Require Import ZArith List Lia Bool String Ascii Strings.Byte QArith.
From Stdlib Require Import Qabs Qpower Lqa.
From Stdlib Require Import DecimalString.
From Stdlib Require Import Floats.SpecFloat.
From stdpp Require Import base gmap strings list.

Local Open Scope Z_scope.

(** ** Errors and the exception monad *)

(** One constructor per [std::runtime_error] message (or failed [assert]). *)
Inductive error : Type :=
  | E_seek_past_EOF                 (* "seek past EOF" *)
  | E_read_past_EOF                 (* "read past EOF" *)
  | E_read_bytes_past_EOF           (* "read_bytes past EOF" *)
  | E_skip_past_EOF                 (* "skip past EOF" *)
  | E_string_past_EOF               (* "string past EOF" *)
  | E_skip_too_large                (* "skip too large" *)
  | E_array_skip_overflow           (* "array skip overflow" *)
  | E_array_of_array                (* "array-of-array not supported in gguf" *)
  | E_unknown_array_elem_type       (* "unknown gguf array element type" *)
  | E_unknown_value_type            (* "unknown gguf value type" *)
  | E_bad_magic                     (* "not a GGUF file (bad magic)" *)
  | E_data_section_out_of_bounds    (* "data section offset out of bounds" *)
  | E_tensor_offset_out_of_bounds (name : string) (* "tensor offset out of bounds: " *)
  | E_tensor_out_of_bounds (name : string)        (* "tensor out of bounds: " *)
  | E_u64_overflow                  (* "u64 overflow" *)
  | E_offsets_not_monotonic         (* "tensor offsets not monotonic" *)
  | E_tensor_view_out_of_bounds (name : string)   (* "tensor view out of bounds: " *)
  | E_tensor_not_found (name : string)            (* "tensor not found: " *)
  | E_tensor_no_dims (name : string)              (* "tensor has no dims: " *)
  | E_tensor_too_large              (* "tensor too large for this process" *)
  | E_tensor_truncated (name : string)            (* "tensor truncated: " *)
  | E_q4k_row_len (name : string)   (* "Q4_K row_len not multiple of 256: " *)
  | E_q6k_row_len (name : string)   (* "Q6_K row_len not multiple of 256: " *)
  | E_unsupported_type (ggml_type : Z) (name : string) (* "unsupported ggml_type " *)
  | E_alloc_bytes_zero              (* "AlignedBuffer::allocate: bytes=0" *)
  | E_alloc_alignment               (* "AlignedBuffer::allocate: alignment must be power of 2" *)
  | E_posix_memalign_failed         (* "posix_memalign failed" *)
  | E_assert_k_mod_QK_K             (* assert(k % QK_K == 0) *)
  | E_rope_dim_zero_or_odd          (* "rope_dim must be non-zero and even" *)
  | E_rope_theta                    (* "rope theta must be > 0" *)
  | E_rope_not_initialized          (* "RoPECache not initialized" *)
  | E_rope_dim_gt_head_dim          (* "rope_dim > head_dim" *)
  | E_rope_dim_odd                  (* "rope_dim must be even" *)
  | E_kv_ptr_out_of_range           (* "KVCacheLayer::k_ptr out of range" *)
  | E_step_pos_out_of_range         (* "Layer0Context::step pos out of range" *)
  | E_length_error                  (* [std::length_error] of [std::vector::reserve] *)
  | E_undefined_behaviour.          (* no throw: undefined behaviour of the C++ *)

Inductive result (A : Type) : Type :=
  | Ok (a : A)
  | Err (e : error).
Arguments Ok {A} a.
Arguments Err {A} e.

Definition rbind {A B} (m : result A) (k : A -> result B) : result B :=
  match m with
  | Ok a => k a
  | Err e => Err e
  end.

Notation "'let*' x ':=' m 'in' k" := (rbind m (fun x => k))
  (at level 10, x pattern, m at level 100, k at level 200,
   format "'[v' 'let*'  x  ':='  m  'in' '/' k ']'").

(** [for (std::uint64_t i = 0; i < n; i++) body], for a body that does not
    read [i]: the state is threaded through [n] runs of [body] and the loop
    is left at the first throw.  The count is a binary number, so that a
    count of up to 2^64 - 1 read from a file can be run. *)
Fixpoint for_pos {S : Type} (p : positive) (body : S -> result S) (s : S) : result S :=
  match p with
  | xH => body s
  | xO p' => let* s1 := for_pos p' body s in for_pos p' body s1
  | xI p' =>
      let* s1 := body s in
      let* s2 := for_pos p' body s1 in
      for_pos p' body s2
  end.

Definition for_u64 {S : Type} (n : Z) (body : S -> result S) (s : S) : result S :=
  match n with
  | Zpos p => for_pos p body s
  | _ => Ok s
  end.

(** The same loop with its count in unary, one run per step. *)
Fixpoint for_nat {St : Type} (n : nat) (body : St -> result St) (s : St) : result St :=
  match n with
  | O => Ok s
  | S n' => let* s1 := body s in for_nat n' body s1
  end.

(** Undefined behaviour.  An access to the [n] elements at the pointer [p]
    where fewer than [n] elements are left in its buffer, and an integer
    division by zero, have no defined result in C++: the model stops with
    [E_undefined_behaviour]. *)
Definition in_bounds {A} (p : list A) (n : nat) : result unit :=
  if (n <=? length p)%nat then Ok tt else Err E_undefined_behaviour.

Definition nonzero_divisor (d : Z) : result unit :=
  if d =? 0 then Err E_undefined_behaviour else Ok tt.

(** ** Unsigned 64-bit arithmetic *)

Module U64.
Definition max : Z := 2 ^ 64 - 1.
Definition wrap (z : Z) : Z := z mod 2 ^ 64.
Definition add (a b : Z) : Z := wrap (a + b).
Definition sub (a b : Z) : Z := wrap (a - b).
Definition mul (a b : Z) : Z := wrap (a * b).
End U64.

Definition u32_max : Z := 2 ^ 32 - 1.

(** ** reader.h *)

Module Reader.

(** [Reader(data, size)]: [data_] is the mapped byte slice, [size_] its
    length, [pos_] the cursor. *)
Record t : Type := mk { data_ : list byte; pos_ : Z }.

Definition size_ (r : t) : Z := Z.of_nat (length (data_ r)).
Definition init (data : list byte) : t := mk data 0.
Definition pos (r : t) : Z := pos_ r.
Definition size (r : t) : Z := size_ r.
Definition set_pos (r : t) (p : Z) : t := mk (data_ r) p.

(** The bytes [data_ + pos_ .. data_ + pos_ + n). *)
Definition bytes_at (r : t) (n : Z) : list byte :=
  firstn (Z.to_nat n) (skipn (Z.to_nat (pos_ r)) (data_ r)).

(** Little-endian value of a byte string. *)
Fixpoint le_decode (bs : list byte) : Z :=
  match bs with
  | nil => 0
  | b :: bs' => Z.of_N (Byte.to_N b) + 256 * le_decode bs'
  end.

(** Two's-complement reading of a [w]-bit pattern. *)
Definition to_signed (w : Z) (u : Z) : Z :=
  if u <? 2 ^ (w - 1) then u else u - 2 ^ w.

(** [void seek(std::size_t new_pos)] *)
Definition seek (r : t) (new_pos : Z) : result t :=
  if new_pos >? size_ r then Err E_seek_past_EOF
  else Ok (set_pos r new_pos).

(** [T read<T>()] for an unsigned integer type of [sz] bytes; the result is
    the little-endian value of the bytes under the cursor. *)
Definition read (sz : Z) (r : t) : result (Z * t) :=
  if U64.add (pos_ r) sz >? size_ r then Err E_read_past_EOF
  else Ok (le_decode (bytes_at r sz), set_pos r (U64.add (pos_ r) sz)).

Definition read_u8 := read 1.
Definition read_u16 := read 2.
Definition read_u32 := read 4.
Definition read_u64 := read 8.

(** [void read_bytes(void* dst, std::size_t n)] *)
Definition read_bytes (n : Z) (r : t) : result (list byte * t) :=
  if U64.add (pos_ r) n >? size_ r then Err E_read_bytes_past_EOF
  else Ok (bytes_at r n, set_pos r (U64.add (pos_ r) n)).

(** [void skip(std::size_t n)]: the test is [pos_ + n > size_] in
    [std::size_t] arithmetic, and so is [pos_ += n]. *)
Definition skip (n : Z) (r : t) : result t :=
  if U64.add (pos_ r) n >? size_ r then Err E_skip_past_EOF
  else Ok (set_pos r (U64.add (pos_ r) n)).

(** [std::string read_string()] *)
Definition read_string (r : t) : result (string * t) :=
  let* (len, r1) := read_u64 r in
  if len >? U64.sub (size_ r1) (pos_ r1) then Err E_string_past_EOF
  else Ok (string_of_list_byte (bytes_at r1 len),
           set_pos r1 (U64.add (pos_ r1) len)).

(** [std::size_t align_up(std::size_t v, std::size_t alignment)] *)
Definition align_up (v alignment : Z) : Z :=
  if alignment =? 0 then v
  else
    let r := v mod alignment in
    if r =? 0 then v else U64.add v (U64.sub alignment r).

End Reader.

(** ** gguf.h, gguf.cpp *)

Module Gguf.

(** [enum class ValueType : std::uint32_t] *)
Inductive ValueType : Type :=
  | Uint8 | Int8 | Uint16 | Int16 | Uint32 | Int32 | Float32 | Bool_
  | String_ | Array | Uint64 | Int64 | Float64.

(** [static_cast<ValueType>(u)]: [None] for a value outside the enumerators,
    which every [switch] of the sources sends to its trailing [throw]. *)
Definition value_type_of_u32 (u : Z) : option ValueType :=
  match u with
  | 0 => Some Uint8 | 1 => Some Int8 | 2 => Some Uint16 | 3 => Some Int16
  | 4 => Some Uint32 | 5 => Some Int32 | 6 => Some Float32 | 7 => Some Bool_
  | 8 => Some String_ | 9 => Some Array | 10 => Some Uint64
  | 11 => Some Int64 | 12 => Some Float64
  | _ => None
  end.

Record ArraySummary : Type := { elem_type : ValueType; length_ : Z }.

(** The [std::variant] payload; floats are kept as their bit patterns. *)
Inductive Payload : Type :=
  | P_u8 (x : Z) | P_i8 (x : Z) | P_u16 (x : Z) | P_i16 (x : Z)
  | P_u32 (x : Z) | P_i32 (x : Z) | P_u64 (x : Z) | P_i64 (x : Z)
  | P_f32 (bits : Z) | P_f64 (bits : Z) | P_bool (b : bool)
  | P_string (s : string) | P_array (a : ArraySummary).

Record Value : Type := { type : ValueType; payload : Payload }.
Record KV : Type := { key : string; value : Value }.

Record Header : Type :=
  { version : Z; tensor_count : Z; metadata_kv_count : Z }.

Record TensorInfo : Type :=
  { name : string; dims : list Z; ggml_type : Z; offset : Z }.

Record File : Type :=
  { header : Header;
    metadata : list KV;
    tensors : list TensorInfo;
    data_section_offset : Z;
    tensor_index_by_name : gmap string nat;
    kv_index_by_key : gmap string nat }.

Record GGMLTypeTraits : Type :=
  { traits_name : string; block_size : Z; type_size : Z }.

Definition kDefaultAlignment : Z := 32.

(** [std::unordered_map::emplace(k, v)]: inserts only when [k] is absent. *)
Definition emplace (k : string) (v : nat) (m : gmap string nat) : gmap string nat :=
  match m !! k with
  | Some _ => m
  | None => <[k := v]> m
  end.

(** [bool mul_overflow_u64(a, b, T* out)] with [T = std::uint64_t]:
    [None] is the return value [true], [Some v] is [false] with [*out = v]. *)
Definition mul_overflow_u64 (a b : Z) : option Z :=
  if (a =? 0) || (b =? 0) then Some 0
  else if a >? U64.max / b then None
  else Some (U64.mul a b).

(** [bool add_overflow_u64(a, b, std::uint64_t* out)], same convention. *)
Definition add_overflow_u64 (a b : Z) : option Z :=
  if a >? U64.max - b then None
  else Some (U64.add a b).

(** [void skip_u64(Reader& r, std::uint64_t nbytes)] *)
Definition skip_u64 (r : Reader.t) (nbytes : Z) : result Reader.t :=
  if nbytes >? U64.max then Err E_skip_too_large
  else Reader.skip nbytes r.

Definition mk_value (t : ValueType) (p : Payload) : Value :=
  {| type := t; payload := p |}.

(** The checked branch shared by the 2-, 4- and 8-byte array elements. *)
Definition skip_array_payload (r : Reader.t) (n elem_size : Z) : result Reader.t :=
  match mul_overflow_u64 n elem_size with
  | None => Err E_array_skip_overflow
  | Some bytes => skip_u64 r bytes
  end.

(** [Value read_value(Reader& r, ValueType t)] *)
Definition read_value (r : Reader.t) (t : ValueType) : result (Value * Reader.t) :=
  match t with
  | Uint8 => let* (x, r1) := Reader.read_u8 r in Ok (mk_value t (P_u8 x), r1)
  | Int8 =>
      let* (x, r1) := Reader.read_u8 r in
      Ok (mk_value t (P_i8 (Reader.to_signed 8 x)), r1)
  | Uint16 => let* (x, r1) := Reader.read_u16 r in Ok (mk_value t (P_u16 x), r1)
  | Int16 =>
      let* (x, r1) := Reader.read_u16 r in
      Ok (mk_value t (P_i16 (Reader.to_signed 16 x)), r1)
  | Uint32 => let* (x, r1) := Reader.read_u32 r in Ok (mk_value t (P_u32 x), r1)
  | Int32 =>
      let* (x, r1) := Reader.read_u32 r in
      Ok (mk_value t (P_i32 (Reader.to_signed 32 x)), r1)
  | Uint64 => let* (x, r1) := Reader.read_u64 r in Ok (mk_value t (P_u64 x), r1)
  | Int64 =>
      let* (x, r1) := Reader.read_u64 r in
      Ok (mk_value t (P_i64 (Reader.to_signed 64 x)), r1)
  | Float32 => let* (x, r1) := Reader.read_u32 r in Ok (mk_value t (P_f32 x), r1)
  | Float64 => let* (x, r1) := Reader.read_u64 r in Ok (mk_value t (P_f64 x), r1)
  | Bool_ =>
      let* (x, r1) := Reader.read_u8 r in
      Ok (mk_value t (P_bool (negb (x =? 0))), r1)
  | String_ =>
      let* (s, r1) := Reader.read_string r in
      Ok (mk_value t (P_string s), r1)
  | Array =>
      let* (et, r1) := Reader.read_u32 r in
      let* (n, r2) := Reader.read_u64 r1 in
      match value_type_of_u32 et with
      | None => Err E_unknown_array_elem_type
      | Some elem =>
          let v := mk_value t (P_array {| elem_type := elem; length_ := n |}) in
          match elem with
          | String_ =>
              let* r3 :=
                for_u64 n (fun rr => let* (_, rr1) := Reader.read_string rr in Ok rr1) r2 in
              Ok (v, r3)
          | Uint8 | Int8 | Bool_ =>
              let* r3 := skip_u64 r2 n in Ok (v, r3)
          | Uint16 | Int16 =>
              let* r3 := skip_array_payload r2 n 2 in Ok (v, r3)
          | Uint32 | Int32 | Float32 =>
              let* r3 := skip_array_payload r2 n 4 in Ok (v, r3)
          | Uint64 | Int64 | Float64 =>
              let* r3 := skip_array_payload r2 n 8 in Ok (v, r3)
          | Array => Err E_array_of_array
          end
      end
  end.

(** [std::optional<GGMLTypeTraits> ggml_type_traits(std::uint32_t)] *)
Definition ggml_type_traits (ggml_type : Z) : option GGMLTypeTraits :=
  match ggml_type with
  | 0 => Some {| traits_name := "F32"; block_size := 1; type_size := 4 |}
  | 1 => Some {| traits_name := "F16"; block_size := 1; type_size := 2 |}
  | 12 => Some {| traits_name := "Q4_K"; block_size := 256; type_size := 144 |}
  | 14 => Some {| traits_name := "Q6_K"; block_size := 256; type_size := 210 |}
  | _ => None
  end.

(** The loop [for (i = 1; i < dims.size(); i++)] of [tensor_nbytes];
    [None] is its [return std::nullopt]. *)
Fixpoint mul_dims (nblocks : Z) (rest : list Z) : option Z :=
  match rest with
  | nil => Some nblocks
  | d :: rest' =>
      match mul_overflow_u64 nblocks d with
      | None => None
      | Some nb => mul_dims nb rest'
      end
  end.

(** [std::optional<std::uint64_t> tensor_nbytes(const TensorInfo& t)] *)
Definition tensor_nbytes (t : TensorInfo) : option Z :=
  match ggml_type_traits (ggml_type t) with
  | None => None
  | Some traits =>
      match dims t with
      | nil => Some 0
      | d0 :: rest =>
          let blocks_dim0 :=
            if block_size traits =? 1 then Some d0
            else
              let bs := block_size traits in
              let b := d0 / bs in
              if negb (d0 mod bs =? 0) then
                if b =? U64.max then None else Some (U64.add b 1)
              else Some b in
          match blocks_dim0 with
          | None => None
          | Some b0 =>
              match mul_dims b0 rest with
              | None => None
              | Some nblocks => mul_overflow_u64 nblocks (type_size traits)
              end
          end
      end
  end.

Definition empty_file (h : Header) : File :=
  {| header := h; metadata := nil; tensors := nil; data_section_offset := 0;
     tensor_index_by_name := ∅; kv_index_by_key := ∅ |}.

(** [out.kv_index_by_key.emplace(kv.key, out.metadata.size());
     out.metadata.push_back(std::move(kv));] *)
Definition push_kv (kv : KV) (out : File) : File :=
  {| header := header out;
     metadata := metadata out ++ [kv];
     tensors := tensors out;
     data_section_offset := data_section_offset out;
     tensor_index_by_name := tensor_index_by_name out;
     kv_index_by_key := emplace (key kv) (length (metadata out)) (kv_index_by_key out) |}.

(** [out.tensor_index_by_name.emplace(ti.name, out.tensors.size());
     out.tensors.push_back(std::move(ti));] *)
Definition push_tensor (ti : TensorInfo) (out : File) : File :=
  {| header := header out;
     metadata := metadata out;
     tensors := tensors out ++ [ti];
     data_section_offset := data_section_offset out;
     tensor_index_by_name :=
       emplace (name ti) (length (tensors out)) (tensor_index_by_name out);
     kv_index_by_key := kv_index_by_key out |}.

Definition set_data_section_offset (off : Z) (out : File) : File :=
  {| header := header out;
     metadata := metadata out;
     tensors := tensors out;
     data_section_offset := off;
     tensor_index_by_name := tensor_index_by_name out;
     kv_index_by_key := kv_index_by_key out |}.

(** Body of the metadata loop of [parse]. *)
Definition parse_kv (st : Reader.t * File) : result (Reader.t * File) :=
  let (r, out) := st in
  let* (k, r1) := Reader.read_string r in
  let* (tu, r2) := Reader.read_u32 r1 in
  match value_type_of_u32 tu with
  | None => Err E_unknown_value_type
  | Some t =>
      let* (v, r3) := read_value r2 t in
      Ok (r3, push_kv {| key := k; value := v |} out)
  end.

(** [ti.dims[d] = r.read<std::uint64_t>()] for [d = 0 .. n_dims - 1]; the
    vector is filled front to back, one element per run. *)
Definition read_dim (st : Reader.t * list Z) : result (Reader.t * list Z) :=
  let (r, ds) := st in
  let* (d, r1) := Reader.read_u64 r in
  Ok (r1, ds ++ [d]).

(** Body of the tensor-directory loop of [parse]. *)
Definition parse_tensor (st : Reader.t * File) : result (Reader.t * File) :=
  let (r, out) := st in
  let* (nm, r1) := Reader.read_string r in
  let* (n_dims, r2) := Reader.read_u32 r1 in
  let* (r3, ds) := for_u64 n_dims read_dim (r2, nil) in
  let* (ty, r4) := Reader.read_u32 r3 in
  let* (off, r5) := Reader.read_u64 r4 in
  Ok (r5, push_tensor {| name := nm; dims := ds; ggml_type := ty; offset := off |} out).

(** The [general.alignment] lookup of [parse]. *)
Definition alignment_of (out : File) : Z :=
  match kv_index_by_key out !! "general.alignment"%string with
  | None => kDefaultAlignment
  | Some i =>
      match metadata out !! i with
      | None => kDefaultAlignment
      | Some kv =>
          match payload (value kv) with
          | P_u32 a => a
          | P_u64 a => if a <=? u32_max then a else kDefaultAlignment
          | _ => kDefaultAlignment
          end
      end
  end.

(** Body of the range check [for (const auto& t : out.tensors)]. *)
Definition check_tensor (dso size : Z) (t : TensorInfo) : result unit :=
  match add_overflow_u64 dso (offset t) with
  | None => Err (E_tensor_offset_out_of_bounds (name t))
  | Some abs_off =>
      if abs_off >? size then Err (E_tensor_offset_out_of_bounds (name t))
      else
        match tensor_nbytes t with
        | None => Ok tt
        | Some nbytes =>
            match add_overflow_u64 abs_off nbytes with
            | None => Err (E_tensor_out_of_bounds (name t))
            | Some end_ =>
                if end_ >? size then Err (E_tensor_out_of_bounds (name t))
                else Ok tt
            end
        end
  end.

Fixpoint check_tensors (dso size : Z) (ts : list TensorInfo) : result unit :=
  match ts with
  | nil => Ok tt
  | t :: ts' => let* _ := check_tensor dso size t in check_tensors dso size ts'
  end.

Definition is_magic (m : list byte) : bool :=
  match m with
  | [a; b; c; d] =>
      Byte.eqb a "G"%byte && Byte.eqb b "G"%byte &&
      Byte.eqb c "U"%byte && Byte.eqb d "F"%byte
  | _ => false
  end.

(** [sizeof(KV)] and [sizeof(TensorInfo)] on a 64-bit target with the
    32-byte [std::string] and the 24-byte [std::vector] of libstdc++: a
    string and a [Value] (the tag and a 40-byte [std::variant]), and a
    string, a vector, the type and the offset. *)
Definition sizeof_KV : Z := 80.
Definition sizeof_TensorInfo : Z := 72.

(** [v.reserve(n)] on a [std::vector] of elements of [elem_size] bytes:
    [std::length_error] when [n > max_size()], where [max_size()] is
    [PTRDIFF_MAX / sizeof(T)]; below that the allocation is taken to
    succeed. *)
Definition reserve (elem_size n : Z) : result unit :=
  if n >? (2 ^ 63 - 1) / elem_size then Err E_length_error else Ok tt.

(** The first part of [parse]: magic, header, and the two [reserve] calls
    and loops that fill [out.metadata] and [out.tensors].  The result is the
    reader and [out] as they are before [alignment] is computed. *)
Definition read_directory (data : list byte) : result (Reader.t * File) :=
  let r := Reader.init data in
  let* (magic, r1) := Reader.read_bytes 4 r in
  if negb (is_magic magic) then Err E_bad_magic
  else
    let* (ver, r2) := Reader.read_u32 r1 in
    let* (tc, r3) := Reader.read_u64 r2 in
    let* (kc, r4) := Reader.read_u64 r3 in
    let out0 :=
      empty_file {| version := ver; tensor_count := tc; metadata_kv_count := kc |} in
    let* _ := reserve sizeof_KV kc in
    let* st1 := for_u64 kc parse_kv (r4, out0) in
    let* _ := reserve sizeof_TensorInfo tc in
    for_u64 tc parse_tensor st1.

(** [File parse(const std::uint8_t* data, std::size_t size)] *)
Definition parse (data : list byte) : result File :=
  let size := Reader.size (Reader.init data) in
  let* (r6, out2) := read_directory data in
  let out3 :=
    set_data_section_offset (Reader.align_up (Reader.pos r6) (alignment_of out2)) out2 in
  if data_section_offset out3 >? size then Err E_data_section_out_of_bounds
  else
    let* _ := check_tensors (data_section_offset out3) size (tensors out3) in
    Ok out3.

(** Bytes per element of the array element types whose payload size is a
    checked product. *)
Definition checked_elem_size (t : ValueType) : option Z :=
  match t with
  | Uint16 | Int16 => Some 2
  | Uint32 | Int32 | Float32 => Some 4
  | Uint64 | Int64 | Float64 => Some 8
  | _ => None
  end.

End Gguf.

(** ** Encoders for test files

    Writers for the GGUF wire format (section 6 of the format description),
    used only to spell out concrete input files. *)

Module Wire.

Definition byte_of_Z (z : Z) : byte :=
  match Byte.of_N (Z.to_N (z mod 256)) with
  | Some b => b
  | None => "000"%byte
  end.

Fixpoint le (width : nat) (z : Z) : list byte :=
  match width with
  | O => nil
  | S w => byte_of_Z z :: le w (z / 256)
  end.

Definition u32 := le 4.
Definition u64 := le 8.

Definition str (s : string) : list byte :=
  u64 (Z.of_nat (String.length s)) ++ list_byte_of_string s.

Definition magic : list byte := list_byte_of_string "GGUF".

Definition file_header (version tensor_count kv_count : Z) : list byte :=
  magic ++ u32 version ++ u64 tensor_count ++ u64 kv_count.

Definition kv_u32 (k : string) (v : Z) : list byte := str k ++ u32 4 ++ u32 v.

Definition kv_array (k : string) (elem_type n : Z) : list byte :=
  str k ++ u32 9 ++ u32 elem_type ++ u64 n.

Definition tensor (nm : string) (ds : list Z) (ggml_type off : Z) : list byte :=
  str nm ++ u32 (Z.of_nat (length ds)) ++ concat (map u64 ds)
    ++ u32 ggml_type ++ u64 off.

Definition zeros (n : nat) : list byte := repeat "000"%byte n.

End Wire.

(** ** gguf_loader.h, gguf_loader.cpp *)

Module Loader.
Import Gguf.

(** [std::uint64_t checked_add_u64(a, b)] *)
Definition checked_add_u64 (a b : Z) : result Z :=
  if a >? U64.max - b then Err E_u64_overflow
  else Ok (U64.add a b).

(** [gguf_.tensors[i].offset] *)
Definition offset_at (ts : list TensorInfo) (i : nat) : Z :=
  match ts !! i with
  | Some t => offset t
  | None => 0
  end.

(** The comparator handed to [std::sort]:
    [tensors[a].offset < tensors[b].offset]. *)
Definition offset_lt (ts : list TensorInfo) (a b : nat) : bool :=
  offset_at ts a <? offset_at ts b.

(** [std::sort(idx.begin(), idx.end(), cmp)], as an insertion sort that
    only consults the comparator.  (The order [std::sort] gives to indices
    of equal offset is unspecified; this one keeps them in index order.) *)
Fixpoint sort_insert (cmp : nat -> nat -> bool) (a : nat) (l : list nat) : list nat :=
  match l with
  | nil => [a]
  | b :: l' => if cmp b a then b :: sort_insert cmp a l' else a :: b :: l'
  end.

Definition sort_by (cmp : nat -> nat -> bool) (l : list nat) : list nat :=
  foldr (sort_insert cmp) nil l.

(** [std::iota(idx.begin(), idx.end(), 0)] followed by the sort. *)
Definition sorted_idx (ts : list TensorInfo) : list nat :=
  sort_by (offset_lt ts) (seq 0 (length ts)).

(** The loop [for (i = 0; i < idx.size(); i++)] of the constructor, run on
    the indices [idx[i], idx[i+1], ...] that are still to be visited. *)
Fixpoint assign_sizes (dso file_size : Z) (ts : list TensorInfo)
    (idx : list nat) (sizes : list Z) : result (list Z) :=
  match idx with
  | nil => Ok sizes
  | cur :: rest =>
      let* cur_abs := checked_add_u64 dso (offset_at ts cur) in
      let* next_abs :=
        match rest with
        | nxt :: _ => checked_add_u64 dso (offset_at ts nxt)
        | nil => Ok file_size
        end in
      if next_abs <? cur_abs then Err E_offsets_not_monotonic
      else assign_sizes dso file_size ts rest (<[cur := U64.sub next_abs cur_abs]> sizes)
  end.

Record GGUFLoader : Type :=
  { mapped_ : list byte;
    gguf_ : File;
    tensor_size_from_offsets_ : list Z }.

(** The constructor body for a given index order [idx]. *)
Definition construct_with (idx : list TensorInfo -> list nat) (mapped : list byte)
    : result GGUFLoader :=
  let* g := parse mapped in
  let* sizes :=
    assign_sizes (data_section_offset g) (Z.of_nat (length mapped)) (tensors g)
      (idx (tensors g)) (repeat 0 (length (tensors g))) in
  Ok {| mapped_ := mapped; gguf_ := g; tensor_size_from_offsets_ := sizes |}.

(** [GGUFLoader::GGUFLoader(const std::string& path)], given the bytes
    [mapped_] that [MappedFile] maps from [path]. *)
Definition construct (mapped : list byte) : result GGUFLoader :=
  construct_with sorted_idx mapped.

Record TensorView : Type :=
  { tv_name : string;
    tv_dims : list Z;
    tv_ggml_type : Z;
    tv_data : list byte;      (* the mapping from [mapped_.data() + abs_off] on *)
    tv_nbytes : Z;
    tv_file_offset : Z }.

(** [std::optional<TensorView> GGUFLoader::maybe_get_tensor(name)] *)
Definition maybe_get_tensor (ld : GGUFLoader) (nm : string) : result (option TensorView) :=
  match tensor_index_by_name (gguf_ ld) !! nm with
  | None => Ok None
  | Some i =>
      match tensors (gguf_ ld) !! i with
      | None => Ok None
      | Some ti =>
          let size := Z.of_nat (length (mapped_ ld)) in
          let* abs_off := checked_add_u64 (data_section_offset (gguf_ ld)) (offset ti) in
          let nbytes :=
            match tensor_nbytes ti with
            | Some n => n
            | None => nth i (tensor_size_from_offsets_ ld) 0
            end in
          if (abs_off >? size) || (U64.add abs_off nbytes >? size)
          then Err (E_tensor_view_out_of_bounds nm)
          else Ok (Some {| tv_name := name ti;
                           tv_dims := dims ti;
                           tv_ggml_type := ggml_type ti;
                           tv_data := skipn (Z.to_nat abs_off) (mapped_ ld);
                           tv_nbytes := nbytes;
                           tv_file_offset := abs_off |})
      end
  end.

(** [TensorView GGUFLoader::get_tensor(name)] *)
Definition get_tensor (ld : GGUFLoader) (nm : string) : result TensorView :=
  let* o := maybe_get_tensor ld nm in
  match o with
  | Some tv => Ok tv
  | None => Err (E_tensor_not_found nm)
  end.

End Loader.

(** ** IEEE 754 binary32 and binary64 *)

(** [float]: 24 bits of precision, infinities at exponent 128. *)
Module F32.
Definition prec : Z := 24.
Definition emax : Z := 128.

Definition zero : spec_float := S754_zero false.
Definition neg_infinity : spec_float := S754_infinity true.

Definition add := SFadd prec emax.
Definition sub := SFsub prec emax.
Definition mul := SFmul prec emax.
Definition div := SFdiv prec emax.
Definition sqrt := SFsqrt prec emax.
Definition gtb (x y : spec_float) : bool := SFltb y x.

(** Conversion of an integer to [float] (round to nearest even). *)
Definition of_Z (z : Z) : spec_float := binary_normalize prec emax z 0 false.

Definition one : spec_float := of_Z 1.

(** [std::bit_cast<float>(bits)]: bit 31 is the sign, bits 30..23 the
    biased exponent, bits 22..0 the fraction. *)
Definition of_bits (bits : Z) : spec_float :=
  let s := Z.testbit bits 31 in
  let e := Z.land (Z.shiftr bits 23) 255 in
  let m := Z.land bits 8388607 in
  if e =? 0 then
    match m with
    | Zpos p => S754_finite s p (-149)
    | _ => S754_zero s
    end
  else if e =? 255 then
    (if m =? 0 then S754_infinity s else S754_nan)
  else
    match m + 8388608 with
    | Zpos p => S754_finite s p (e - 150)
    | _ => S754_nan
    end.
End F32.

(** [double]: 53 bits of precision, infinities at exponent 1024. *)
Module F64.
Definition prec : Z := 53.
Definition emax : Z := 1024.

Definition zero : spec_float := S754_zero false.

Definition add := SFadd prec emax.
Definition mul := SFmul prec emax.
Definition div := SFdiv prec emax.
Definition gtb (x y : spec_float) : bool := SFltb y x.

(** Conversion of an integer to [double] (round to nearest even). *)
Definition of_Z (z : Z) : spec_float := binary_normalize prec emax z 0 false.

Definition one : spec_float := of_Z 1.

(** [static_cast<double>(f)] for a [float] [f] (exact). *)
Definition of_f32 (x : spec_float) : spec_float :=
  match x with
  | S754_finite s m e => binary_normalize prec emax (cond_Zopp s (Zpos m)) e s
  | _ => x
  end.

(** [static_cast<float>(d)] for a [double] [d] (round to nearest even). *)
Definition to_f32 (x : spec_float) : spec_float :=
  match x with
  | S754_finite s m e => binary_normalize F32.prec F32.emax (cond_Zopp s (Zpos m)) e s
  | _ => x
  end.
End F64.

(** Neither an infinity nor a NaN. *)
Definition is_finite (x : spec_float) : bool :=
  match x with
  | S754_zero _ | S754_finite _ _ _ => true
  | _ => false
  end.

Definition is_zero (x : spec_float) : bool :=
  match x with
  | S754_zero _ => true
  | _ => false
  end.

(** ** ggml_fp16.h *)

Module Fp16.

(** Truncation to [std::uint32_t] (modulo 2^32). *)
Definition u32 (z : Z) : Z := z mod 4294967296.

(** The loop [while ((mant & 0x0400u) == 0) { mant <<= 1; exp -= 1; }];
    [fuel] bounds the number of runs. *)
Fixpoint normalize (fuel : nat) (mant exp : Z) : Z * Z :=
  match fuel with
  | O => (mant, exp)
  | S fuel' =>
      if Z.land mant 1024 =? 0
      then normalize fuel' (u32 (Z.shiftl mant 1)) (u32 (exp - 1))
      else (mant, exp)
  end.

(** The value of [bits] at the [return] of [fp16_to_fp32(h)].  A non-zero
    10-bit fraction reaches bit 10 within ten shifts. *)
Definition fp16_to_fp32_bits (h : Z) : Z :=
  let sign := u32 (Z.shiftl (Z.land h 32768) 16) in
  let exp := Z.shiftr (Z.land h 31744) 10 in
  let mant := Z.land h 1023 in
  if exp =? 0 then
    if mant =? 0 then sign
    else
      let '(mant1, exp1) := normalize 10 mant (127 - 15 + 1) in
      let mant2 := Z.land mant1 1023 in
      Z.lor (Z.lor sign (u32 (Z.shiftl exp1 23))) (u32 (Z.shiftl mant2 13))
  else if exp =? 31 then
    Z.lor (Z.lor sign 2139095040) (u32 (Z.shiftl mant 13))
  else
    Z.lor (Z.lor sign (u32 (Z.shiftl (exp + (127 - 15)) 23))) (u32 (Z.shiftl mant 13)).

(** [float fp16_to_fp32(std::uint16_t h)] *)
Definition fp16_to_fp32 (h : Z) : spec_float :=
  F32.of_bits (fp16_to_fp32_bits h).

(** A value of IEEE 754 arithmetic: a signed zero, a signed infinity, a
    NaN, or the number [(-1)^s * m * 2^e] with [m > 0]. *)
Inductive ieee_value : Type :=
  | V_zero (s : bool)
  | V_inf (s : bool)
  | V_nan
  | V_num (s : bool) (m : Z) (e : Z).

(** [m1 * 2^e1 = m2 * 2^e2], both sides scaled to the smaller exponent. *)
Definition dyadic_eqb (m1 e1 m2 e2 : Z) : bool :=
  let k := Z.min e1 e2 in
  m1 * 2 ^ (e1 - k) =? m2 * 2 ^ (e2 - k).

Definition same_value (a b : ieee_value) : bool :=
  match a, b with
  | V_zero s, V_zero s' => Bool.eqb s s'
  | V_inf s, V_inf s' => Bool.eqb s s'
  | V_nan, V_nan => true
  | V_num s m e, V_num s' m' e' => Bool.eqb s s' && dyadic_eqb m e m' e'
  | _, _ => false
  end.

(** The IEEE 754 binary16 reading of a 16-bit pattern, written from the
    standard and not from the code: bit 15 is the sign [s], bits 14..10 the
    biased exponent [e], bits 9..0 the fraction [f]; the value is
    [(-1)^s * f * 2^-24] for [e = 0] and [(-1)^s * (1024 + f) * 2^(e - 25)]
    for [1 <= e <= 30]. *)
Definition ieee_half (h : Z) : ieee_value :=
  let s := Z.testbit h 15 in
  let e := (h / 1024) mod 32 in
  let f := h mod 1024 in
  if e =? 31 then (if f =? 0 then V_inf s else V_nan)
  else if e =? 0 then (if f =? 0 then V_zero s else V_num s f (-24))
  else V_num s (1024 + f) (e - 25).

(** The value denoted by a [float]. *)
Definition f32_value (x : spec_float) : ieee_value :=
  match x with
  | S754_zero s => V_zero s
  | S754_infinity s => V_inf s
  | S754_nan => V_nan
  | S754_finite s m e => V_num s (Zpos m) e
  end.

(** A half is normal when its biased exponent is neither 0 nor 31. *)
Definition is_normal_half (h : Z) : bool :=
  let e := (h / 1024) mod 32 in
  negb (e =? 0) && negb (e =? 31).

(** Decoding [h] gives a well-formed [float] of the value of the half [h]. *)
Definition decodes_exactly (h : Z) : bool :=
  same_value (f32_value (fp16_to_fp32 h)) (ieee_half h)
  && valid_binary F32.prec F32.emax (fp16_to_fp32 h).

End Fp16.

(** ** ggml_quants.h, dequant_q4_k.cpp, dequant_q6_k.cpp *)

Module Quants.

Definition QK_K : Z := 256.
Definition K_SCALE_SIZE : Z := 12.

(** [struct block_q4_K]: [d], [dmin] are halves, [scales] 12 and [qs] 128
    unsigned bytes. *)
Record block_q4_K : Type :=
  { q4_d : Z; q4_dmin : Z; q4_scales : list Z; q4_qs : list Z }.

(** [struct block_q6_K]: [ql] 128 and [qh] 64 unsigned bytes, [scales] 16
    signed bytes, [d] a half. *)
Record block_q6_K : Type :=
  { q6_ql : list Z; q6_qh : list Z; q6_scales : list Z; q6_d : Z }.

Definition zero_q4 : block_q4_K :=
  {| q4_d := 0; q4_dmin := 0; q4_scales := repeat 0 12; q4_qs := repeat 0 128 |}.
Definition zero_q6 : block_q6_K :=
  {| q6_ql := repeat 0 128; q6_qh := repeat 0 64; q6_scales := repeat 0 16; q6_d := 0 |}.

(** [a[i]] on an array of bytes. *)
Definition at_ (a : list Z) (i : nat) : Z := nth i a 0.

Definition u8 (z : Z) : Z := z mod 256.
Definition i8 (z : Z) : Z := Reader.to_signed 8 (z mod 256).
(** [static_cast<int>(z)] *)
Definition int_ (z : Z) : Z := Reader.to_signed 32 (z mod 2 ^ 32).

(** [get_scale_min_k4(j, q, &d, &m)], returning [(d, m)]. *)
Definition get_scale_min_k4 (j : nat) (q : list Z) : Z * Z :=
  if (j <? 4)%nat then
    (u8 (Z.land (at_ q j) 63), u8 (Z.land (at_ q (j + 4)) 63))
  else
    (u8 (Z.lor (Z.land (at_ q (j + 4)) 15) (Z.shiftl (Z.shiftr (at_ q (j - 4)) 6) 4)),
     u8 (Z.lor (Z.shiftr (at_ q (j + 4)) 4) (Z.shiftl (Z.shiftr (at_ q (j - 0)) 6) 4))).

(** One run of the loop [for (j = 0; j < QK_K; j += 64)] of
    [dequantize_row_q4_k]: the run number [g] has [is = 2 g] and
    [q = qs + 32 g], and writes 64 floats through [*y++]. *)
Definition dequant_q4_group (scales qs : list Z) (d min : spec_float) (g : nat)
    : list spec_float :=
  let is_ := (2 * g)%nat in
  let q := skipn (32 * g) qs in
  let '(sc, m) := get_scale_min_k4 (is_ + 0) scales in
  let d1 := F32.mul d (F32.of_Z sc) in
  let m1 := F32.mul min (F32.of_Z m) in
  let '(sc, m) := get_scale_min_k4 (is_ + 1) scales in
  let d2 := F32.mul d (F32.of_Z sc) in
  let m2 := F32.mul min (F32.of_Z m) in
  map (fun l => F32.sub (F32.mul d1 (F32.of_Z (Z.land (at_ q l) 15))) m1) (seq 0 32)
  ++ map (fun l => F32.sub (F32.mul d2 (F32.of_Z (Z.shiftr (at_ q l) 4))) m2) (seq 0 32).

(** One run of the loop over the blocks [x[i]]. *)
Definition dequant_q4_block (x : block_q4_K) : list spec_float :=
  let d := Fp16.fp16_to_fp32 (q4_d x) in
  let min := Fp16.fp16_to_fp32 (q4_dmin x) in
  concat (map (dequant_q4_group (q4_scales x) (q4_qs x) d min) (seq 0 4)).

(** [void dequantize_row_q4_k(const block_q4_K* x, float* y, std::int64_t k)]:
    the result is what has been written to [y[0 .. 256 nb)].  A failed
    [assert] is an error.  Reading [x[i]] past the caller's array (undefined
    in C++) reads a zero block. *)
Definition dequantize_row_q4_k (x : list block_q4_K) (k : Z) : result (list spec_float) :=
  if negb (Z.rem k QK_K =? 0) then Err E_assert_k_mod_QK_K
  else
    let nb := int_ (Z.quot k QK_K) in
    Ok (concat (map (fun i => dequant_q4_block (nth i x zero_q4)) (seq 0 (Z.to_nat nb)))).

(** One run of the loop [for (n = 0; n < QK_K; n += 128)] of
    [dequantize_row_q6_k] on the current [ql], [qh], [sc]: the 128 floats
    [y[0 .. 128)], each of which the inner loop assigns once. *)
Definition dequant_q6_half (d : spec_float) (ql qh sc : list Z) : list spec_float :=
  fold_left
    (fun (y : list spec_float) (l : nat) =>
       let is_ := (l / 16)%nat in
       let q1 := i8 (i8 (Z.lor (Z.land (at_ ql (l + 0)) 15)
                           (Z.shiftl (Z.land (Z.shiftr (at_ qh l) 0) 3) 4)) - 32) in
       let q2 := i8 (i8 (Z.lor (Z.land (at_ ql (l + 32)) 15)
                           (Z.shiftl (Z.land (Z.shiftr (at_ qh l) 2) 3) 4)) - 32) in
       let q3 := i8 (i8 (Z.lor (Z.shiftr (at_ ql (l + 0)) 4)
                           (Z.shiftl (Z.land (Z.shiftr (at_ qh l) 4) 3) 4)) - 32) in
       let q4 := i8 (i8 (Z.lor (Z.shiftr (at_ ql (l + 32)) 4)
                           (Z.shiftl (Z.land (Z.shiftr (at_ qh l) 6) 3) 4)) - 32) in
       let y1 := <[(l + 0)%nat :=
                   F32.mul (F32.mul d (F32.of_Z (at_ sc (is_ + 0)))) (F32.of_Z q1)]> y in
       let y2 := <[(l + 32)%nat :=
                   F32.mul (F32.mul d (F32.of_Z (at_ sc (is_ + 2)))) (F32.of_Z q2)]> y1 in
       let y3 := <[(l + 64)%nat :=
                   F32.mul (F32.mul d (F32.of_Z (at_ sc (is_ + 4)))) (F32.of_Z q3)]> y2 in
       <[(l + 96)%nat :=
         F32.mul (F32.mul d (F32.of_Z (at_ sc (is_ + 6)))) (F32.of_Z q4)]> y3)
    (seq 0 32) (repeat F32.zero 128).

Definition dequant_q6_block (x : block_q6_K) : list spec_float :=
  let d := Fp16.fp16_to_fp32 (q6_d x) in
  concat (map (fun n => dequant_q6_half d (skipn (64 * n) (q6_ql x))
                          (skipn (32 * n) (q6_qh x)) (skipn (8 * n) (q6_scales x)))
            (seq 0 2)).

(** [void dequantize_row_q6_k(const block_q6_K* x, float* y, std::int64_t k)],
    with the conventions of [dequantize_row_q4_k]. *)
Definition dequantize_row_q6_k (x : list block_q6_K) (k : Z) : result (list spec_float) :=
  if negb (Z.rem k QK_K =? 0) then Err E_assert_k_mod_QK_K
  else
    let nb := Z.quot k QK_K in
    Ok (concat (map (fun i => dequant_q6_block (nth i x zero_q6)) (seq 0 (Z.to_nat nb)))).

End Quants.

(** ** weights.h, weights.cpp, aligned_alloc.h *)

Module Weights.
Import Gguf Loader Quants.

Record TensorF32 : Type :=
  { tf_dims : list Z; tf_numel : Z; tf_storage : list spec_float }.

(** [std::uint64_t checked_mul_u64(a, b)] *)
Definition checked_mul_u64 (a b : Z) : result Z :=
  if (a =? 0) || (b =? 0) then Ok 0
  else if a >? U64.max / b then Err E_u64_overflow
  else Ok (U64.mul a b).

(** [std::uint64_t product_tail_u64(dims, start)], on [dims[start ..]]. *)
Fixpoint product_from (n : Z) (ds : list Z) : result Z :=
  match ds with
  | nil => Ok n
  | d :: ds' => let* n1 := checked_mul_u64 n d in product_from n1 ds'
  end.

Definition numel_u64 (ds : list Z) : result Z := product_from 1 ds.
Definition product_tail_u64 (ds : list Z) (start : nat) : result Z :=
  product_from 1 (skipn start ds).

(** [::posix_memalign(&p, alignment, size)]: the return code.  POSIX
    answers [EINVAL] (22) unless [alignment] is a power of two and a
    multiple of the size of a pointer, 8 bytes here; otherwise memory is
    taken to be available and the answer is 0. *)
Definition posix_memalign (alignment size : Z) : Z :=
  if negb (alignment =? 0) && (Z.land alignment (alignment - 1) =? 0)
     && (alignment mod 8 =? 0)
  then 0 else 22.

(** [AlignedBuffer::allocate(bytes, alignment)] *)
Definition allocate (bytes alignment : Z) : result unit :=
  if bytes =? 0 then Err E_alloc_bytes_zero
  else if (alignment =? 0) || negb (Z.land alignment (U64.sub alignment 1) =? 0)
  then Err E_alloc_alignment
  else if negb (posix_memalign alignment bytes =? 0) then Err E_posix_memalign_failed
  else Ok tt.

(** [TensorF32 allocate_f32(dims, alignment)]: the element count of the
    buffer that has been allocated. *)
Definition allocate_f32 (ds : list Z) (alignment : Z) : result Z :=
  let* n := numel_u64 ds in
  let* bytes_u64 := checked_mul_u64 n 4 in
  if bytes_u64 >? U64.max then Err E_tensor_too_large
  else let* _ := allocate bytes_u64 alignment in Ok n.

(** The [n] bytes at [p + off] of a byte pointer [p]. *)
Definition bytes_from (p : list byte) (off n : Z) : list byte :=
  firstn (Z.to_nat n) (skipn (Z.to_nat off) p).

Definition byte_vals (bs : list byte) : list Z := map (fun b => Z.of_N (Byte.to_N b)) bs.

(** [reinterpret_cast<const block_q4_K*>(p)[i]] *)
Definition q4_block_at (p : list byte) (i : nat) : block_q4_K :=
  let b := skipn (144 * i) p in
  {| q4_d := Reader.le_decode (firstn 2 b);
     q4_dmin := Reader.le_decode (firstn 2 (skipn 2 b));
     q4_scales := byte_vals (firstn 12 (skipn 4 b));
     q4_qs := byte_vals (firstn 128 (skipn 16 b)) |}.

(** [reinterpret_cast<const block_q6_K*>(p)[i]] *)
Definition q6_block_at (p : list byte) (i : nat) : block_q6_K :=
  let b := skipn (210 * i) p in
  {| q6_ql := byte_vals (firstn 128 b);
     q6_qh := byte_vals (firstn 64 (skipn 128 b));
     q6_scales := map (Reader.to_signed 8) (byte_vals (firstn 16 (skipn 192 b)));
     q6_d := Reader.le_decode (firstn 2 (skipn 208 b)) |}.

(** The row loop of the Q4_K and Q6_K branches: row [r] is dequantized from
    [src_bytes + r * row_bytes] to [dst + r * row_len]. *)
Fixpoint load_rows (dequant_row : list byte -> result (list spec_float))
    (src : list byte) (row_bytes : Z) (rows : list nat) : result (list spec_float) :=
  match rows with
  | nil => Ok nil
  | r :: rows' =>
      let* y := dequant_row (skipn (Z.to_nat (U64.mul (Z.of_nat r) row_bytes)) src) in
      let* ys := load_rows dequant_row src row_bytes rows' in
      Ok (y ++ ys)
  end.

(** [TensorF32 load_tensor_as_f32(loader, name, alignment)] *)
Definition load_tensor_as_f32 (ld : GGUFLoader) (nm : string) (alignment : Z)
    : result TensorF32 :=
  let* t := get_tensor ld nm in
  match tv_dims t with
  | nil => Err (E_tensor_no_dims nm)
  | row_len :: _ =>
      let* numel := allocate_f32 (tv_dims t) alignment in
      let out := fun storage =>
        {| tf_dims := tv_dims t; tf_numel := numel; tf_storage := storage |} in
      if tv_ggml_type t =? 0 then
        let* expected_bytes := checked_mul_u64 numel 4 in
        if tv_nbytes t <? expected_bytes then Err (E_tensor_truncated nm)
        else Ok (out (map (fun i => F32.of_bits
                            (Reader.le_decode (bytes_from (tv_data t) (4 * Z.of_nat i) 4)))
                       (seq 0 (Z.to_nat numel))))
      else if tv_ggml_type t =? 1 then
        let* expected_bytes := checked_mul_u64 numel 2 in
        if tv_nbytes t <? expected_bytes then Err (E_tensor_truncated nm)
        else Ok (out (map (fun i => Fp16.fp16_to_fp32
                            (Reader.le_decode (bytes_from (tv_data t) (2 * Z.of_nat i) 2)))
                       (seq 0 (Z.to_nat numel))))
      else if tv_ggml_type t =? 12 then
        if negb (row_len mod QK_K =? 0) then Err (E_q4k_row_len nm)
        else
          let* n_rows := product_tail_u64 (tv_dims t) 1 in
          let blocks_per_row := row_len / QK_K in
          let* row_bytes := checked_mul_u64 blocks_per_row 144 in
          let* expected_bytes := checked_mul_u64 row_bytes n_rows in
          if tv_nbytes t <? expected_bytes then Err (E_tensor_truncated nm)
          else
            let* ys :=
              load_rows
                (fun row => dequantize_row_q4_k
                   (map (q4_block_at row) (seq 0 (Z.to_nat blocks_per_row)))
                   (Reader.to_signed 64 row_len))
                (tv_data t) row_bytes (seq 0 (Z.to_nat n_rows)) in
            Ok (out ys)
      else if tv_ggml_type t =? 14 then
        if negb (row_len mod QK_K =? 0) then Err (E_q6k_row_len nm)
        else
          let* n_rows := product_tail_u64 (tv_dims t) 1 in
          let blocks_per_row := row_len / QK_K in
          let* row_bytes := checked_mul_u64 blocks_per_row 210 in
          let* expected_bytes := checked_mul_u64 row_bytes n_rows in
          if tv_nbytes t <? expected_bytes then Err (E_tensor_truncated nm)
          else
            let* ys :=
              load_rows
                (fun row => dequantize_row_q6_k
                   (map (q6_block_at row) (seq 0 (Z.to_nat blocks_per_row)))
                   (Reader.to_signed 64 row_len))
                (tv_data t) row_bytes (seq 0 (Z.to_nat n_rows)) in
            Ok (out ys)
      else Err (E_unsupported_type (tv_ggml_type t) nm)
  end.

End Weights.

(** ** kernels/math.h, kernels/softmax.h *)

Module Kernels.

(** [a[i]] on an array of floats. *)
Definition fat (a : list spec_float) (i : nat) : spec_float := nth i a F32.zero.

(** [void set_zero(float* a, std::size_t n)] *)
Definition set_zero (a : list spec_float) (n : nat) : list spec_float :=
  fold_left (fun a i => <[i := F32.zero]> a) (seq 0 n) a.

(** [float dot_f32(const float* a, const float* b, std::size_t n)] *)
Definition dot_f32 (a b : list spec_float) (n : nat) : spec_float :=
  F64.to_f32
    (fold_left
       (fun sum i => F64.add sum (F64.mul (F64.of_f32 (fat a i)) (F64.of_f32 (fat b i))))
       (seq 0 n) F64.zero).

Section WithExp.
(** [std::exp] on [float], from the C++ standard library. *)
Variable expf : spec_float -> spec_float.

(** The first loop of [softmax_inplace_f32]: the maximum. *)
Definition softmax_max (x : list spec_float) (n : nat) : spec_float :=
  fold_left (fun max_v i => if F32.gtb (fat x i) max_v then fat x i else max_v)
    (seq 0 n) F32.neg_infinity.

(** The second loop: [x[i] = exp(x[i] - max_v); sum += x[i]]. *)
Definition softmax_exp (x : list spec_float) (n : nat) (max_v : spec_float)
    : list spec_float * spec_float :=
  fold_left
    (fun '(x, sum) i =>
       let e := expf (F32.sub (fat x i) max_v) in
       (<[i := e]> x, F64.add sum (F64.of_f32 e)))
    (seq 0 n) (x, F64.zero).

(** [inv_sum = sum > 0.0 ? static_cast<float>(1.0 / sum) : 0.0f] *)
Definition softmax_inv_sum (sum : spec_float) : spec_float :=
  if F64.gtb sum F64.zero then F64.to_f32 (F64.div F64.one sum) else F32.zero.

(** The third loop: [x[i] *= inv_sum]. *)
Definition softmax_scale (x : list spec_float) (n : nat) (inv_sum : spec_float)
    : list spec_float :=
  fold_left (fun x i => <[i := F32.mul (fat x i) inv_sum]> x) (seq 0 n) x.

(** [void softmax_inplace_f32(float* x, std::size_t n)]: the array after
    the call. *)
Definition softmax_inplace_f32 (x : list spec_float) (n : nat) : list spec_float :=
  if (n =? 0)%nat then x
  else
    let max_v := softmax_max x n in
    let '(x1, sum) := softmax_exp x n max_v in
    softmax_scale x1 n (softmax_inv_sum sum).

End WithExp.

End Kernels.

(** ** kernels/rope.h *)

Module Rope.
Import Kernels.

(** [class RoPECache] *)
Record RoPECache : Type :=
  { rope_dim_ : Z; theta_ : spec_float; inv_freq_ : list spec_float }.

Section WithLibm.
(** [std::pow], [std::cos] and [std::sin] on [float], from the C++ standard
    library. *)
Variable powf : spec_float -> spec_float -> spec_float.
Variables cosf sinf : spec_float -> spec_float.

(** [void reset(std::uint32_t rope_dim, float theta)] *)
Definition reset (rope_dim : Z) (theta : spec_float) : result RoPECache :=
  if (rope_dim =? 0) || negb (rope_dim mod 2 =? 0) then Err E_rope_dim_zero_or_odd
  else if negb (F32.gtb theta F32.zero) then Err E_rope_theta
  else
    Ok {| rope_dim_ := rope_dim;
          theta_ := theta;
          inv_freq_ :=
            map (fun i =>
                   let exponent :=
                     F64.to_f32 (F64.div (F64.mul (F64.of_Z 2) (F64.of_Z (Z.of_nat i)))
                                   (F64.of_Z rope_dim)) in
                   powf theta (SFopp exponent))
              (seq 0 (Z.to_nat (rope_dim / 2))) |}.

(** The body of the inner loop of [apply_inplace] for the pair [i] of the
    head that starts at [base]. *)
Definition rotate_pair (rc : RoPECache) (pos : Z) (base : nat)
    (x : list spec_float) (i : nat) : list spec_float :=
  let angle := F32.mul (F32.of_Z pos) (fat (inv_freq_ rc) i) in
  let c := cosf angle in
  let s := sinf angle in
  let idx0 := (base + 2 * i)%nat in
  let idx1 := (idx0 + 1)%nat in
  let v0 := fat x idx0 in
  let v1 := fat x idx1 in
  let x1 := <[idx0 := F32.sub (F32.mul v0 c) (F32.mul v1 s)]> x in
  <[idx1 := F32.add (F32.mul v0 s) (F32.mul v1 c)]> x1.

(** [void apply_inplace(float* x, n_heads, head_dim, pos) const]: the array
    after the call. *)
Definition apply_inplace (rc : RoPECache) (x : list spec_float)
    (n_heads head_dim pos : Z) : result (list spec_float) :=
  if rope_dim_ rc =? 0 then Err E_rope_not_initialized
  else if rope_dim_ rc >? head_dim then Err E_rope_dim_gt_head_dim
  else if negb (rope_dim_ rc mod 2 =? 0) then Err E_rope_dim_odd
  else
    Ok (fold_left
          (fun x h =>
             fold_left (rotate_pair rc pos (h * Z.to_nat head_dim)%nat)
               (seq 0 (Z.to_nat (rope_dim_ rc / 2))) x)
          (seq 0 (Z.to_nat n_heads)) x).

End WithLibm.

(** The values that C (Annex F) fixes for the cosine and the sine of a
    zero: [cos(+-0) = 1] and [sin(+-0) = +-0]; other arguments are left out
    (NaN). *)
Definition cos_at_zero (a : spec_float) : spec_float :=
  if is_zero a then F32.one else S754_nan.
Definition sin_at_zero (a : spec_float) : spec_float :=
  if is_zero a then a else S754_nan.

(** Likewise for the power: [pow(x, +-0) = 1] for every [x]. *)
Definition pow_at_zero (b e : spec_float) : spec_float :=
  if is_zero e then F32.one else S754_nan.

(** A power that overflows: for the least subnormal base [2^-149] the
    power of exponent [-0.875] is [2^130], above [FLT_MAX].  The exponents
    from [-0.875] down give an infinity, the zeros give 1, and the others,
    which no statement looks at, are set to 1 as well. *)
Definition pow_overflow (b e : spec_float) : spec_float :=
  if is_zero e then F32.one
  else if SFleb e (SFopp (F32.div (F32.of_Z 7) (F32.of_Z 8))) then S754_infinity false
  else F32.one.

(** The floats nearest to [cos 1] (0x3F0A5140) and to [sin 1] (0x3F576AA4),
    for the angle [1.0f]; other arguments are left out (NaN). *)
Definition cos_at_one (a : spec_float) : spec_float :=
  if SFeqb a F32.one then F32.of_bits 1057640768 else S754_nan.
Definition sin_at_one (a : spec_float) : spec_float :=
  if SFeqb a F32.one then F32.of_bits 1062693540 else S754_nan.

End Rope.

(** ** layer0.h, layer0.cpp *)

Module Layer0.
Import Kernels.

Definition u32 (z : Z) : Z := z mod 2 ^ 32.

(** The fields of [struct ModelConfig] that the attention loop reads. *)
Record ModelConfig : Type :=
  { d_model : Z; n_heads : Z; n_kv_heads : Z; head_dim : Z; kv_dim : Z;
    ffn_hidden_dim : Z; context_length : Z }.

(** [class KVCacheLayer] *)
Record KVCacheLayer : Type :=
  { n_kv_heads_ : Z; max_seq_ : Z; head_dim_ : Z;
    k_ : list spec_float; v_ : list spec_float }.

(** The checks of [Layer0Context::Layer0Context(const ModelConfig&)] on the
    head counts; [true] when neither [throw] is taken. *)
Definition config_ok (cfg : ModelConfig) : bool :=
  negb ((d_model cfg =? 0) || (n_heads cfg =? 0) || (head_dim cfg =? 0)
        || (n_kv_heads cfg =? 0) || (kv_dim cfg =? 0) || (ffn_hidden_dim cfg =? 0))
  && (n_heads cfg mod n_kv_heads cfg =? 0).

(** [k_ptr(kv_head, pos)] and [v_ptr(kv_head, pos)]: the index
    [(size_t(kv_head) * max_seq_ + pos) * head_dim_] of the slot in [k_] (in
    [v_]), computed in [std::size_t]. *)
Definition slot (c : KVCacheLayer) (kv_head pos : Z) : result nat :=
  if (kv_head >=? n_kv_heads_ c) || (pos >=? max_seq_ c) then Err E_kv_ptr_out_of_range
  else Ok (Z.to_nat (U64.mul (U64.add (U64.mul kv_head (max_seq_ c)) pos) (head_dim_ c))).

(** [&v[i]] on a [std::vector]: the pointer to element [i], which has to
    exist. *)
Definition element_ptr (v : list spec_float) (i : nat) : result (list spec_float) :=
  let* _ := in_bounds (skipn i v) 1 in
  Ok (skipn i v).

(** [const float* k_ptr(kv_head, pos) const] *)
Definition k_ptr (c : KVCacheLayer) (kv_head pos : Z) : result (list spec_float) :=
  let* off := slot c kv_head pos in
  element_ptr (k_ c) off.

(** [const float* v_ptr(kv_head, pos) const] *)
Definition v_ptr (c : KVCacheLayer) (kv_head pos : Z) : result (list spec_float) :=
  let* off := slot c kv_head pos in
  element_ptr (v_ c) off.

(** The [n] floats from [p + off] on. *)
Definition window (p : list spec_float) (off n : nat) : list spec_float :=
  firstn n (skipn off p).

(** [const std::uint32_t group = cfg_.n_heads / cfg_.n_kv_heads;] *)
Definition group (cfg : ModelConfig) : Z := n_heads cfg / n_kv_heads cfg.

(** [const std::uint32_t kv_head = h / group;] *)
Definition kv_head_of (cfg : ModelConfig) (h : Z) : Z := h / group cfg.

Section WithExp.
Variable expf : spec_float -> spec_float.

(** [for (t = 0; t <= pos; t++) probs[t] = dot_f32(qh, k_ptr(kv_head, t), head_dim) * inv_sqrt_hd;] *)
Fixpoint scores (cfg : ModelConfig) (c : KVCacheLayer) (kv_head : Z)
    (qh : list spec_float) (inv_sqrt_hd : spec_float)
    (ts : list nat) (probs : list spec_float) : result (list spec_float) :=
  match ts with
  | nil => Ok probs
  | t :: ts' =>
      let hd := Z.to_nat (head_dim cfg) in
      let* kh := k_ptr c kv_head (Z.of_nat t) in
      let* _ := in_bounds qh hd in
      let* _ := in_bounds kh hd in
      let* _ := in_bounds probs (S t) in
      let p := F32.mul (dot_f32 qh kh hd) inv_sqrt_hd in
      scores cfg c kv_head qh inv_sqrt_hd ts' (<[t := p]> probs)
  end.

(** [for (t = 0; t <= pos; t++) { p = probs[t]; vh = v_ptr(kv_head, t);
     for (i = 0; i < head_dim; i++) out_h[i] += p * vh[i]; }] *)
Fixpoint mix (cfg : ModelConfig) (c : KVCacheLayer) (kv_head : Z)
    (probs : list spec_float) (ts : list nat) (out_h : list spec_float)
    : result (list spec_float) :=
  match ts with
  | nil => Ok out_h
  | t :: ts' =>
      let hd := Z.to_nat (head_dim cfg) in
      let* _ := in_bounds probs (S t) in
      let p := fat probs t in
      let* vh := v_ptr c kv_head (Z.of_nat t) in
      let* _ := in_bounds vh hd in
      let* _ := in_bounds out_h hd in
      mix cfg c kv_head probs ts'
        (fold_left (fun o i => <[i := F32.add (fat o i) (F32.mul p (fat vh i))]> o)
           (seq 0 hd) out_h)
  end.

(** Copy of [src] into [dst] from index [off] on: [out_h] is the pointer
    [attn_out_.data() + h * head_dim]. *)
Definition store (dst : list spec_float) (off : nat) (src : list spec_float)
    : list spec_float :=
  firstn off dst ++ src ++ skipn (off + length src) dst.

(** One run of [for (h = 0; h < cfg_.n_heads; h++)] in
    [Layer0Context::step]; the state is [(attn_probs_, attn_out_)]. *)
Definition attend_head (cfg : ModelConfig) (c : KVCacheLayer) (pos : Z)
    (q_ : list spec_float) (inv_sqrt_hd : spec_float) (h : Z)
    (st : list spec_float * list spec_float)
    : result (list spec_float * list spec_float) :=
  let '(probs, attn_out) := st in
  let hd := Z.to_nat (head_dim cfg) in
  let* _ := nonzero_divisor (group cfg) in
  let kv_head := u32 (kv_head_of cfg h) in
  let qh := skipn (Z.to_nat h * hd) q_ in
  let ts := seq 0 (S (Z.to_nat pos)) in
  let* probs1 := scores cfg c kv_head qh inv_sqrt_hd ts probs in
  let n := Z.to_nat (u32 (pos + 1)) in
  let* _ := in_bounds probs1 n in
  let probs2 := softmax_inplace_f32 expf probs1 n in
  let* _ := in_bounds (skipn (Z.to_nat h * hd) attn_out) hd in
  let out_h := set_zero (window attn_out (Z.to_nat h * hd) hd) hd in
  let* out_h1 := mix cfg c kv_head probs2 ts out_h in
  Ok (probs2, store attn_out (Z.to_nat h * hd) out_h1).

Fixpoint attend_heads (cfg : ModelConfig) (c : KVCacheLayer) (pos : Z)
    (q_ : list spec_float) (inv_sqrt_hd : spec_float) (hs : list nat)
    (st : list spec_float * list spec_float)
    : result (list spec_float * list spec_float) :=
  match hs with
  | nil => Ok st
  | h :: hs' =>
      let* st1 := attend_head cfg c pos q_ inv_sqrt_hd (Z.of_nat h) st in
      attend_heads cfg c pos q_ inv_sqrt_hd hs' st1
  end.

End WithExp.

End Layer0.

(** ** gguf_loader.cpp: the metadata accessors and [config] *)

Module LoaderKV.
Import Gguf Loader.

(** [std::bit_cast<double>(bits)]: bit 63 is the sign, bits 62..52 the
    biased exponent, bits 51..0 the fraction.  ([read<double>] copies the 8
    bytes of the file into the [double].) *)
Definition f64_of_bits (bits : Z) : spec_float :=
  let s := Z.testbit bits 63 in
  let e := Z.land (Z.shiftr bits 52) 2047 in
  let m := Z.land bits (2 ^ 52 - 1) in
  if e =? 0 then
    match m with
    | Zpos p => S754_finite s p (-1074)
    | _ => S754_zero s
    end
  else if e =? 2047 then
    (if m =? 0 then S754_infinity s else S754_nan)
  else
    match m + 2 ^ 52 with
    | Zpos p => S754_finite s p (e - 1075)
    | _ => S754_nan
    end.

(** [std::optional<std::uint32_t> to_u32(const gguf::Value& v)] *)
Definition to_u32 (v : Value) : option Z :=
  match payload v with
  | P_u32 x => Some x
  | P_i32 x => if x <? 0 then None else Some x
  | P_u64 x => if x >? u32_max then None else Some x
  | P_i64 x => if (x <? 0) || (x >? u32_max) then None else Some x
  | _ => None
  end.

(** [std::optional<std::uint64_t> to_u64(const gguf::Value& v)] *)
Definition to_u64 (v : Value) : option Z :=
  match payload v with
  | P_u64 x => Some x
  | P_u32 x => Some x
  | P_i64 x => if x <? 0 then None else Some x
  | P_i32 x => if x <? 0 then None else Some x
  | _ => None
  end.

(** [std::optional<float> to_f32(const gguf::Value& v)] *)
Definition to_f32 (v : Value) : option spec_float :=
  match payload v with
  | P_f32 bits => Some (F32.of_bits bits)
  | P_f64 bits => Some (F64.to_f32 (f64_of_bits bits))
  | _ =>
      match to_u32 v with
      | Some u => Some (F32.of_Z u)
      | None =>
          match to_u64 v with
          | Some u => Some (F32.of_Z u)
          | None => None
          end
      end
  end.

(** [gguf_.metadata[it->second].value] for the iterator [it] that
    [gguf_.kv_index_by_key.find(key)] returns; [None] is [it == end()]. *)
Definition find_value (ld : GGUFLoader) (k : string) : option Value :=
  match kv_index_by_key (gguf_ ld) !! k with
  | None => None
  | Some i => value <$> metadata (gguf_ ld) !! i
  end.

(** [std::optional<std::uint32_t> GGUFLoader::kv_u32(key)] *)
Definition kv_u32 (ld : GGUFLoader) (k : string) : option Z :=
  match find_value ld k with
  | None => None
  | Some v => to_u32 v
  end.

(** [std::optional<std::uint64_t> GGUFLoader::kv_u64(key)] *)
Definition kv_u64 (ld : GGUFLoader) (k : string) : option Z :=
  match find_value ld k with
  | None => None
  | Some v => to_u64 v
  end.

(** [std::optional<float> GGUFLoader::kv_f32(key)] *)
Definition kv_f32 (ld : GGUFLoader) (k : string) : option spec_float :=
  match find_value ld k with
  | None => None
  | Some v => to_f32 v
  end.

(** [std::optional<std::string_view> GGUFLoader::kv_string(key)] *)
Definition kv_string (ld : GGUFLoader) (k : string) : option string :=
  match find_value ld k with
  | None => None
  | Some v =>
      match payload v with
      | P_string s => Some s
      | _ => None
      end
  end.

(** [struct ModelConfig] with all its fields ([Layer0.ModelConfig] keeps
    those that [layer0.cpp] reads). *)
Record ModelConfig : Type :=
  { n_layers : Z;
    d_model : Z;
    n_heads : Z;
    n_kv_heads : Z;
    head_dim : Z;
    kv_dim : Z;
    ffn_hidden_dim : Z;
    vocab_size : Z;
    context_length : Z;
    rope_dim : Z;
    rope_theta : spec_float;
    rms_epsilon : spec_float }.

(** [opt.value_or(d)] *)
Definition value_or {A} (o : option A) (d : A) : A :=
  match o with
  | Some a => a
  | None => d
  end.

(** [ModelConfig GGUFLoader::config() const]; the product
    [n_kv_heads * head_dim] is taken in [std::uint32_t]. *)
Definition config (ld : GGUFLoader) : result ModelConfig :=
  let n_layers_ := value_or (kv_u32 ld "llama.block_count") 0 in
  let d_model_ := value_or (kv_u32 ld "llama.embedding_length") 0 in
  let n_heads_ := value_or (kv_u32 ld "llama.attention.head_count") 0 in
  let n_kv_heads_ := value_or (kv_u32 ld "llama.attention.head_count_kv") 0 in
  let ffn_hidden_dim_ := value_or (kv_u32 ld "llama.feed_forward_length") 0 in
  let context_length_ := value_or (kv_u32 ld "llama.context_length") 0 in
  let rope_dim_ := value_or (kv_u32 ld "llama.rope.dimension_count") 0 in
  let rope_theta_ := value_or (kv_f32 ld "llama.rope.freq_base") F32.zero in
  let rms_epsilon_ :=
    value_or (kv_f32 ld "llama.attention.layer_norm_rms_epsilon") F32.zero in
  let head_dim_ :=
    if negb (n_heads_ =? 0) && (d_model_ mod n_heads_ =? 0)
    then d_model_ / n_heads_ else 0 in
  let kv_dim_ := (n_kv_heads_ * head_dim_) mod 2 ^ 32 in
  let* t := maybe_get_tensor ld "token_embd.weight" in
  let vocab_size_ :=
    match t with
    | Some tv =>
        match tv_dims tv with
        | [d0; d1] => if (d0 <=? u32_max) && (d1 <=? u32_max) then d1 else 0
        | _ => 0
        end
    | None => 0
    end in
  Ok {| n_layers := n_layers_; d_model := d_model_; n_heads := n_heads_;
        n_kv_heads := n_kv_heads_; head_dim := head_dim_; kv_dim := kv_dim_;
        ffn_hidden_dim := ffn_hidden_dim_; vocab_size := vocab_size_;
        context_length := context_length_; rope_dim := rope_dim_;
        rope_theta := rope_theta_; rms_epsilon := rms_epsilon_ |}.

End LoaderKV.

(** ** layer0.cpp: the constructor and [write] of [KVCacheLayer] *)

Module Cache.
Import Kernels Layer0.

(** The throws of [layer0.cpp] whose messages [error] does not list, and
    [L0_other] for those that it lists. *)
Inductive layer0_error : Type :=
  | L0_cache_invalid_dimensions  (* "KVCacheLayer: invalid dimensions" *)
  | L0_write_pos_out_of_range    (* "KVCacheLayer::write pos out of range" *)
  | L0_invalid_model_config      (* "Layer0Context: invalid model config" *)
  | L0_heads_not_divisible       (* "Layer0Context: n_heads must be divisible by n_kv_heads" *)
  | L0_other (e : error).

Inductive outcome (A : Type) : Type :=
  | Done (a : A)
  | Throw (e : layer0_error).
Arguments Done {A} a.
Arguments Throw {A} e.

(** [KVCacheLayer::KVCacheLayer(n_kv_heads, max_seq, head_dim)]; the element
    count of [assign] is a product in [std::size_t]. *)
Definition construct (n_kv_heads max_seq head_dim : Z) : outcome KVCacheLayer :=
  if (n_kv_heads =? 0) || (max_seq =? 0) || (head_dim =? 0)
  then Throw L0_cache_invalid_dimensions
  else
    let n := Z.to_nat (U64.mul (U64.mul n_kv_heads max_seq) head_dim) in
    Done {| n_kv_heads_ := n_kv_heads; max_seq_ := max_seq; head_dim_ := head_dim;
            k_ := repeat F32.zero n; v_ := repeat F32.zero n |}.

(** [std::memcpy(dst, src, n * sizeof(float))] into the vector [v], where
    [dst] is [&v[off]]: the vector after the call. *)
Definition memcpy_at (v : list spec_float) (off : nat) (src : list spec_float) (n : nat)
    : result (list spec_float) :=
  let* dst := element_ptr v off in
  let* _ := in_bounds src n in
  let* _ := in_bounds dst n in
  Ok (store v off (firstn n src)).

(** One run of the loop of [write]: the two [memcpy] of [head_dim_] floats
    for the KV head [h]. *)
Definition write_head (pos : Z) (k_kv_dim v_kv_dim : list spec_float)
    (c : KVCacheLayer) (h : nat) : result KVCacheLayer :=
  let hd := Z.to_nat (head_dim_ c) in
  let* koff := slot c (Z.of_nat h) pos in
  let* k1 := memcpy_at (k_ c) koff (skipn (h * hd) k_kv_dim) hd in
  let* voff := slot c (Z.of_nat h) pos in
  let* v1 := memcpy_at (v_ c) voff (skipn (h * hd) v_kv_dim) hd in
  Ok {| n_kv_heads_ := n_kv_heads_ c; max_seq_ := max_seq_ c; head_dim_ := head_dim_ c;
        k_ := k1; v_ := v1 |}.

Fixpoint write_heads (pos : Z) (k_kv_dim v_kv_dim : list spec_float)
    (hs : list nat) (c : KVCacheLayer) : result KVCacheLayer :=
  match hs with
  | nil => Ok c
  | h :: hs' =>
      let* c1 := write_head pos k_kv_dim v_kv_dim c h in
      write_heads pos k_kv_dim v_kv_dim hs' c1
  end.

(** [void KVCacheLayer::write(pos, k_kv_dim, v_kv_dim)]: the cache after
    the call. *)
Definition write (c : KVCacheLayer) (pos : Z) (k_kv_dim v_kv_dim : list spec_float)
    : outcome KVCacheLayer :=
  if pos >=? max_seq_ c then Throw L0_write_pos_out_of_range
  else
    match write_heads pos k_kv_dim v_kv_dim (seq 0 (Z.to_nat (n_kv_heads_ c))) c with
    | Ok c' => Done c'
    | Err e => Throw (L0_other e)
    end.

End Cache.

(** ** kernels/matvec.h *)

Module Matvec.
Import Kernels.

(** The inner loop of [matvec_colmajor_f32]: the [double] sum of the
    products of [x_in] with the column [col]. *)
Definition column_sum (x_in col : list spec_float) (in_dim : nat) : spec_float :=
  fold_left
    (fun sum i => F64.add sum (F64.mul (F64.of_f32 (fat x_in i)) (F64.of_f32 (fat col i))))
    (seq 0 in_dim) F64.zero.

(** [void matvec_colmajor_f32(W_in_out, in_dim, out_dim, x_in, y_out)]: the
    array [y_out] after the call.  Column [j] starts at [W + j * in_dim]. *)
Definition matvec_colmajor_f32 (W_in_out : list spec_float) (in_dim out_dim : Z)
    (x_in y_out : list spec_float) : list spec_float :=
  fold_left
    (fun y j =>
       let col := skipn (j * Z.to_nat in_dim) W_in_out in
       <[j := F64.to_f32 (column_sum x_in col (Z.to_nat in_dim))]> y)
    (seq 0 (Z.to_nat out_dim)) y_out.

End Matvec.

(** The configuration that [Layer0Context] is given: the fields of [cfg]
    that [layer0.cpp] reads. *)
Definition layer0_config (cfg : LoaderKV.ModelConfig) : Layer0.ModelConfig :=
  {| Layer0.d_model := LoaderKV.d_model cfg;
     Layer0.n_heads := LoaderKV.n_heads cfg;
     Layer0.n_kv_heads := LoaderKV.n_kv_heads cfg;
     Layer0.head_dim := LoaderKV.head_dim cfg;
     Layer0.kv_dim := LoaderKV.kv_dim cfg;
     Layer0.ffn_hidden_dim := LoaderKV.ffn_hidden_dim cfg;
     Layer0.context_length := LoaderKV.context_length cfg |}.

(** ** kernels/rmsnorm.h, kernels/math.h and [Layer0Context] of layer0.cpp *)

Module Step.
Import Kernels.

(** [void add_inplace(float* a, const float* b, std::size_t n)] *)
Definition add_inplace (a b : list spec_float) (n : nat) : list spec_float :=
  fold_left (fun a i => <[i := F32.add (fat a i) (fat b i)]> a) (seq 0 n) a.

(** [void rmsnorm_f32(x, weight, n, eps, out)]: the array [out] after the
    call. *)
Definition rmsnorm_f32 (x weight : list spec_float) (n : nat) (eps : spec_float)
    (out : list spec_float) : list spec_float :=
  let sum_sq :=
    fold_left (fun sum_sq i => let v := F64.of_f32 (fat x i) in F64.add sum_sq (F64.mul v v))
      (seq 0 n) F64.zero in
  let mean_sq := F64.div sum_sq (F64.of_Z (Z.of_nat n)) in
  let inv_rms := F32.div F32.one (F32.sqrt (F32.add (F64.to_f32 mean_sq) eps)) in
  fold_left (fun out i => <[i := F32.mul (F32.mul (fat x i) inv_rms) (fat weight i)]> out)
    (seq 0 n) out.

(** The kernels as [step] calls them on the pointers [data()] of its
    vectors and weights: every element that the loops of the kernel index
    has to exist behind its pointer. *)

(** [kernels::rmsnorm_f32(x, weight, n, eps, out)] reads [x[0 .. n)] and
    [weight[0 .. n)] and writes [out[0 .. n)]. *)
Definition call_rmsnorm (x weight : list spec_float) (n : nat) (eps : spec_float)
    (out : list spec_float) : result (list spec_float) :=
  let* _ := in_bounds x n in
  let* _ := in_bounds weight n in
  let* _ := in_bounds out n in
  Ok (rmsnorm_f32 x weight n eps out).

(** [kernels::matvec_colmajor_f32(W, in_dim, out_dim, x, y)] reads
    [W[0 .. in_dim * out_dim)] and, unless [out_dim] is 0, [x[0 .. in_dim)],
    and writes [y[0 .. out_dim)]. *)
Definition call_matvec (W : list spec_float) (in_dim out_dim : Z)
    (x y : list spec_float) : result (list spec_float) :=
  let* _ := in_bounds W (Z.to_nat (in_dim * out_dim)) in
  let* _ := in_bounds x (if out_dim =? 0 then 0%nat else Z.to_nat in_dim) in
  let* _ := in_bounds y (Z.to_nat out_dim) in
  Ok (Matvec.matvec_colmajor_f32 W in_dim out_dim x y).

(** [kernels::add_inplace(a, b, n)] reads [b[0 .. n)] and updates
    [a[0 .. n)]. *)
Definition call_add_inplace (a b : list spec_float) (n : nat) : result (list spec_float) :=
  let* _ := in_bounds a n in
  let* _ := in_bounds b n in
  Ok (add_inplace a b n).

(** [kernels::set_zero(a, n)] writes [a[0 .. n)]. *)
Definition call_set_zero (a : list spec_float) (n : nat) : result (list spec_float) :=
  let* _ := in_bounds a n in
  Ok (set_zero a n).

(** The arrays [data()] of the tensors of [struct LayerWeights]. *)
Record LayerWeights : Type :=
  { attn_norm : list spec_float;
    attn_q : list spec_float;
    attn_k : list spec_float;
    attn_v : list spec_float;
    attn_output : list spec_float;
    ffn_norm : list spec_float;
    ffn_gate : list spec_float;
    ffn_up : list spec_float;
    ffn_down : list spec_float }.

(** [class Layer0Context] *)
Record Layer0Context : Type :=
  { cfg_ : LoaderKV.ModelConfig;
    rope_ : Rope.RoPECache;
    cache_ : Layer0.KVCacheLayer;
    x_norm_ : list spec_float;
    q_ : list spec_float;
    k_ : list spec_float;
    v_ : list spec_float;
    attn_out_ : list spec_float;
    tmp_d_model_ : list spec_float;
    gate_ : list spec_float;
    up_ : list spec_float;
    attn_probs_ : list spec_float }.

Section WithLibm.
(** [std::exp], [std::pow], [std::cos] and [std::sin] on [float]. *)
Variable expf : spec_float -> spec_float.
Variable powf : spec_float -> spec_float -> spec_float.
Variables cosf sinf : spec_float -> spec_float.

(** [float silu(float x)] *)
Definition silu (x : spec_float) : spec_float :=
  F32.div x (F32.add F32.one (expf (SFopp x))).

(** [rope_.apply_inplace(x, n_heads, head_dim, pos)]: after its three
    checks, and unless [n_heads] is 0, it reads [inv_freq_[0 .. rope_dim_ /
    2)] and updates [x] up to the index [(n_heads - 1) * head_dim +
    rope_dim_ - 1]. *)
Definition call_rope (rc : Rope.RoPECache) (x : list spec_float)
    (n_heads head_dim pos : Z) : result (list spec_float) :=
  let* y := Rope.apply_inplace cosf sinf rc x n_heads head_dim pos in
  let* _ :=
    in_bounds (Rope.inv_freq_ rc)
      (if n_heads =? 0 then 0%nat else Z.to_nat (Rope.rope_dim_ rc / 2)) in
  let* _ :=
    in_bounds x
      (if n_heads =? 0 then 0%nat
       else Z.to_nat ((n_heads - 1) * head_dim + Rope.rope_dim_ rc)) in
  Ok y.

(** A [throw] of [error] inside [layer0.cpp]. *)
Definition lift {A B} (m : result A) (k : A -> Cache.outcome B) : Cache.outcome B :=
  match m with
  | Ok a => k a
  | Err e => Cache.Throw (Cache.L0_other e)
  end.

Definition bind {A B} (m : Cache.outcome A) (k : A -> Cache.outcome B) : Cache.outcome B :=
  match m with
  | Cache.Done a => k a
  | Cache.Throw e => Cache.Throw e
  end.

(** [Layer0Context::Layer0Context(const ModelConfig& cfg)] *)
Definition construct (cfg : LoaderKV.ModelConfig) : Cache.outcome Layer0Context :=
  if (LoaderKV.d_model cfg =? 0) || (LoaderKV.n_heads cfg =? 0)
     || (LoaderKV.head_dim cfg =? 0) || (LoaderKV.n_kv_heads cfg =? 0)
     || (LoaderKV.kv_dim cfg =? 0) || (LoaderKV.ffn_hidden_dim cfg =? 0)
  then Cache.Throw Cache.L0_invalid_model_config
  else if negb (LoaderKV.n_heads cfg mod LoaderKV.n_kv_heads cfg =? 0)
  then Cache.Throw Cache.L0_heads_not_divisible
  else
    lift (Rope.reset powf
            (if negb (LoaderKV.rope_dim cfg =? 0) then LoaderKV.rope_dim cfg
             else LoaderKV.head_dim cfg)
            (if negb (SFeqb (LoaderKV.rope_theta cfg) F32.zero) then LoaderKV.rope_theta cfg
             else F32.of_Z 10000))
      (fun rope =>
    let max_seq :=
      if negb (LoaderKV.context_length cfg =? 0) then LoaderKV.context_length cfg
      else 2048 in
    bind (Cache.construct (LoaderKV.n_kv_heads cfg) max_seq (LoaderKV.head_dim cfg))
      (fun cache =>
    let zeros := fun n => repeat F32.zero (Z.to_nat n) in
    Cache.Done
      {| cfg_ := cfg; rope_ := rope; cache_ := cache;
         x_norm_ := zeros (LoaderKV.d_model cfg);
         q_ := zeros (LoaderKV.d_model cfg);
         k_ := zeros (LoaderKV.kv_dim cfg);
         v_ := zeros (LoaderKV.kv_dim cfg);
         attn_out_ := zeros (LoaderKV.d_model cfg);
         tmp_d_model_ := zeros (LoaderKV.d_model cfg);
         gate_ := zeros (LoaderKV.ffn_hidden_dim cfg);
         up_ := zeros (LoaderKV.ffn_hidden_dim cfg);
         attn_probs_ := zeros max_seq |})).

(** [for (i = 0; i < cfg_.ffn_hidden_dim; i++) gate_[i] = silu(gate_[i]) * up_[i];] *)
Definition silu_gate (gate up : list spec_float) (n : nat) : result (list spec_float) :=
  let* _ := in_bounds gate n in
  let* _ := in_bounds up n in
  Ok (fold_left (fun g i => <[i := F32.mul (silu (fat g i)) (fat up i)]> g) (seq 0 n) gate).

(** [void Layer0Context::step(layer, pos, x_d_model)]: the context and the
    array [x_d_model] after the call. *)
Definition step (ctx : Layer0Context) (layer : LayerWeights) (pos : Z)
    (x_d_model : list spec_float) : Cache.outcome (Layer0Context * list spec_float) :=
  if pos >=? Layer0.max_seq_ (cache_ ctx)
  then Cache.Throw (Cache.L0_other E_step_pos_out_of_range)
  else
    let cfg := cfg_ ctx in
    let d_model := LoaderKV.d_model cfg in
    let kv_dim := LoaderKV.kv_dim cfg in
    let ffn := LoaderKV.ffn_hidden_dim cfg in
    let n := Z.to_nat d_model in
    let eps := LoaderKV.rms_epsilon cfg in
    (* ---- Attention ---- *)
    lift (call_rmsnorm x_d_model (attn_norm layer) n eps (x_norm_ ctx)) (fun x_norm1 =>
    lift (call_matvec (attn_q layer) d_model d_model x_norm1 (q_ ctx)) (fun q1 =>
    lift (call_matvec (attn_k layer) d_model kv_dim x_norm1 (k_ ctx)) (fun k1 =>
    lift (call_matvec (attn_v layer) d_model kv_dim x_norm1 (v_ ctx)) (fun v1 =>
    lift (call_rope (rope_ ctx) q1 (LoaderKV.n_heads cfg) (LoaderKV.head_dim cfg) pos)
      (fun q2 =>
    lift (call_rope (rope_ ctx) k1 (LoaderKV.n_kv_heads cfg) (LoaderKV.head_dim cfg) pos)
      (fun k2 =>
    bind (Cache.write (cache_ ctx) pos k2 v1) (fun cache1 =>
    let inv_sqrt_hd := F32.div F32.one (F32.sqrt (F32.of_Z (LoaderKV.head_dim cfg))) in
    lift (call_set_zero (attn_out_ ctx) n) (fun attn_out0 =>
    lift (nonzero_divisor (LoaderKV.n_kv_heads cfg)) (fun _ =>
    lift (Layer0.attend_heads expf (layer0_config cfg) cache1 pos q2 inv_sqrt_hd
            (seq 0 (Z.to_nat (LoaderKV.n_heads cfg))) (attn_probs_ ctx, attn_out0))
      (fun '(probs1, attn_out1) =>
    lift (call_matvec (attn_output layer) d_model d_model attn_out1 (tmp_d_model_ ctx))
      (fun tmp1 =>
    lift (call_add_inplace x_d_model tmp1 n) (fun x1 =>
    (* ---- FFN ---- *)
    lift (call_rmsnorm x1 (ffn_norm layer) n eps x_norm1) (fun x_norm2 =>
    lift (call_matvec (ffn_gate layer) d_model ffn x_norm2 (gate_ ctx)) (fun gate1 =>
    lift (call_matvec (ffn_up layer) d_model ffn x_norm2 (up_ ctx)) (fun up1 =>
    lift (silu_gate gate1 up1 (Z.to_nat ffn)) (fun gate2 =>
    lift (call_matvec (ffn_down layer) ffn d_model gate2 tmp1) (fun tmp2 =>
    lift (call_add_inplace x1 tmp2 n) (fun x2 =>
    Cache.Done
      ({| cfg_ := cfg; rope_ := rope_ ctx; cache_ := cache1;
          x_norm_ := x_norm2; q_ := q2; k_ := k2; v_ := v1;
          attn_out_ := attn_out1; tmp_d_model_ := tmp2;
          gate_ := gate2; up_ := up1; attn_probs_ := probs1 |},
       x2))))))))))))))))))).

End WithLibm.

End Step.

(** ** weights.cpp: [gather_column] *)

Module Gather.

(** The two throws of [gather_column]. *)
Inductive gather_error : Type :=
  | GE_not_2d                 (* "gather_column expects 2D tensor" *)
  | GE_token_out_of_range.    (* "token_id out of range" *)

(** [void gather_column(const TensorF32& W_dim_vocab, std::uint32_t token_id,
    float* out_dim)]: the array [out_dim] after the call.  The offset
    [token_id * dim] is a product in [std::uint64_t]. *)
Definition gather_column (W_dim_vocab : Weights.TensorF32) (token_id : Z)
    (out_dim : list spec_float) : gather_error + list spec_float :=
  match Weights.tf_dims W_dim_vocab with
  | [dim; vocab] =>
      if token_id >=? vocab then inl GE_token_out_of_range
      else
        let src := skipn (Z.to_nat (U64.mul token_id dim)) (Weights.tf_storage W_dim_vocab) in
        inr (Layer0.store out_dim 0 (firstn (Z.to_nat dim) src))
  | _ => inl GE_not_2d
  end.

End Gather.

(** ** weights.cpp: [load_weights] *)

Module LoadWeights.
Import Weights.

(** The throws of [load_weights] and [expect_dims], and [LE_other] for those
    that [error] lists. *)
Inductive load_error : Type :=
  | LE_missing_metadata       (* "model config missing required metadata" *)
  | LE_invalid_head_config    (* "invalid head config" *)
  | LE_missing_ffn            (* "missing llama.feed_forward_length" *)
  | LE_token_embd_not_2d      (* "token_embd.weight is not 2D" *)
  | LE_vocab_too_large        (* "vocab too large" *)
  | LE_unexpected_shape (name : string)  (* "unexpected shape for tensor " *)
  | LE_layer_out_of_range     (* "layer index out of range" *)
  | LE_other (e : error).

Inductive outcome (A : Type) : Type :=
  | Done (a : A)
  | Throw (e : load_error).
Arguments Done {A} a.
Arguments Throw {A} e.

Definition lift {A B} (m : result A) (k : A -> outcome B) : outcome B :=
  match m with
  | Ok a => k a
  | Err e => Throw (LE_other e)
  end.

Definition bind {A B} (m : outcome A) (k : A -> outcome B) : outcome B :=
  match m with
  | Done a => k a
  | Throw e => Throw e
  end.

(** [struct GlobalWeights] *)
Record GlobalWeights : Type :=
  { token_embd : TensorF32;
    output_norm : option TensorF32;
    output : option TensorF32 }.

(** [struct LayerWeights] *)
Record LayerWeights : Type :=
  { index : Z;
    attn_norm : TensorF32;
    attn_q : TensorF32;
    attn_k : TensorF32;
    attn_v : TensorF32;
    attn_output : TensorF32;
    ffn_norm : TensorF32;
    ffn_gate : TensorF32;
    ffn_up : TensorF32;
    ffn_down : TensorF32 }.

(** [struct Weights] *)
Record Weights_ : Type :=
  { cfg : LoaderKV.ModelConfig;
    global : GlobalWeights;
    layers : list LayerWeights }.

(** [void expect_dims(const TensorView& t, const std::vector<std::uint64_t>& expected)] *)
Definition expect_dims (t : Loader.TensorView) (expected : list Z) : outcome unit :=
  if decide (Loader.tv_dims t = expected) then Done tt
  else Throw (LE_unexpected_shape (Loader.tv_name t)).

(** [expect_dims(loader.get_tensor(name), expected)] *)
Definition expect (ld : Loader.GGUFLoader) (nm : string) (expected : list Z) : outcome unit :=
  lift (Loader.get_tensor ld nm) (fun t => expect_dims t expected).

(** [w.cfg.vocab_size = v] *)
Definition set_vocab_size (c : LoaderKV.ModelConfig) (v : Z) : LoaderKV.ModelConfig :=
  {| LoaderKV.n_layers := LoaderKV.n_layers c;
     LoaderKV.d_model := LoaderKV.d_model c;
     LoaderKV.n_heads := LoaderKV.n_heads c;
     LoaderKV.n_kv_heads := LoaderKV.n_kv_heads c;
     LoaderKV.head_dim := LoaderKV.head_dim c;
     LoaderKV.kv_dim := LoaderKV.kv_dim c;
     LoaderKV.ffn_hidden_dim := LoaderKV.ffn_hidden_dim c;
     LoaderKV.vocab_size := v;
     LoaderKV.context_length := LoaderKV.context_length c;
     LoaderKV.rope_dim := LoaderKV.rope_dim c;
     LoaderKV.rope_theta := LoaderKV.rope_theta c;
     LoaderKV.rms_epsilon := LoaderKV.rms_epsilon c |}.

(** ["blk." + std::to_string(i) + "."] *)
Definition prefix (i : Z) : string :=
  ("blk." ++ NilZero.string_of_uint (N.to_uint (Z.to_N i)) ++ ".")%string.

(** One run of the loop [for (const auto i : layer_indices)]: the nine
    loads, then the nine shape checks. *)
Definition load_layer (ld : Loader.GGUFLoader) (c : LoaderKV.ModelConfig)
    (alignment : Z) (i : Z) : outcome LayerWeights :=
  if i >=? LoaderKV.n_layers c then Throw LE_layer_out_of_range
  else
    let p := prefix i in
    let d_model := LoaderKV.d_model c in
    let kv_dim := LoaderKV.kv_dim c in
    let ffn := LoaderKV.ffn_hidden_dim c in
    lift (load_tensor_as_f32 ld (p ++ "attn_norm.weight") alignment) (fun t_attn_norm =>
    lift (load_tensor_as_f32 ld (p ++ "attn_q.weight") alignment) (fun t_attn_q =>
    lift (load_tensor_as_f32 ld (p ++ "attn_k.weight") alignment) (fun t_attn_k =>
    lift (load_tensor_as_f32 ld (p ++ "attn_v.weight") alignment) (fun t_attn_v =>
    lift (load_tensor_as_f32 ld (p ++ "attn_output.weight") alignment) (fun t_attn_output =>
    lift (load_tensor_as_f32 ld (p ++ "ffn_norm.weight") alignment) (fun t_ffn_norm =>
    lift (load_tensor_as_f32 ld (p ++ "ffn_gate.weight") alignment) (fun t_ffn_gate =>
    lift (load_tensor_as_f32 ld (p ++ "ffn_up.weight") alignment) (fun t_ffn_up =>
    lift (load_tensor_as_f32 ld (p ++ "ffn_down.weight") alignment) (fun t_ffn_down =>
    bind (expect ld (p ++ "attn_norm.weight") [d_model]) (fun _ =>
    bind (expect ld (p ++ "attn_q.weight") [d_model; d_model]) (fun _ =>
    bind (expect ld (p ++ "attn_k.weight") [d_model; kv_dim]) (fun _ =>
    bind (expect ld (p ++ "attn_v.weight") [d_model; kv_dim]) (fun _ =>
    bind (expect ld (p ++ "attn_output.weight") [d_model; d_model]) (fun _ =>
    bind (expect ld (p ++ "ffn_norm.weight") [d_model]) (fun _ =>
    bind (expect ld (p ++ "ffn_gate.weight") [d_model; ffn]) (fun _ =>
    bind (expect ld (p ++ "ffn_up.weight") [d_model; ffn]) (fun _ =>
    bind (expect ld (p ++ "ffn_down.weight") [ffn; d_model]) (fun _ =>
    Done {| index := i;
            attn_norm := t_attn_norm; attn_q := t_attn_q; attn_k := t_attn_k;
            attn_v := t_attn_v; attn_output := t_attn_output;
            ffn_norm := t_ffn_norm; ffn_gate := t_ffn_gate; ffn_up := t_ffn_up;
            ffn_down := t_ffn_down |})))))))))))))))))).

(** The loop over [layer_indices]; [acc] is [w.layers]. *)
Fixpoint load_layers (ld : Loader.GGUFLoader) (c : LoaderKV.ModelConfig)
    (alignment : Z) (layer_indices : list Z) (acc : list LayerWeights)
    : outcome (list LayerWeights) :=
  match layer_indices with
  | nil => Done acc
  | i :: rest =>
      bind (load_layer ld c alignment i) (fun lw =>
      load_layers ld c alignment rest (acc ++ [lw]))
  end.

(** [Weights load_weights(loader, layer_indices, load_lm_head, alignment)] *)
Definition load_weights (ld : Loader.GGUFLoader) (layer_indices : list Z)
    (load_lm_head : bool) (alignment : Z) : outcome Weights_ :=
  lift (LoaderKV.config ld) (fun c =>
  if (LoaderKV.n_layers c =? 0) || (LoaderKV.d_model c =? 0) || (LoaderKV.n_heads c =? 0)
  then Throw LE_missing_metadata
  else if (LoaderKV.head_dim c =? 0) || (LoaderKV.kv_dim c =? 0)
  then Throw LE_invalid_head_config
  else if LoaderKV.ffn_hidden_dim c =? 0 then Throw LE_missing_ffn
  else
    lift (load_tensor_as_f32 ld "token_embd.weight" alignment) (fun t_token_embd =>
    match tf_dims t_token_embd with
    | [_; d1] =>
        bind (if LoaderKV.vocab_size c =? 0
              then if d1 >? u32_max then Throw LE_vocab_too_large
                   else Done (set_vocab_size c d1)
              else Done c) (fun c1 =>
        let d_model := LoaderKV.d_model c1 in
        let vocab := LoaderKV.vocab_size c1 in
        bind (expect ld "token_embd.weight" [d_model; vocab]) (fun _ =>
        bind (if load_lm_head
              then
                lift (load_tensor_as_f32 ld "output_norm.weight" alignment) (fun t_norm =>
                bind (expect ld "output_norm.weight" [d_model]) (fun _ =>
                lift (load_tensor_as_f32 ld "output.weight" alignment) (fun t_out =>
                bind (expect ld "output.weight" [d_model; vocab]) (fun _ =>
                Done (Some t_norm, Some t_out)))))
              else Done (None, None)) (fun '(o_norm, o_out) =>
        bind (load_layers ld c1 alignment layer_indices nil) (fun ls =>
        Done {| cfg := c1;
                global := {| token_embd := t_token_embd;
                             output_norm := o_norm; output := o_out |};
                layers := ls |}))))
    | _ => Throw LE_token_embd_not_2d
    end)).

End LoadWeights.

(** ** Exhaustive checks over bit patterns *)

(** [forall_bits n f acc] tests [f] on the [2^n] numbers
    [acc * 2^n .. acc * 2^n + 2^n - 1]. *)
Fixpoint forall_bits (n : nat) (f : Z -> bool) (acc : Z) : bool :=
  match n with
  | O => f acc
  | S n' => forall_bits n' f (2 * acc) && forall_bits n' f (2 * acc + 1)
  end.

(** ** Concrete input files *)

(** Two metadata entries under the same key ["k"], with values 1 and 2, no
    tensor, padded to the 32-byte alignment of the data section. *)
Definition file_dup_key : list byte :=
  Wire.file_header 3 0 2 ++ Wire.kv_u32 "k" 1 ++ Wire.kv_u32 "k" 2 ++ Wire.zeros 6.

(** Two tensors with the same name ["w"]: F32 of 8 elements each, at offsets
    0 and 32 of a 64-byte data section. *)
Definition file_dup_name : list byte :=
  Wire.file_header 3 2 0
    ++ Wire.tensor "w" [8] 0 0
    ++ Wire.tensor "w" [8] 0 32
    ++ Wire.zeros 6 ++ Wire.zeros 64.

(** Two F32 tensors of 8 elements, listed in the directory with offsets 32
    and then 0. *)
Definition file_nonmono : list byte :=
  Wire.file_header 3 2 0
    ++ Wire.tensor "a" [8] 0 32
    ++ Wire.tensor "b" [8] 0 0
    ++ Wire.zeros 6 ++ Wire.zeros 64.

(** One F32 tensor of shape [2^63, 4]: its block count [2^63 * 4] does not
    fit 64 bits.  No data section follows the directory. *)
Definition file_nbytes_overflow : list byte :=
  Wire.file_header 3 1 0
    ++ Wire.tensor "t" [2 ^ 63; 4] 0 0
    ++ Wire.zeros 31.

(** One tensor of unknown type 99 whose offset [2^64 - 1] overflows
    [data_section_offset + offset]. *)
Definition file_offset_overflow : list byte :=
  Wire.file_header 3 1 0
    ++ Wire.tensor "t" [1] 99 (2 ^ 64 - 1)
    ++ Wire.zeros 31.

(** One metadata entry: an array of [2^63] 16-bit integers. *)
Definition file_array_overflow : list byte :=
  Wire.file_header 3 0 1 ++ Wire.kv_array "a" 2 (2 ^ 63) ++ Wire.zeros 15.

(** One metadata entry: an array of [2^64 - 1] bytes. *)
Definition file_huge_skip : list byte :=
  Wire.file_header 3 0 1 ++ Wire.kv_array "a" 0 (2 ^ 64 - 1) ++ Wire.zeros 15.

(** The Q4_K block with [d = 1.0] (half [0x3C00]), [dmin = 0.0], every scale
    byte 1 and every [qs] byte [0x10]. *)
Definition q4_block_ones : Quants.block_q4_K :=
  {| Quants.q4_d := 15360; Quants.q4_dmin := 0;
     Quants.q4_scales := repeat 1 12; Quants.q4_qs := repeat 16 128 |}.

(** One Q4_K tensor ["q"] of 100 elements (one block of 144 bytes, stored at
    offset 0 of the data section) and one Q6_K tensor ["p"] of 100 elements
    (one block of 210 bytes, stored at offset 160). *)
Definition file_partial_rows : list byte :=
  Wire.file_header 3 2 0
    ++ Wire.tensor "q" [100] 12 0
    ++ Wire.tensor "p" [100] 14 160
    ++ Wire.zeros 6 ++ Wire.zeros 370.

(** ** Vocabulary of the statements *)

(** [i] is the first position of [l] whose key is [k]. *)
Definition first_occurrence {A} (key_of : A -> string) (l : list A) (k : string) (i : nat)
    : Prop :=
  key_of <$> l !! i = Some k /\
  forall j, (j < i)%nat -> key_of <$> l !! j <> Some k.

(** [i] is the last position of [l] whose key is [k]. *)
Definition last_occurrence {A} (key_of : A -> string) (l : list A) (k : string) (i : nat)
    : Prop :=
  key_of <$> l !! i = Some k /\
  forall j, (i < j)%nat -> key_of <$> l !! j <> Some k.

(** The lookup index [m] sends every key of [l] to its first position, and
    holds nothing else. *)
Definition indexes_first {A} (key_of : A -> string) (l : list A) (m : gmap string nat)
    : Prop :=
  forall k i, m !! k = Some i <-> first_occurrence key_of l k i.

(** What the two directory loops of [parse] maintain. *)
Definition file_indexed (f : Gguf.File) : Prop :=
  indexes_first Gguf.key (Gguf.metadata f) (Gguf.kv_index_by_key f) /\
  indexes_first Gguf.name (Gguf.tensors f) (Gguf.tensor_index_by_name f).

(** Every offset of the directory is a 64-bit value read from the file. *)
Definition offsets_nonneg (ts : list Gguf.TensorInfo) : Prop :=
  Forall (fun t => 0 <= Gguf.offset t) ts.

(** [t] lies inside a file of [size] bytes whose data section starts at
    [dso], in unbounded integers; the end of [t] is only constrained when
    [tensor_nbytes] gives a byte count. *)
Definition tensor_in_file (dso size : Z) (t : Gguf.TensorInfo) : Prop :=
  dso + Gguf.offset t <= size /\
  dso + Gguf.offset t <= U64.max /\
  forall nb, Gguf.tensor_nbytes t = Some nb ->
    dso + Gguf.offset t + nb <= size /\ dso + Gguf.offset t + nb <= U64.max.

(** The errors of the range check. *)
Definition range_error (ts : list Gguf.TensorInfo) (e : error) : Prop :=
  exists t, t ∈ ts /\
    (e = E_tensor_offset_out_of_bounds (Gguf.name t) \/
     e = E_tensor_out_of_bounds (Gguf.name t)).

(** An overflow of [data_section_offset + offset] or of [abs_off + nbytes]. *)
Definition range_overflows (dso : Z) (t : Gguf.TensorInfo) : Prop :=
  dso + Gguf.offset t > U64.max \/
  exists nb, Gguf.tensor_nbytes t = Some nb /\ dso + Gguf.offset t + nb > U64.max.

(** The indices [idx] are listed by non-decreasing offset. *)
Fixpoint ascending (ts : list Gguf.TensorInfo) (idx : list nat) : Prop :=
  match idx with
  | a :: (b :: _) as rest =>
      Loader.offset_at ts a <= Loader.offset_at ts b /\ ascending ts rest
  | _ => True
  end.

(** [idx] is a result that [std::sort] may give on [0 .. n-1] for the
    comparator of the loader: a permutation, by non-decreasing offset. *)
Definition sorts_by_offset (ts : list Gguf.TensorInfo) (idx : list nat) : Prop :=
  idx ≡ₚ seq 0 (length ts) /\ ascending ts idx.

(** The size that the loader gives to the tensor at position [p] of the
    sorted order [idx]: the distance to the next offset, or to the end of the
    file for the last one. *)
Definition offset_gap (dso size : Z) (ts : list Gguf.TensorInfo) (idx : list nat)
    (p : nat) (cur : nat) : Z :=
  match idx !! S p with
  | Some nxt => Loader.offset_at ts nxt - Loader.offset_at ts cur
  | None => size - (dso + Loader.offset_at ts cur)
  end.

(** An implementation of [std::exp] that underflows everywhere. *)
Definition exp_underflow (x : spec_float) : spec_float := S754_zero false.

(** The rational number that a finite [float] stands for: [+-m * 2^e], and
    0 for the two zeros (also for the infinities and NaN, which the
    statements exclude with [is_finite]). *)
Definition sign_Q (s : bool) : Q := if s then (-1)%Q else 1%Q.

Definition to_Q (f : spec_float) : Q :=
  match f with
  | S754_finite s m e => (sign_Q s * (inject_Z (Zpos m) * 2 ^ e))%Q
  | _ => 0%Q
  end.

(** The squared norm of a pair, as a rational. *)
Definition norm2 (v0 v1 : spec_float) : Q := (to_Q v0 * to_Q v0 + to_Q v1 * to_Q v1)%Q.

(** Rounding to nearest in binary32: a finite result [r] of an operation
    whose exact result is [q] has [|r - q| <= unit_roundoff * |q| + eta],
    with [unit_roundoff = 2^-24] (half an ulp of 1) and [eta = 2^-150] (half
    the least subnormal). *)
Definition unit_roundoff : Q := 1 # 16777216.
Definition eta : Q := (2 ^ (-150))%Q.

(** The change that the six rounded operations of one rotation can make to
    the squared norm [n] of a pair with [|v0| + |v1| = s]:
    [2^-19 * n + 2^-145 * s + 2^-295]. *)
Definition rope_eps (n s : Q) : Q :=
  ((1 # 524288) * n + 2 ^ (-145) * s + 2 ^ (-295))%Q.

(** The exponent of a finite [float] is at most [emax - prec]. *)
Definition small_exp (f : spec_float) : Prop :=
  match f with S754_finite _ _ e => e <= 104 | _ => True end.

(** One rotation of [apply_inplace]: what the pair [(v0, v1)] becomes for
    the cosine [c] and the sine [s], every operation rounded to [float]. *)
Definition rotated (v0 v1 c s : spec_float) : spec_float * spec_float :=
  (F32.sub (F32.mul v0 c) (F32.mul v1 s), F32.add (F32.mul v0 s) (F32.mul v1 c)).

(** [static_cast<float>(pos) * inv_freq_[i]] *)
Definition rope_angle (rc : Rope.RoPECache) (pos : Z) (i : nat) : spec_float :=
  F32.mul (F32.of_Z pos) (Kernels.fat (Rope.inv_freq_ rc) i).

(** What the pair [i] of the head at [base] becomes, from the array [x]
    before the call. *)
Definition rotated_at (cosf sinf : spec_float -> spec_float) (rc : Rope.RoPECache)
    (pos : Z) (x : list spec_float) (base i : nat) : spec_float * spec_float :=
  rotated (Kernels.fat x (base + 2 * i)) (Kernels.fat x (base + 2 * i + 1))
    (cosf (rope_angle rc pos i)) (sinf (rope_angle rc pos i)).

(** The same float, or two zeros (of either sign). *)
Definition same_up_to_zero_sign (a b : spec_float) : Prop :=
  a = b \/ (is_zero a = true /\ is_zero b = true).

(** The cache of [reset(2, 10000.0f)]: one pair, of inverse frequency
    [pow(10000, -0) = 1]. *)
Definition rope_dim2 : Rope.RoPECache :=
  {| Rope.rope_dim_ := 2; Rope.theta_ := F32.of_Z 10000; Rope.inv_freq_ := [F32.one] |}.

(** [FLT_MAX] *)
Definition flt_max : spec_float := F32.of_bits 2139095039.

(** ** Vocabulary of the further properties *)

(** The reader [r] reads the slice [data] and its cursor is inside it. *)
Definition in_slice (data : list byte) (r : Reader.t) : Prop :=
  Reader.data_ r = data /\ 0 <= Reader.pos_ r <= Z.of_nat (length data).

(** The payload [p] is the alternative of the variant that [read_value]
    stores for the type [t], and its value is one of the C++ type. *)
Definition payload_wf (t : Gguf.ValueType) (p : Gguf.Payload) : Prop :=
  match t, p with
  | Gguf.Uint8, Gguf.P_u8 x => 0 <= x < 2 ^ 8
  | Gguf.Int8, Gguf.P_i8 x => - 2 ^ 7 <= x < 2 ^ 7
  | Gguf.Uint16, Gguf.P_u16 x => 0 <= x < 2 ^ 16
  | Gguf.Int16, Gguf.P_i16 x => - 2 ^ 15 <= x < 2 ^ 15
  | Gguf.Uint32, Gguf.P_u32 x => 0 <= x < 2 ^ 32
  | Gguf.Int32, Gguf.P_i32 x => - 2 ^ 31 <= x < 2 ^ 31
  | Gguf.Uint64, Gguf.P_u64 x => 0 <= x < 2 ^ 64
  | Gguf.Int64, Gguf.P_i64 x => - 2 ^ 63 <= x < 2 ^ 63
  | Gguf.Float32, Gguf.P_f32 b => 0 <= b < 2 ^ 32
  | Gguf.Float64, Gguf.P_f64 b => 0 <= b < 2 ^ 64
  | Gguf.Bool_, Gguf.P_bool _ => True
  | Gguf.String_, Gguf.P_string _ => True
  | Gguf.Array, Gguf.P_array a => 0 <= Gguf.length_ a < 2 ^ 64
  | _, _ => False
  end.

Definition value_wf (v : Gguf.Value) : Prop :=
  payload_wf (Gguf.type v) (Gguf.payload v).

(** Bytes that a scalar of type [t] takes in the file. *)
Definition scalar_width (t : Gguf.ValueType) : option Z :=
  match t with
  | Gguf.Uint8 | Gguf.Int8 | Gguf.Bool_ => Some 1
  | Gguf.Uint16 | Gguf.Int16 => Some 2
  | Gguf.Uint32 | Gguf.Int32 | Gguf.Float32 => Some 4
  | Gguf.Uint64 | Gguf.Int64 | Gguf.Float64 => Some 8
  | Gguf.String_ | Gguf.Array => None
  end.

(** The product of a list of dimensions, in unbounded integers. *)
Definition product (ds : list Z) : Z := fold_right Z.mul 1 ds.

(** Every dimension is a 64-bit unsigned value. *)
Definition dims_u64 (ds : list Z) : Prop := Forall (fun d => 0 <= d <= U64.max) ds.

(** [d / bs] rounded up. *)
Definition ceil_div (d bs : Z) : Z := (d + bs - 1) / bs.

(** A file whose first four bytes are ["GGU"] and a zero byte. *)
Definition file_bad_magic : list byte :=
  list_byte_of_string "GGU" ++ Wire.zeros 1 ++ Wire.u32 3 ++ Wire.u64 0 ++ Wire.u64 0
    ++ Wire.zeros 8.

(** Every metadata value of [f] is well typed. *)
Definition metadata_wf (f : Gguf.File) : Prop :=
  Forall (fun kv => value_wf (Gguf.value kv)) (Gguf.metadata f).

(** Three metadata entries: [llama.embedding_length = 8],
    [llama.attention.head_count = 4], [llama.attention.head_count_kv = 2];
    no tensor, padded to a data section that starts at byte 160. *)
Definition file_llama_kv : list byte :=
  Wire.file_header 3 0 3
    ++ Wire.kv_u32 "llama.embedding_length" 8
    ++ Wire.kv_u32 "llama.attention.head_count" 4
    ++ Wire.kv_u32 "llama.attention.head_count_kv" 2
    ++ Wire.zeros 11.

(** The fields of [ModelConfig] of type [std::uint32_t]. *)
Definition u32_fields (c : LoaderKV.ModelConfig) : list Z :=
  [LoaderKV.n_layers c; LoaderKV.d_model c; LoaderKV.n_heads c; LoaderKV.n_kv_heads c;
   LoaderKV.head_dim c; LoaderKV.kv_dim c; LoaderKV.ffn_hidden_dim c;
   LoaderKV.vocab_size c; LoaderKV.context_length c; LoaderKV.rope_dim c].

(** Every tensor of the directory has 64-bit dimensions. *)
Definition tensors_dims_u64 (f : Gguf.File) : Prop :=
  Forall (fun t => dims_u64 (Gguf.dims t)) (Gguf.tensors f).

(** A cache with positive dimensions whose two arrays hold
    [n_kv_heads * max_seq * head_dim] floats; the size of a vector is a
    [std::size_t]. *)
Definition cache_wf (c : Layer0.KVCacheLayer) : Prop :=
  0 < Layer0.n_kv_heads_ c /\ 0 < Layer0.max_seq_ c /\ 0 < Layer0.head_dim_ c /\
  Z.of_nat (length (Layer0.k_ c))
    = Layer0.n_kv_heads_ c * Layer0.max_seq_ c * Layer0.head_dim_ c /\
  Z.of_nat (length (Layer0.v_ c))
    = Layer0.n_kv_heads_ c * Layer0.max_seq_ c * Layer0.head_dim_ c /\
  Z.of_nat (length (Layer0.k_ c)) <= U64.max.

(** The index in [k_] and [v_] of the slot of KV head [h] at position [p]. *)
Definition slot_index (c : Layer0.KVCacheLayer) (h p : Z) : nat :=
  Z.to_nat ((h * Layer0.max_seq_ c + p) * Layer0.head_dim_ c).

(** Two caches have the same dimensions. *)
Definition same_geometry (c1 c2 : Layer0.KVCacheLayer) : Prop :=
  Layer0.n_kv_heads_ c1 = Layer0.n_kv_heads_ c2 /\
  Layer0.max_seq_ c1 = Layer0.max_seq_ c2 /\
  Layer0.head_dim_ c1 = Layer0.head_dim_ c2.

(** The slot of KV head [h] at position [p] holds the same keys and values
    in [c1] and in [c2]. *)
Definition same_slot (c1 c2 : Layer0.KVCacheLayer) (h p : Z) : Prop :=
  let hd := Z.to_nat (Layer0.head_dim_ c1) in
  Layer0.window (Layer0.k_ c1) (slot_index c1 h p) hd
    = Layer0.window (Layer0.k_ c2) (slot_index c1 h p) hd /\
  Layer0.window (Layer0.v_ c1) (slot_index c1 h p) hd
    = Layer0.window (Layer0.v_ c2) (slot_index c1 h p) hd.

(** The slot of KV head [h] at position [p] of [c] holds the floats
    [h * head_dim .. (h + 1) * head_dim) of [k] and of [v]. *)
Definition slot_holds (c : Layer0.KVCacheLayer) (h p : Z) (k v : list spec_float) : Prop :=
  let hd := Z.to_nat (Layer0.head_dim_ c) in
  Layer0.window (Layer0.k_ c) (slot_index c h p) hd
    = Layer0.window k (Z.to_nat h * hd) hd /\
  Layer0.window (Layer0.v_ c) (slot_index c h p) hd
    = Layer0.window v (Z.to_nat h * hd) hd.

(** [file_llama_kv] with [llama.feed_forward_length = 16] added. *)
Definition file_llama_ffn : list byte :=
  Wire.file_header 3 0 4
    ++ Wire.kv_u32 "llama.embedding_length" 8
    ++ Wire.kv_u32 "llama.attention.head_count" 4
    ++ Wire.kv_u32 "llama.attention.head_count_kv" 2
    ++ Wire.kv_u32 "llama.feed_forward_length" 16
    ++ Wire.zeros 2.

(** Grouped-query attention of one query head, as the specification words
    it: [probs[t] = dot(qh, K[t]) * 1/sqrt(head_dim)] for the positions [t]
    of the cache, the softmax of these, and [out = sum over t of probs[t] *
    V[t]].  [ks] and [vs] are the keys and the values of one KV head at the
    positions [0 .. pos], [hd] floats each. *)
Definition scaled_dot (hd : nat) (inv_sqrt_hd : spec_float) (qh k : list spec_float)
    : spec_float :=
  F32.mul (Kernels.dot_f32 qh k hd) inv_sqrt_hd.

Definition weighted_sum (hd : nat) (probs : list spec_float) (vs : list (list spec_float))
    : list spec_float :=
  fold_left
    (fun out pv => zip_with (fun o x => F32.add o (F32.mul (fst pv) x)) out (snd pv))
    (zip probs vs) (repeat F32.zero hd).

Definition attention_of_head (expf : spec_float -> spec_float) (hd : nat)
    (inv_sqrt_hd : spec_float) (qh : list spec_float) (ks vs : list (list spec_float))
    : list spec_float :=
  let probs := map (scaled_dot hd inv_sqrt_hd qh) ks in
  weighted_sum hd (Kernels.softmax_inplace_f32 expf probs (length probs)) vs.

(** The keys and the values that the cache [c] holds for the KV head [g] at
    the positions [0 .. pos]. *)
Definition cache_keys (c : Layer0.KVCacheLayer) (g : Z) (pos : nat) : list (list spec_float) :=
  map (fun t => Layer0.window (Layer0.k_ c) (slot_index c g (Z.of_nat t))
                  (Z.to_nat (Layer0.head_dim_ c)))
    (seq 0 (S pos)).

Definition cache_values (c : Layer0.KVCacheLayer) (g : Z) (pos : nat) : list (list spec_float) :=
  map (fun t => Layer0.window (Layer0.v_ c) (slot_index c g (Z.of_nat t))
                  (Z.to_nat (Layer0.head_dim_ c)))
    (seq 0 (S pos)).

(** What [Layer0Context] keeps true between two calls of [step], for a
    configuration with [d_model = n_heads * head_dim] and [kv_dim =
    n_kv_heads * head_dim] that has passed the checks of the constructor:
    the configuration holds 32-bit values, the cache is well formed and has
    the head count and the head size of the configuration, the RoPE cache is
    initialized, and every vector holds at least the floats that the
    constructor has given it. *)
Definition ctx_wf (ctx : Step.Layer0Context) : Prop :=
  let cfg := Step.cfg_ ctx in
  let c := Step.cache_ ctx in
  let rc := Step.rope_ ctx in
  Layer0.config_ok (layer0_config cfg) = true /\
  Forall (fun z => 0 <= z <= u32_max)
    [LoaderKV.d_model cfg; LoaderKV.n_heads cfg; LoaderKV.n_kv_heads cfg;
     LoaderKV.head_dim cfg; LoaderKV.kv_dim cfg; LoaderKV.ffn_hidden_dim cfg;
     Layer0.max_seq_ c] /\
  LoaderKV.d_model cfg = LoaderKV.n_heads cfg * LoaderKV.head_dim cfg /\
  LoaderKV.kv_dim cfg = LoaderKV.n_kv_heads cfg * LoaderKV.head_dim cfg /\
  cache_wf c /\
  Layer0.n_kv_heads_ c = LoaderKV.n_kv_heads cfg /\
  Layer0.head_dim_ c = LoaderKV.head_dim cfg /\
  0 < Rope.rope_dim_ rc /\
  Rope.rope_dim_ rc mod 2 = 0 /\
  Z.of_nat (length (Rope.inv_freq_ rc)) = Rope.rope_dim_ rc / 2 /\
  Forall (fun b : list spec_float => LoaderKV.d_model cfg <= Z.of_nat (length b))
    [Step.x_norm_ ctx; Step.q_ ctx; Step.attn_out_ ctx; Step.tmp_d_model_ ctx] /\
  Forall (fun b : list spec_float => LoaderKV.kv_dim cfg <= Z.of_nat (length b))
    [Step.k_ ctx; Step.v_ ctx] /\
  Forall (fun b : list spec_float => LoaderKV.ffn_hidden_dim cfg <= Z.of_nat (length b))
    [Step.gate_ ctx; Step.up_ ctx] /\
  Layer0.max_seq_ c <= Z.of_nat (length (Step.attn_probs_ ctx)).

(** Behind each weight pointer of the layer there are the floats of the
    shape that [load_weights] checks: [d_model] for the two norms, [d_model
    * d_model] for [attn_q] and [attn_output], [d_model * kv_dim] for
    [attn_k] and [attn_v], [d_model * ffn_hidden_dim] for the three
    matrices of the feed-forward network. *)
Definition layer_sized (cfg : LoaderKV.ModelConfig) (w : Step.LayerWeights) : Prop :=
  let d := LoaderKV.d_model cfg in
  let kv := LoaderKV.kv_dim cfg in
  let f := LoaderKV.ffn_hidden_dim cfg in
  d <= Z.of_nat (length (Step.attn_norm w)) /\
  d * d <= Z.of_nat (length (Step.attn_q w)) /\
  d * kv <= Z.of_nat (length (Step.attn_k w)) /\
  d * kv <= Z.of_nat (length (Step.attn_v w)) /\
  d * d <= Z.of_nat (length (Step.attn_output w)) /\
  d <= Z.of_nat (length (Step.ffn_norm w)) /\
  d * f <= Z.of_nat (length (Step.ffn_gate w)) /\
  d * f <= Z.of_nat (length (Step.ffn_up w)) /\
  f * d <= Z.of_nat (length (Step.ffn_down w)).

(** [1.0f / std::sqrt(static_cast<float>(cfg_.head_dim))] *)
Definition inv_sqrt_hd (cfg : LoaderKV.ModelConfig) : spec_float :=
  F32.div F32.one (F32.sqrt (F32.of_Z (LoaderKV.head_dim cfg))).

(** A configuration of 4 query heads of 2 floats and 2 KV heads, with a
    context of 4 positions. *)
Definition cfg_small : LoaderKV.ModelConfig :=
  {| LoaderKV.n_layers := 1; LoaderKV.d_model := 8; LoaderKV.n_heads := 4;
     LoaderKV.n_kv_heads := 2; LoaderKV.head_dim := 2; LoaderKV.kv_dim := 4;
     LoaderKV.ffn_hidden_dim := 3; LoaderKV.vocab_size := 0;
     LoaderKV.context_length := 4; LoaderKV.rope_dim := 0;
     LoaderKV.rope_theta := F32.zero; LoaderKV.rms_epsilon := F32.zero |}.

(** Layer weights for [cfg_small], all zero: 8 floats for the norms, [8 * 8]
    for [attn_q] and [attn_output], [8 * 4] for [attn_k] and [attn_v],
    [8 * 3] for the matrices of the feed-forward network. *)
Definition zero_weights : Step.LayerWeights :=
  let z := fun n => repeat F32.zero n in
  {| Step.attn_norm := z 8%nat; Step.attn_q := z 64%nat; Step.attn_k := z 32%nat;
     Step.attn_v := z 32%nat; Step.attn_output := z 64%nat; Step.ffn_norm := z 8%nat;
     Step.ffn_gate := z 24%nat; Step.ffn_up := z 24%nat; Step.ffn_down := z 24%nat |}.

(** [zero_weights] with a norm of ones and with the value matrix that sends
    the first input to the four values [1, 2, 3, 4] times that input. *)
Definition routing_weights : Step.LayerWeights :=
  let z := fun n => repeat F32.zero n in
  let col := fun v => F32.of_Z v :: z 7%nat in
  {| Step.attn_norm := repeat F32.one 8;
     Step.attn_q := z 64%nat; Step.attn_k := z 32%nat;
     Step.attn_v := col 1 ++ col 2 ++ col 3 ++ col 4;
     Step.attn_output := z 64%nat; Step.ffn_norm := z 8%nat;
     Step.ffn_gate := z 24%nat; Step.ffn_up := z 24%nat; Step.ffn_down := z 24%nat |}.

(** The input [1, 0, 0, 0, 0, 0, 0, 0]. *)
Definition x_unit : list spec_float := F32.one :: repeat F32.zero 7.

(** A configuration that passes the checks of [Layer0Context] with 4 heads
    of 2 floats and [d_model = 1]. *)
Definition cfg_bad : LoaderKV.ModelConfig :=
  {| LoaderKV.n_layers := 1; LoaderKV.d_model := 1; LoaderKV.n_heads := 4;
     LoaderKV.n_kv_heads := 2; LoaderKV.head_dim := 2; LoaderKV.kv_dim := 4;
     LoaderKV.ffn_hidden_dim := 3; LoaderKV.vocab_size := 0;
     LoaderKV.context_length := 4; LoaderKV.rope_dim := 0;
     LoaderKV.rope_theta := F32.zero; LoaderKV.rms_epsilon := F32.zero |}.

(** A header alone, 24 bytes, that announces [2^62] metadata entries. *)
Definition file_huge_count : list byte := Wire.file_header 3 0 (2 ^ 62).

(** The errors that reading the directory can raise. *)
Definition directory_errors : list error :=
  [E_read_bytes_past_EOF; E_bad_magic; E_read_past_EOF; E_string_past_EOF;
   E_skip_past_EOF; E_array_skip_overflow; E_array_of_array;
   E_unknown_array_elem_type; E_unknown_value_type; E_length_error].

(** The tensor [T] has the dimensions [ds] and a buffer of exactly
    [product ds] floats. *)
Definition shaped (T : Weights.TensorF32) (ds : list Z) : Prop :=
  Weights.tf_dims T = ds /\ Z.of_nat (length (Weights.tf_storage T)) = product ds.

(** The tensors of a layer have the shapes that [step] reads them with. *)
Definition layer_shaped (c : LoaderKV.ModelConfig) (lw : LoadWeights.LayerWeights) : Prop :=
  let d_model := LoaderKV.d_model c in
  let kv_dim := LoaderKV.kv_dim c in
  let ffn := LoaderKV.ffn_hidden_dim c in
  LoadWeights.index lw < LoaderKV.n_layers c /\
  shaped (LoadWeights.attn_norm lw) [d_model] /\
  shaped (LoadWeights.attn_q lw) [d_model; d_model] /\
  shaped (LoadWeights.attn_k lw) [d_model; kv_dim] /\
  shaped (LoadWeights.attn_v lw) [d_model; kv_dim] /\
  shaped (LoadWeights.attn_output lw) [d_model; d_model] /\
  shaped (LoadWeights.ffn_norm lw) [d_model] /\
  shaped (LoadWeights.ffn_gate lw) [d_model; ffn] /\
  shaped (LoadWeights.ffn_up lw) [d_model; ffn] /\
  shaped (LoadWeights.ffn_down lw) [ffn; d_model].

(** A model of one layer in F32: [d_model = 2], one head, [ffn = 3], a
    vocabulary of 2; the ten tensors lie 32 bytes apart in a data section
    of 320 zero bytes. *)
Definition file_llama_layer : list byte :=
  Wire.file_header 3 10 5
    ++ Wire.kv_u32 "llama.block_count" 1
    ++ Wire.kv_u32 "llama.embedding_length" 2
    ++ Wire.kv_u32 "llama.attention.head_count" 1
    ++ Wire.kv_u32 "llama.attention.head_count_kv" 1
    ++ Wire.kv_u32 "llama.feed_forward_length" 3
    ++ Wire.tensor "token_embd.weight" [2; 2] 0 0
    ++ Wire.tensor "blk.0.attn_norm.weight" [2] 0 32
    ++ Wire.tensor "blk.0.attn_q.weight" [2; 2] 0 64
    ++ Wire.tensor "blk.0.attn_k.weight" [2; 2] 0 96
    ++ Wire.tensor "blk.0.attn_v.weight" [2; 2] 0 128
    ++ Wire.tensor "blk.0.attn_output.weight" [2; 2] 0 160
    ++ Wire.tensor "blk.0.ffn_norm.weight" [2] 0 192
    ++ Wire.tensor "blk.0.ffn_gate.weight" [2; 3] 0 224
    ++ Wire.tensor "blk.0.ffn_up.weight" [2; 3] 0 256
    ++ Wire.tensor "blk.0.ffn_down.weight" [3; 2] 0 288
    ++ Wire.zeros 23 ++ Wire.zeros 320.

(* ===================================================================== *)
(** * Properties *)
(* ===================================================================== *)

(** ** Generic lemmas on the exception monad and the counted loop *)

Lemma rbind_ok {A B} (m : result A) (k : A -> result B) (b : B) :
  rbind m k = Ok b -> exists a, m = Ok a /\ k a = Ok b.
Proof. destruct m as [a|e]; simpl; [eauto | discriminate]. Qed.

Ltac inv_bind H :=
  let a := fresh "a" in
  let Ha := fresh "Ha" in
  apply rbind_ok in H; destruct H as (a & Ha & H).

Lemma for_nat_add {St} (body : St -> result St) a b : forall s,
  for_nat (a + b) body s = let* s1 := for_nat a body s in for_nat b body s1.
Proof.
  induction a as [|a IH]; intros s; simpl; [reflexivity|].
  destruct (body s) as [s1|e]; simpl; [apply IH | reflexivity].
Qed.

Lemma for_pos_for_nat {St} (body : St -> result St) p : forall s,
  for_pos p body s = for_nat (Pos.to_nat p) body s.
Proof.
  induction p as [p IH | p IH |]; intros s.
  - rewrite Pos2Nat.inj_xI.
    replace (S (2 * Pos.to_nat p))%nat with (1 + (Pos.to_nat p + Pos.to_nat p))%nat by lia.
    rewrite for_nat_add. cbn [for_pos for_nat].
    destruct (body s) as [s1|e]; cbn [rbind]; [|reflexivity].
    rewrite for_nat_add. rewrite IH.
    destruct (for_nat (Pos.to_nat p) body s1) as [s2|e]; cbn [rbind]; [apply IH | reflexivity].
  - rewrite Pos2Nat.inj_xO.
    replace (2 * Pos.to_nat p)%nat with (Pos.to_nat p + Pos.to_nat p)%nat by lia.
    rewrite for_nat_add. cbn [for_pos]. rewrite IH.
    destruct (for_nat (Pos.to_nat p) body s) as [s1|e]; cbn [rbind]; [apply IH | reflexivity].
  - change (Pos.to_nat 1) with 1%nat. cbn [for_pos for_nat].
    destruct (body s); reflexivity.
Qed.

(** The binary loop runs its body [n] times, like the unary one. *)
Lemma for_u64_for_nat {St} (body : St -> result St) n s :
  for_u64 n body s = for_nat (Z.to_nat n) body s.
Proof.
  destruct n as [|p|p]; try reflexivity.
  unfold for_u64. rewrite Z2Nat.inj_pos. apply for_pos_for_nat.
Qed.

Lemma for_pos_inv {S} (I : S -> Prop) (body : S -> result S) :
  (forall s s', I s -> body s = Ok s' -> I s') ->
  forall p s s', I s -> for_pos p body s = Ok s' -> I s'.
Proof.
  intros Hbody. induction p as [p IH | p IH |]; simpl; intros s s' Hs H.
  - inv_bind H. inv_bind H. eauto.
  - inv_bind H. eauto.
  - eauto.
Qed.

Lemma for_u64_inv {S} (I : S -> Prop) (body : S -> result S) :
  (forall s s', I s -> body s = Ok s' -> I s') ->
  forall n s s', I s -> for_u64 n body s = Ok s' -> I s'.
Proof.
  intros Hbody [|p|p] s s' Hs H; simpl in H; try (inversion H; subst; assumption).
  eapply for_pos_inv; eauto.
Qed.

(** A loop whose body adds one to a measure adds the number of its runs. *)
Lemma for_pos_count {S} (mu : S -> Z) (body : S -> result S) :
  (forall s s', body s = Ok s' -> mu s' = mu s + 1) ->
  forall p s s', for_pos p body s = Ok s' -> mu s' = mu s + Zpos p.
Proof.
  intros Hbody. induction p as [p IH | p IH |]; simpl; intros s s' H.
  - inv_bind H. inv_bind H. apply Hbody in Ha. apply IH in Ha0. apply IH in H. lia.
  - inv_bind H. apply IH in Ha. apply IH in H. lia.
  - apply Hbody in H. lia.
Qed.

Lemma for_u64_count {S} (mu : S -> Z) (body : S -> result S) :
  (forall s s', body s = Ok s' -> mu s' = mu s + 1) ->
  forall n s s', 0 <= n -> for_u64 n body s = Ok s' -> mu s' = mu s + n.
Proof.
  intros Hbody [|p|p] s s' Hn H; simpl in H; try lia.
  - inversion H; subst; lia.
  - eapply for_pos_count; eauto.
Qed.

Lemma le_decode_nonneg bs : 0 <= Reader.le_decode bs.
Proof.
  induction bs as [|b bs IH]; simpl; [lia|].
  pose proof (N2Z.is_nonneg (Byte.to_N b)). lia.
Qed.

Lemma read_nonneg sz r x r' : Reader.read sz r = Ok (x, r') -> 0 <= x.
Proof.
  unfold Reader.read. destruct (_ >? _); [discriminate|].
  intros H; inversion H; subst. apply le_decode_nonneg.
Qed.

(** ** The lookup indexes built by [parse] *)

Section IndexFirst.
Context {A : Type} (key_of : A -> string).

Lemma first_occurrence_lt (l : list A) k i :
  first_occurrence key_of l k i -> (i < length l)%nat.
Proof.
  intros [H _]. destruct (l !! i) eqn:E; [|discriminate].
  eapply lookup_lt_Some; eauto.
Qed.

(** A key that occurs has a first occurrence. *)
Lemma first_occurrence_exists (l : list A) k j :
  key_of <$> l !! j = Some k -> exists i, first_occurrence key_of l k i.
Proof.
  assert (forall n, (exists j', (j' < n)%nat /\ key_of <$> l !! j' = Some k) \/
                    (forall j', (j' < n)%nat -> key_of <$> l !! j' <> Some k)) as Hdec.
  { induction n as [|n [IHn | IHn]].
    - right. intros j' Hlt. lia.
    - left. destruct IHn as (j' & Hlt & Hj'). exists j'. split; [lia | assumption].
    - destruct (decide (key_of <$> l !! n = Some k)) as [Hn | Hn].
      + left. exists n. split; [lia | assumption].
      + right. intros j' Hlt. destruct (decide (j' = n)) as [-> | Hne]; [assumption|].
        apply IHn. lia. }
  induction j as [j IH] using lt_wf_ind. intros Hj.
  destruct (Hdec j) as [(j' & Hlt & Hj') | Hno].
  - eauto.
  - exists j. split; assumption.
Qed.

Lemma first_occurrence_app_l (l : list A) x k i :
  first_occurrence key_of l k i -> first_occurrence key_of (l ++ [x]) k i.
Proof.
  intros Hf. pose proof (first_occurrence_lt _ _ _ Hf) as Hlt.
  destruct Hf as [Hi Hmin]. split.
  - rewrite lookup_app_l by assumption. assumption.
  - intros j Hj. rewrite lookup_app_l by lia. auto.
Qed.

Lemma first_occurrence_app_inv (l : list A) x k i :
  first_occurrence key_of (l ++ [x]) k i ->
  first_occurrence key_of l k i \/
  (i = length l /\ key_of x = k /\ forall j, key_of <$> l !! j <> Some k).
Proof.
  intros [Hi Hmin]. destruct (decide (i < length l)%nat) as [Hlt | Hge].
  - left. split.
    + rewrite lookup_app_l in Hi by assumption. assumption.
    + intros j Hj. specialize (Hmin j Hj).
      rewrite lookup_app_l in Hmin by lia. assumption.
  - right.
    assert (i = length l) as ->.
    { destruct ((l ++ [x]) !! i) eqn:E; [|discriminate].
      apply lookup_lt_Some in E. rewrite length_app in E. simpl in E. lia. }
    rewrite lookup_app_r in Hi by lia.
    replace (length l - length l)%nat with 0%nat in Hi by lia. simpl in Hi.
    split; [reflexivity|]. split; [congruence|].
    intros j Hj.
    assert (j < length l)%nat as Hlt.
    { destruct (l !! j) eqn:E; [|discriminate]. eapply lookup_lt_Some; eauto. }
    specialize (Hmin j Hlt). rewrite lookup_app_l in Hmin by assumption. auto.
Qed.

Lemma indexes_first_empty : indexes_first key_of [] ∅.
Proof.
  intros k i. split.
  - rewrite lookup_empty. discriminate.
  - intros [H _]. rewrite lookup_nil in H. discriminate.
Qed.

(** [emplace] followed by [push_back] keeps the index on first positions. *)
Lemma indexes_first_push (l : list A) (m : gmap string nat) x :
  indexes_first key_of l m ->
  indexes_first key_of (l ++ [x]) (Gguf.emplace (key_of x) (length l) m).
Proof.
  intros Hm k i. unfold Gguf.emplace.
  destruct (m !! key_of x) as [i0|] eqn:Ex.
  - (* the key is already indexed: nothing changes *)
    rewrite (Hm k i). split.
    + apply first_occurrence_app_l.
    + intros Hf. apply first_occurrence_app_inv in Hf as [Hf | (-> & <- & Hnone)].
      * assumption.
      * exfalso. apply Hm in Ex. destruct Ex as [Ex _]. exact (Hnone _ Ex).
  - (* a new key: it is indexed at the position of the new entry *)
    assert (forall j, key_of <$> l !! j <> Some (key_of x)) as Hfresh.
    { intros j Hj. apply first_occurrence_exists in Hj as [i' Hi'].
      apply Hm in Hi'. congruence. }
    destruct (decide (key_of x = k)) as [<- | Hne].
    + rewrite lookup_insert_eq. split.
      * intros [= <-]. split.
        -- rewrite lookup_app_r by lia.
           replace (length l - length l)%nat with 0%nat by lia. reflexivity.
        -- intros j Hj. rewrite lookup_app_l by assumption. apply Hfresh.
      * intros Hf. apply first_occurrence_app_inv in Hf as [Hf | (-> & _ & _)].
        -- destruct Hf as [Hf _]. exfalso. exact (Hfresh _ Hf).
        -- reflexivity.
    + rewrite lookup_insert_ne by assumption. rewrite (Hm k i). split.
      * apply first_occurrence_app_l.
      * intros Hf. apply first_occurrence_app_inv in Hf as [Hf | (_ & Heq & _)].
        -- assumption.
        -- contradiction.
Qed.

End IndexFirst.

Lemma parse_kv_inv r out r' out' :
  Gguf.parse_kv (r, out) = Ok (r', out') ->
  exists kv, out' = Gguf.push_kv kv out.
Proof.
  unfold Gguf.parse_kv. intros H.
  inv_bind H. destruct a as [k r1]. inv_bind H. destruct a as [tu r2].
  destruct (Gguf.value_type_of_u32 tu) as [t|]; [|discriminate].
  inv_bind H. destruct a as [v r3]. inversion H; subst. eauto.
Qed.

Lemma parse_tensor_inv r out r' out' :
  Gguf.parse_tensor (r, out) = Ok (r', out') ->
  exists ti, out' = Gguf.push_tensor ti out.
Proof.
  unfold Gguf.parse_tensor. intros H.
  inv_bind H. destruct a as [nm r1]. inv_bind H. destruct a as [n_dims r2].
  inv_bind H. destruct a as [r3 ds]. inv_bind H. destruct a as [ty r4].
  inv_bind H. destruct a as [off r5]. inversion H; subst. eauto.
Qed.

Lemma push_kv_indexed kv out : file_indexed out -> file_indexed (Gguf.push_kv kv out).
Proof.
  intros [Hk Ht]. split; simpl; [|assumption].
  apply (indexes_first_push Gguf.key). assumption.
Qed.

Lemma push_tensor_indexed ti out :
  file_indexed out -> file_indexed (Gguf.push_tensor ti out).
Proof.
  intros [Hk Ht]. split; simpl; [assumption|].
  apply (indexes_first_push Gguf.name). assumption.
Qed.

Lemma read_directory_inv data r6 out2 :
  Gguf.read_directory data = Ok (r6, out2) ->
  exists h r4 r5 out1,
    0 <= Gguf.metadata_kv_count h /\ 0 <= Gguf.tensor_count h /\
    for_u64 (Gguf.metadata_kv_count h) Gguf.parse_kv (r4, Gguf.empty_file h) = Ok (r5, out1) /\
    for_u64 (Gguf.tensor_count h) Gguf.parse_tensor (r5, out1) = Ok (r6, out2) /\
    0 <= Reader.pos_ r4.
Proof.
  unfold Gguf.read_directory. intros H.
  inv_bind H. destruct a as [magic r1].
  destruct (negb (Gguf.is_magic magic)); [discriminate|].
  inv_bind H. destruct a as [ver r2].
  inv_bind H. destruct a as [tc r3].
  inv_bind H. destruct a as [kc r4].
  inv_bind H. inv_bind H. destruct a0 as [r5 out1]. inv_bind H.
  exists {| Gguf.version := ver; Gguf.tensor_count := tc; Gguf.metadata_kv_count := kc |},
    r4, r5, out1.
  simpl Gguf.metadata_kv_count. simpl Gguf.tensor_count.
  repeat split; try assumption.
  - eapply read_nonneg; eassumption.
  - eapply read_nonneg; eassumption.
  - unfold Reader.read_u64, Reader.read in Ha2. destruct (_ >? _); [discriminate|].
    inversion Ha2; subst. simpl. unfold U64.add, U64.wrap. apply Z.mod_pos_bound. lia.
Qed.

(** The shape of a successful [parse]: the directory was read, the data
    section starts inside the file, and the range check passed. *)
Lemma parse_ok_inv data f :
  Gguf.parse data = Ok f ->
  exists r6 out2,
    Gguf.read_directory data = Ok (r6, out2) /\
    f = Gguf.set_data_section_offset
          (Reader.align_up (Reader.pos r6) (Gguf.alignment_of out2)) out2 /\
    Gguf.data_section_offset f <= Z.of_nat (length data) /\
    Gguf.check_tensors (Gguf.data_section_offset f) (Z.of_nat (length data))
      (Gguf.tensors f) = Ok tt.
Proof.
  unfold Gguf.parse. intros H.
  inv_bind H. destruct a as [r6 out2].
  match type of H with
  | (if ?c then _ else _) = _ => destruct c eqn:Hdso; [discriminate|]
  end.
  inv_bind H. destruct a. inversion H; subst f; clear H.
  exists r6, out2. repeat split; try assumption.
  unfold Reader.size, Reader.size_, Reader.init in Hdso. simpl in Hdso. simpl.
  rewrite Z.gtb_ltb in Hdso. apply Z.ltb_ge in Hdso. exact Hdso.
Qed.

Lemma parse_kv_fields r out r' out' :
  Gguf.parse_kv (r, out) = Ok (r', out') ->
  Gguf.header out' = Gguf.header out /\
  Z.of_nat (length (Gguf.metadata out')) = Z.of_nat (length (Gguf.metadata out)) + 1.
Proof.
  intros H. apply parse_kv_inv in H as [kv ->]. simpl.
  rewrite length_app. simpl. split; [reflexivity | lia].
Qed.

Lemma parse_tensor_fields r out r' out' :
  Gguf.parse_tensor (r, out) = Ok (r', out') ->
  Gguf.header out' = Gguf.header out /\
  Gguf.metadata out' = Gguf.metadata out /\
  Z.of_nat (length (Gguf.tensors out')) = Z.of_nat (length (Gguf.tensors out)) + 1.
Proof.
  intros H. apply parse_tensor_inv in H as [ti ->]. simpl.
  rewrite length_app. simpl. repeat split; lia.
Qed.

(** C1 (as amended). In a file that [parse] accepts, each lookup index maps
    a key (a tensor name) to the FIRST entry written under it, and to nothing
    else: [emplace] leaves an existing entry alone.  The vectors keep every
    entry read, duplicates included, in the order of the file: their lengths
    are the counts of the header, and each run of a directory loop appends
    the entry it has read behind the entries already there. *)
Theorem parse_index_first_written (data : list byte) (f : Gguf.File) :
  Gguf.parse data = Ok f ->
  (forall k i, Gguf.kv_index_by_key f !! k = Some i <->
               first_occurrence Gguf.key (Gguf.metadata f) k i) /\
  (forall n i, Gguf.tensor_index_by_name f !! n = Some i <->
               first_occurrence Gguf.name (Gguf.tensors f) n i) /\
  Z.of_nat (length (Gguf.metadata f)) = Gguf.metadata_kv_count (Gguf.header f) /\
  Z.of_nat (length (Gguf.tensors f)) = Gguf.tensor_count (Gguf.header f) /\
  (forall r out r' out',
     Gguf.parse_kv (r, out) = Ok (r', out') ->
     exists kv, Gguf.metadata out' = Gguf.metadata out ++ [kv]) /\
  (forall r out r' out',
     Gguf.parse_tensor (r, out) = Ok (r', out') ->
     exists ti, Gguf.tensors out' = Gguf.tensors out ++ [ti]).
Proof.
  intros H.
  cut ((forall k i, Gguf.kv_index_by_key f !! k = Some i <->
                    first_occurrence Gguf.key (Gguf.metadata f) k i) /\
       (forall n i, Gguf.tensor_index_by_name f !! n = Some i <->
                    first_occurrence Gguf.name (Gguf.tensors f) n i) /\
       Z.of_nat (length (Gguf.metadata f)) = Gguf.metadata_kv_count (Gguf.header f) /\
       Z.of_nat (length (Gguf.tensors f)) = Gguf.tensor_count (Gguf.header f)).
  { intros (H1 & H2 & H3 & H4). repeat (split; [assumption|]). split.
    - intros r out r' out' Hb. apply parse_kv_inv in Hb as [kv ->]. exists kv. reflexivity.
    - intros r out r' out' Hb. apply parse_tensor_inv in Hb as [ti ->]. exists ti. reflexivity. }
  apply parse_ok_inv in H as (r6 & out2 & Hdir & -> & _ & _).
  apply read_directory_inv in Hdir as (h & r4 & r5 & out1 & Hkc & Htc & Hkv & Hts & _).
  (* the metadata loop *)
  assert (file_indexed out1 /\ Gguf.header out1 = h /\ Gguf.tensors out1 = []) as (Hi1 & Hh1 & Ht1).
  { refine (for_u64_inv
              (fun st => file_indexed (snd st) /\ Gguf.header (snd st) = h /\
                         Gguf.tensors (snd st) = [])
              Gguf.parse_kv _ _ (r4, Gguf.empty_file h) (r5, out1) _ Hkv).
    - intros [r out] [r' out'] (Hi & Hh & Ht) Hb. simpl in *.
      apply parse_kv_inv in Hb as [kv ->].
      split; [apply push_kv_indexed; assumption|]. simpl. split; assumption.
    - simpl. split; [split; apply indexes_first_empty | split; reflexivity]. }
  assert (Z.of_nat (length (Gguf.metadata out1)) = Gguf.metadata_kv_count h) as Hlen1.
  { pose proof (for_u64_count (fun st => Z.of_nat (length (Gguf.metadata (snd st))))
                  Gguf.parse_kv) as Hc.
    specialize (Hc (fun s s' => match s, s' with
                                | (r, out), (r', out') => fun Hb =>
                                    proj2 (parse_kv_fields r out r' out' Hb)
                                end)).
    specialize (Hc _ _ _ Hkc Hkv). simpl in Hc. lia. }
  (* the tensor loop *)
  assert (file_indexed out2 /\ Gguf.header out2 = h /\
          Gguf.metadata out2 = Gguf.metadata out1) as (Hi2 & Hh2 & Hm2).
  { refine (for_u64_inv
              (fun st => file_indexed (snd st) /\ Gguf.header (snd st) = h /\
                         Gguf.metadata (snd st) = Gguf.metadata out1)
              Gguf.parse_tensor _ _ (r5, out1) (r6, out2) _ Hts).
    - intros [r out] [r' out'] (Hi & Hh & Hm) Hb. simpl in *.
      apply parse_tensor_inv in Hb as [ti ->].
      split; [apply push_tensor_indexed; assumption|]. simpl. split; assumption.
    - simpl. split; [assumption | split; [assumption | reflexivity]]. }
  assert (Z.of_nat (length (Gguf.tensors out2)) = Gguf.tensor_count h) as Hlen2.
  { pose proof (for_u64_count (fun st => Z.of_nat (length (Gguf.tensors (snd st))))
                  Gguf.parse_tensor) as Hc.
    specialize (Hc (fun s s' => match s, s' with
                                | (r, out), (r', out') => fun Hb =>
                                    proj2 (proj2 (parse_tensor_fields r out r' out' Hb))
                                end)).
    specialize (Hc _ _ _ Htc Hts). simpl in Hc. rewrite Ht1 in Hc. simpl in Hc. lia. }
  destruct Hi2 as [Hk Hn]. simpl.
  rewrite Hh2, Hm2, Hlen1, Hlen2. rewrite Hm2 in Hk.
  split; [exact Hk | split; [exact Hn | split; reflexivity]].
Qed.

(** The theorem at a file with the key ["k"] written twice: the index holds
    position 0 for ["k"], which is its first occurrence. *)
Lemma parse_index_first_written_witness :
  exists f,
    Gguf.parse file_dup_key = Ok f /\
    Gguf.kv_index_by_key f !! "k"%string = Some 0%nat /\
    first_occurrence Gguf.key (Gguf.metadata f) "k" 0 /\
    Z.of_nat (length (Gguf.metadata f)) = 2.
Proof.
  assert (exists f, Gguf.parse file_dup_key = Ok f /\
                    Gguf.kv_index_by_key f !! "k"%string = Some 0%nat) as (f & Hf & Hk).
  { eexists. split; [vm_compute; reflexivity | reflexivity]. }
  destruct (parse_index_first_written file_dup_key f Hf) as (Hidx & _ & Hlen & _).
  exists f. split; [exact Hf|]. split; [exact Hk|]. split.
  - apply Hidx. exact Hk.
  - rewrite Hlen. clear - Hf. revert Hf. vm_compute. intros [= <-]. reflexivity.
Defined.

(** C1 as stated fails: with the key ["k"] written at positions 0 and 1 of
    the metadata table, in this order, the index of the parsed file maps
    ["k"] to position 0, which is not the last one written; the same holds of
    the tensor directory for the name ["w"]. *)
Lemma parse_index_not_last_written :
  (exists f,
     Gguf.parse file_dup_key = Ok f /\
     map Gguf.key (Gguf.metadata f) = ["k"; "k"]%string /\
     map (fun kv => Gguf.payload (Gguf.value kv)) (Gguf.metadata f)
       = [Gguf.P_u32 1; Gguf.P_u32 2] /\
     Gguf.kv_index_by_key f !! "k"%string = Some 0%nat /\
     ~ last_occurrence Gguf.key (Gguf.metadata f) "k" 0) /\
  (exists g,
     Gguf.parse file_dup_name = Ok g /\
     map Gguf.name (Gguf.tensors g) = ["w"; "w"]%string /\
     map Gguf.offset (Gguf.tensors g) = [0; 32] /\
     Gguf.tensor_index_by_name g !! "w"%string = Some 0%nat /\
     ~ last_occurrence Gguf.name (Gguf.tensors g) "w" 0).
Proof.
  split.
  - eexists. split; [vm_compute; reflexivity|].
    repeat split; try reflexivity.
    intros [_ H]. apply (H 1%nat); [lia | reflexivity].
  - eexists. split; [vm_compute; reflexivity|].
    repeat split; try reflexivity.
    intros [_ H]. apply (H 1%nat); [lia | reflexivity].
Qed.

(** ** Checked arithmetic *)

Lemma u64_wrap_small z : 0 <= z <= U64.max -> U64.wrap z = z.
Proof. unfold U64.wrap, U64.max. intros H. apply Z.mod_small. lia. Qed.

Lemma u64_wrap_nonneg z : 0 <= U64.wrap z.
Proof. unfold U64.wrap. apply Z.mod_pos_bound. lia. Qed.

Lemma mul_overflow_u64_none a b :
  0 < a -> 0 < b -> a * b > U64.max -> Gguf.mul_overflow_u64 a b = None.
Proof.
  intros Ha Hb Hab. unfold Gguf.mul_overflow_u64.
  destruct (Z.eqb_spec a 0); [lia|]. destruct (Z.eqb_spec b 0); [lia|]. simpl.
  assert (U64.max / b < a) by (apply Z.div_lt_upper_bound; lia).
  destruct (Z.gtb_spec a (U64.max / b)); [reflexivity | lia].
Qed.

Lemma mul_overflow_u64_some a b c :
  0 <= a -> 0 <= b -> Gguf.mul_overflow_u64 a b = Some c ->
  c = a * b /\ 0 <= c <= U64.max.
Proof.
  intros Ha Hb. unfold Gguf.mul_overflow_u64.
  destruct (Z.eqb_spec a 0) as [-> | Ha0]; simpl.
  { intros [= <-]. unfold U64.max. lia. }
  destruct (Z.eqb_spec b 0) as [-> | Hb0]; simpl.
  { intros [= <-]. unfold U64.max. lia. }
  destruct (Z.gtb_spec a (U64.max / b)) as [Hgt | Hle]; [discriminate|].
  intros [= <-].
  assert (a * b <= U64.max) as Hab.
  { pose proof (Z.mul_div_le U64.max b ltac:(lia)). nia. }
  unfold U64.mul. rewrite u64_wrap_small by nia. nia.
Qed.

Lemma add_overflow_u64_none a b :
  a + b > U64.max -> Gguf.add_overflow_u64 a b = None.
Proof.
  intros H. unfold Gguf.add_overflow_u64.
  destruct (Z.gtb_spec a (U64.max - b)); [reflexivity | lia].
Qed.

Lemma add_overflow_u64_some a b c :
  0 <= a -> 0 <= b -> Gguf.add_overflow_u64 a b = Some c ->
  c = a + b /\ a + b <= U64.max.
Proof.
  intros Ha Hb. unfold Gguf.add_overflow_u64.
  destruct (Z.gtb_spec a (U64.max - b)); [discriminate|].
  intros [= <-]. unfold U64.add. rewrite u64_wrap_small by lia. lia.
Qed.

Lemma mul_dims_nonneg ds : forall n c,
  0 <= n -> Gguf.mul_dims n ds = Some c -> 0 <= c.
Proof.
  induction ds as [|d ds IH]; simpl; intros n c Hn H.
  - inversion H; subst; assumption.
  - destruct (Gguf.mul_overflow_u64 n d) as [nb|] eqn:E; [|discriminate].
    eapply IH; [|eassumption].
    unfold Gguf.mul_overflow_u64 in E.
    destruct ((n =? 0) || (d =? 0)); [inversion E; lia|].
    destruct (n >? U64.max / d); [discriminate|].
    inversion E. apply u64_wrap_nonneg.
Qed.

Lemma tensor_nbytes_nonneg t nb : Gguf.tensor_nbytes t = Some nb -> 0 <= nb.
Proof.
  unfold Gguf.tensor_nbytes.
  destruct (Gguf.ggml_type_traits (Gguf.ggml_type t)) as [tr|]; [|discriminate].
  destruct (Gguf.dims t) as [|d0 rest]; [intros [= <-]; lia|].
  match goal with |- match ?b with _ => _ end = _ -> _ => destruct b as [b0|] end;
    [|discriminate].
  destruct (Gguf.mul_dims b0 rest) as [nblocks|]; [|discriminate].
  unfold Gguf.mul_overflow_u64.
  destruct ((nblocks =? 0) || (Gguf.type_size tr =? 0)); [intros [= <-]; lia|].
  destruct (nblocks >? U64.max / Gguf.type_size tr); [discriminate|].
  intros [= <-]. apply u64_wrap_nonneg.
Qed.

(** ** The cursor of the reader *)

Lemma read_pos_nonneg sz r x r' : Reader.read sz r = Ok (x, r') -> 0 <= Reader.pos r'.
Proof.
  unfold Reader.read. destruct (_ >? _); [discriminate|].
  intros [= _ <-]. apply u64_wrap_nonneg.
Qed.

Lemma skip_pos_nonneg n r r' : Reader.skip n r = Ok r' -> 0 <= Reader.pos r'.
Proof.
  unfold Reader.skip. destruct (_ >? _); [discriminate|].
  intros [= <-]. apply u64_wrap_nonneg.
Qed.

Lemma read_string_pos_nonneg r s r' :
  Reader.read_string r = Ok (s, r') -> 0 <= Reader.pos r'.
Proof.
  unfold Reader.read_string. intros H. inv_bind H. destruct a as [len r1].
  destruct (_ >? _); [discriminate|]. inversion H; subst. apply u64_wrap_nonneg.
Qed.

Lemma skip_u64_pos_nonneg n r r' : Gguf.skip_u64 r n = Ok r' -> 0 <= Reader.pos r'.
Proof.
  unfold Gguf.skip_u64. destruct (_ >? _); [discriminate|]. apply skip_pos_nonneg.
Qed.

Lemma skip_array_payload_pos_nonneg n sz r r' :
  Gguf.skip_array_payload r n sz = Ok r' -> 0 <= Reader.pos r'.
Proof.
  unfold Gguf.skip_array_payload. destruct (Gguf.mul_overflow_u64 n sz); [|discriminate].
  apply skip_u64_pos_nonneg.
Qed.

Lemma read_value_pos_nonneg r t v r' :
  0 <= Reader.pos r -> Gguf.read_value r t = Ok (v, r') -> 0 <= Reader.pos r'.
Proof.
  intros Hr H. destruct t; simpl in H;
    try (inv_bind H; destruct a as [x r1]; inversion H; subst;
         first [ eapply read_pos_nonneg; eassumption
               | eapply read_string_pos_nonneg; eassumption ]).
  (* Array *)
  inv_bind H. destruct a as [et r1]. inv_bind H. destruct a as [n r2].
  apply read_pos_nonneg in Ha0.
  destruct (Gguf.value_type_of_u32 et) as [elem|]; [|discriminate].
  destruct elem; try discriminate;
    inv_bind H; inversion H; subst;
    try (eapply skip_u64_pos_nonneg; eassumption);
    try (eapply skip_array_payload_pos_nonneg; eassumption).
  (* array of strings *)
  refine (for_u64_inv (fun rr => 0 <= Reader.pos rr) _ _ n r2 r' Ha0 Ha1).
  intros s s' _ Hb. inv_bind Hb. destruct a as [str rr1]. inversion Hb; subst.
  eapply read_string_pos_nonneg; eassumption.
Qed.

Lemma parse_kv_pos_nonneg r out r' out' :
  Gguf.parse_kv (r, out) = Ok (r', out') -> 0 <= Reader.pos r'.
Proof.
  unfold Gguf.parse_kv. intros H.
  inv_bind H. destruct a as [k r1]. inv_bind H. destruct a as [tu r2].
  destruct (Gguf.value_type_of_u32 tu) as [t|]; [|discriminate].
  inv_bind H. destruct a as [v r3]. inversion H; subst.
  eapply read_value_pos_nonneg; [|eassumption]. eapply read_pos_nonneg; eassumption.
Qed.

Lemma parse_tensor_pos_nonneg r out r' out' :
  Gguf.parse_tensor (r, out) = Ok (r', out') ->
  0 <= Reader.pos r' /\
  (offsets_nonneg (Gguf.tensors out) -> offsets_nonneg (Gguf.tensors out')).
Proof.
  unfold Gguf.parse_tensor. intros H.
  inv_bind H. destruct a as [nm r1]. inv_bind H. destruct a as [n_dims r2].
  inv_bind H. destruct a as [r3 ds]. inv_bind H. destruct a as [ty r4].
  inv_bind H. destruct a as [off r5]. inversion H; subst. split.
  - eapply read_pos_nonneg; eassumption.
  - intros Hts. simpl. apply Forall_app. split; [assumption|].
    constructor; [|constructor]. simpl. eapply read_nonneg; eassumption.
Qed.

Lemma read_directory_nonneg data r out :
  Gguf.read_directory data = Ok (r, out) ->
  0 <= Reader.pos r /\ offsets_nonneg (Gguf.tensors out).
Proof.
  intros H.
  apply read_directory_inv in H as (h & r4 & r5 & out1 & Hkc & Htc & Hkv & Hts & H4).
  assert (0 <= Reader.pos r5 /\ Gguf.tensors out1 = []) as [H5 Ht1].
  { refine (for_u64_inv
              (fun st => 0 <= Reader.pos (fst st) /\ Gguf.tensors (snd st) = [])
              Gguf.parse_kv _ _ (r4, Gguf.empty_file h) (r5, out1) _ Hkv).
    - intros [ra oa] [rb ob] [Hp Ht] Hb. simpl in *. split.
      + eapply parse_kv_pos_nonneg; eassumption.
      + apply parse_kv_inv in Hb as [kv ->]. assumption.
    - simpl. split; [assumption | reflexivity]. }
  refine (for_u64_inv
            (fun st => 0 <= Reader.pos (fst st) /\ offsets_nonneg (Gguf.tensors (snd st)))
            Gguf.parse_tensor _ _ (r5, out1) (r, out) _ Hts).
  - intros [ra oa] [rb ob] [Hp Ht] Hb. simpl in *.
    apply parse_tensor_pos_nonneg in Hb as [Hb1 Hb2]. split; auto.
  - simpl. split; [assumption|]. rewrite Ht1. constructor.
Qed.

Lemma align_up_nonneg v a : 0 <= v -> 0 <= Reader.align_up v a.
Proof.
  intros Hv. unfold Reader.align_up.
  destruct (a =? 0); [assumption|].
  destruct (v mod a =? 0); [assumption|]. apply u64_wrap_nonneg.
Qed.

(** ** The range check of [parse] *)

Lemma check_tensor_ok dso size t :
  0 <= dso -> 0 <= Gguf.offset t ->
  Gguf.check_tensor dso size t = Ok tt -> tensor_in_file dso size t.
Proof.
  intros Hd Ho. unfold Gguf.check_tensor.
  destruct (Gguf.add_overflow_u64 dso (Gguf.offset t)) as [abs_off|] eqn:Ea; [|discriminate].
  apply add_overflow_u64_some in Ea as [-> Hmax]; try assumption.
  destruct (Z.gtb_spec (dso + Gguf.offset t) size) as [|Hle]; [discriminate|].
  destruct (Gguf.tensor_nbytes t) as [nbytes|] eqn:En.
  - pose proof (tensor_nbytes_nonneg _ _ En) as Hnb.
    destruct (Gguf.add_overflow_u64 (dso + Gguf.offset t) nbytes) as [end_|] eqn:Ee;
      [|discriminate].
    apply add_overflow_u64_some in Ee as [-> Hmax2]; try lia.
    destruct (Z.gtb_spec (dso + Gguf.offset t + nbytes) size) as [|Hle2]; [discriminate|].
    intros _. split; [assumption|]. split; [assumption|].
    intros nb Hnb'. rewrite En in Hnb'. injection Hnb' as <-. split; assumption.
  - intros _. split; [assumption|]. split; [assumption|].
    intros nb Hnb'. rewrite En in Hnb'. discriminate.
Qed.

Lemma check_tensors_ok dso size ts :
  0 <= dso -> offsets_nonneg ts ->
  Gguf.check_tensors dso size ts = Ok tt -> Forall (tensor_in_file dso size) ts.
Proof.
  intros Hd Hts. induction Hts as [|t ts Ht Hts IH]; simpl; intros H.
  - constructor.
  - inv_bind H. destruct a. constructor; [|auto].
    apply check_tensor_ok; assumption.
Qed.

Lemma check_tensor_err dso size t e :
  Gguf.check_tensor dso size t = Err e ->
  e = E_tensor_offset_out_of_bounds (Gguf.name t) \/
  e = E_tensor_out_of_bounds (Gguf.name t).
Proof.
  unfold Gguf.check_tensor.
  destruct (Gguf.add_overflow_u64 dso (Gguf.offset t)) as [abs_off|];
    [|intros [= <-]; auto].
  destruct (abs_off >? size); [intros [= <-]; auto|].
  destruct (Gguf.tensor_nbytes t) as [nbytes|]; [|discriminate].
  destruct (Gguf.add_overflow_u64 abs_off nbytes) as [end_|]; [|intros [= <-]; auto].
  destruct (end_ >? size); [intros [= <-]; auto | discriminate].
Qed.

Lemma check_tensors_err dso size ts e :
  Gguf.check_tensors dso size ts = Err e -> range_error ts e.
Proof.
  induction ts as [|t ts IH]; simpl; [discriminate|].
  destruct (Gguf.check_tensor dso size t) as [[]|e'] eqn:E; simpl.
  - intros H. destruct (IH H) as (t' & Hin & He). exists t'. split; [|assumption].
    apply list_elem_of_further. assumption.
  - intros [= <-]. exists t. split; [apply list_elem_of_here|].
    eapply check_tensor_err; eassumption.
Qed.

Lemma check_tensors_overflow dso size ts t :
  0 <= dso -> offsets_nonneg ts ->
  t ∈ ts -> range_overflows dso t ->
  exists e, Gguf.check_tensors dso size ts = Err e /\ range_error ts e.
Proof.
  intros Hd Hts Hin Hov.
  destruct (Gguf.check_tensors dso size ts) as [[]|e] eqn:E.
  - exfalso. apply check_tensors_ok in E; try assumption.
    rewrite Forall_forall in E.
    destruct (E t Hin) as (H1 & H2 & H3).
    destruct Hov as [Hov | (nb & Hnb & Hov)]; [lia|].
    specialize (H3 nb Hnb). lia.
  - exists e. split; [reflexivity|]. eapply check_tensors_err; eassumption.
Qed.

(** A file that [parse] accepts keeps every tensor of a computable byte count
    inside the file, in unbounded integers. *)
Lemma parse_tensors_in_file data f :
  Gguf.parse data = Ok f ->
  0 <= Gguf.data_section_offset f <= Z.of_nat (length data) /\
  offsets_nonneg (Gguf.tensors f) /\
  Forall (tensor_in_file (Gguf.data_section_offset f) (Z.of_nat (length data)))
    (Gguf.tensors f).
Proof.
  intros H. apply parse_ok_inv in H as (r6 & out2 & Hdir & -> & Hle & Hchk).
  apply read_directory_nonneg in Hdir as [Hpos Hoff]. simpl in *.
  pose proof (align_up_nonneg _ (Gguf.alignment_of out2) Hpos) as Hd.
  split; [lia|]. split; [assumption|].
  apply check_tensors_ok; assumption.
Qed.

(** C2 (as amended). Two kinds of overflow are reported while parsing.
    (1) In [read_value], an array of 2-, 4- or 8-byte elements whose payload
    size [n * elem_size] does not fit 64 bits throws "array skip overflow".
    (2) Once the directory is read, a tensor for which
    [data_section_offset + offset] or [abs_off + nbytes] does not fit 64
    bits makes [parse] throw the out-of-bounds error of the range check
    ("tensor offset out of bounds" or "tensor out of bounds"), not an
    arithmetic one.  Nothing is stated about an overflow inside
    [tensor_nbytes]. *)
Theorem parse_overflow_errors :
  (forall r et n r1 r2 elem sz,
     Reader.read_u32 r = Ok (et, r1) ->
     Reader.read_u64 r1 = Ok (n, r2) ->
     Gguf.value_type_of_u32 et = Some elem ->
     Gguf.checked_elem_size elem = Some sz ->
     n * sz > U64.max ->
     Gguf.read_value r Gguf.Array = Err E_array_skip_overflow) /\
  (forall data r out t,
     Gguf.read_directory data = Ok (r, out) ->
     Reader.align_up (Reader.pos r) (Gguf.alignment_of out) <= Z.of_nat (length data) ->
     t ∈ Gguf.tensors out ->
     range_overflows (Reader.align_up (Reader.pos r) (Gguf.alignment_of out)) t ->
     exists e, Gguf.parse data = Err e /\ range_error (Gguf.tensors out) e).
Proof.
  split.
  - intros r et n r1 r2 elem sz Het Hn Helem Hsz Hov.
    assert (0 <= n) as Hn0 by (eapply read_nonneg; eassumption).
    unfold Gguf.read_value. rewrite Het. simpl. rewrite Hn. simpl. rewrite Helem.
    assert (Gguf.skip_array_payload r2 n sz = Err E_array_skip_overflow) as Hskip.
    { unfold Gguf.skip_array_payload.
      assert (0 < sz) by (destruct elem; simpl in Hsz; inversion Hsz; lia).
      rewrite mul_overflow_u64_none; [reflexivity | unfold U64.max in *; nia | lia | lia]. }
    destruct elem; simpl in Hsz; inversion Hsz; subst sz; rewrite Hskip; reflexivity.
  - intros data r out t Hdir Hle Hin Hov.
    pose proof (read_directory_nonneg _ _ _ Hdir) as [Hpos Hoff].
    pose proof (align_up_nonneg _ (Gguf.alignment_of out) Hpos) as Hd.
    destruct (check_tensors_overflow _ (Z.of_nat (length data)) _ _ Hd Hoff Hin Hov)
      as (e & Hchk & He).
    exists e. split; [|assumption].
    unfold Gguf.parse. rewrite Hdir. simpl.
    unfold Reader.size, Reader.size_, Reader.init. simpl.
    destruct (Z.gtb_spec (Reader.align_up (Reader.pos r) (Gguf.alignment_of out))
                (Z.of_nat (length data))) as [Hgt|_]; [lia|].
    rewrite Hchk. reflexivity.
Qed.

(** The theorem at an array of [2^63] 16-bit integers (the reader stands
    after the key and the value type of the entry) and at a tensor of offset
    [2^64 - 1]. *)
Lemma parse_overflow_errors_witness :
  Gguf.read_value (Reader.mk file_array_overflow 37) Gguf.Array = Err E_array_skip_overflow /\
  exists e, Gguf.parse file_offset_overflow = Err e /\
            (e = E_tensor_offset_out_of_bounds "t" \/ e = E_tensor_out_of_bounds "t").
Proof.
  split.
  - eapply (proj1 parse_overflow_errors) with (elem := Gguf.Uint16) (sz := 2);
      [ vm_compute; reflexivity | vm_compute; reflexivity | reflexivity
      | reflexivity | vm_compute; reflexivity ].
  - edestruct (proj2 parse_overflow_errors file_offset_overflow) as (e & He & Hr).
    + vm_compute. reflexivity.
    + vm_compute. discriminate.
    + apply list_elem_of_here.
    + left. vm_compute. reflexivity.
    + exists e. split; [exact He|].
      destruct Hr as (t & Ht & Hr). apply list_elem_of_singleton in Ht. subst t. exact Hr.
Defined.

(** C2 as stated fails on both accounts.  The F32 tensor of shape
    [2^63, 4] has a block count [2^63 * 4] that overflows 64 bits:
    [tensor_nbytes] answers [nullopt] and [parse] accepts the file.  The
    tensor of offset [2^64 - 1] overflows [data_section_offset + offset]:
    [parse] fails, with "tensor offset out of bounds". *)
Lemma parse_overflow_not_arithmetic_error :
  (Gguf.mul_overflow_u64 (2 ^ 63) 4 = None /\
   exists f, Gguf.parse file_nbytes_overflow = Ok f /\
             map Gguf.dims (Gguf.tensors f) = [[2 ^ 63; 4]] /\
             map Gguf.tensor_nbytes (Gguf.tensors f) = [None]) /\
  (Gguf.add_overflow_u64 64 (2 ^ 64 - 1) = None /\
   Gguf.parse file_offset_overflow = Err (E_tensor_offset_out_of_bounds "t")).
Proof.
  split; split.
  - reflexivity.
  - eexists. split; [vm_compute; reflexivity|]. split; reflexivity.
  - reflexivity.
  - vm_compute. reflexivity.
Qed.

(** ** The cursor of [Reader::skip] *)

(** As long as [pos_ + n] fits 64 bits, [skip] succeeds exactly when
    [pos_ + n <= size_] and moves the cursor to [pos_ + n]. *)
Lemma skip_without_wrap r n :
  0 <= Reader.pos_ r -> 0 <= n -> Reader.pos_ r + n <= U64.max ->
  Reader.skip n r =
    if Reader.pos_ r + n >? Reader.size_ r then Err E_skip_past_EOF
    else Ok (Reader.set_pos r (Reader.pos_ r + n)).
Proof.
  intros Hp Hn Hmax. unfold Reader.skip, U64.add.
  rewrite u64_wrap_small by lia. reflexivity.
Qed.

(** For a cursor and a count of 64 bits, [skip] succeeds in two cases: the
    skipped range ends inside the slice, or [pos_ + n] passes [2^64] and
    wraps to a position of the slice. *)
Lemma skip_ok_iff r n :
  0 <= Reader.pos_ r <= U64.max -> 0 <= n <= U64.max ->
  (exists r', Reader.skip n r = Ok r') <->
  (Reader.pos_ r + n <= Reader.size_ r \/
   (Reader.pos_ r + n > U64.max /\ Reader.pos_ r + n - 2 ^ 64 <= Reader.size_ r)).
Proof.
  intros Hp Hn. unfold Reader.skip, U64.add, U64.wrap. unfold U64.max in *.
  destruct (Z_le_gt_dec (Reader.pos_ r + n) (2 ^ 64 - 1)) as [Hle | Hgt].
  - rewrite Z.mod_small by lia.
    destruct (Z.gtb_spec (Reader.pos_ r + n) (Reader.size_ r)) as [Hc | Hc]; split.
    + intros [r' Hr]. discriminate.
    + intros [Hr | [Hr _]]; lia.
    + intros _. left. lia.
    + intros _. eauto.
  - assert ((Reader.pos_ r + n) mod 2 ^ 64 = Reader.pos_ r + n - 2 ^ 64) as ->.
    { symmetry. apply Z.mod_unique with (q := 1); lia. }
    destruct (Z.gtb_spec (Reader.pos_ r + n - 2 ^ 64) (Reader.size_ r)) as [Hc | Hc]; split.
    + intros [r' Hr]. discriminate.
    + intros [Hr | [_ Hr]]; lia.
    + intros _. right. lia.
    + intros _. eauto.
Qed.

(** C10 (the code at the failing input). With the cursor at 49 in a
    64-byte slice, [skip(2^64 - 1)] does not fail although
    [49 + (2^64 - 1) > 64]: the sum wraps to 48, the test [pos_ + n > size_]
    passes, and the cursor moves back from 49 to 48.  This state is reached
    by [parse] on a file whose only metadata entry is an array of
    [2^64 - 1] bytes, and the file is accepted. *)
Theorem reader_skip_wraps_around :
  Reader.skip (2 ^ 64 - 1) (Reader.mk (Wire.zeros 64) 49)
    = Ok (Reader.mk (Wire.zeros 64) 48) /\
  49 + (2 ^ 64 - 1) > Reader.size_ (Reader.mk (Wire.zeros 64) 49) /\
  Gguf.skip_u64 (Reader.mk file_huge_skip 49) (2 ^ 64 - 1)
    = Ok (Reader.mk file_huge_skip 48) /\
  exists f, Gguf.parse file_huge_skip = Ok f /\
            map (fun kv => Gguf.payload (Gguf.value kv)) (Gguf.metadata f)
              = [Gguf.P_array {| Gguf.elem_type := Gguf.Uint8;
                                 Gguf.length_ := 2 ^ 64 - 1 |}].
Proof.
  split; [vm_compute; reflexivity|].
  split; [vm_compute; reflexivity|].
  split; [vm_compute; reflexivity|].
  eexists. split; [vm_compute; reflexivity | reflexivity].
Qed.

(** ** The offset-difference sizes of the loader *)

Lemma sort_insert_perm cmp a l : Loader.sort_insert cmp a l ≡ₚ a :: l.
Proof.
  induction l as [|b l IH]; simpl; [reflexivity|].
  destruct (cmp b a); [|reflexivity].
  rewrite IH. apply Permutation_swap.
Qed.

Lemma sort_by_perm cmp l : Loader.sort_by cmp l ≡ₚ l.
Proof.
  induction l as [|a l IH]; simpl; [reflexivity|].
  rewrite sort_insert_perm. rewrite IH. reflexivity.
Qed.

Lemma ascending_cons ts a b l :
  ascending ts (a :: b :: l) <->
  Loader.offset_at ts a <= Loader.offset_at ts b /\ ascending ts (b :: l).
Proof. reflexivity. Qed.

Lemma sort_insert_head ts a l :
  exists c l', Loader.sort_insert (Loader.offset_lt ts) a l = c :: l' /\
    (c = a \/ exists l0, l = c :: l0 /\ Loader.offset_at ts c < Loader.offset_at ts a).
Proof.
  destruct l as [|b l]; cbn [Loader.sort_insert].
  - exists a, []. split; [reflexivity | left; reflexivity].
  - unfold Loader.offset_lt.
    destruct (Z.ltb_spec (Loader.offset_at ts b) (Loader.offset_at ts a)) as [Hlt | Hge].
    + eexists _, _. split; [reflexivity|]. right. eauto.
    + eexists _, _. split; [reflexivity|]. left. reflexivity.
Qed.

Lemma sort_insert_ascending ts a l :
  ascending ts l -> ascending ts (Loader.sort_insert (Loader.offset_lt ts) a l).
Proof.
  induction l as [|b l IH]; intros Hl; cbn [Loader.sort_insert]; [exact I|].
  unfold Loader.offset_lt at 1.
  destruct (Z.ltb_spec (Loader.offset_at ts b) (Loader.offset_at ts a)) as [Hlt | Hge].
  - assert (ascending ts l) as Hl'.
    { destruct l as [|c l]; [exact I|]. apply ascending_cons in Hl. apply Hl. }
    specialize (IH Hl').
    destruct (sort_insert_head ts a l) as (c & l' & Heq & Hc).
    rewrite Heq in IH |- *. apply ascending_cons. split; [|assumption].
    destruct Hc as [-> | (l0 & -> & _)]; [lia|].
    apply ascending_cons in Hl. apply Hl.
  - apply ascending_cons. split; assumption.
Qed.

Lemma sort_by_ascending ts l : ascending ts (Loader.sort_by (Loader.offset_lt ts) l).
Proof.
  induction l as [|a l IH]; simpl; [exact I|].
  apply sort_insert_ascending. assumption.
Qed.

(** The sort of the model is one of the results [std::sort] may give. *)
Lemma sorted_idx_is_sort ts : sorts_by_offset ts (Loader.sorted_idx ts).
Proof.
  split; [apply sort_by_perm | apply sort_by_ascending].
Qed.

Lemma checked_add_u64_ok a b :
  0 <= a -> 0 <= b -> a + b <= U64.max -> Loader.checked_add_u64 a b = Ok (a + b).
Proof.
  intros Ha Hb Hab. unfold Loader.checked_add_u64.
  destruct (Z.gtb_spec a (U64.max - b)); [lia|].
  unfold U64.add. rewrite u64_wrap_small by lia. reflexivity.
Qed.

(** On indices sorted by offset, with every tensor starting inside the file,
    the size loop of the constructor runs to its end; it writes the gap to
    the next offset at each index it visits and leaves the other slots. *)
Lemma assign_sizes_spec dso size ts :
  0 <= dso -> size <= U64.max ->
  forall idx sizes,
    NoDup idx -> ascending ts idx ->
    (forall i, i ∈ idx ->
       (i < length sizes)%nat /\ 0 <= Loader.offset_at ts i /\
       dso + Loader.offset_at ts i <= size) ->
    exists sizes',
      Loader.assign_sizes dso size ts idx sizes = Ok sizes' /\
      length sizes' = length sizes /\
      (forall j, j ∉ idx -> sizes' !! j = sizes !! j) /\
      (forall p cur, idx !! p = Some cur ->
         sizes' !! cur = Some (offset_gap dso size ts idx p cur)).
Proof.
  intros Hd Hsz. induction idx as [|cur rest IH]; intros sizes Hnd Hasc Hin.
  - exists sizes. simpl. repeat split; try reflexivity.
    intros p cur Hp. rewrite lookup_nil in Hp. discriminate.
  - apply NoDup_cons in Hnd as [Hcur Hnd].
    destruct (Hin cur ltac:(apply list_elem_of_here)) as (Hlt & Hoff & Hle).
    set (next := match rest with
                 | nxt :: _ => dso + Loader.offset_at ts nxt
                 | [] => size
                 end).
    assert (match rest with
            | nxt :: _ => Loader.checked_add_u64 dso (Loader.offset_at ts nxt)
            | [] => Ok size
            end = Ok next /\ dso + Loader.offset_at ts cur <= next <= U64.max)
      as [Hnext Hbound].
    { subst next. destruct rest as [|nxt rest'].
      - split; [reflexivity | lia].
      - destruct (Hin nxt) as (_ & Hoff' & Hle').
        { apply list_elem_of_further, list_elem_of_here. }
        destruct Hasc as [Hcn _].
        rewrite checked_add_u64_ok by lia. split; [reflexivity | lia]. }
    assert (ascending ts rest) as Hasc'.
    { destruct rest as [|nxt rest']; [exact I | apply Hasc]. }
    set (v := next - (dso + Loader.offset_at ts cur)).
    destruct (IH (<[cur := v]> sizes) Hnd Hasc') as (sizes' & Hrun & Hlen & Hout & Hgap).
    { intros i Hi. rewrite length_insert. apply Hin. apply list_elem_of_further. assumption. }
    exists sizes'. split; [|split; [|split]].
    + simpl. rewrite checked_add_u64_ok by lia. simpl. rewrite Hnext. simpl.
      destruct (Z.ltb_spec next (dso + Loader.offset_at ts cur)); [lia|].
      unfold U64.sub. rewrite u64_wrap_small by (subst v; lia). exact Hrun.
    + rewrite Hlen. apply length_insert.
    + intros j Hj. apply not_elem_of_cons in Hj as [Hne Hj].
      rewrite (Hout j Hj). apply list_lookup_insert_ne. congruence.
    + intros [|p] c Hp; simpl in Hp.
      * injection Hp as <-. rewrite (Hout cur Hcur).
        rewrite list_lookup_insert_eq by assumption. f_equal.
        unfold offset_gap. simpl. subst v next.
        destruct rest as [|nxt rest']; simpl; [reflexivity | lia].
      * rewrite (Hgap p c Hp). reflexivity.
Qed.

(** C3 (as amended). The constructor sorts the tensor indices by offset
    before it takes differences, so the order of the directory does not
    matter: for every file that [parse] accepts, and whatever order [idx]
    the sort gives to equal offsets, construction succeeds (it throws
    neither "tensor offsets not monotonic" nor "u64 overflow"), and the size
    recorded for each tensor is the distance from its offset to the next one
    in sorted order, or to the end of the file for the last. *)
Theorem loader_sorts_offsets (mapped : list byte) (f : Gguf.File)
    (idx : list Gguf.TensorInfo -> list nat) :
  Z.of_nat (length mapped) <= U64.max ->
  Gguf.parse mapped = Ok f ->
  sorts_by_offset (Gguf.tensors f) (idx (Gguf.tensors f)) ->
  exists sizes,
    Loader.construct_with idx mapped
      = Ok {| Loader.mapped_ := mapped; Loader.gguf_ := f;
              Loader.tensor_size_from_offsets_ := sizes |} /\
    length sizes = length (Gguf.tensors f) /\
    forall p cur,
      idx (Gguf.tensors f) !! p = Some cur ->
      sizes !! cur = Some (offset_gap (Gguf.data_section_offset f)
                             (Z.of_nat (length mapped)) (Gguf.tensors f)
                             (idx (Gguf.tensors f)) p cur).
Proof.
  intros Hsz Hparse [Hperm Hasc].
  destruct (parse_tensors_in_file _ _ Hparse) as ([Hd Hdle] & Hoff & Hin).
  destruct (assign_sizes_spec (Gguf.data_section_offset f) (Z.of_nat (length mapped))
              (Gguf.tensors f) Hd Hsz (idx (Gguf.tensors f))
              (repeat 0 (length (Gguf.tensors f))))
    as (sizes & Hrun & Hlen & _ & Hgap).
  - rewrite Hperm. apply NoDup_seq.
  - assumption.
  - intros i Hi. rewrite Hperm in Hi. apply elem_of_seq in Hi as [_ Hi]. simpl in Hi.
    rewrite repeat_length. split; [assumption|].
    destruct (lookup_lt_is_Some_2 (Gguf.tensors f) i Hi) as [t Ht].
    unfold Loader.offset_at. rewrite Ht.
    unfold offsets_nonneg in Hoff. rewrite Forall_forall in Hoff, Hin.
    assert (t ∈ Gguf.tensors f) as Hti by (eapply list_elem_of_lookup_2; eassumption).
    destruct (Hin t Hti) as (H1 & _ & _). split; [apply Hoff; assumption | assumption].
  - exists sizes. split; [|split].
    + unfold Loader.construct_with. rewrite Hparse. simpl. rewrite Hrun. reflexivity.
    + rewrite Hlen. apply repeat_length.
    + assumption.
Qed.

(** The theorem at the file whose directory lists the offsets 32 and 0, in
    this order, with the sort of the model. *)
Lemma loader_sorts_offsets_witness :
  exists f sizes,
    Loader.construct file_nonmono
      = Ok {| Loader.mapped_ := file_nonmono; Loader.gguf_ := f;
              Loader.tensor_size_from_offsets_ := sizes |} /\
    length sizes = 2%nat.
Proof.
  assert (exists f, Gguf.parse file_nonmono = Ok f /\ length (Gguf.tensors f) = 2%nat)
    as (f & Hf & Hlen).
  { eexists. split; [vm_compute; reflexivity | reflexivity]. }
  destruct (loader_sorts_offsets file_nonmono f Loader.sorted_idx) as (sizes & H1 & H2 & _).
  - vm_compute. discriminate.
  - exact Hf.
  - apply sorted_idx_is_sort.
  - exists f, sizes. split; [exact H1 | congruence].
Defined.

(** C3 as stated fails: the directory of this file lists the offsets 32 and
    then 0, which is not non-decreasing, and the constructor succeeds, with
    the sizes 32 and 32. *)
Lemma loader_accepts_non_monotonic_file :
  exists ld,
    Loader.construct file_nonmono = Ok ld /\
    map Gguf.offset (Gguf.tensors (Loader.gguf_ ld)) = [32; 0] /\
    Loader.tensor_size_from_offsets_ ld = [32; 32] /\
    Loader.construct file_nonmono <> Err E_offsets_not_monotonic.
Proof.
  eexists. split; [vm_compute; reflexivity|].
  repeat split; try reflexivity. vm_compute. discriminate.
Qed.

(** ** Row lengths of the dequantizers *)

(** C4. For every element count [k] that is not a multiple of 256, both
    dequantizers stop at their [assert(k % QK_K == 0)] and write nothing;
    and [load_tensor_as_f32], their only caller, throws "row_len not multiple
    of 256" for such a row length of a Q4_K or Q6_K tensor before it calls
    them. *)
Theorem dequantize_rejects_partial_block (k : Z) :
  Z.rem k Quants.QK_K <> 0 ->
  (forall x, Quants.dequantize_row_q4_k x k = Err E_assert_k_mod_QK_K) /\
  (forall x, Quants.dequantize_row_q6_k x k = Err E_assert_k_mod_QK_K) /\
  (forall ld nm alignment t rest numel,
     0 <= k ->
     Loader.get_tensor ld nm = Ok t ->
     Loader.tv_dims t = k :: rest ->
     Weights.allocate_f32 (Loader.tv_dims t) alignment = Ok numel ->
     (Loader.tv_ggml_type t = 12 ->
      Weights.load_tensor_as_f32 ld nm alignment = Err (E_q4k_row_len nm)) /\
     (Loader.tv_ggml_type t = 14 ->
      Weights.load_tensor_as_f32 ld nm alignment = Err (E_q6k_row_len nm))).
Proof.
  intros Hk.
  assert (negb (Z.rem k Quants.QK_K =? 0) = true) as Hb.
  { destruct (Z.eqb_spec (Z.rem k Quants.QK_K) 0); [contradiction | reflexivity]. }
  split; [|split].
  - intros x. unfold Quants.dequantize_row_q4_k. rewrite Hb. reflexivity.
  - intros x. unfold Quants.dequantize_row_q6_k. rewrite Hb. reflexivity.
  - intros ld nm alignment t rest numel Hk0 Ht Hdims Halloc.
    assert (negb (k mod Quants.QK_K =? 0) = true) as Hm.
    { rewrite <- Z.rem_mod_nonneg by (unfold Quants.QK_K; lia). exact Hb. }
    unfold Weights.load_tensor_as_f32. rewrite Ht. simpl. rewrite Hdims.
    rewrite <- Hdims. rewrite Halloc. simpl.
    split; intros Hty; rewrite Hty; simpl; rewrite Hm; reflexivity.
Qed.

(** The theorem at [k = 100], with the tensors of [file_partial_rows]. *)
Lemma dequantize_rejects_partial_block_witness :
  Quants.dequantize_row_q4_k [q4_block_ones] 100 = Err E_assert_k_mod_QK_K /\
  Quants.dequantize_row_q6_k [Quants.zero_q6] 100 = Err E_assert_k_mod_QK_K /\
  exists ld,
    Loader.construct file_partial_rows = Ok ld /\
    Weights.load_tensor_as_f32 ld "q" 64 = Err (E_q4k_row_len "q") /\
    Weights.load_tensor_as_f32 ld "p" 64 = Err (E_q6k_row_len "p").
Proof.
  assert (Z.rem 100 Quants.QK_K <> 0) as Hk by (vm_compute; discriminate).
  destruct (dequantize_rejects_partial_block 100 Hk) as (H4 & H6 & Hload).
  split; [apply H4|]. split; [apply H6|].
  eexists. split; [vm_compute; reflexivity|].
  split.
  - eapply Hload; [lia | vm_compute; reflexivity | reflexivity
                  | vm_compute; reflexivity | reflexivity].
  - eapply Hload; [lia | vm_compute; reflexivity | reflexivity
                  | vm_compute; reflexivity | reflexivity].
Defined.

(** ** The Q4_K block of the construction test *)

(** C5. The Q4_K block with [d = 1.0] as a half, [dmin = 0.0], every scale
    byte 1 and every [qs] byte [0x10] dequantizes to exactly 256 floats:
    32 times [+0.0], then 32 times [1.0], four times over. *)
Theorem q4_k_block_of_ones :
  Fp16.fp16_to_fp32 (Quants.q4_d q4_block_ones) = F32.one /\
  Fp16.fp16_to_fp32 (Quants.q4_dmin q4_block_ones) = F32.zero /\
  Quants.dequantize_row_q4_k [q4_block_ones] 256
    = Ok (concat (repeat (repeat F32.zero 32 ++ repeat F32.one 32) 4)) /\
  length (concat (repeat (repeat F32.zero 32 ++ repeat F32.one 32) 4)) = 256%nat.
Proof.
  repeat split; vm_compute; reflexivity.
Qed.

(** ** Half-precision decoding *)

Lemma forall_bits_sound n f : forall acc,
  forall_bits n f acc = true ->
  forall z, acc * 2 ^ Z.of_nat n <= z < (acc + 1) * 2 ^ Z.of_nat n -> f z = true.
Proof.
  induction n as [|n IH]; intros acc H z Hz.
  - simpl in *. replace z with acc by lia. assumption.
  - simpl in H. apply andb_true_iff in H as [H0 H1].
    rewrite Nat2Z.inj_succ, Z.pow_succ_r in Hz by lia.
    destruct (Z_lt_le_dec z ((2 * acc + 1) * 2 ^ Z.of_nat n)) as [Hlt | Hge].
    + apply (IH (2 * acc)); [assumption | lia].
    + apply (IH (2 * acc + 1)); [assumption | lia].
Qed.

(** C6. [fp16_to_fp32] decodes every 16-bit pattern to the [float] of the
    same IEEE 754 value: signed zeros and infinities keep their sign, NaNs
    decode to NaN, and every subnormal and every normal half decodes to a
    well-formed [float] of exactly its value; for a normal half of sign
    [s], biased exponent [e] and fraction [f] this is the finite float of
    sign [s] and of magnitude [(1024 + f) * 2^(e - 25)].  In particular
    [0x0000 -> +0], [0x8000 -> -0], [0x7C00 -> +Inf], [0xFC00 -> -Inf],
    [0x7E00 -> NaN] and [0x0001 -> 2^-24] (written [2^23 * 2^-47]). *)
Theorem fp16_to_fp32_exact :
  (forall h, 0 <= h < 65536 ->
     Fp16.same_value (Fp16.f32_value (Fp16.fp16_to_fp32 h)) (Fp16.ieee_half h) = true /\
     valid_binary F32.prec F32.emax (Fp16.fp16_to_fp32 h) = true) /\
  (forall h, 0 <= h < 65536 -> Fp16.is_normal_half h = true ->
     exists m e,
       Fp16.fp16_to_fp32 h = S754_finite (Z.testbit h 15) m e /\
       Fp16.dyadic_eqb (Zpos m) e (1024 + h mod 1024) ((h / 1024) mod 32 - 25) = true) /\
  Fp16.fp16_to_fp32 0 = S754_zero false /\
  Fp16.fp16_to_fp32 32768 = S754_zero true /\
  Fp16.fp16_to_fp32 31744 = S754_infinity false /\
  Fp16.fp16_to_fp32 64512 = S754_infinity true /\
  Fp16.fp16_to_fp32 32256 = S754_nan /\
  Fp16.fp16_to_fp32 1 = S754_finite false 8388608 (-47).
Proof.
  assert (forall h, 0 <= h < 65536 -> Fp16.decodes_exactly h = true) as Hdec.
  { assert (forall_bits 16 Fp16.decodes_exactly 0 = true) as Hall
      by (vm_compute; reflexivity).
    intros h Hh. apply (forall_bits_sound 16 Fp16.decodes_exactly 0 Hall h). simpl. lia. }
  split; [|split; [|repeat split; vm_compute; reflexivity]].
  - intros h Hh. apply andb_true_iff. apply Hdec. assumption.
  - intros h Hh Hnorm.
    specialize (Hdec h Hh). unfold Fp16.decodes_exactly in Hdec.
    apply andb_true_iff in Hdec as [Hval _].
    unfold Fp16.is_normal_half in Hnorm. apply andb_true_iff in Hnorm as [He0 He31].
    apply negb_true_iff in He0, He31.
    unfold Fp16.ieee_half in Hval. rewrite He31, He0 in Hval.
    destruct (Fp16.fp16_to_fp32 h) as [s0|s0| |s0 m e]; simpl in Hval; try discriminate.
    apply andb_true_iff in Hval as [Hs Hd].
    apply Bool.eqb_prop in Hs. subst s0. exists m, e. split; [reflexivity | exact Hd].
Qed.

(** The theorem at the half [0x3C00], which is 1.0. *)
Lemma fp16_to_fp32_exact_witness :
  Fp16.same_value (Fp16.f32_value (Fp16.fp16_to_fp32 15360)) (Fp16.ieee_half 15360) = true /\
  valid_binary F32.prec F32.emax (Fp16.fp16_to_fp32 15360) = true.
Proof.
  apply (proj1 fp16_to_fp32_exact 15360). lia.
Defined.

(** ** Softmax *)

Lemma fat_insert_eq (l : list spec_float) i v :
  (i < length l)%nat -> Kernels.fat (<[i := v]> l) i = v.
Proof.
  intros Hi. unfold Kernels.fat. rewrite nth_lookup.
  rewrite list_lookup_insert_eq by assumption. reflexivity.
Qed.

Lemma fat_insert_ne (l : list spec_float) i j v :
  i <> j -> Kernels.fat (<[i := v]> l) j = Kernels.fat l j.
Proof.
  intros Hne. unfold Kernels.fat. rewrite !nth_lookup.
  rewrite list_lookup_insert_ne by assumption. reflexivity.
Qed.

Lemma SFadd_finite_inv prec emax x y :
  is_finite (SFadd prec emax x y) = true -> is_finite x = true /\ is_finite y = true.
Proof.
  destruct x as [sx|sx| |sx mx ex], y as [sy|sy| |sy my ey];
    try destruct sx; try destruct sy; simpl; intros H;
    try discriminate; split; reflexivity.
Qed.

Lemma of_f32_finite_inv e : is_finite (F64.of_f32 e) = true -> is_finite e = true.
Proof. destruct e; simpl; intros H; try discriminate; reflexivity. Qed.

Lemma is_zero_finite x : is_zero x = true -> is_finite x = true.
Proof. destruct x; simpl; intros H; try discriminate; reflexivity. Qed.

Lemma mul_zero_is_zero x s :
  is_finite x = true -> is_zero (F32.mul x (S754_zero s)) = true.
Proof. destruct x; simpl; intros H; try discriminate; reflexivity. Qed.

Lemma softmax_inv_sum_zero sum :
  is_zero sum = true -> Kernels.softmax_inv_sum sum = F32.zero.
Proof. destruct sum; simpl; intros H; try discriminate; reflexivity. Qed.

(** The second loop of the softmax, from index [a] for [k] runs: the length
    is kept, the slots outside [a .. a+k) are kept, and when the sum comes
    out finite every exponential written is finite. *)
Lemma softmax_exp_loop expf max_v k : forall a x sum x' sum',
  (a + k <= length x)%nat ->
  fold_left
    (fun '(x, sum) i =>
       let e := expf (F32.sub (Kernels.fat x i) max_v) in
       (<[i := e]> x, F64.add sum (F64.of_f32 e)))
    (seq a k) (x, sum) = (x', sum') ->
  length x' = length x /\
  (forall i, (i < a)%nat -> Kernels.fat x' i = Kernels.fat x i) /\
  (is_finite sum' = true ->
   is_finite sum = true /\
   forall i, (a <= i < a + k)%nat -> is_finite (Kernels.fat x' i) = true).
Proof.
  induction k as [|k IH]; intros a x sum x' sum' Hlen H.
  - simpl in H. injection H as <- <-. split; [reflexivity|].
    split; [reflexivity|]. intros Hs. split; [assumption|]. intros i Hi. lia.
  - simpl in H.
    set (e := expf (F32.sub (Kernels.fat x a) max_v)) in H.
    apply IH in H as (Hl & Hlow & Hfin); [|rewrite length_insert; lia].
    rewrite length_insert in Hl. split; [assumption|]. split.
    + intros i Hi. rewrite Hlow by lia. apply fat_insert_ne. lia.
    + intros Hs. destruct (Hfin Hs) as [Hs1 Hrest].
      apply SFadd_finite_inv in Hs1 as [Hs0 He].
      apply of_f32_finite_inv in He.
      split; [assumption|]. intros i Hi.
      destruct (decide (i = a)) as [-> | Hne].
      * rewrite Hlow by lia. rewrite fat_insert_eq by lia. exact He.
      * apply Hrest. lia.
Qed.

(** The third loop, from index [a] for [k] runs. *)
Lemma softmax_scale_loop inv_sum k : forall a x,
  (a + k <= length x)%nat ->
  let x' := fold_left (fun x i => <[i := F32.mul (Kernels.fat x i) inv_sum]> x) (seq a k) x in
  length x' = length x /\
  (forall i, (i < a)%nat -> Kernels.fat x' i = Kernels.fat x i) /\
  (forall i, (a <= i < a + k)%nat ->
     Kernels.fat x' i = F32.mul (Kernels.fat x i) inv_sum).
Proof.
  induction k as [|k IH]; intros a x Hlen; simpl.
  - split; [reflexivity|]. split; [reflexivity|]. intros i Hi. lia.
  - destruct (IH (S a) (<[a := F32.mul (Kernels.fat x a) inv_sum]> x))
      as (Hl & Hlow & Hhigh); [rewrite length_insert; lia|].
    rewrite length_insert in Hl. split; [assumption|]. split.
    + intros i Hi. rewrite Hlow by lia. apply fat_insert_ne. lia.
    + intros i Hi. destruct (decide (i = a)) as [-> | Hne].
      * rewrite Hlow by lia. apply fat_insert_eq. lia.
      * rewrite Hhigh by lia. rewrite fat_insert_ne by lia. reflexivity.
Qed.

(** C9. [softmax_inplace_f32] with [n = 0] returns the array as it is; and
    when the sum of the exponentials is zero, each of the [n] outputs is a
    zero (of either sign).  [expf] is any implementation of [std::exp]. *)
Theorem softmax_noop_and_zero_sum
    (expf : spec_float -> spec_float) (x : list spec_float) (n : nat) :
  Kernels.softmax_inplace_f32 expf x 0 = x /\
  ((n <= length x)%nat ->
   is_zero (snd (Kernels.softmax_exp expf x n (Kernels.softmax_max x n))) = true ->
   forall i, (i < n)%nat ->
     is_zero (Kernels.fat (Kernels.softmax_inplace_f32 expf x n) i) = true).
Proof.
  split; [reflexivity|].
  intros Hn Hsum i Hi.
  unfold Kernels.softmax_inplace_f32.
  destruct (Nat.eqb_spec n 0) as [-> | _]; [lia|].
  unfold Kernels.softmax_exp in *.
  match goal with
  | |- context [fold_left ?f (seq 0 n) (x, F64.zero)] =>
      destruct (fold_left f (seq 0 n) (x, F64.zero)) as [x1 sum] eqn:E
  end.
  simpl in Hsum.
  apply softmax_exp_loop in E as (Hl & _ & Hfin); [|simpl; lia].
  destruct (Hfin (is_zero_finite _ Hsum)) as [_ Hx1].
  rewrite (softmax_inv_sum_zero _ Hsum).
  unfold Kernels.softmax_scale.
  destruct (softmax_scale_loop F32.zero n 0 x1) as (_ & _ & Hout); [simpl; lia|].
  rewrite Hout by lia. apply mul_zero_is_zero. apply Hx1. lia.
Qed.

(** The theorem with an exponential that underflows to zero on every input,
    on the array [1.0, 2.0]: both outputs are zeros. *)
Lemma softmax_noop_and_zero_sum_witness :
  Kernels.softmax_inplace_f32 exp_underflow [F32.one; F32.of_Z 2] 0
    = [F32.one; F32.of_Z 2] /\
  is_zero (Kernels.fat
             (Kernels.softmax_inplace_f32 exp_underflow [F32.one; F32.of_Z 2] 2) 0) = true /\
  is_zero (Kernels.fat
             (Kernels.softmax_inplace_f32 exp_underflow [F32.one; F32.of_Z 2] 2) 1) = true.
Proof.
  destruct (softmax_noop_and_zero_sum exp_underflow [F32.one; F32.of_Z 2] 2) as [H0 Hz].
  split; [exact H0|].
  split; (apply Hz; [simpl; lia | vm_compute; reflexivity | lia]).
Defined.

(** ** Reading through a pointer *)

Lemma fat_skipn_window p off n i :
  (i < n)%nat -> Kernels.fat (skipn off p) i = Kernels.fat (Layer0.window p off n) i.
Proof.
  intros Hi. unfold Kernels.fat, Layer0.window. rewrite !nth_lookup.
  rewrite lookup_take_lt by assumption. reflexivity.
Qed.

Lemma fold_left_seq_ext {A} (f g : A -> nat -> A) k : forall a x,
  (forall y i, (a <= i < a + k)%nat -> f y i = g y i) ->
  fold_left f (seq a k) x = fold_left g (seq a k) x.
Proof.
  induction k as [|k IH]; intros a x H; simpl; [reflexivity|].
  rewrite (H x a) by lia. apply IH. intros y i Hi. apply H. lia.
Qed.

(** ** Rotary embedding: rounding in binary32 *)

(** The operations of [SpecFloat] shift the exact result right to the
    exponent [fexp] of the format, keeping a round and a sticky bit, and
    round to nearest even.  The lemmas below follow that computation for
    binary32: the mantissa kept differs from the exact one by at most half a
    unit, that is, the value by at most half an ulp. *)

Lemma iter_pos_nat {A} (f : A -> A) p : forall x,
  SpecFloat.iter_pos f p x = Nat.iter (Pos.to_nat p) f x.
Proof.
  induction p as [p IH|p IH|]; intros x; cbn [SpecFloat.iter_pos].
  - rewrite !IH. rewrite Pos2Nat.inj_xI.
    replace (S (2 * Pos.to_nat p)) with (Pos.to_nat p + (Pos.to_nat p + 1))%nat by lia.
    rewrite !Nat.iter_add. reflexivity.
  - rewrite !IH. rewrite Pos2Nat.inj_xO.
    replace (2 * Pos.to_nat p)%nat with (Pos.to_nat p + Pos.to_nat p)%nat by lia.
    rewrite Nat.iter_add. reflexivity.
  - reflexivity.
Qed.

Lemma shr_1_nonneg m r s : 0 <= m ->
  shr_1 {| shr_m := m; shr_r := r; shr_s := s |}
  = {| shr_m := m / 2; shr_r := Z.odd m; shr_s := r || s |}.
Proof.
  intros Hm. rewrite <- Z.div2_div.
  destruct m as [|[p|p|]|p]; try reflexivity. lia.
Qed.

Lemma shr_iter m k : 0 <= m ->
  Nat.iter (S k) shr_1 {| shr_m := m; shr_r := false; shr_s := false |}
  = {| shr_m := m / 2 ^ Z.of_nat (S k);
       shr_r := Z.odd (m / 2 ^ Z.of_nat k);
       shr_s := negb (m mod 2 ^ Z.of_nat k =? 0) |}.
Proof.
  intros Hm. induction k as [|k IH].
  - change (Nat.iter 1 shr_1 ?x) with (shr_1 x). rewrite shr_1_nonneg by exact Hm.
    change (2 ^ Z.of_nat 1) with 2. change (2 ^ Z.of_nat 0) with 1.
    rewrite Z.div_1_r, Z.mod_1_r. reflexivity.
  - change (Nat.iter (S (S k)) shr_1 ?x) with (shr_1 (Nat.iter (S k) shr_1 x)).
    rewrite IH. rewrite shr_1_nonneg by (apply Z.div_pos; lia).
    f_equal.
    + rewrite Z.div_div by lia. f_equal.
      rewrite (Nat2Z.inj_succ (S k)), Z.pow_succ_r by lia. lia.
    + rewrite (Nat2Z.inj_succ k), Z.pow_succ_r by lia.
      set (P := 2 ^ Z.of_nat k). assert (0 < P) by (apply Z.pow_pos_nonneg; lia).
      rewrite (Z.mul_comm 2 P). rewrite Z.rem_mul_r by lia.
      symmetry. rewrite Zodd_mod.
      pose proof (Z.mod_pos_bound m P ltac:(lia)).
      pose proof (Z.mod_pos_bound (m / P) 2 ltac:(lia)).
      destruct (Z.eqb_spec ((m / P) mod 2) 1), (Z.eqb_spec (m mod P) 0),
        (Z.eqb_spec (m mod P + P * ((m / P) mod 2)) 0); simpl; try reflexivity; nia.
Qed.

Lemma round_shift m p : 0 <= m ->
  let mrs := SpecFloat.iter_pos shr_1 p {| shr_m := m; shr_r := false; shr_s := false |} in
  let m1 := round_nearest_even (shr_m mrs) (loc_of_shr_record mrs) in
  0 <= m1 /\ 2 * Z.abs (m1 * 2 ^ Zpos p - m) <= 2 ^ Zpos p.
Proof.
  intros Hm. cbv zeta. rewrite iter_pos_nat.
  destruct (Pos2Nat.is_succ p) as [k Hk]. rewrite Hk.
  rewrite shr_iter by exact Hm.
  assert (Hp : Zpos p = Z.of_nat (S k)) by lia. rewrite Hp.
  rewrite (Nat2Z.inj_succ k), Z.pow_succ_r by lia.
  set (P := 2 ^ Z.of_nat k). assert (HP : 0 < P) by (apply Z.pow_pos_nonneg; lia).
  rewrite (Z.mul_comm 2 P), <- Z.div_div by lia.
  pose proof (Z.div_mod m P ltac:(lia)) as E1.
  pose proof (Z.mod_pos_bound m P ltac:(lia)) as B1.
  pose proof (Z.div_mod (m / P) 2 ltac:(lia)) as E2.
  pose proof (Z.mod_pos_bound (m / P) 2 ltac:(lia)) as B2.
  assert (Ha : 0 <= m / P) by (apply Z.div_pos; lia).
  assert (Hq : 0 <= m / P / 2) by (apply Z.div_pos; lia).
  rewrite Zodd_mod.
  set (a := m / P) in *. set (q := a / 2) in *. set (b := a mod 2) in *.
  set (r0 := m mod P) in *.
  unfold loc_of_shr_record, shr_m.
  destruct (Z.eqb_spec b 1) as [Hb|Hb], (Z.eqb_spec r0 0) as [Hr|Hr];
    cbn [negb round_nearest_even].
  - destruct (Z.even q); split; try lia; nia.
  - split; [lia|nia].
  - split; [lia|nia].
  - split; [lia|nia].
Qed.

Lemma digits2_bounds p :
  2 ^ (Zpos (digits2_pos p) - 1) <= Zpos p < 2 ^ Zpos (digits2_pos p).
Proof.
  induction p as [p IH|p IH|]; cbn [digits2_pos].
  - rewrite Pos2Z.inj_succ. replace (Z.succ (Zpos (digits2_pos p)) - 1)
      with (Z.succ (Zpos (digits2_pos p) - 1)) by lia.
    rewrite !Z.pow_succ_r by lia. lia.
  - rewrite Pos2Z.inj_succ. replace (Z.succ (Zpos (digits2_pos p)) - 1)
      with (Z.succ (Zpos (digits2_pos p) - 1)) by lia.
    rewrite !Z.pow_succ_r by lia. lia.
  - simpl. lia.
Qed.

Lemma digits2_le p n : 0 <= n -> Zpos p < 2 ^ n -> Zpos (digits2_pos p) <= n.
Proof.
  intros Hn H. destruct (digits2_bounds p) as [Hlo _].
  destruct (Z_le_gt_dec (Zpos (digits2_pos p)) n) as [|Hgt]; [assumption|].
  assert (2 ^ n <= 2 ^ (Zpos (digits2_pos p) - 1)) by (apply Z.pow_le_mono_r; lia).
  lia.
Qed.

Lemma fexp32_eq d : fexp 24 128 d = Z.max (d - 24) (-149).
Proof. reflexivity. Qed.

Lemma round_aux_spec s m e :
  let E := fexp 24 128 (Zpos (digits2_pos m) + e) in
  exists M E', 0 <= M /\
    binary_round_aux 24 128 s (Zpos m) e loc_Exact
      = match M with
        | Zpos q => if E' <=? 104 then S754_finite s q E' else S754_infinity s
        | _ => S754_zero s
        end /\
    ((E <= e /\ M = Zpos m /\ E' = e) \/
     (e < E /\ E <= E' <= E + 1 /\
      2 * Z.abs (M * 2 ^ (E' - e) - Zpos m) <= 2 ^ (E - e))).
Proof.
  cbv zeta. set (E := fexp 24 128 (Zpos (digits2_pos m) + e)).
  unfold binary_round_aux, shr_fexp.
  cbn [Zdigits2 shr_record_of_loc]. fold E.
  destruct (E - e) as [|p|p] eqn:Hn.
  - (* no shift *)
    cbn [shr loc_of_shr_record shr_m round_nearest_even Zdigits2 shr_record_of_loc].
    fold E. rewrite Hn. cbn [shr shr_m].
    exists (Zpos m), e. split; [lia|]. split; [reflexivity|]. left. lia.
  - cbn [shr].
    pose proof (round_shift (Zpos m) p ltac:(lia)) as Hr. cbv zeta in Hr.
    set (mrs := SpecFloat.iter_pos shr_1 p {| shr_m := Zpos m; shr_r := false; shr_s := false |}) in *.
    set (m1 := round_nearest_even (shr_m mrs) (loc_of_shr_record mrs)) in *.
    destruct Hr as [Hm1 Herr].
    replace (e + Zpos p) with E by lia.
    assert (HE : E = Z.max (Zpos (digits2_pos m) + e - 24) (-149)) by reflexivity.
    assert (Hp : Zpos p = E - e) by lia.
    assert (Hmlt : Zpos m < 2 ^ (Zpos p + 24)).
    { destruct (digits2_bounds m) as [_ Hhi].
      eapply Z.lt_le_trans; [exact Hhi|]. apply Z.pow_le_mono_r; lia. }
    assert (Hm1le : m1 <= 2 ^ 24).
    { rewrite Z.pow_add_r in Hmlt by lia.
      assert (0 < 2 ^ Zpos p) by (apply Z.pow_pos_nonneg; lia).
      change (2 ^ 24) with 16777216 in *. nia. }
    destruct (Z.eq_dec m1 (2 ^ 24)) as [Heq|Hne].
    + rewrite Heq. change (2 ^ 24) with (Zpos 16777216).
      unfold shr_record_of_loc. cbn [Zdigits2].
      change (Zpos (digits2_pos 16777216)) with 25.
      replace (fexp 24 128 (25 + E) - E) with 1 by (rewrite fexp32_eq; lia).
      cbn [shr SpecFloat.iter_pos]. rewrite shr_1_nonneg by lia.
      change (Zpos 16777216 / 2) with (Zpos 8388608). cbn [shr_m].
      exists (Zpos 8388608), (E + 1). split; [lia|]. split; [reflexivity|].
      right. split; [lia|]. split; [lia|].
      replace (E + 1 - e) with (Z.succ (Zpos p)) by lia.
      rewrite Z.pow_succ_r by lia.
      rewrite Heq in Herr. change (2 ^ 24) with 16777216 in Herr.
      replace (Zpos 8388608 * (2 * 2 ^ Zpos p)) with (16777216 * 2 ^ Zpos p) by lia.
      exact Herr.
    + assert (Hlt : m1 < 2 ^ 24) by lia.
      assert (Hsh : fexp 24 128 (Zdigits2 m1 + E) - E <= 0).
      { rewrite fexp32_eq. destruct m1 as [|q|q]; cbn [Zdigits2]; [lia| |lia].
        pose proof (digits2_le q 24 ltac:(lia) Hlt). lia. }
      unfold shr_record_of_loc.
      destruct (fexp 24 128 (Zdigits2 m1 + E) - E) as [|p'|p'] eqn:Hn2; [| lia |];
        cbn [shr shr_m]; exists m1, E; (split; [lia|]);
        (split; [destruct m1; try reflexivity; lia|]);
        right; (split; [lia|]); (split; [lia|]); replace (E - e) with (Zpos p) by lia; exact Herr.
  - cbn [shr loc_of_shr_record shr_m round_nearest_even Zdigits2 shr_record_of_loc].
    fold E. rewrite Hn. cbn [shr shr_m].
    exists (Zpos m), e. split; [lia|]. split; [reflexivity|]. left. lia.
Qed.

Lemma Qpow2_pos e : (0 < 2 ^ e)%Q.
Proof. apply Qpower_0_lt. reflexivity. Qed.

Lemma Qpow2_add a b : (2 ^ (a + b) == 2 ^ a * 2 ^ b)%Q.
Proof. apply Qpower_plus. discriminate. Qed.

Lemma Qpow2_inject n : 0 <= n -> (inject_Z (2 ^ n) == 2 ^ n)%Q.
Proof. intros H. rewrite Zpower_Qpower by exact H. reflexivity. Qed.

Lemma round_aux_err s m e :
  let r := binary_round_aux 24 128 s (Zpos m) e loc_Exact in
  let X := (inject_Z (Zpos m) * 2 ^ e)%Q in
  is_finite r = true ->
  (Qabs (to_Q r - sign_Q s * X) <= unit_roundoff * X + eta)%Q.
Proof.
  cbv zeta. intros Hfin.
  destruct (round_aux_spec s m e) as (M & E' & HM & Hr & Hcase). cbv zeta in Hcase.
  set (X := (inject_Z (Zpos m) * 2 ^ e)%Q).
  assert (HX : (0 < X)%Q).
  { unfold X. apply Qmult_lt_0_compat; [|apply Qpow2_pos].
    change 0%Q with (inject_Z 0). rewrite <- Zlt_Qlt. lia. }
  assert (HrQ : (to_Q (binary_round_aux 24 128 s (Zpos m) e loc_Exact)
                 == sign_Q s * (inject_Z M * 2 ^ E'))%Q).
  { rewrite Hr in Hfin |- *. destruct M as [|q|q]; [| |lia].
    - simpl to_Q. change (inject_Z 0) with 0%Q. ring.
    - destruct (E' <=? 104); [reflexivity | discriminate Hfin]. }
  rewrite HrQ. clear HrQ Hr Hfin.
  assert (Heta : (0 < eta)%Q) by reflexivity.
  assert (HD : (- (unit_roundoff * X + eta) <= inject_Z M * 2 ^ E' - X
                <= unit_roundoff * X + eta)%Q).
  { destruct Hcase as [(_ & -> & ->) | (Hlt & HE' & Herr)].
    - fold X. unfold unit_roundoff. split; lra.
    - set (E := fexp 24 128 (Zpos (digits2_pos m) + e)) in *.
      set (k := E' - e) in *.
      assert (HMk : (inject_Z M * 2 ^ E' == inject_Z (M * 2 ^ k) * 2 ^ e)%Q).
      { rewrite inject_Z_mult, Qpow2_inject by (unfold k; lia).
        replace E' with (k + e) by (unfold k; lia).
        replace (k + e - e) with k by lia. rewrite Qpow2_add. ring. }
      rewrite HMk.
      assert (HE2 : (2 ^ E == inject_Z (2 ^ (E - e)) * 2 ^ e)%Q).
      { rewrite Qpow2_inject by lia. rewrite <- Qpow2_add.
        replace (E - e + e) with E by lia. reflexivity. }
      assert (HB : (2 ^ E <= 2 * (unit_roundoff * X + eta))%Q).
      { assert (HEq : E = Z.max (Zpos (digits2_pos m) + e - 24) (-149)) by reflexivity.
        destruct (Z.max_spec (Zpos (digits2_pos m) + e - 24) (-149)) as [[_ Hm]|[_ Hm]].
        - rewrite HEq, Hm. unfold eta.
          assert ((2 ^ (-149) == 2 * 2 ^ (-150))%Q) by reflexivity.
          assert (0 <= unit_roundoff * X)%Q
            by (apply Qmult_le_0_compat; [discriminate | lra]).
          lra.
        - rewrite HEq, Hm.
          replace (Zpos (digits2_pos m) + e - 24)
            with ((Zpos (digits2_pos m) - 1) + (e + (-23))) by lia.
          rewrite !Qpow2_add.
          rewrite <- Qpow2_inject by lia.
          destruct (digits2_bounds m) as [Hlo _].
          rewrite Zle_Qle in Hlo.
          pose proof (Qpow2_pos e) as He.
          assert (H23 : (2 ^ (-23) == 2 * unit_roundoff)%Q) by reflexivity.
          rewrite H23. unfold X.
          set (A := inject_Z (2 ^ (Zpos (digits2_pos m) - 1))) in *.
          set (Bm := inject_Z (Zpos m)) in *.
          set (Pe := (2 ^ e)%Q) in *.
          assert (A * Pe <= Bm * Pe)%Q by (apply Qmult_le_compat_r; lra).
          assert (0 <= unit_roundoff)%Q by discriminate.
          nra. }
      assert (Hz : Zpos m + Zpos m <= M * 2 ^ k + M * 2 ^ k + 2 ^ (E - e) /\
                   M * 2 ^ k + M * 2 ^ k <= Zpos m + Zpos m + 2 ^ (E - e)) by lia.
      destruct Hz as [Hz1 Hz2].
      rewrite Zle_Qle in Hz1, Hz2.
      rewrite !inject_Z_plus in Hz1, Hz2.
      pose proof (Qpow2_pos e) as He. unfold X in *. clear X.
      set (A := inject_Z (M * 2 ^ k)) in *.
      set (Bm := inject_Z (Zpos m)) in *.
      set (Pe := (2 ^ e)%Q) in *.
      set (C := inject_Z (2 ^ (E - e))) in *.
      set (PE := (2 ^ E)%Q) in *.
      assert (H1 : ((Bm + Bm) * Pe <= (A + A + C) * Pe)%Q) by (apply Qmult_le_compat_r; lra).
      assert (H2 : ((A + A) * Pe <= (Bm + Bm + C) * Pe)%Q) by (apply Qmult_le_compat_r; lra).
      split; lra. }
  apply Qabs_Qle_condition.
  set (Y := (inject_Z M * 2 ^ E')%Q) in *.
  destruct s; unfold sign_Q; split; lra.
Qed.

Lemma iter_xO m d : Zpos (Pos.iter xO m d) = Zpos m * 2 ^ Zpos d.
Proof.
  induction d as [|d IH] using Pos.peano_ind.
  - simpl. lia.
  - rewrite Pos.iter_succ, Pos2Z.inj_succ, Z.pow_succ_r by lia.
    rewrite Pos2Z.inj_xO, IH. lia.
Qed.

Lemma shl_align_value m e e' :
  (inject_Z (Zpos (fst (shl_align m e e'))) * 2 ^ snd (shl_align m e e')
   == inject_Z (Zpos m) * 2 ^ e)%Q.
Proof.
  unfold shl_align. destruct (e' - e) as [|d|d] eqn:Hd; cbn [fst snd]; try reflexivity.
  rewrite iter_xO, inject_Z_mult, Qpow2_inject by lia.
  replace e with (Zpos d + e') by lia. rewrite Qpow2_add. ring.
Qed.

Lemma shl_align_le m e e' : e' <= e ->
  Zpos (fst (shl_align m e e')) = Zpos m * 2 ^ (e - e').
Proof.
  intros H. unfold shl_align. destruct (e' - e) as [|d|d] eqn:Hd; cbn [fst]; try lia.
  - replace (e - e') with 0 by lia. lia.
  - rewrite iter_xO. f_equal. f_equal. lia.
Qed.

Lemma round_err s m e :
  let r := binary_round 24 128 s m e in
  let X := (inject_Z (Zpos m) * 2 ^ e)%Q in
  is_finite r = true ->
  (Qabs (to_Q r - sign_Q s * X) <= unit_roundoff * X + eta)%Q.
Proof.
  cbv zeta. unfold binary_round.
  pose proof (shl_align_value m e (fexp 24 128 (Zpos (digits2_pos m) + e))) as Hv.
  destruct (shl_align m e (fexp 24 128 (Zpos (digits2_pos m) + e))) as [mz ez].
  cbn [fst snd] in Hv. intros Hfin.
  pose proof (round_aux_err s mz ez Hfin) as H. cbv zeta in H.
  rewrite Hv in H. exact H.
Qed.

Lemma exact_zero_err q :
  (q == 0)%Q -> (Qabs (0 - q) <= unit_roundoff * Qabs q + eta)%Q.
Proof.
  intros Hq. rewrite Hq. change (Qabs (0 - 0)) with 0%Q. change (Qabs 0) with 0%Q.
  assert (0 < eta)%Q by reflexivity. lra.
Qed.

Lemma normalize_err S e :
  let r := binary_normalize 24 128 S e false in
  let X := (inject_Z S * 2 ^ e)%Q in
  is_finite r = true ->
  (Qabs (to_Q r - X) <= unit_roundoff * Qabs X + eta)%Q.
Proof.
  cbv zeta. pose proof (Qpow2_pos e) as He.
  assert (Heta : (0 < eta)%Q) by reflexivity.
  destruct S as [|p|p]; cbn [binary_normalize]; intros Hfin.
  - cbn [to_Q]. apply exact_zero_err. change (inject_Z 0) with 0%Q. ring.
  - pose proof (round_err false p e Hfin) as H. cbv zeta in H.
    assert (HX : (0 <= inject_Z (Zpos p) * 2 ^ e)%Q).
    { apply Qmult_le_0_compat; [|lra]. change 0%Q with (inject_Z 0).
      rewrite <- Zle_Qle. lia. }
    rewrite (Qabs_pos _ HX). unfold sign_Q in H.
    setoid_replace (1 * (inject_Z (Zpos p) * 2 ^ e))%Q
      with (inject_Z (Zpos p) * 2 ^ e)%Q using relation Qeq in H by ring.
    exact H.
  - pose proof (round_err true p e Hfin) as H. cbv zeta in H.
    assert (HX : (0 <= inject_Z (Zpos p) * 2 ^ e)%Q).
    { apply Qmult_le_0_compat; [|lra]. change 0%Q with (inject_Z 0).
      rewrite <- Zle_Qle. lia. }
    assert (Hneg : (inject_Z (Zneg p) * 2 ^ e == - (inject_Z (Zpos p) * 2 ^ e))%Q).
    { change (Zneg p) with (- Zpos p). rewrite inject_Z_opp. ring. }
    rewrite Hneg, Qabs_opp, (Qabs_pos _ HX). unfold sign_Q in H.
    setoid_replace (-1 * (inject_Z (Zpos p) * 2 ^ e))%Q
      with (- (inject_Z (Zpos p) * 2 ^ e))%Q using relation Qeq in H by ring.
    exact H.
Qed.

Lemma cond_Zopp_Q s z : (inject_Z (cond_Zopp s z) == sign_Q s * inject_Z z)%Q.
Proof. destruct s; cbn [cond_Zopp sign_Q]; [rewrite inject_Z_opp|]; ring. Qed.

Lemma aligned_value s m e ez : ez <= e ->
  (inject_Z (cond_Zopp s (Zpos (fst (shl_align m e ez)))) * 2 ^ ez
   == to_Q (S754_finite s m e))%Q.
Proof.
  intros H. rewrite cond_Zopp_Q, shl_align_le by exact H.
  rewrite inject_Z_mult, Qpow2_inject by lia. cbn [to_Q].
  replace e with ((e - ez) + ez) at 2 by lia. rewrite Qpow2_add. ring.
Qed.

Lemma mul_err x y :
  is_finite (SFmul 24 128 x y) = true ->
  (Qabs (to_Q (SFmul 24 128 x y) - to_Q x * to_Q y)
   <= unit_roundoff * Qabs (to_Q x * to_Q y) + eta)%Q.
Proof.
  assert (Heta : (0 < eta)%Q) by reflexivity.
  destruct x as [sx|sx| |sx mx ex], y as [sy|sy| |sy my ey]; cbn [SFmul];
    try discriminate; intros Hfin;
    try (cbn [to_Q]; apply exact_zero_err; ring).
  pose proof (round_aux_err (xorb sx sy) (mx * my) (ex + ey) Hfin) as H. cbv zeta in H.
  cbn [to_Q].
  set (A := inject_Z (Zpos mx)) in *. set (B := inject_Z (Zpos my)) in *.
  assert (HA : (0 < A)%Q) by (unfold A; change 0%Q with (inject_Z 0); rewrite <- Zlt_Qlt; lia).
  assert (HB : (0 < B)%Q) by (unfold B; change 0%Q with (inject_Z 0); rewrite <- Zlt_Qlt; lia).
  assert (HX : (inject_Z (Zpos (mx * my)) * 2 ^ (ex + ey) == (A * 2 ^ ex) * (B * 2 ^ ey))%Q).
  { rewrite Pos2Z.inj_mul, inject_Z_mult, Qpow2_add. unfold A, B. ring. }
  rewrite HX in H.
  pose proof (Qpow2_pos ex) as Hex. pose proof (Qpow2_pos ey) as Hey.
  assert (HP : (0 <= (A * 2 ^ ex) * (B * 2 ^ ey))%Q).
  { apply Qmult_le_0_compat; apply Qmult_le_0_compat; lra. }
  assert (Hs : (sign_Q sx * (A * 2 ^ ex) * (sign_Q sy * (B * 2 ^ ey))
                == sign_Q (xorb sx sy) * ((A * 2 ^ ex) * (B * 2 ^ ey)))%Q).
  { destruct sx, sy; cbn [xorb sign_Q]; ring. }
  rewrite Hs.
  assert (Habs : (Qabs (sign_Q (xorb sx sy) * ((A * 2 ^ ex) * (B * 2 ^ ey)))
                  == (A * 2 ^ ex) * (B * 2 ^ ey))%Q).
  { rewrite Qabs_Qmult, (Qabs_pos _ HP). destruct (xorb sx sy); cbn [sign_Q];
      [change (Qabs (-1)) with 1%Q | change (Qabs 1) with 1%Q]; ring. }
  rewrite Habs. exact H.
Qed.

Lemma exact_err a q :
  (a == q)%Q -> (Qabs (a - q) <= unit_roundoff * Qabs q + eta)%Q.
Proof.
  intros Hq. setoid_replace (a - q)%Q with 0%Q using relation Qeq by (rewrite Hq; ring).
  change (Qabs 0) with 0%Q.
  assert (0 < eta)%Q by reflexivity. pose proof (Qabs_nonneg q).
  assert (0 <= unit_roundoff * Qabs q)%Q by (apply Qmult_le_0_compat; [discriminate|assumption]).
  lra.
Qed.

Lemma add_err x y :
  is_finite (SFadd 24 128 x y) = true ->
  (Qabs (to_Q (SFadd 24 128 x y) - (to_Q x + to_Q y))
   <= unit_roundoff * Qabs (to_Q x + to_Q y) + eta)%Q.
Proof.
  destruct x as [sx|sx| |sx mx ex], y as [sy|sy| |sy my ey]; cbn [SFadd];
    try discriminate; intros Hfin.
  - destruct sx, sy; apply exact_err; cbn [to_Q]; ring.
  - apply exact_err; cbn [to_Q]; ring.
  - destruct sx, sy; discriminate Hfin.
  - apply exact_err; cbn [to_Q]; ring.
  - cbv zeta in Hfin |- *.
    pose proof (normalize_err _ _ Hfin) as H. cbv zeta in H.
    rewrite inject_Z_plus, Qmult_plus_distr_l in H.
    rewrite !aligned_value in H by lia.
    exact H.
Qed.

Lemma sub_err x y :
  is_finite (SFsub 24 128 x y) = true ->
  (Qabs (to_Q (SFsub 24 128 x y) - (to_Q x - to_Q y))
   <= unit_roundoff * Qabs (to_Q x - to_Q y) + eta)%Q.
Proof.
  destruct x as [sx|sx| |sx mx ex], y as [sy|sy| |sy my ey]; cbn [SFsub];
    try discriminate; intros Hfin.
  - destruct sx, sy; apply exact_err; cbn [to_Q]; ring.
  - apply exact_err; cbn [to_Q]. destruct sy; cbn [negb sign_Q]; ring.
  - destruct sx, sy; discriminate Hfin.
  - apply exact_err; cbn [to_Q]; ring.
  - cbv zeta in Hfin |- *.
    pose proof (normalize_err _ _ Hfin) as H. cbv zeta in H.
    assert (Hs : forall a b, (inject_Z (a - b) == inject_Z a - inject_Z b)%Q).
    { intros a b. unfold Z.sub. rewrite inject_Z_plus, inject_Z_opp. ring. }
    rewrite Hs in H.
    assert (Hd : forall a b c : Q, ((a - b) * c == a * c - b * c)%Q) by (intros; ring).
    rewrite Hd in H.
    rewrite !aligned_value in H by lia.
    exact H.
Qed.

(** ** Rotary embedding: the squared norm of one rotation *)

Lemma Qabs_bound x b : (Qabs x <= b <-> - b <= x /\ x <= b)%Q.
Proof. apply Qabs_Qle_condition. Qed.

Lemma Qabs_mul_le1 v c : (Qabs c <= 1 -> Qabs (v * c) <= Qabs v)%Q.
Proof.
  intros H. rewrite Qabs_Qmult. pose proof (Qabs_nonneg v). pose proof (Qabs_nonneg c).
  set (av := Qabs v) in *. set (ac := Qabs c) in *. nra.
Qed.

Section Delta.
Local Open Scope Q_scope.
Variables a b p q x al be : Q.
Hypothesis Ha : Qabs a <= al.
Hypothesis Hb : Qabs b <= be.
Hypothesis Hp : Qabs (p - a) <= unit_roundoff * Qabs a + eta.
Hypothesis Hq : Qabs (q - b) <= unit_roundoff * Qabs b + eta.

Lemma delta_sub :
  Qabs (x - (p - q)) <= unit_roundoff * Qabs (p - q) + eta ->
  Qabs (x - (a - b)) <= 3 * unit_roundoff * (al + be) + 4 * eta.
Proof.
  intros Hx.
  assert (Heta : 0 < eta) by reflexivity.
  pose proof (Qabs_nonneg a) as Na. pose proof (Qabs_nonneg b) as Nb.
  set (W := (1 + unit_roundoff) * (al + be) + 2 * eta).
  assert (HW : Qabs (p - q) <= W).
  { apply Qabs_bound. apply Qabs_bound in Hp, Hq.
    pose proof (proj1 (Qabs_bound a (Qabs a)) ltac:(apply Qle_refl)).
    pose proof (proj1 (Qabs_bound b (Qabs b)) ltac:(apply Qle_refl)).
    unfold W, unit_roundoff in *. generalize dependent eta. intros et. intros.
    split; lra. }
  apply Qabs_bound. apply Qabs_bound in Hp, Hq, Hx.
  pose proof (Qabs_nonneg (p - q)).
  unfold W, unit_roundoff in *.
  set (m := Qabs (p - q)) in *. set (aa := Qabs a) in *. set (bb := Qabs b) in *.
  generalize dependent eta. intros et. intros.
  split; lra.
Qed.

Lemma delta_add :
  Qabs (x - (p + q)) <= unit_roundoff * Qabs (p + q) + eta ->
  Qabs (x - (a + b)) <= 3 * unit_roundoff * (al + be) + 4 * eta.
Proof.
  intros Hx.
  assert (Heta : 0 < eta) by reflexivity.
  pose proof (Qabs_nonneg a) as Na. pose proof (Qabs_nonneg b) as Nb.
  set (W := (1 + unit_roundoff) * (al + be) + 2 * eta).
  assert (HW : Qabs (p + q) <= W).
  { apply Qabs_bound. apply Qabs_bound in Hp, Hq.
    pose proof (proj1 (Qabs_bound a (Qabs a)) ltac:(apply Qle_refl)).
    pose proof (proj1 (Qabs_bound b (Qabs b)) ltac:(apply Qle_refl)).
    unfold W, unit_roundoff in *. generalize dependent eta. intros et. intros.
    split; lra. }
  apply Qabs_bound. apply Qabs_bound in Hp, Hq, Hx.
  pose proof (Qabs_nonneg (p + q)).
  unfold W, unit_roundoff in *.
  set (m := Qabs (p + q)) in *. set (aa := Qabs a) in *. set (bb := Qabs b) in *.
  generalize dependent eta. intros et. intros.
  split; lra.
Qed.
End Delta.

Lemma prod_bound (a b al be : Q) :
  (- al <= a /\ a <= al -> - be <= b /\ b <= be ->
   - (al * be) <= a * b /\ a * b <= al * be)%Q.
Proof. intros [H1 H2] [H3 H4]. split; nra. Qed.

Lemma norm_error (A B X0 X1 S N : Q) :
  (Qabs A <= S -> Qabs B <= S -> S * S <= 2 * N ->
   Qabs (X0 - A) <= 3 * unit_roundoff * S + 4 * eta ->
   Qabs (X1 - B) <= 3 * unit_roundoff * S + 4 * eta ->
   Qabs (X0 * X0 + X1 * X1 - (A * A + B * B)) <= rope_eps N S)%Q.
Proof.
  intros HA HB HSN H0 H1.
  assert (HS : (0 <= S)%Q) by (eapply Qle_trans; [apply Qabs_nonneg | exact HA]).
  assert (Heta : (0 < eta)%Q) by reflexivity.
  assert (E145 : (2 ^ (-145) == 32 * eta)%Q) by reflexivity.
  assert (E295 : (2 ^ (-295) == 32 * (eta * eta))%Q) by reflexivity.
  unfold rope_eps. rewrite E145, E295. clear E145 E295.
  apply Qabs_bound in HA, HB, H0, H1. apply Qabs_bound.
  set (D := (3 * unit_roundoff * S + 4 * eta)%Q) in *.
  assert (HD : (0 <= D)%Q).
  { unfold D, unit_roundoff. generalize dependent eta. intros et. intros. lra. }
  set (d0 := (X0 - A)%Q) in *. set (d1 := (X1 - B)%Q) in *.
  pose proof (prod_bound A d0 S D HA H0) as P0.
  pose proof (prod_bound B d1 S D HB H1) as P1.
  pose proof (prod_bound d0 d0 D D H0 H0) as P2.
  pose proof (prod_bound d1 d1 D D H1 H1) as P3.
  assert (Hexp : (X0 * X0 + X1 * X1 - (A * A + B * B)
                  == 2 * (A * d0) + d0 * d0 + 2 * (B * d1) + d1 * d1)%Q)
    by (unfold d0, d1; ring).
  rewrite Hexp.
  assert (HSD : (4 * (S * D) + 2 * (D * D)
                 <= (1 # 524288) * N + 32 * eta * S + 32 * (eta * eta))%Q).
  { unfold D, unit_roundoff in *. generalize dependent eta. intros et. intros.
    assert (0 <= et * S)%Q by (apply Qmult_le_0_compat; lra).
    assert (0 <= et * et)%Q by (apply Qmult_le_0_compat; lra).
    assert (0 <= S * S)%Q by (apply Qmult_le_0_compat; lra).
    nra. }
  split; lra.
Qed.

Lemma sq_abs (v : Q) : (Qabs v * Qabs v == v * v)%Q.
Proof.
  apply Qabs_case; intros _; ring.
Qed.

Lemma sum_sq_le (a0 a1 : Q) : ((a0 + a1) * (a0 + a1) <= 2 * (a0 * a0 + a1 * a1))%Q.
Proof.
  assert (H : (0 <= (a0 - a1) * (a0 - a1))%Q).
  { destruct (Qlt_le_dec a0 a1); [setoid_replace ((a0 - a1) * (a0 - a1))%Q
      with ((a1 - a0) * (a1 - a0))%Q using relation Qeq by ring|]; apply Qmult_le_0_compat; lra. }
  lra.
Qed.

Lemma mul_finite_inv x y :
  is_finite (SFmul 24 128 x y) = true -> is_finite x = true /\ is_finite y = true.
Proof. destruct x as [| | |? ? ?], y as [| | |? ? ?]; cbn [SFmul is_finite]; auto; discriminate. Qed.

Lemma add_finite_inv x y :
  is_finite (SFadd 24 128 x y) = true -> is_finite x = true /\ is_finite y = true.
Proof.
  destruct x as [[]|[]| |? ? ?], y as [[]|[]| |? ? ?]; cbn [SFadd is_finite]; auto; discriminate.
Qed.

Lemma sub_finite_inv x y :
  is_finite (SFsub 24 128 x y) = true -> is_finite x = true /\ is_finite y = true.
Proof.
  destruct x as [[]|[]| |? ? ?], y as [[]|[]| |? ? ?]; cbn [SFsub is_finite]; auto; discriminate.
Qed.

Lemma rotation_norm (v0 v1 c s : spec_float) :
  let x0 := SFsub 24 128 (SFmul 24 128 v0 c) (SFmul 24 128 v1 s) in
  let x1 := SFadd 24 128 (SFmul 24 128 v0 s) (SFmul 24 128 v1 c) in
  is_finite x0 = true -> is_finite x1 = true ->
  (Qabs (to_Q c) <= 1)%Q -> (Qabs (to_Q s) <= 1)%Q ->
  (Qabs (norm2 x0 x1 - (to_Q c * to_Q c + to_Q s * to_Q s) * norm2 v0 v1)
   <= rope_eps (norm2 v0 v1) (Qabs (to_Q v0) + Qabs (to_Q v1)))%Q.
Proof.
  cbv zeta. intros F0 F1 Hc Hs.
  destruct (sub_finite_inv _ _ F0) as [Fp Fq].
  destruct (add_finite_inv _ _ F1) as [Fr Ft].
  pose proof (mul_err _ _ Fp) as Ep. pose proof (mul_err _ _ Fq) as Eq.
  pose proof (mul_err _ _ Fr) as Er. pose proof (mul_err _ _ Ft) as Et.
  pose proof (sub_err _ _ F0) as E0. pose proof (add_err _ _ F1) as E1.
  set (V0 := to_Q v0) in *. set (V1 := to_Q v1) in *.
  set (C := to_Q c) in *. set (S := to_Q s) in *.
  pose proof (delta_sub _ _ _ _ _ _ _ (Qabs_mul_le1 V0 C Hc) (Qabs_mul_le1 V1 S Hs) Ep Eq E0) as D0.
  pose proof (delta_add _ _ _ _ _ _ _ (Qabs_mul_le1 V0 S Hs) (Qabs_mul_le1 V1 C Hc) Er Et E1) as D1.
  unfold norm2. fold V0 V1.
  set (X0 := to_Q (SFsub 24 128 (SFmul 24 128 v0 c) (SFmul 24 128 v1 s))) in *.
  set (X1 := to_Q (SFadd 24 128 (SFmul 24 128 v0 s) (SFmul 24 128 v1 c))) in *.
  assert (Hk : ((C * C + S * S) * (V0 * V0 + V1 * V1)
                == (V0 * C - V1 * S) * (V0 * C - V1 * S)
                   + (V0 * S + V1 * C) * (V0 * S + V1 * C))%Q) by ring.
  rewrite Hk.
  apply norm_error; try assumption.
  - pose proof (proj1 (Qabs_bound _ _) (Qabs_mul_le1 V0 C Hc)).
    pose proof (proj1 (Qabs_bound _ _) (Qabs_mul_le1 V1 S Hs)).
    apply Qabs_bound. split; lra.
  - pose proof (proj1 (Qabs_bound _ _) (Qabs_mul_le1 V0 S Hs)).
    pose proof (proj1 (Qabs_bound _ _) (Qabs_mul_le1 V1 C Hc)).
    apply Qabs_bound. split; lra.
  - rewrite <- (sq_abs V0), <- (sq_abs V1). apply sum_sq_le.
Qed.

Lemma digits_exp_lt m e n :
  (inject_Z (Zpos m) * 2 ^ e < 2 ^ n)%Q -> Zpos (digits2_pos m) + e <= n.
Proof.
  intros H. destruct (digits2_bounds m) as [Hlo _].
  rewrite Zle_Qle in Hlo. rewrite Qpow2_inject in Hlo by lia.
  pose proof (Qpow2_pos e) as He.
  assert (H2 : (2 ^ (Zpos (digits2_pos m) - 1 + e) < 2 ^ n)%Q).
  { rewrite Qpow2_add. eapply Qle_lt_trans; [|exact H].
    apply Qmult_le_compat_r; [exact Hlo | lra]. }
  apply Qpower_lt_compat_l_inv in H2; [lia | reflexivity].
Qed.

Lemma round_aux_finite s m e :
  (inject_Z (Zpos m) * 2 ^ e < 2 ^ 127)%Q ->
  (fexp 24 128 (Zpos (digits2_pos m) + e) <= e -> e <= 104) ->
  is_finite (binary_round_aux 24 128 s (Zpos m) e loc_Exact) = true /\
  small_exp (binary_round_aux 24 128 s (Zpos m) e loc_Exact).
Proof.
  intros HX Hns. pose proof (digits_exp_lt m e 127 HX) as Hd.
  destruct (round_aux_spec s m e) as (M & E' & HM & Hr & Hcase). cbv zeta in Hcase.
  rewrite Hr. rewrite fexp32_eq in Hcase, Hns.
  assert (HE' : E' <= 104) by lia.
  destruct M as [|q|q]; [split; [reflexivity|exact I] | | split; [reflexivity|exact I]].
  destruct (Z.leb_spec E' 104); [|lia]. split; [reflexivity|]. cbn [small_exp]. lia.
Qed.

Lemma digits2_mul mx my :
  Zpos (digits2_pos mx) + Zpos (digits2_pos my) - 1 <= Zpos (digits2_pos (mx * my)).
Proof.
  destruct (digits2_bounds mx) as [Hx _]. destruct (digits2_bounds my) as [Hy _].
  destruct (digits2_bounds (mx * my)) as [_ Hxy].
  assert (H : 2 ^ (Zpos (digits2_pos mx) - 1 + (Zpos (digits2_pos my) - 1))
              < 2 ^ Zpos (digits2_pos (mx * my))).
  { rewrite Z.pow_add_r by lia. rewrite Pos2Z.inj_mul in Hxy.
    assert (0 < 2 ^ (Zpos (digits2_pos mx) - 1)) by (apply Z.pow_pos_nonneg; lia).
    assert (0 < 2 ^ (Zpos (digits2_pos my) - 1)) by (apply Z.pow_pos_nonneg; lia).
    nia. }
  apply Z.pow_lt_mono_r_iff in H; lia.
Qed.

Lemma valid_finite_inv s m e :
  valid_binary 24 128 (S754_finite s m e) = true ->
  e <= 104 /\ (Zpos (digits2_pos m) = 24 \/ e = -149 /\ Zpos (digits2_pos m) <= 24).
Proof.
  cbn [valid_binary]. unfold bounded, canonical_mantissa. rewrite fexp32_eq.
  intros H. apply andb_true_iff in H. destruct H as [H1 H2].
  apply Z.eqb_eq in H1. apply Z.leb_le in H2. change (128 - 24) with 104 in H2. lia.
Qed.

Lemma to_Q_finite_pos s m e :
  (Qabs (to_Q (S754_finite s m e)) == inject_Z (Zpos m) * 2 ^ e)%Q.
Proof.
  cbn [to_Q]. pose proof (Qpow2_pos e).
  assert (0 <= inject_Z (Zpos m) * 2 ^ e)%Q.
  { apply Qmult_le_0_compat; [|lra]. change 0%Q with (inject_Z 0). rewrite <- Zle_Qle. lia. }
  rewrite Qabs_Qmult, (Qabs_pos (inject_Z (Zpos m) * 2 ^ e)) by assumption.
  destruct s; cbn [sign_Q]; [change (Qabs (-1)) with 1%Q | change (Qabs 1) with 1%Q]; ring.
Qed.

Lemma mul_finite x y :
  valid_binary 24 128 x = true -> valid_binary 24 128 y = true ->
  is_finite x = true -> is_finite y = true ->
  (Qabs (to_Q x * to_Q y) < 2 ^ 127)%Q ->
  is_finite (SFmul 24 128 x y) = true /\ small_exp (SFmul 24 128 x y).
Proof.
  destruct x as [sx|sx| |sx mx ex], y as [sy|sy| |sy my ey]; cbn [SFmul];
    try discriminate; intros Vx Vy _ _ HX; try (split; [reflexivity | exact I]).
  apply valid_finite_inv in Vx, Vy.
  rewrite Qabs_Qmult, !to_Q_finite_pos in HX.
  apply round_aux_finite.
  - rewrite Pos2Z.inj_mul, inject_Z_mult, Qpow2_add.
    eapply Qle_lt_trans; [|exact HX]. apply Qle_lteq. right. ring.
  - rewrite fexp32_eq. pose proof (digits2_mul mx my). intros Hns. lia.
Qed.

Lemma shl_align_snd_le m e e' : snd (shl_align m e e') <= e.
Proof. unfold shl_align. destruct (e' - e) eqn:H; cbn [snd]; lia. Qed.

Lemma normalize_finite S e :
  e <= 104 -> (Qabs (inject_Z S * 2 ^ e) < 2 ^ 127)%Q ->
  is_finite (binary_normalize 24 128 S e false) = true /\
  small_exp (binary_normalize 24 128 S e false).
Proof.
  intros He HX.
  assert (Hround : forall s p, (inject_Z (Zpos p) * 2 ^ e < 2 ^ 127)%Q ->
            is_finite (binary_round 24 128 s p e) = true /\
            small_exp (binary_round 24 128 s p e)).
  { intros s p Hp. unfold binary_round.
    pose proof (shl_align_value p e (fexp 24 128 (Zpos (digits2_pos p) + e))) as Hv.
    pose proof (shl_align_snd_le p e (fexp 24 128 (Zpos (digits2_pos p) + e))) as Hle.
    destruct (shl_align p e (fexp 24 128 (Zpos (digits2_pos p) + e))) as [mz ez].
    cbn [fst snd] in Hv, Hle. apply round_aux_finite; [rewrite Hv; exact Hp | lia]. }
  destruct S as [|p|p]; cbn [binary_normalize].
  - split; [reflexivity | exact I].
  - apply Hround. rewrite <- (to_Q_finite_pos false p e). cbn [to_Q sign_Q].
    eapply Qle_lt_trans; [|exact HX]. apply Qle_lteq. right.
    apply Qabs_wd. ring.
  - apply Hround. rewrite <- (to_Q_finite_pos true p e). cbn [to_Q sign_Q].
    eapply Qle_lt_trans; [|exact HX]. apply Qle_lteq. right.
    apply Qabs_wd. change (Zneg p) with (- Zpos p). rewrite inject_Z_opp. ring.
Qed.

Lemma add_finite x y :
  is_finite x = true -> is_finite y = true -> small_exp x -> small_exp y ->
  (Qabs (to_Q x + to_Q y) < 2 ^ 127)%Q ->
  is_finite (SFadd 24 128 x y) = true.
Proof.
  destruct x as [sx|sx| |sx mx ex], y as [sy|sy| |sy my ey]; cbn [SFadd];
    try discriminate; intros _ _ Sx Sy HX; try reflexivity.
  - destruct sx, sy; reflexivity.
  - cbn [small_exp] in Sx, Sy. cbv zeta. apply normalize_finite; [lia|].
    rewrite inject_Z_plus, Qmult_plus_distr_l, !aligned_value by lia. exact HX.
Qed.

Lemma sub_finite x y :
  is_finite x = true -> is_finite y = true -> small_exp x -> small_exp y ->
  (Qabs (to_Q x - to_Q y) < 2 ^ 127)%Q ->
  is_finite (SFsub 24 128 x y) = true.
Proof.
  destruct x as [sx|sx| |sx mx ex], y as [sy|sy| |sy my ey]; cbn [SFsub];
    try discriminate; intros _ _ Sx Sy HX; try reflexivity.
  - destruct sx, sy; reflexivity.
  - cbn [small_exp] in Sx, Sy. cbv zeta. apply normalize_finite; [lia|].
    assert (Hs : forall a b, (inject_Z (a - b) == inject_Z a - inject_Z b)%Q).
    { intros a b. unfold Z.sub. rewrite inject_Z_plus, inject_Z_opp. ring. }
    assert (Hd : forall a b c : Q, ((a - b) * c == a * c - b * c)%Q) by (intros; ring).
    rewrite Hs, Hd, !aligned_value by lia. exact HX.
Qed.

Lemma product_bound (v c p : Q) :
  (Qabs v <= 2 ^ 125 -> Qabs c <= 1 ->
   Qabs (p - v * c) <= unit_roundoff * Qabs (v * c) + eta ->
   Qabs (v * c) < 2 ^ 127 /\ Qabs p <= 2 ^ 125 + 2 ^ 102)%Q.
Proof.
  intros Hv Hc Hp. pose proof (Qabs_mul_le1 v c Hc) as Hvc.
  assert (Heta : (0 < eta /\ eta <= 1)%Q) by (split; [reflexivity | discriminate]).
  assert (E125 : (2 ^ 125 == 4 * 2 ^ 123)%Q) by reflexivity.
  assert (E127 : (2 ^ 127 == 16 * 2 ^ 123)%Q) by reflexivity.
  assert (E102 : (2 ^ 102 == (1 # 2097152) * 2 ^ 123)%Q) by reflexivity.
  assert (E1 : (1 <= 2 ^ 123)%Q) by discriminate.
  rewrite E127, E125, E102 in *.
  set (T := (2 ^ 123)%Q) in *. clearbody T.
  split.
  - eapply Qle_lt_trans; [exact Hvc|]. eapply Qle_lt_trans; [exact Hv|]. lra.
  - apply Qabs_bound. apply Qabs_bound in Hp.
    pose proof (Qabs_nonneg (v * c)).
    pose proof (proj1 (Qabs_bound (v * c) (Qabs (v * c))) ltac:(apply Qle_refl)).
    unfold unit_roundoff in *.
    set (a := Qabs (v * c)) in *. set (av := Qabs v) in *.
    generalize dependent eta. intros et. intros.
    split; lra.
Qed.

Lemma rotation_finite (v0 v1 c s : spec_float) :
  Forall (fun f => valid_binary 24 128 f = true /\ is_finite f = true) (v0 :: v1 :: c :: s :: nil) ->
  (Qabs (to_Q v0) <= 2 ^ 125)%Q -> (Qabs (to_Q v1) <= 2 ^ 125)%Q ->
  (Qabs (to_Q c) <= 1)%Q -> (Qabs (to_Q s) <= 1)%Q ->
  is_finite (SFsub 24 128 (SFmul 24 128 v0 c) (SFmul 24 128 v1 s)) = true /\
  is_finite (SFadd 24 128 (SFmul 24 128 v0 s) (SFmul 24 128 v1 c)) = true.
Proof.
  intros Hall H0 H1 Hc Hs.
  inversion Hall as [|? ? [V0 F0] Hall1]; subst.
  inversion Hall1 as [|? ? [V1 F1] Hall2]; subst.
  inversion Hall2 as [|? ? [Vc Fc] Hall3]; subst.
  inversion Hall3 as [|? ? [Vs Fs] _]; subst.
  assert (Hmul : forall v c, valid_binary 24 128 v = true -> is_finite v = true ->
            valid_binary 24 128 c = true -> is_finite c = true ->
            (Qabs (to_Q v) <= 2 ^ 125)%Q -> (Qabs (to_Q c) <= 1)%Q ->
            is_finite (SFmul 24 128 v c) = true /\ small_exp (SFmul 24 128 v c) /\
            (Qabs (to_Q (SFmul 24 128 v c)) <= 2 ^ 125 + 2 ^ 102)%Q).
  { intros v c' Vv Fv Vc' Fc' Hv Hc'.
    assert (Hlt : (Qabs (to_Q v * to_Q c') < 2 ^ 127)%Q).
    { pose proof (Qabs_mul_le1 (to_Q v) (to_Q c') Hc').
      eapply Qle_lt_trans; [eassumption|]. eapply Qle_lt_trans; [exact Hv|]. reflexivity. }
    destruct (mul_finite v c' Vv Vc' Fv Fc' Hlt) as [Fm Sm].
    split; [exact Fm|]. split; [exact Sm|].
    exact (proj2 (product_bound _ _ _ Hv Hc' (mul_err _ _ Fm))). }
  destruct (Hmul v0 c V0 F0 Vc Fc H0 Hc) as (Fp & Sp & Bp).
  destruct (Hmul v1 s V1 F1 Vs Fs H1 Hs) as (Fq & Sq & Bq).
  destruct (Hmul v0 s V0 F0 Vs Fs H0 Hs) as (Fr & Sr & Br).
  destruct (Hmul v1 c V1 F1 Vc Fc H1 Hc) as (Ft & St & Bt).
  assert (Hsum : forall a b : Q,
            (Qabs a <= 2 ^ 125 + 2 ^ 102 -> Qabs b <= 2 ^ 125 + 2 ^ 102 ->
             Qabs (a + b) < 2 ^ 127 /\ Qabs (a - b) < 2 ^ 127)%Q).
  { intros a b Ha Hb. apply Qabs_bound in Ha, Hb.
    assert (E125 : (2 ^ 125 == 4 * 2 ^ 123)%Q) by reflexivity.
    assert (E127 : (2 ^ 127 == 16 * 2 ^ 123)%Q) by reflexivity.
    assert (E102 : (2 ^ 102 == (1 # 2097152) * 2 ^ 123)%Q) by reflexivity.
    assert (E1 : (1 <= 2 ^ 123)%Q) by discriminate.
    rewrite E127, E125, E102 in *.
    set (T := (2 ^ 123)%Q) in *. clearbody T.
    split; apply Qabs_case; intros; lra. }
  split.
  - apply sub_finite; try assumption. apply (Hsum _ _ Bp Bq).
  - apply add_finite; try assumption. apply (Hsum _ _ Br Bt).
Qed.

(** ** Rotary embedding: the pairs of [apply_inplace] *)

Lemma rotate_pair_frame cosf sinf rc pos base x i :
  length (Rope.rotate_pair cosf sinf rc pos base x i) = length x /\
  forall j, j <> (base + 2 * i)%nat -> j <> (base + 2 * i + 1)%nat ->
    Kernels.fat (Rope.rotate_pair cosf sinf rc pos base x i) j = Kernels.fat x j.
Proof.
  unfold Rope.rotate_pair. cbv zeta. split.
  - rewrite !length_insert. reflexivity.
  - intros j H0 H1. rewrite !fat_insert_ne by congruence. reflexivity.
Qed.

Section RopePairs.
Variables cosf sinf : spec_float -> spec_float.
Variable rc : Rope.RoPECache.
Variable pos : Z.

Lemma rotate_pair_at base x i :
  (base + 2 * i + 1 < length x)%nat ->
  Kernels.fat (Rope.rotate_pair cosf sinf rc pos base x i) (base + 2 * i)
    = fst (rotated_at cosf sinf rc pos x base i) /\
  Kernels.fat (Rope.rotate_pair cosf sinf rc pos base x i) (base + 2 * i + 1)
    = snd (rotated_at cosf sinf rc pos x base i).
Proof.
  intros Hlen. unfold Rope.rotate_pair, rotated_at, rotated, rope_angle. cbv zeta. cbn [fst snd].
  split.
  - rewrite fat_insert_ne by lia. rewrite fat_insert_eq by lia. reflexivity.
  - rewrite fat_insert_eq by (rewrite length_insert; lia). reflexivity.
Qed.

Lemma rope_head_spec base : forall k x,
  (base + 2 * k <= length x)%nat ->
  let x' := fold_left (Rope.rotate_pair cosf sinf rc pos base) (seq 0 k) x in
  length x' = length x /\
  (forall j, (j < base \/ base + 2 * k <= j)%nat -> Kernels.fat x' j = Kernels.fat x j) /\
  (forall i, (i < k)%nat ->
     Kernels.fat x' (base + 2 * i) = fst (rotated_at cosf sinf rc pos x base i) /\
     Kernels.fat x' (base + 2 * i + 1) = snd (rotated_at cosf sinf rc pos x base i)).
Proof.
  induction k as [|k IH]; intros x Hlen; cbv zeta.
  - simpl. split; [reflexivity|]. split; [reflexivity | intros i Hi; lia].
  - rewrite seq_S, fold_left_app. cbn [fold_left Nat.add].
    destruct (IH x ltac:(lia)) as (Hl & Hframe & Hrot). cbv zeta in Hl, Hframe, Hrot.
    set (y := fold_left (Rope.rotate_pair cosf sinf rc pos base) (seq 0 k) x) in *.
    destruct (rotate_pair_frame cosf sinf rc pos base y k) as [Hl2 Hf2].
    split; [rewrite Hl2; exact Hl|]. split.
    + intros j Hj. rewrite Hf2 by lia. apply Hframe. lia.
    + intros i Hi. destruct (Nat.eq_dec i k) as [->|Hne].
      * destruct (rotate_pair_at base y k ltac:(lia)) as [H0 H1].
        rewrite H0, H1. unfold rotated_at.
        rewrite !Hframe by lia. split; reflexivity.
      * rewrite !Hf2 by lia. apply Hrot. lia.
Qed.

Lemma rope_heads_spec (hd k : nat) : (2 * k <= hd)%nat -> forall n x,
  (n * hd <= length x)%nat ->
  let x' := fold_left
              (fun x h => fold_left (Rope.rotate_pair cosf sinf rc pos (h * hd)%nat) (seq 0 k) x)
              (seq 0 n) x in
  length x' = length x /\
  (forall j, (n * hd <= j)%nat -> Kernels.fat x' j = Kernels.fat x j) /\
  (forall h j, (h < n)%nat -> (h * hd + 2 * k <= j < h * hd + hd)%nat ->
     Kernels.fat x' j = Kernels.fat x j) /\
  (forall h i, (h < n)%nat -> (i < k)%nat ->
     Kernels.fat x' (h * hd + 2 * i) = fst (rotated_at cosf sinf rc pos x (h * hd) i) /\
     Kernels.fat x' (h * hd + 2 * i + 1) = snd (rotated_at cosf sinf rc pos x (h * hd) i)).
Proof.
  intros Hk. induction n as [|n IH]; intros x Hlen; cbv zeta.
  - simpl. split; [reflexivity|]. split; [reflexivity|].
    split; intros; lia.
  - rewrite seq_S, fold_left_app. cbn [fold_left Nat.add].
    destruct (IH x ltac:(lia)) as (Hl & Hpast & Hrest & Hrot).
    cbv zeta in Hl, Hpast, Hrest, Hrot.
    set (y := fold_left
                (fun x h => fold_left (Rope.rotate_pair cosf sinf rc pos (h * hd)%nat) (seq 0 k) x)
                (seq 0 n) x) in *.
    destruct (rope_head_spec (n * hd) k y ltac:(lia)) as (Hl2 & Hf2 & Hr2).
    cbv zeta in Hl2, Hf2, Hr2.
    split; [rewrite Hl2; exact Hl|]. split; [|split].
    + intros j Hj. rewrite Hf2 by lia. apply Hpast. lia.
    + intros h j Hh Hj. destruct (Nat.eq_dec h n) as [->|Hne].
      * rewrite Hf2 by lia. apply Hpast. lia.
      * assert (h < n)%nat by lia. assert (h * hd + hd <= n * hd)%nat by nia.
        rewrite Hf2 by lia. apply (Hrest h); lia.
    + intros h i Hh Hi. destruct (Nat.eq_dec h n) as [->|Hne].
      * destruct (Hr2 i Hi) as [H0 H1]. rewrite H0, H1. unfold rotated_at.
        rewrite !Hpast by lia. split; reflexivity.
      * assert (h < n)%nat by lia. assert (h * hd + hd <= n * hd)%nat by nia.
        rewrite !Hf2 by lia. apply Hrot; lia.
Qed.

End RopePairs.

Lemma digits2_unique p d : 2 ^ (d - 1) <= Zpos p < 2 ^ d -> Zpos (digits2_pos p) = d.
Proof.
  intros [Hlo Hhi]. destruct (digits2_bounds p) as [Hlo' Hhi'].
  assert (0 < d).
  { destruct (Z_lt_le_dec 0 d); [assumption|].
    assert (2 ^ d <= 2 ^ 0) by (apply Z.pow_le_mono_r; lia). simpl in *. lia. }
  assert (Zpos (digits2_pos p) - 1 < d).
  { apply (Z.pow_lt_mono_r_iff 2); lia. }
  assert (d - 1 < Zpos (digits2_pos p)).
  { apply (Z.pow_lt_mono_r_iff 2); lia. }
  lia.
Qed.

Lemma valid_canonical s m e :
  valid_binary 24 128 (S754_finite s m e) = true ->
  Z.max (Zpos (digits2_pos m) + e - 24) (-149) = e /\ e <= 104.
Proof.
  cbn [valid_binary]. unfold bounded, canonical_mantissa. rewrite fexp32_eq.
  intros H. apply andb_true_iff in H. destruct H as [H1 H2].
  apply Z.eqb_eq in H1. apply Z.leb_le in H2. change (128 - 24) with 104 in H2. lia.
Qed.

Lemma mul_one v :
  is_finite v = true -> valid_binary F32.prec F32.emax v = true -> F32.mul v F32.one = v.
Proof.
  change F32.one with (S754_finite false 8388608 (-23)).
  unfold F32.mul, F32.prec, F32.emax.
  destruct v as [s|s| |s m e]; try discriminate; intros _ Hv.
  - cbn [SFmul]. rewrite xorb_false_r. reflexivity.
  - apply valid_canonical in Hv. destruct Hv as [Hd He].
    cbn [SFmul]. rewrite xorb_false_r.
    unfold binary_round_aux, shr_fexp. cbn [Zdigits2 shr_record_of_loc].
    assert (Hdig : Zpos (digits2_pos (m * 8388608)) = Zpos (digits2_pos m) + 23).
    { apply digits2_unique. destruct (digits2_bounds m) as [Hlo Hhi].
      rewrite Pos2Z.inj_mul.
      replace (Zpos (digits2_pos m) + 23 - 1) with (Zpos (digits2_pos m) - 1 + 23) by lia.
      rewrite !Z.pow_add_r by lia. change (2 ^ 23) with 8388608. lia. }
    rewrite Hdig.
    replace (fexp 24 128 (Zpos (digits2_pos m) + 23 + (e + -23)) - (e + -23)) with 23
      by (rewrite fexp32_eq; lia).
    cbn [shr]. rewrite iter_pos_nat.
    change (Pos.to_nat 23) with 23%nat.
    rewrite (shr_iter (Zpos (m * 8388608)) 22) by lia.
    rewrite Pos2Z.inj_mul.
    change (2 ^ Z.of_nat 23) with 8388608. change (2 ^ Z.of_nat 22) with 4194304.
    rewrite Z.div_mul by lia.
    replace (Zpos m * 8388608) with ((Zpos m * 2) * 4194304) by lia.
    rewrite Z.div_mul, Z.mod_mul by lia.
    rewrite Z.odd_mul. cbn [Z.odd andb negb Z.eqb shr_m loc_of_shr_record].
    rewrite andb_false_r.
    cbn [round_nearest_even Zdigits2].
    replace (e + -23 + 23) with e by lia.
    replace (fexp 24 128 (Zpos (digits2_pos m) + e) - e) with 0
      by (rewrite fexp32_eq; lia).
    cbn [shr shr_m]. destruct (Z.leb_spec e (128 - 24)); [reflexivity | lia].
Qed.

Lemma rotated_pos0 (v0 v1 a : spec_float) :
  is_zero a = true ->
  is_finite v0 = true -> valid_binary F32.prec F32.emax v0 = true ->
  is_finite v1 = true -> valid_binary F32.prec F32.emax v1 = true ->
  same_up_to_zero_sign v0 (fst (rotated v0 v1 F32.one a)) /\
  same_up_to_zero_sign v1 (snd (rotated v0 v1 F32.one a)).
Proof.
  intros Ha F0 V0 F1 V1. unfold rotated. cbn [fst snd].
  rewrite (mul_one v0 F0 V0), (mul_one v1 F1 V1).
  destruct a as [sa| | |]; try discriminate.
  unfold same_up_to_zero_sign, F32.mul, F32.sub, F32.add.
  destruct v0 as [s0| | |s0 m0 e0], v1 as [s1| | |s1 m1 e1]; try discriminate;
    cbn [SFmul SFsub SFadd]; split; auto;
    right; split; try reflexivity;
    repeat match goal with |- context [xorb ?a ?b] => destruct a, b; cbn [xorb] end;
    try reflexivity;
    repeat match goal with s : bool |- _ => destruct s end; reflexivity.
Qed.

Lemma angle_pos0 (rc : Rope.RoPECache) i :
  is_finite (Kernels.fat (Rope.inv_freq_ rc) i) = true ->
  is_zero (rope_angle rc 0 i) = true.
Proof.
  unfold rope_angle. change (F32.of_Z 0) with (S754_zero false). unfold F32.mul.
  destruct (Kernels.fat (Rope.inv_freq_ rc) i); try discriminate; reflexivity.
Qed.

Lemma rotated_norm (v0 v1 c s : spec_float) (d : Q) :
  let w := rotated v0 v1 c s in
  is_finite (fst w) = true -> is_finite (snd w) = true ->
  (Qabs (to_Q c) <= 1)%Q -> (Qabs (to_Q s) <= 1)%Q ->
  (Qabs (to_Q c * to_Q c + to_Q s * to_Q s - 1) <= d)%Q ->
  (Qabs (norm2 (fst w) (snd w) - norm2 v0 v1)
   <= rope_eps (norm2 v0 v1) (Qabs (to_Q v0) + Qabs (to_Q v1)) + d * norm2 v0 v1)%Q.
Proof.
  cbv zeta. unfold rotated. cbn [fst snd]. intros F0 F1 Hc Hs Hd.
  pose proof (rotation_norm v0 v1 c s F0 F1 Hc Hs) as H. cbv zeta in H.
  unfold F32.sub, F32.add, F32.mul, F32.prec, F32.emax.
  set (N' := norm2 (SFsub 24 128 (SFmul 24 128 v0 c) (SFmul 24 128 v1 s))
               (SFadd 24 128 (SFmul 24 128 v0 s) (SFmul 24 128 v1 c))) in *.
  assert (HN : (0 <= norm2 v0 v1)%Q).
  { unfold norm2. 
    assert (forall q : Q, 0 <= q * q)%Q.
    { intros q. rewrite <- sq_abs. pose proof (Qabs_nonneg q).
      apply Qmult_le_0_compat; assumption. }
    pose proof (H0 (to_Q v0)). pose proof (H0 (to_Q v1)). lra. }
  set (N := norm2 v0 v1) in *.
  set (E := rope_eps N (Qabs (to_Q v0) + Qabs (to_Q v1))) in *.
  set (K := (to_Q c * to_Q c + to_Q s * to_Q s)%Q) in *.
  apply Qabs_bound in H, Hd. apply Qabs_bound.
  assert (- (d * N) <= (K - 1) * N /\ (K - 1) * N <= d * N)%Q.
  { destruct Hd. split; nra. }
  split; lra.
Qed.

Lemma rotated_finite (v0 v1 c s : spec_float) :
  Forall (fun f => valid_binary F32.prec F32.emax f = true /\ is_finite f = true)
    [v0; v1; c; s] ->
  (Qabs (to_Q v0) <= 2 ^ 125)%Q -> (Qabs (to_Q v1) <= 2 ^ 125)%Q ->
  (Qabs (to_Q c) <= 1)%Q -> (Qabs (to_Q s) <= 1)%Q ->
  is_finite (fst (rotated v0 v1 c s)) = true /\ is_finite (snd (rotated v0 v1 c s)) = true.
Proof. apply rotation_finite. Qed.

Lemma Forall_fat (P : spec_float -> Prop) (l : list spec_float) :
  P F32.zero -> Forall P l -> forall i, P (Kernels.fat l i).
Proof.
  intros H0 H. unfold Kernels.fat.
  induction H as [|a l Ha Hl IH]; intros [|i]; simpl; auto.
Qed.

(** C7 as stated fails, in three ways.  (1) [reset(2, 10000.0f)] builds the
    cache [rope_dim2]; at [pos = 0], with [cos(+-0) = 1] and [sin(+-0) = +-0],
    the pair [(-0.0, -1.0)] of finite floats comes back as [(+0.0, -1.0)]:
    [-0 * 1 - (-1) * 0] is [-0 - (-0)], which is [+0], and the array is not
    the one that was given.  (2) [reset(16, theta)] with the least subnormal
    [theta] and a power that overflows leaves an infinite inverse frequency
    for the pair 7; at [pos = 0] its angle [0 * inf] is NaN, and the
    components 14 and 15 of a head of ones come back as NaN.  (3) At
    [pos = 1] on [rope_dim2], with the floats nearest to [cos 1] and
    [sin 1], the pair [(FLT_MAX, FLT_MAX)] comes back with an infinite second
    component: the squared norm is not preserved within any bound. *)
Lemma rope_not_unitary :
  (Rope.reset Rope.pow_at_zero 2 (F32.of_Z 10000) = Ok rope_dim2 /\
   Forall (fun v => is_finite v = true) [S754_zero true; F32.of_Z (-1)] /\
   exists x',
     Rope.apply_inplace Rope.cos_at_zero Rope.sin_at_zero rope_dim2
       [S754_zero true; F32.of_Z (-1)] 1 2 0 = Ok x' /\
     x' <> [S754_zero true; F32.of_Z (-1)]) /\
  (exists rc x',
     Rope.reset Rope.pow_overflow 16 (F32.of_bits 1) = Ok rc /\
     Rope.apply_inplace Rope.cos_at_zero Rope.sin_at_zero rc
       (repeat F32.one 16) 1 16 0 = Ok x' /\
     Kernels.fat x' 14 = S754_nan /\ Kernels.fat x' 15 = S754_nan) /\
  (Forall (fun v => is_finite v = true) [flt_max; flt_max] /\
   exists x',
     Rope.apply_inplace Rope.cos_at_one Rope.sin_at_one rope_dim2
       [flt_max; flt_max] 1 2 1 = Ok x' /\
     Kernels.fat x' 1 = S754_infinity false).
Proof.
  split; [|split].
  - split; [vm_compute; reflexivity|]. split; [repeat constructor|].
    exists [S754_zero false; F32.of_Z (-1)]. split; [vm_compute; reflexivity|].
    intros H. discriminate H.
  - eexists. eexists. split; [vm_compute; reflexivity|].
    split; [vm_compute; reflexivity|]. split; vm_compute; reflexivity.
  - split; [repeat constructor|].
    eexists. split; [vm_compute; reflexivity|]. vm_compute. reflexivity.
Qed.

(** C7 (as amended).  [apply_inplace] on heads that lie inside [x], with
    [rope_dim <= head_dim], returns an array of the same length, and:
    (1) at [pos = 0], when the inverse frequencies are finite and the
    library follows C on zeros ([cos(+-0) = 1], [sin(+-0) = +-0]), every
    component of an array of finite floats comes back as it was, except
    that a zero may come back with the other sign;
    (2) at every position, the pair [i] of head [h] becomes [(v0 * c - v1 *
    s, v0 * s + v1 * c)], every operation rounded to [float], for the old
    values [v0], [v1] of the pair and the cosine [c] and sine [s] that the
    library returns for [float(pos) * inv_freq_[i]].  With [|c| <= 1] and
    [|s| <= 1]: if the new pair is finite, its squared norm differs from the
    old one, [N], by at most [2^-19 * N + 2^-145 * (|v0| + |v1|) + 2^-295
    + d * N], for every [d] that bounds [|c^2 + s^2 - 1|]; and the new pair
    is finite whenever [|v0| <= 2^125] and [|v1| <= 2^125]. *)
Theorem rope_rotation_near_unitary (cosf sinf : spec_float -> spec_float)
    (rc : Rope.RoPECache) (x : list spec_float) (n_heads head_dim pos : Z) :
  0 < Rope.rope_dim_ rc -> Rope.rope_dim_ rc mod 2 = 0 ->
  Rope.rope_dim_ rc <= head_dim ->
  Z.of_nat (length (Rope.inv_freq_ rc)) = Rope.rope_dim_ rc / 2 ->
  0 <= n_heads -> n_heads * head_dim <= Z.of_nat (length x) ->
  exists x',
    Rope.apply_inplace cosf sinf rc x n_heads head_dim pos = Ok x' /\
    length x' = length x /\
    (pos = 0 ->
     (forall a, is_zero a = true -> cosf a = F32.one /\ sinf a = a) ->
     Forall (fun f => is_finite f = true) (Rope.inv_freq_ rc) ->
     Forall (fun v => is_finite v = true /\ valid_binary F32.prec F32.emax v = true) x ->
     forall j, same_up_to_zero_sign (Kernels.fat x j) (Kernels.fat x' j)) /\
    (forall h i, 0 <= h < n_heads -> 0 <= i < Rope.rope_dim_ rc / 2 ->
       let j := Z.to_nat (h * head_dim + 2 * i) in
       let v0 := Kernels.fat x j in
       let v1 := Kernels.fat x (j + 1) in
       let c := cosf (rope_angle rc pos (Z.to_nat i)) in
       let s := sinf (rope_angle rc pos (Z.to_nat i)) in
       let w0 := Kernels.fat x' j in
       let w1 := Kernels.fat x' (j + 1) in
       (w0, w1) = rotated v0 v1 c s /\
       ((Qabs (to_Q c) <= 1)%Q -> (Qabs (to_Q s) <= 1)%Q ->
        (is_finite w0 = true -> is_finite w1 = true ->
         forall d : Q, (Qabs (to_Q c * to_Q c + to_Q s * to_Q s - 1) <= d)%Q ->
           (Qabs (norm2 w0 w1 - norm2 v0 v1)
            <= rope_eps (norm2 v0 v1) (Qabs (to_Q v0) + Qabs (to_Q v1))
               + d * norm2 v0 v1)%Q) /\
        (Forall (fun f => valid_binary F32.prec F32.emax f = true /\ is_finite f = true)
           [v0; v1; c; s] ->
         (Qabs (to_Q v0) <= 2 ^ 125)%Q -> (Qabs (to_Q v1) <= 2 ^ 125)%Q ->
         is_finite w0 = true /\ is_finite w1 = true))).
Proof.
  intros Hrd Heven Hle Hinv Hn Hx.
  unfold Rope.apply_inplace.
  destruct (Z.eqb_spec (Rope.rope_dim_ rc) 0) as [|_]; [lia|].
  destruct (Z.gtb_spec (Rope.rope_dim_ rc) head_dim) as [|_]; [lia|].
  rewrite Heven. cbn [Z.eqb negb].
  set (k := Z.to_nat (Rope.rope_dim_ rc / 2)).
  set (hd := Z.to_nat head_dim). set (n := Z.to_nat n_heads).
  assert (Hrd2 : Rope.rope_dim_ rc = 2 * (Rope.rope_dim_ rc / 2)).
  { pose proof (Z.div_mod (Rope.rope_dim_ rc) 2 ltac:(lia)). lia. }
  assert (Hk : (2 * k <= hd)%nat) by (unfold k, hd; lia).
  assert (Hlen : (n * hd <= length x)%nat) by (unfold n, hd; nia).
  destruct (rope_heads_spec cosf sinf rc pos hd k Hk n x Hlen) as (Hl & Hpast & Hrest & Hrot).
  cbv zeta in Hl, Hpast, Hrest, Hrot.
  eexists. split; [reflexivity|]. split; [exact Hl|]. split.
  - intros -> Hlibm Hfin Hval j.
    assert (Helt : forall t, is_finite (Kernels.fat x t) = true /\
                             valid_binary F32.prec F32.emax (Kernels.fat x t) = true).
    { apply (Forall_fat (fun v => is_finite v = true /\
                                    valid_binary F32.prec F32.emax v = true));
        [split; reflexivity | exact Hval]. }
    assert (Hang : forall i, is_zero (rope_angle rc 0 i) = true).
    { intros i. apply angle_pos0.
      apply (Forall_fat (fun f => is_finite f = true)); [reflexivity | exact Hfin]. }
    assert (Hpair : forall h i, (h < n)%nat -> (i < k)%nat ->
              same_up_to_zero_sign (Kernels.fat x (h * hd + 2 * i))
                (Kernels.fat (fold_left
                   (fun x h => fold_left (Rope.rotate_pair cosf sinf rc 0 (h * hd)%nat) (seq 0 k) x)
                   (seq 0 n) x) (h * hd + 2 * i)) /\
              same_up_to_zero_sign (Kernels.fat x (h * hd + 2 * i + 1))
                (Kernels.fat (fold_left
                   (fun x h => fold_left (Rope.rotate_pair cosf sinf rc 0 (h * hd)%nat) (seq 0 k) x)
                   (seq 0 n) x) (h * hd + 2 * i + 1))).
    { intros h i Hh Hi. destruct (Hrot h i Hh Hi) as [H0 H1]. rewrite H0, H1.
      unfold rotated_at. destruct (Hlibm _ (Hang i)) as [-> ->].
      destruct (Helt (h * hd + 2 * i)%nat) as [F0 V0].
      destruct (Helt (h * hd + 2 * i + 1)%nat) as [F1 V1].
      apply rotated_pos0; auto. }
    destruct (Nat.lt_ge_cases j (n * hd)) as [Hj|Hj];
      [|left; symmetry; apply Hpast; exact Hj].
    assert (Hhd : (0 < hd)%nat) by lia.
    pose proof (Nat.div_mod j hd ltac:(lia)) as Hdm.
    pose proof (Nat.mod_upper_bound j hd ltac:(lia)) as Hmod.
    set (h := (j / hd)%nat) in *. set (r := (j mod hd)%nat) in *.
    assert (Hh : (h < n)%nat) by nia.
    destruct (Nat.lt_ge_cases r (2 * k)) as [Hr|Hr];
      [|left; symmetry; apply (Hrest h); lia].
    pose proof (Nat.div_mod r 2 ltac:(lia)) as Hdm2.
    pose proof (Nat.mod_upper_bound r 2 ltac:(lia)) as Hmod2.
    set (i := (r / 2)%nat) in *.
    assert (Hi : (i < k)%nat) by lia.
    destruct (Hpair h i Hh Hi) as [P0 P1].
    destruct (Nat.eq_dec (r mod 2)%nat 0%nat) as [Hz|Hz].
    + assert (Hj0 : j = (h * hd + 2 * i)%nat) by lia. rewrite Hj0 at 1 2. exact P0.
    + assert (Hj1 : j = (h * hd + 2 * i + 1)%nat) by lia. rewrite Hj1 at 1 2. exact P1.
  - intros h i Hh Hi. cbv zeta.
    assert (Hj : Z.to_nat (h * head_dim + 2 * i) = (Z.to_nat h * hd + 2 * Z.to_nat i)%nat)
      by (unfold hd; nia).
    rewrite Hj.
    destruct (Hrot (Z.to_nat h) (Z.to_nat i)) as [H0 H1]; [unfold n; lia | unfold k; lia |].
    rewrite H0, H1. unfold rotated_at.
    split; [symmetry; apply surjective_pairing|].
    intros Hc Hs. split.
    + intros F0 F1 d Hd. apply rotated_norm; assumption.
    + intros Hall B0 B1. apply rotated_finite; assumption.
Qed.

(** The theorem on the cache [rope_dim2]: at [pos = 0] on the pair
    [(-0.0, -1.0)], and at [pos = 1] on the pair [(3, 4)] with the floats
    nearest to [cos 1] and [sin 1], whose squares sum to 1 within [10^-7]:
    the squared norm stays within [10^-4] of 25. *)
Lemma rope_rotation_near_unitary_witness :
  (exists x',
     Rope.apply_inplace Rope.cos_at_zero Rope.sin_at_zero rope_dim2
       [S754_zero true; F32.of_Z (-1)] 1 2 0 = Ok x' /\
     forall j, same_up_to_zero_sign (Kernels.fat [S754_zero true; F32.of_Z (-1)] j)
                 (Kernels.fat x' j)) /\
  (exists x',
     Rope.apply_inplace Rope.cos_at_one Rope.sin_at_one rope_dim2 (map F32.of_Z [3; 4]) 1 2 1 = Ok x' /\
     is_finite (Kernels.fat x' 0) = true /\ is_finite (Kernels.fat x' 1) = true /\
     (Qabs (norm2 (Kernels.fat x' 0) (Kernels.fat x' 1) - norm2 (F32.of_Z 3) (F32.of_Z 4))
      <= 1 # 10000)%Q).
Proof.
  split.
  - destruct (rope_rotation_near_unitary Rope.cos_at_zero Rope.sin_at_zero rope_dim2
                [S754_zero true; F32.of_Z (-1)] 1 2 0)
      as (x' & Hx' & _ & H0 & _);
      [reflexivity | reflexivity | vm_compute; discriminate | reflexivity | lia
        | vm_compute; discriminate |].
    exists x'. split; [exact Hx'|].
    apply H0; [reflexivity | | repeat constructor | repeat constructor].
    intros a Ha. unfold Rope.cos_at_zero, Rope.sin_at_zero. rewrite Ha. split; reflexivity.
  - destruct (rope_rotation_near_unitary Rope.cos_at_one Rope.sin_at_one rope_dim2
                (map F32.of_Z [3; 4]) 1 2 1)
      as (x' & Hx' & _ & _ & Hrot);
      [reflexivity | reflexivity | vm_compute; discriminate | reflexivity | lia
        | vm_compute; discriminate |].
    exists x'. split; [exact Hx'|].
    destruct (Hrot 0 0 ltac:(lia) ltac:(split; [lia | reflexivity])) as [_ Hnum]. cbv zeta in Hnum.
    change (Z.to_nat (0 * 2 + 2 * 0)) with 0%nat in Hnum.
    destruct Hnum as [Hnorm Hfin]; [vm_compute; discriminate | vm_compute; discriminate |].
    destruct Hfin as [F0 F1];
      [repeat constructor | vm_compute; discriminate | vm_compute; discriminate |].
    split; [exact F0|]. split; [exact F1|].
    eapply Qle_trans; [apply (Hnorm F0 F1 (1 # 10000000)%Q); vm_compute; discriminate|].
    vm_compute. discriminate.
Defined.

(** The ten runs given to the loop of [fp16_to_fp32] are enough: for every
    non-zero 10-bit fraction the loop is left with bit 10 set. *)
Lemma normalize_reaches_bit_10 mant :
  1 <= mant < 1024 ->
  Z.land (fst (Fp16.normalize 10 mant 113)) 1024 = 1024.
Proof.
  intros H.
  assert (forall_bits 10
            (fun m => (m =? 0) || (Z.land (fst (Fp16.normalize 10 m 113)) 1024 =? 1024)) 0
          = true) as Hall by (vm_compute; reflexivity).
  pose proof (forall_bits_sound 10 _ 0 Hall mant ltac:(simpl; lia)) as Hm.
  simpl in Hm. apply orb_true_iff in Hm as [Hm | Hm].
  - apply Z.eqb_eq in Hm. lia.
  - apply Z.eqb_eq in Hm. exact Hm.
Qed.

(* ===================================================================== *)
(** * Further properties *)
(* ===================================================================== *)

(** ** reader.h: alignment and the cursor *)

Lemma align_up_eq (v a : Z) :
  0 <= v -> 0 < a -> v + a <= U64.max + 1 ->
  Reader.align_up v a = v + (a - v mod a) mod a.
Proof.
  intros Hv Ha Hfit.
  unfold Reader.align_up. destruct (Z.eqb_spec a 0); [lia|].
  pose proof (Z.mod_pos_bound v a Ha) as Hr.
  destruct (Z.eqb_spec (v mod a) 0) as [H0 | H0].
  - rewrite H0, Z.sub_0_r, Z.mod_same by lia. lia.
  - rewrite (Z.mod_small (a - v mod a) a) by lia.
    unfold U64.add, U64.sub. rewrite (u64_wrap_small (a - v mod a)) by (unfold U64.max in *; lia).
    apply u64_wrap_small. unfold U64.max in *. lia.
Qed.

(** [align_up] rounds up to the next multiple. *)
Lemma align_up_round (v a : Z) :
  0 <= v -> 0 < a -> v + a <= U64.max + 1 ->
  Reader.align_up v a mod a = 0 /\
  v <= Reader.align_up v a < v + a /\
  (forall m, v <= m -> m mod a = 0 -> Reader.align_up v a <= m).
Proof.
  intros Hv Ha Hfit. rewrite (align_up_eq v a Hv Ha Hfit).
  pose proof (Z.mod_pos_bound v a Ha) as Hr.
  pose proof (Z.mod_pos_bound (a - v mod a) a Ha) as Hr'.
  assert ((v + (a - v mod a) mod a) mod a = 0) as Hmul.
  { rewrite Z.add_mod_idemp_r by lia.
    replace (v + (a - v mod a)) with (a * (v / a + 1)) by (pose proof (Z.div_mod v a); lia).
    rewrite Z.mul_comm. apply Z.mod_mul. lia. }
  assert ((a - v mod a) mod a < a - v mod a \/ (a - v mod a) mod a = a - v mod a) as Hcase.
  { destruct (Z.eq_dec (v mod a) 0) as [H0 | H0].
    - left. rewrite H0, Z.sub_0_r, Z.mod_same by lia. lia.
    - right. apply Z.mod_small. lia. }
  split; [exact Hmul|]. split; [lia|].
  intros m Hm Hma.
  (* two multiples of [a] less than [a] apart are equal or ordered *)
  destruct (Z_le_gt_dec (v + (a - v mod a) mod a) m) as [|Hgt]; [assumption|exfalso].
  assert ((v + (a - v mod a) mod a - m) mod a = 0) as Hd.
  { rewrite Zminus_mod, Hmul, Hma. reflexivity. }
  rewrite Z.mod_small in Hd by lia. lia.
Qed.

(** X1. [align_up(v, a)] for [a > 0], when [v + a] fits 64 bits: the result
    is the least multiple of [a] that is not below [v]; it is [v] itself on a
    multiple of [a], and rounding twice changes nothing.  For [a = 0] the
    result is [v]. *)
Theorem align_up_least_multiple (v a : Z) :
  0 <= v -> 0 < a -> v + a <= U64.max + 1 ->
  Reader.align_up v a mod a = 0 /\
  v <= Reader.align_up v a < v + a /\
  (forall m, v <= m -> m mod a = 0 -> Reader.align_up v a <= m) /\
  (v mod a = 0 -> Reader.align_up v a = v) /\
  Reader.align_up (Reader.align_up v a) a = Reader.align_up v a /\
  Reader.align_up v 0 = v.
Proof.
  intros Hv Ha Hfit.
  destruct (align_up_round v a Hv Ha Hfit) as (Hmul & Hbound & Hleast).
  split; [exact Hmul|]. split; [exact Hbound|]. split; [exact Hleast|].
  split; [|split].
  - intros H0. pose proof (Hleast v ltac:(lia) H0). lia.
  - (* the result is a multiple of [a]: the second call returns it *)
    unfold Reader.align_up at 1. destruct (Z.eqb_spec a 0); [lia|].
    rewrite Hmul. reflexivity.
  - reflexivity.
Qed.

(** The theorem at the end of a 58-byte directory with the default
    alignment 32. *)
Lemma align_up_least_multiple_witness :
  Reader.align_up 58 32 mod 32 = 0 /\ 58 <= Reader.align_up 58 32 < 58 + 32.
Proof.
  destruct (align_up_least_multiple 58 32) as (H1 & H2 & _);
    [lia | lia | vm_compute; discriminate |].
  split; [exact H1 | exact H2].
Defined.

Lemma read_in_slice sz r x r' :
  Reader.read sz r = Ok (x, r') -> in_slice (Reader.data_ r) r'.
Proof.
  unfold Reader.read.
  destruct (Z.gtb_spec (U64.add (Reader.pos_ r) sz) (Reader.size_ r)) as [|Hle];
    [discriminate|].
  intros [= _ <-]. split; [reflexivity|]. simpl. split; [apply u64_wrap_nonneg | exact Hle].
Qed.

Lemma read_bytes_in_slice n r bs r' :
  Reader.read_bytes n r = Ok (bs, r') -> in_slice (Reader.data_ r) r'.
Proof.
  unfold Reader.read_bytes.
  destruct (Z.gtb_spec (U64.add (Reader.pos_ r) n) (Reader.size_ r)) as [|Hle];
    [discriminate|].
  intros [= _ <-]. split; [reflexivity|]. simpl. split; [apply u64_wrap_nonneg | exact Hle].
Qed.

Lemma skip_in_slice n r r' :
  Reader.skip n r = Ok r' -> in_slice (Reader.data_ r) r'.
Proof.
  unfold Reader.skip.
  destruct (Z.gtb_spec (U64.add (Reader.pos_ r) n) (Reader.size_ r)) as [|Hle];
    [discriminate|].
  intros [= <-]. split; [reflexivity|]. simpl. split; [apply u64_wrap_nonneg | exact Hle].
Qed.

(** [read_string] compares [len] with [size_ - pos_]: the sum [pos_ + len]
    that follows does not wrap. *)
Lemma read_string_advance r s r' :
  Reader.size_ r <= U64.max ->
  Reader.read_string r = Ok (s, r') ->
  exists len r1,
    Reader.read_u64 r = Ok (len, r1) /\
    0 <= len /\ Reader.pos_ r1 + len <= Reader.size_ r /\
    r' = Reader.set_pos r1 (Reader.pos_ r1 + len) /\
    s = string_of_list_byte (Reader.bytes_at r1 len).
Proof.
  unfold Reader.read_string. intros Hmax H. inv_bind H. destruct a as [len r1].
  pose proof (read_in_slice _ _ _ _ Ha) as [Hd [Hp0 Hp1]].
  pose proof (read_nonneg _ _ _ _ Ha) as Hlen.
  assert (Reader.size_ r1 = Reader.size_ r) as Hsz by (unfold Reader.size_; rewrite Hd; reflexivity).
  fold (Reader.size_ r) in Hp1.
  rewrite Hsz in H.
  assert (U64.sub (Reader.size_ r) (Reader.pos_ r1) = Reader.size_ r - Reader.pos_ r1) as Hsub.
  { unfold U64.sub. apply u64_wrap_small. lia. }
  rewrite Hsub in H.
  destruct (Z.gtb_spec len (Reader.size_ r - Reader.pos_ r1)) as [|Hle]; [discriminate|].
  injection H as <- <-.
  exists len, r1. repeat split; try assumption; try lia.
  f_equal. unfold U64.add. apply u64_wrap_small. lia.
Qed.

Lemma read_string_in_slice r s r' :
  Reader.read_string r = Ok (s, r') -> in_slice (Reader.data_ r) r'.
Proof.
  unfold Reader.read_string. intros H. inv_bind H. destruct a as [len r1].
  pose proof (read_in_slice _ _ _ _ Ha) as [Hd [Hp0 Hp1]].
  pose proof (read_nonneg _ _ _ _ Ha) as Hlen.
  destruct (Z.gtb_spec len (U64.sub (Reader.size_ r1) (Reader.pos_ r1))) as [|Hle];
    [discriminate|].
  injection H as _ <-. split; [exact Hd|]. simpl. split; [apply u64_wrap_nonneg|].
  unfold U64.add, U64.sub, U64.wrap, Reader.size_ in *. rewrite Hd in Hle.
  pose proof (Z.mod_le (Z.of_nat (length (Reader.data_ r)) - Reader.pos_ r1) (2 ^ 64)
                ltac:(lia) ltac:(lia)).
  pose proof (Z.mod_le (Reader.pos_ r1 + len) (2 ^ 64) ltac:(lia) ltac:(lia)).
  lia.
Qed.

Lemma in_slice_trans data r r' :
  in_slice data r -> in_slice (Reader.data_ r) r' -> in_slice data r'.
Proof. intros [Hd _] H. rewrite Hd in H. exact H. Qed.

Lemma read_value_in_slice r t v r' :
  Gguf.read_value r t = Ok (v, r') -> in_slice (Reader.data_ r) r'.
Proof.
  intros H. destruct t; simpl in H;
    try (inv_bind H; destruct a as [x r1]; inversion H; subst;
         first [ eapply read_in_slice; eassumption
               | eapply read_string_in_slice; eassumption ]).
  (* Array *)
  inv_bind H. destruct a as [et r1]. inv_bind H. destruct a as [n r2].
  pose proof (read_in_slice _ _ _ _ Ha) as H1.
  pose proof (in_slice_trans _ _ _ H1 (read_in_slice _ _ _ _ Ha0)) as H2.
  destruct (Gguf.value_type_of_u32 et) as [elem|]; [|discriminate].
  assert (forall m r3, Gguf.skip_u64 r2 m = Ok r3 -> in_slice (Reader.data_ r) r3) as Hskip.
  { intros m r3. unfold Gguf.skip_u64. destruct (_ >? _); [discriminate|].
    intros Hs. eapply in_slice_trans; [exact H2 | eapply skip_in_slice; eassumption]. }
  assert (forall sz r3, Gguf.skip_array_payload r2 n sz = Ok r3 ->
                        in_slice (Reader.data_ r) r3) as Hpay.
  { intros sz r3. unfold Gguf.skip_array_payload.
    destruct (Gguf.mul_overflow_u64 n sz); [|discriminate]. apply Hskip. }
  destruct elem; try discriminate; inv_bind H; inversion H; subst; eauto.
  (* array of strings *)
  refine (for_u64_inv (fun rr => in_slice (Reader.data_ r) rr) _ _ n r2 r' H2 Ha1).
  intros s s' Hs Hb. inv_bind Hb. destruct a as [str rr1]. inversion Hb; subst.
  eapply in_slice_trans; [exact Hs | eapply read_string_in_slice; eassumption].
Qed.

Lemma parse_kv_in_slice data r out r' out' :
  in_slice data r -> Gguf.parse_kv (r, out) = Ok (r', out') -> in_slice data r'.
Proof.
  unfold Gguf.parse_kv. intros Hr H.
  inv_bind H. destruct a as [k r1]. inv_bind H. destruct a as [tu r2].
  destruct (Gguf.value_type_of_u32 tu) as [t|]; [|discriminate].
  inv_bind H. destruct a as [v r3]. inversion H; subst.
  eapply in_slice_trans; [|eapply read_value_in_slice; eassumption].
  eapply in_slice_trans; [|eapply read_in_slice; eassumption].
  eapply in_slice_trans; [exact Hr | eapply read_string_in_slice; eassumption].
Qed.

Lemma parse_tensor_in_slice data r out r' out' :
  in_slice data r -> Gguf.parse_tensor (r, out) = Ok (r', out') -> in_slice data r'.
Proof.
  unfold Gguf.parse_tensor. intros Hr H.
  inv_bind H. destruct a as [nm r1]. inv_bind H. destruct a as [n_dims r2].
  inv_bind H. destruct a as [r3 ds]. inv_bind H. destruct a as [ty r4].
  inv_bind H. destruct a as [off r5]. inversion H; subst.
  eapply in_slice_trans; [|eapply read_in_slice; eassumption].
  eapply in_slice_trans; [|eapply read_in_slice; eassumption].
  assert (in_slice data r2) as H2.
  { eapply in_slice_trans; [|eapply read_in_slice; eassumption].
    eapply in_slice_trans; [exact Hr | eapply read_string_in_slice; eassumption]. }
  refine (for_u64_inv (fun st => in_slice data (fst st)) Gguf.read_dim _ _
            (r2, []) (r3, ds) H2 Ha1).
  intros [ra da] [rb db] Hs Hb. unfold Gguf.read_dim in Hb.
  inv_bind Hb. destruct a as [d rr]. inversion Hb; subst. simpl in *.
  eapply in_slice_trans; [exact Hs | eapply read_in_slice; eassumption].
Qed.

Lemma read_directory_in_slice data r out :
  Gguf.read_directory data = Ok (r, out) -> in_slice data r.
Proof.
  unfold Gguf.read_directory. intros H.
  inv_bind H. destruct a as [magic r1].
  destruct (negb (Gguf.is_magic magic)); [discriminate|].
  inv_bind H. destruct a as [ver r2].
  inv_bind H. destruct a as [tc r3].
  inv_bind H. destruct a as [kc r4].
  inv_bind H. clear Ha3 a. inv_bind H. destruct a as [r5 out1]. inv_bind H. clear Ha4 a.
  assert (in_slice data r4) as H4.
  { pose proof (read_bytes_in_slice _ _ _ _ Ha) as H1. simpl in H1.
    eapply in_slice_trans; [|eapply read_in_slice; eassumption].
    eapply in_slice_trans; [|eapply read_in_slice; eassumption].
    eapply in_slice_trans; [exact H1 | eapply read_in_slice; eassumption]. }
  assert (in_slice data r5) as H5.
  { refine (for_u64_inv (fun st => in_slice data (fst st)) Gguf.parse_kv _ _
              (r4, _) (r5, out1) H4 Ha3).
    intros [ra oa] [rb ob] Hs Hb. simpl in *. eapply parse_kv_in_slice; eassumption. }
  refine (for_u64_inv (fun st => in_slice data (fst st)) Gguf.parse_tensor _ _
            (r5, out1) (r, out) H5 H).
  intros [ra oa] [rb ob] Hs Hb. simpl in *. eapply parse_tensor_in_slice; eassumption.
Qed.

(** X2. The cursor of a [Reader] never leaves its slice: after any
    successful [read], [read_bytes], [skip], [read_string] or [read_value]
    the reader still reads the same bytes and [0 <= pos_ <= size_], whatever
    the count that was asked for (also when [pos_ + n] wrapped); and so does
    the reader that [parse] holds when the directory has been read. *)
Theorem reader_cursor_stays_in_slice :
  (forall sz r x r', Reader.read sz r = Ok (x, r') -> in_slice (Reader.data_ r) r') /\
  (forall n r bs r', Reader.read_bytes n r = Ok (bs, r') -> in_slice (Reader.data_ r) r') /\
  (forall n r r', Reader.skip n r = Ok r' -> in_slice (Reader.data_ r) r') /\
  (forall r s r', Reader.read_string r = Ok (s, r') -> in_slice (Reader.data_ r) r') /\
  (forall r t v r', Gguf.read_value r t = Ok (v, r') -> in_slice (Reader.data_ r) r') /\
  (forall data r out, Gguf.read_directory data = Ok (r, out) -> in_slice data r).
Proof.
  split; [exact read_in_slice|]. split; [exact read_bytes_in_slice|].
  split; [exact skip_in_slice|]. split; [exact read_string_in_slice|].
  split; [exact read_value_in_slice | exact read_directory_in_slice].
Qed.

(** The theorem at the skip of [2^64 - 1] bytes from position 49 of a
    64-byte slice, and at the directory of [file_dup_key]. *)
Lemma reader_cursor_stays_in_slice_witness :
  in_slice (Wire.zeros 64) (Reader.mk (Wire.zeros 64) 48) /\
  exists r out, Gguf.read_directory file_dup_key = Ok (r, out) /\ in_slice file_dup_key r.
Proof.
  destruct reader_cursor_stays_in_slice as (_ & _ & Hskip & _ & _ & Hdir).
  split.
  - apply (Hskip (2 ^ 64 - 1) (Reader.mk (Wire.zeros 64) 49)). vm_compute. reflexivity.
  - eexists _, _. split; [vm_compute; reflexivity|].
    eapply Hdir. vm_compute. reflexivity.
Defined.

(** X3. [read_string] is safe against a length that does not fit: on a slice
    of at most [2^64 - 1] bytes it succeeds only if the 8-byte length
    [len] and the [len] bytes behind it lie inside the slice, in unbounded
    integers; it then returns exactly [len] bytes and moves the cursor
    forward by [8 + len].  (It compares [len] with [size_ - pos_] where
    [skip] compares [pos_ + n] with [size_].) *)
Theorem read_string_never_wraps (r : Reader.t) (s : string) (r' : Reader.t) :
  0 <= Reader.pos_ r <= Reader.size_ r ->
  Reader.size_ r + 8 <= U64.max ->
  Reader.read_string r = Ok (s, r') ->
  exists len,
    0 <= len /\
    Reader.pos_ r + 8 + len <= Reader.size_ r /\
    Reader.pos_ r' = Reader.pos_ r + 8 + len /\
    Reader.data_ r' = Reader.data_ r /\
    Z.of_nat (String.length s) = len.
Proof.
  intros Hp Hmax H.
  destruct (read_string_advance r s r' ltac:(lia) H) as (len & r1 & Hrd & Hlen & Hfit & -> & ->).
  unfold Reader.read_u64, Reader.read in Hrd.
  destruct (Z.gtb_spec (U64.add (Reader.pos_ r) 8) (Reader.size_ r)); [discriminate|].
  injection Hrd as Hl <-. simpl in *.
  assert (U64.add (Reader.pos_ r) 8 = Reader.pos_ r + 8) as Hadd.
  { unfold U64.add. apply u64_wrap_small. lia. }
  rewrite Hadd in *.
  exists len. repeat split; try lia.
  unfold Reader.bytes_at. simpl.
  assert (forall l : list byte, String.length (string_of_list_byte l) = length l) as Hsl.
  { induction l as [|b l IH]; simpl; [reflexivity | f_equal; exact IH]. }
  rewrite Hsl. rewrite length_take, length_drop. unfold Reader.size_ in *. lia.
Qed.

(** The theorem at the first key of [file_dup_key], read from position 24. *)
Lemma read_string_never_wraps_witness :
  exists len, 0 <= len /\ 24 + 8 + len <= 64 /\ len = 1.
Proof.
  destruct (read_string_never_wraps (Reader.mk file_dup_key 24) "k"
              (Reader.mk file_dup_key 33)) as (len & H0 & H1 & H2 & _ & H4).
  - vm_compute. split; discriminate.
  - vm_compute. discriminate.
  - vm_compute. reflexivity.
  - exists len. simpl in *. repeat split; try assumption; lia.
Defined.

(** ** gguf.cpp: values, the magic, byte counts and the data section *)

Lemma le_decode_bound bs : Reader.le_decode bs < 256 ^ Z.of_nat (length bs).
Proof.
  induction bs as [|b bs IH]; [simpl; lia|].
  cbn [Reader.le_decode length]. rewrite Nat2Z.inj_succ, Z.pow_succ_r by lia.
  pose proof (Byte.to_N_bounded b) as Hb. lia.
Qed.

Lemma read_bound sz r x r' :
  0 <= sz -> Reader.read sz r = Ok (x, r') -> 0 <= x < 256 ^ sz.
Proof.
  intros Hsz H. split; [eapply read_nonneg; eassumption|].
  unfold Reader.read in H. destruct (_ >? _); [discriminate|].
  injection H as <- _.
  eapply Z.lt_le_trans; [apply le_decode_bound|].
  apply Z.pow_le_mono_r; [lia|].
  unfold Reader.bytes_at. rewrite length_take. lia.
Qed.

Lemma read_value_wf r t v r' :
  Gguf.read_value r t = Ok (v, r') -> Gguf.type v = t /\ value_wf v.
Proof.
  intros H. unfold value_wf.
  destruct t; simpl in H; inv_bind H; destruct a as [x r1];
    try (injection H as <- <-; split; [reflexivity|]; cbn;
         first [ exact I
               | unfold Reader.read_u8, Reader.read_u16, Reader.read_u32, Reader.read_u64 in Ha;
                 apply read_bound in Ha; [|lia];
                 unfold Reader.to_signed;
                 try match goal with
                     | |- context [?a <? ?b] => destruct (Z.ltb_spec a b)
                     end; lia ]).
  (* Array *)
  inv_bind H. destruct a as [n r2].
  unfold Reader.read_u64 in Ha0. apply read_bound in Ha0; [|lia].
  destruct (Gguf.value_type_of_u32 x) as [elem|]; [|discriminate].
  destruct elem; try discriminate; inv_bind H; injection H as <- _;
    (split; [reflexivity | cbn; lia]).
Qed.

Lemma read_advance sz r x r' :
  0 <= sz -> 0 <= Reader.pos_ r <= Reader.size_ r -> Reader.size_ r + sz <= U64.max ->
  Reader.read sz r = Ok (x, r') ->
  Reader.pos_ r' = Reader.pos_ r + sz /\ Reader.pos_ r + sz <= Reader.size_ r.
Proof.
  intros Hsz Hp Hmax. unfold Reader.read, U64.add.
  rewrite u64_wrap_small by lia.
  destruct (Z.gtb_spec (Reader.pos_ r + sz) (Reader.size_ r)) as [|Hle];
    [discriminate|].
  intros [= _ <-]. simpl. lia.
Qed.

(** X4. [read_value] returns a value of the type it was asked for: the
    variant holds the alternative of that type, with an integer inside the
    range of its C++ type (a float as a 32- or 64-bit pattern, an array
    summary with a 64-bit length).  For a scalar type the cursor moves by
    exactly the width of the type, inside the slice. *)
Theorem read_value_typed (r : Reader.t) (t : Gguf.ValueType) (v : Gguf.Value)
    (r' : Reader.t) :
  0 <= Reader.pos_ r <= Reader.size_ r ->
  Reader.size_ r + 8 <= U64.max ->
  Gguf.read_value r t = Ok (v, r') ->
  Gguf.type v = t /\ value_wf v /\
  forall w, scalar_width t = Some w ->
    Reader.pos_ r' = Reader.pos_ r + w /\ Reader.pos_ r + w <= Reader.size_ r.
Proof.
  intros Hp Hmax H. destruct (read_value_wf _ _ _ _ H) as [Ht Hwf].
  split; [exact Ht|]. split; [exact Hwf|].
  intros w Hw.
  destruct t; simpl in Hw; try discriminate; injection Hw as <-;
    simpl in H; inv_bind H; destruct a as [x r1]; injection H as _ <-;
    unfold Reader.read_u8, Reader.read_u16, Reader.read_u32, Reader.read_u64 in Ha;
    (eapply read_advance; [| | |exact Ha]; lia).
Qed.

(** The theorem at the first value of [file_dup_key], a [Uint32] at
    position 37. *)
Lemma read_value_typed_witness :
  exists v r', Gguf.read_value (Reader.mk file_dup_key 37) Gguf.Uint32 = Ok (v, r') /\
    Gguf.type v = Gguf.Uint32 /\ value_wf v /\ Reader.pos_ r' = 41.
Proof.
  eexists _, _. split; [vm_compute; reflexivity|].
  destruct (read_value_typed (Reader.mk file_dup_key 37) Gguf.Uint32
              (Gguf.mk_value Gguf.Uint32 (Gguf.P_u32 1)) (Reader.mk file_dup_key 41))
    as (H1 & H2 & H3).
  - vm_compute. split; discriminate.
  - vm_compute. discriminate.
  - vm_compute. reflexivity.
  - split; [exact H1|]. split; [exact H2|]. reflexivity.
Defined.

Lemma is_magic_spec m : Gguf.is_magic m = true <-> m = Wire.magic.
Proof.
  split.
  - destruct m as [|a [|b [|c [|d [|e m]]]]]; simpl; try discriminate.
    intros H. repeat (apply andb_prop in H as [H ?]).
    repeat match goal with
           | E : Byte.eqb _ _ = true |- _ => apply Byte.byte_dec_bl in E; subst
           end.
    reflexivity.
  - intros ->. reflexivity.
Qed.

(** X5. [parse] checks the magic before anything else.  A slice of fewer
    than 4 bytes throws "read_bytes past EOF"; a slice of 4 bytes or more
    that does not start with ["GGUF"] throws "not a GGUF file (bad magic)",
    whatever follows; and every slice that [parse] accepts starts with
    ["GGUF"] and holds the 24 bytes of the header. *)
Theorem parse_checks_magic (data : list byte) :
  ((length data < 4)%nat -> Gguf.parse data = Err E_read_bytes_past_EOF) /\
  ((4 <= length data)%nat -> take 4 data <> Wire.magic ->
     Gguf.parse data = Err E_bad_magic) /\
  (forall f, Gguf.parse data = Ok f ->
     take 4 data = Wire.magic /\ (24 <= length data)%nat).
Proof.
  assert (forall n, 0 <= n <= U64.max -> U64.add 0 n = n) as Hadd.
  { intros n Hn. unfold U64.add. apply u64_wrap_small. lia. }
  split; [|split].
  - intros Hlen. unfold Gguf.parse, Gguf.read_directory, Reader.read_bytes.
    simpl Reader.pos_. rewrite Hadd by (unfold U64.max; lia).
    unfold Reader.size_. simpl Reader.data_.
    destruct (Z.gtb_spec 4 (Z.of_nat (length data))); [reflexivity | lia].
  - intros Hlen Hbad. unfold Gguf.parse, Gguf.read_directory, Reader.read_bytes.
    simpl Reader.pos_. rewrite Hadd by (unfold U64.max; lia).
    unfold Reader.size_. simpl Reader.data_.
    destruct (Z.gtb_spec 4 (Z.of_nat (length data))); [lia|].
    cbn [rbind]. unfold Reader.bytes_at. simpl Reader.pos_. simpl Reader.data_.
    change (take (Z.to_nat 4) (drop (Z.to_nat 0) data)) with (take 4 data).
    destruct (Gguf.is_magic (take 4 data)) eqn:E; [|reflexivity].
    apply is_magic_spec in E. contradiction.
  - intros f H. apply parse_ok_inv in H as (r6 & out2 & Hdir & _).
    unfold Gguf.read_directory in Hdir.
    inv_bind Hdir. destruct a as [magic r1].
    destruct (Gguf.is_magic magic) eqn:E; [|discriminate]. simpl in Hdir.
    apply is_magic_spec in E.
    inv_bind Hdir. destruct a as [ver r2].
    inv_bind Hdir. destruct a as [tc r3].
    inv_bind Hdir. destruct a as [kc r4].
    unfold Reader.read_bytes in Ha. simpl Reader.pos_ in Ha.
    rewrite Hadd in Ha by (unfold U64.max; lia).
    destruct (Z.gtb_spec 4 (Reader.size_ (Reader.init data))) as [|H4]; [discriminate|].
    injection Ha as Hm <-. subst magic.
    split; [exact E|].
    unfold Reader.read_u32, Reader.read_u64, Reader.read in *.
    unfold Reader.size_ in *. simpl in *.
    assert (U64.add 4 4 = 8) as E8 by reflexivity. rewrite E8 in *.
    destruct (Z.gtb_spec 8 (Z.of_nat (length data))); [discriminate|].
    injection Ha0 as _ <-. simpl in *.
    assert (U64.add 8 8 = 16) as E16 by reflexivity. rewrite E16 in *.
    destruct (Z.gtb_spec 16 (Z.of_nat (length data))); [discriminate|].
    injection Ha1 as _ <-. simpl in *.
    assert (U64.add 16 8 = 24) as E24 by reflexivity. rewrite E24 in *.
    destruct (Z.gtb_spec 24 (Z.of_nat (length data))); [discriminate|]. lia.
Qed.

(** The theorem at [file_bad_magic], whose header is well formed but for the
    fourth byte. *)
Lemma parse_checks_magic_witness :
  Gguf.parse file_bad_magic = Err E_bad_magic /\
  Gguf.parse (take 3 file_bad_magic) = Err E_read_bytes_past_EOF.
Proof.
  split.
  - apply (parse_checks_magic file_bad_magic); [vm_compute; lia | vm_compute; discriminate].
  - apply (parse_checks_magic (take 3 file_bad_magic)). vm_compute. lia.
Defined.

Lemma ggml_type_traits_inv g tr :
  Gguf.ggml_type_traits g = Some tr ->
  (Gguf.block_size tr = 1 \/ Gguf.block_size tr = 256) /\
  0 < Gguf.type_size tr <= 210.
Proof.
  unfold Gguf.ggml_type_traits.
  destruct g as [|p|p]; try discriminate;
    [intros [= <-]; simpl; lia|].
  do 5 (try (destruct p as [p|p|]; try discriminate));
    intros [= <-]; simpl; lia.
Qed.

Lemma product_cons d ds : product (d :: ds) = d * product ds.
Proof. reflexivity. Qed.

Lemma product_pos ds : Forall (fun d => 0 < d) ds -> 0 < product ds.
Proof.
  induction 1 as [|d ds Hd _ IH]; [reflexivity|]. rewrite product_cons. lia.
Qed.

Lemma mul_dims_product ds : forall n c,
  0 <= n <= U64.max -> dims_u64 ds -> Gguf.mul_dims n ds = Some c ->
  c = n * product ds /\ 0 <= c <= U64.max.
Proof.
  induction ds as [|d ds IH]; intros n c Hn Hds H.
  - injection H as <-. unfold product. simpl. lia.
  - apply Forall_cons in Hds as [Hd Hds]. cbn [Gguf.mul_dims] in H.
    destruct (Gguf.mul_overflow_u64 n d) as [nb|] eqn:E; [|discriminate].
    apply mul_overflow_u64_some in E as [-> Hb]; try lia.
    destruct (IH _ _ Hb Hds H) as [-> Hc]. rewrite product_cons.
    split; [ring | lia].
Qed.

Lemma mul_overflow_u64_fits a b :
  0 < a -> 0 < b -> a * b <= U64.max -> Gguf.mul_overflow_u64 a b = Some (a * b).
Proof.
  intros Ha Hb Hab. unfold Gguf.mul_overflow_u64.
  destruct (Z.eqb_spec a 0); [lia|]. destruct (Z.eqb_spec b 0); [lia|]. simpl.
  assert (a <= U64.max / b) by (apply Z.div_le_lower_bound; lia).
  destruct (Z.gtb_spec a (U64.max / b)); [lia|].
  unfold U64.mul. rewrite u64_wrap_small by lia. reflexivity.
Qed.

Lemma mul_dims_fits ds : forall n,
  0 < n -> Forall (fun d => 0 < d) ds -> n * product ds <= U64.max ->
  Gguf.mul_dims n ds = Some (n * product ds).
Proof.
  induction ds as [|d ds IH]; intros n Hn Hds Hfit.
  - unfold product. simpl. f_equal. lia.
  - apply Forall_cons in Hds as [Hd Hds]. rewrite product_cons in *.
    pose proof (product_pos ds Hds) as Hp.
    cbn [Gguf.mul_dims]. rewrite mul_overflow_u64_fits by nia.
    rewrite IH by (try assumption; nia). f_equal. ring.
Qed.

(** The block count along [dims[0]] that [tensor_nbytes] computes. *)
Lemma blocks_dim0_ceil d0 bs :
  0 <= d0 <= U64.max -> bs = 1 \/ bs = 256 ->
  (if bs =? 1 then Some d0
   else if negb (d0 mod bs =? 0) then
          (if d0 / bs =? U64.max then None else Some (U64.add (d0 / bs) 1))
        else Some (d0 / bs)) = Some (ceil_div d0 bs) /\
  0 <= ceil_div d0 bs <= U64.max /\ (0 < d0 -> 0 < ceil_div d0 bs).
Proof.
  intros Hd [-> | ->]; unfold ceil_div, U64.max in *.
  - simpl (1 =? 1). cbv iota. replace (d0 + 1 - 1) with d0 by lia. rewrite Z.div_1_r.
    split; [reflexivity | lia].
  - simpl (256 =? 1). cbv iota.
    assert (d0 / 256 < 2 ^ 56) as Hq by (apply Z.div_lt_upper_bound; lia).
    assert (0 <= d0 / 256) as Hq0 by (apply Z.div_pos; lia).
    destruct (Z.eqb_spec (d0 mod 256) 0) as [Hr | Hr]; simpl negb; cbv iota.
    + assert ((d0 + 256 - 1) / 256 = d0 / 256) as ->.
      { clear Hq Hq0. Z.div_mod_to_equations. lia. }
      split; [reflexivity|]. split; [lia|]. intros Hpos.
      clear Hq. Z.div_mod_to_equations. lia.
    + destruct (Z.eqb_spec (d0 / 256) (2 ^ 64 - 1)); [lia|].
      unfold U64.add. rewrite u64_wrap_small by (unfold U64.max; lia).
      assert ((d0 + 256 - 1) / 256 = d0 / 256 + 1) as ->.
      { clear Hq Hq0. Z.div_mod_to_equations. lia. }
      split; [reflexivity | lia].
Qed.

(** With no zero dimension, [tensor_nbytes] gives the byte count as soon as
    it fits 64 bits. *)
Lemma tensor_nbytes_fits (t : Gguf.TensorInfo) (tr : Gguf.GGMLTypeTraits)
    (d0 : Z) (rest : list Z) :
  Gguf.ggml_type_traits (Gguf.ggml_type t) = Some tr ->
  Gguf.dims t = d0 :: rest ->
  dims_u64 (d0 :: rest) ->
  0 < d0 -> Forall (fun d => 0 < d) rest ->
  ceil_div d0 (Gguf.block_size tr) * product rest * Gguf.type_size tr <= U64.max ->
  Gguf.tensor_nbytes t
    = Some (ceil_div d0 (Gguf.block_size tr) * product rest * Gguf.type_size tr).
Proof.
  intros Htr Hdims Hds Hpos Hrpos Hfit.
  apply Forall_cons in Hds as [Hd0 Hrest].
  destruct (ggml_type_traits_inv _ _ Htr) as [Hbs Hts].
  destruct (blocks_dim0_ceil d0 (Gguf.block_size tr) Hd0 Hbs) as (Hb0 & Hcb & Hcpos).
  unfold Gguf.tensor_nbytes. rewrite Htr, Hdims. cbv zeta. rewrite Hb0.
  pose proof (product_pos rest Hrpos) as Hp. specialize (Hcpos Hpos).
  rewrite mul_dims_fits by (try assumption; nia).
  apply mul_overflow_u64_fits; nia.
Qed.

(** X6. The byte count of [tensor_nbytes], for a known type and 64-bit
    dimensions [d0 :: rest]: whenever it returns a value, the value is
    [ceil(d0 / block_size) * product rest * type_size] in unbounded integers,
    and this fits 64 bits; and when no dimension is zero it returns that
    value as soon as it fits 64 bits.  (With a zero dimension behind an
    overflowing prefix it returns [nullopt], see the model.) *)
Theorem tensor_nbytes_exact (t : Gguf.TensorInfo) (tr : Gguf.GGMLTypeTraits)
    (d0 : Z) (rest : list Z) :
  Gguf.ggml_type_traits (Gguf.ggml_type t) = Some tr ->
  Gguf.dims t = d0 :: rest ->
  dims_u64 (d0 :: rest) ->
  let bytes := ceil_div d0 (Gguf.block_size tr) * product rest * Gguf.type_size tr in
  (forall nb, Gguf.tensor_nbytes t = Some nb -> nb = bytes /\ 0 <= bytes <= U64.max) /\
  (0 < d0 -> Forall (fun d => 0 < d) rest -> bytes <= U64.max ->
   Gguf.tensor_nbytes t = Some bytes).
Proof.
  intros Htr Hdims Hds bytes. subst bytes.
  split; [|apply tensor_nbytes_fits; assumption].
  apply Forall_cons in Hds as [Hd0 Hrest].
  destruct (ggml_type_traits_inv _ _ Htr) as [Hbs Hts].
  destruct (blocks_dim0_ceil d0 (Gguf.block_size tr) Hd0 Hbs) as (Hb0 & Hcb & Hcpos).
  unfold Gguf.tensor_nbytes. rewrite Htr, Hdims. cbv zeta. rewrite Hb0.
  intros nb H.
  destruct (Gguf.mul_dims (ceil_div d0 (Gguf.block_size tr)) rest) as [nblocks|] eqn:Em;
    [|discriminate].
  apply mul_dims_product in Em as [-> Hnb]; try assumption.
  apply mul_overflow_u64_some in H as [-> Hb]; [|lia|lia].
  split; [reflexivity | lia].
Qed.

(** The theorem at the Q4_K tensor of 100 elements of [file_partial_rows]:
    one block of 144 bytes. *)
Lemma tensor_nbytes_exact_witness :
  Gguf.tensor_nbytes
    {| Gguf.name := "q"; Gguf.dims := [100]; Gguf.ggml_type := 12; Gguf.offset := 0 |}
  = Some 144.
Proof.
  refine (proj2 (tensor_nbytes_exact
            {| Gguf.name := "q"; Gguf.dims := [100]; Gguf.ggml_type := 12; Gguf.offset := 0 |}
            {| Gguf.traits_name := "Q4_K"; Gguf.block_size := 256; Gguf.type_size := 144 |}
            100 [] _ _ _) _ _ _).
  all: [> reflexivity | reflexivity | repeat constructor; vm_compute; discriminate
        | lia | constructor | vm_compute; discriminate ].
Defined.

Lemma parse_kv_metadata_wf r out r' out' :
  metadata_wf out -> Gguf.parse_kv (r, out) = Ok (r', out') -> metadata_wf out'.
Proof.
  unfold Gguf.parse_kv, metadata_wf. intros Hwf H.
  inv_bind H. destruct a as [k r1]. inv_bind H. destruct a as [tu r2].
  destruct (Gguf.value_type_of_u32 tu) as [t|]; [|discriminate].
  inv_bind H. destruct a as [v r3]. injection H as _ <-. simpl.
  apply Forall_app. split; [exact Hwf|]. constructor; [|constructor]. simpl.
  eapply read_value_wf; eassumption.
Qed.

Lemma read_directory_metadata_wf data r out :
  Gguf.read_directory data = Ok (r, out) -> metadata_wf out.
Proof.
  intros H.
  destruct (read_directory_inv _ _ _ H) as (h & r4 & r5 & out1 & _ & _ & Hkv & Hts & _).
  assert (metadata_wf out1) as H1.
  { refine (for_u64_inv (fun st => metadata_wf (snd st)) Gguf.parse_kv _ _
              (r4, Gguf.empty_file h) (r5, out1) _ Hkv).
    - intros [ra oa] [rb ob] Hs Hb. simpl in *. eapply parse_kv_metadata_wf; eassumption.
    - constructor. }
  refine (for_u64_inv (fun st => metadata_wf (snd st)) Gguf.parse_tensor _ _
            (r5, out1) (r, out) H1 Hts).
  intros [ra oa] [rb ob] Hs Hb. simpl in *.
  apply parse_tensor_fields in Hb as (_ & Hm & _).
  unfold metadata_wf in *. rewrite Hm. exact Hs.
Qed.

Lemma alignment_of_u32 out : metadata_wf out -> 0 <= Gguf.alignment_of out < 2 ^ 32.
Proof.
  unfold metadata_wf, Gguf.alignment_of, Gguf.kDefaultAlignment. intros Hwf.
  destruct (Gguf.kv_index_by_key out !! _) as [i|]; [|lia].
  destruct (Gguf.metadata out !! i) as [kv|] eqn:Ei; [|lia].
  rewrite Forall_forall in Hwf.
  specialize (Hwf kv ltac:(eapply list_elem_of_lookup_2; eassumption)).
  unfold value_wf in Hwf.
  destruct (Gguf.payload (Gguf.value kv)) as [| | | |a| |a| | | | | |]; try lia.
  - destruct (Gguf.type (Gguf.value kv)); simpl in Hwf; try contradiction. lia.
  - destruct (Gguf.type (Gguf.value kv)); simpl in Hwf; try contradiction.
    unfold u32_max. destruct (Z.leb_spec a (2 ^ 32 - 1)); lia.
Qed.

(** X7. Where the data section starts.  In a file that [parse] accepts (of a
    size that leaves 32 bits of headroom in [std::size_t]), the alignment
    that [parse] uses is a 32-bit value [a], and [data_section_offset] is
    the least multiple of [a] at or after the end of the tensor directory;
    it lies inside the file.  For [general.alignment = 0] the data section
    starts at the end of the directory (nothing is divided by zero). *)
Theorem parse_data_section_aligned (data : list byte) (f : Gguf.File) :
  Z.of_nat (length data) + 2 ^ 32 <= U64.max ->
  Gguf.parse data = Ok f ->
  exists r out,
    Gguf.read_directory data = Ok (r, out) /\
    0 <= Gguf.alignment_of f < 2 ^ 32 /\
    Reader.pos r <= Gguf.data_section_offset f <= Z.of_nat (length data) /\
    (Gguf.alignment_of f = 0 -> Gguf.data_section_offset f = Reader.pos r) /\
    (0 < Gguf.alignment_of f ->
       Gguf.data_section_offset f mod Gguf.alignment_of f = 0 /\
       Gguf.data_section_offset f < Reader.pos r + Gguf.alignment_of f /\
       forall m, Reader.pos r <= m -> m mod Gguf.alignment_of f = 0 ->
                 Gguf.data_section_offset f <= m).
Proof.
  intros Hsz H. apply parse_ok_inv in H as (r & out & Hdir & -> & Hle & _).
  exists r, out. split; [exact Hdir|].
  pose proof (alignment_of_u32 out (read_directory_metadata_wf _ _ _ Hdir)) as Ha.
  destruct (read_directory_in_slice _ _ _ Hdir) as [_ Hpos].
  change (Gguf.alignment_of (Gguf.set_data_section_offset _ out))
    with (Gguf.alignment_of out).
  simpl Gguf.data_section_offset in *. unfold Reader.pos in *.
  set (a := Gguf.alignment_of out) in *. set (v := Reader.pos_ r) in *.
  split; [exact Ha|].
  destruct (Z.eq_dec a 0) as [Ha0 | Ha0].
  - unfold Reader.align_up in *. rewrite Ha0 in *. simpl in *. repeat split; lia.
  - destruct (align_up_round v a) as (Hm & Hb & Hleast); [lia | lia | lia |].
    split; [lia|]. split; [lia|]. intros _.
    split; [exact Hm|]. split; [lia|]. exact Hleast.
Qed.

(** The theorem at [file_dup_key]: the directory ends at byte 58 and the
    data section starts at byte 64. *)
Lemma parse_data_section_aligned_witness :
  exists f r out,
    Gguf.parse file_dup_key = Ok f /\
    Gguf.read_directory file_dup_key = Ok (r, out) /\
    Reader.pos r <= Gguf.data_section_offset f <= 64.
Proof.
  assert (exists f, Gguf.parse file_dup_key = Ok f) as [f Hf].
  { eexists. vm_compute. reflexivity. }
  destruct (parse_data_section_aligned file_dup_key f) as (r & out & Hd & _ & Hb & _).
  - vm_compute. discriminate.
  - exact Hf.
  - exists f, r, out. split; [exact Hf|]. split; [exact Hd | exact Hb].
Defined.

(** ** gguf_loader.cpp: metadata accessors *)

Lemma read_directory_indexed data r out :
  Gguf.read_directory data = Ok (r, out) -> file_indexed out.
Proof.
  intros H.
  destruct (read_directory_inv _ _ _ H) as (h & r4 & r5 & out1 & _ & _ & Hkv & Hts & _).
  assert (file_indexed out1) as H1.
  { refine (for_u64_inv (fun st => file_indexed (snd st)) Gguf.parse_kv _ _
              (r4, Gguf.empty_file h) (r5, out1) _ Hkv).
    - intros [ra oa] [rb ob] Hs Hb. simpl in *.
      apply parse_kv_inv in Hb as [kv ->]. apply push_kv_indexed. exact Hs.
    - split; simpl; apply indexes_first_empty. }
  refine (for_u64_inv (fun st => file_indexed (snd st)) Gguf.parse_tensor _ _
            (r5, out1) (r, out) H1 Hts).
  intros [ra oa] [rb ob] Hs Hb. simpl in *.
  apply parse_tensor_inv in Hb as [ti ->]. apply push_tensor_indexed. exact Hs.
Qed.

Lemma parse_file_indexed data f :
  Gguf.parse data = Ok f -> file_indexed f /\ metadata_wf f.
Proof.
  intros H. apply parse_ok_inv in H as (r & out & Hdir & -> & _).
  split.
  - exact (read_directory_indexed _ _ _ Hdir).
  - exact (read_directory_metadata_wf _ _ _ Hdir).
Qed.

Lemma construct_inv mapped ld :
  Loader.construct mapped = Ok ld ->
  Loader.mapped_ ld = mapped /\
  Gguf.parse mapped = Ok (Loader.gguf_ ld) /\
  Loader.assign_sizes (Gguf.data_section_offset (Loader.gguf_ ld))
    (Z.of_nat (length mapped)) (Gguf.tensors (Loader.gguf_ ld))
    (Loader.sorted_idx (Gguf.tensors (Loader.gguf_ ld)))
    (repeat 0 (length (Gguf.tensors (Loader.gguf_ ld))))
  = Ok (Loader.tensor_size_from_offsets_ ld).
Proof.
  unfold Loader.construct, Loader.construct_with. intros H.
  inv_bind H. rename a into g. inv_bind H. rename a into sizes.
  injection H as <-. simpl. auto.
Qed.

(** The lookup of the accessors: the value of the first entry written under
    the key, and nothing for a key that no entry has. *)
Lemma find_value_first mapped ld k :
  Loader.construct mapped = Ok ld ->
  (forall i kv,
     first_occurrence Gguf.key (Gguf.metadata (Loader.gguf_ ld)) k i ->
     Gguf.metadata (Loader.gguf_ ld) !! i = Some kv ->
     LoaderKV.find_value ld k = Some (Gguf.value kv)) /\
  ((forall kv, kv ∈ Gguf.metadata (Loader.gguf_ ld) -> Gguf.key kv <> k) ->
   LoaderKV.find_value ld k = None) /\
  (forall v, LoaderKV.find_value ld k = Some v -> value_wf v).
Proof.
  intros H. apply construct_inv in H as (_ & Hp & _).
  apply parse_file_indexed in Hp as [[Hidx _] Hwf].
  unfold LoaderKV.find_value. split; [|split].
  - intros i kv Hfirst Hkv. apply Hidx in Hfirst. rewrite Hfirst, Hkv. reflexivity.
  - intros Hnone.
    destruct (Gguf.kv_index_by_key (Loader.gguf_ ld) !! k) as [i|] eqn:E; [|reflexivity].
    apply Hidx in E as [E _].
    destruct (Gguf.metadata (Loader.gguf_ ld) !! i) as [kv|] eqn:Ekv; [|discriminate].
    injection E as E. exfalso. apply (Hnone kv); [|exact E].
    eapply list_elem_of_lookup_2. eassumption.
  - intros v.
    destruct (Gguf.kv_index_by_key (Loader.gguf_ ld) !! k) as [i|]; [|discriminate].
    destruct (Gguf.metadata (Loader.gguf_ ld) !! i) as [kv|] eqn:Ekv; [|discriminate].
    intros [= <-]. unfold metadata_wf in Hwf. rewrite Forall_forall in Hwf.
    apply Hwf. eapply list_elem_of_lookup_2. eassumption.
Qed.

Lemma to_u32_range v x : value_wf v -> LoaderKV.to_u32 v = Some x -> 0 <= x <= u32_max.
Proof.
  unfold value_wf, LoaderKV.to_u32, u32_max. intros Hwf.
  destruct (Gguf.payload v) as [| | | |a|a|a|a| | | | |]; try discriminate;
    destruct (Gguf.type v); simpl in Hwf; try contradiction.
  - intros [= <-]. lia.
  - destruct (Z.ltb_spec a 0); [discriminate|]. intros [= <-]. lia.
  - destruct (Z.gtb_spec a (2 ^ 32 - 1)); [discriminate|]. intros [= <-]. lia.
  - destruct (Z.ltb_spec a 0); [discriminate|]. simpl.
    destruct (Z.gtb_spec a (2 ^ 32 - 1)); [discriminate|]. intros [= <-]. lia.
Qed.


Ltac zcases :=
  repeat match goal with
         | H : context [?x <? ?y] |- _ => destruct (Z.ltb_spec x y)
         | H : context [?x >? ?y] |- _ => destruct (Z.gtb_spec x y)
         | H : context [?x <=? ?y] |- _ => destruct (Z.leb_spec x y)
         | |- context [?x <? ?y] => destruct (Z.ltb_spec x y)
         | |- context [?x >? ?y] => destruct (Z.gtb_spec x y)
         | |- context [?x <=? ?y] => destruct (Z.leb_spec x y)
         end.

Lemma to_u32_to_u64 v x : LoaderKV.to_u32 v = Some x -> LoaderKV.to_u64 v = Some x.
Proof.
  unfold LoaderKV.to_u32, LoaderKV.to_u64.
  destruct (Gguf.payload v); try discriminate; zcases;
    cbv beta iota delta [orb]; congruence.
Qed.

Lemma to_u64_spec v y :
  value_wf v -> LoaderKV.to_u64 v = Some y ->
  0 <= y <= U64.max /\
  LoaderKV.to_u32 v = (if y <=? u32_max then Some y else None) /\
  LoaderKV.to_f32 v = Some (F32.of_Z y).
Proof.
  unfold value_wf, LoaderKV.to_f32, LoaderKV.to_u32, LoaderKV.to_u64, u32_max, U64.max.
  intros Hwf.
  destruct (Gguf.payload v) as [a|a|a|a|a|a|a|a|a|a|a|a|a]; try discriminate;
    destruct (Gguf.type v); simpl in Hwf; try contradiction;
    zcases; cbv beta iota delta [orb]; try discriminate; intros [= <-];
    zcases; cbv beta iota; try lia;
    (split; [lia|]; split; reflexivity).
Qed.

Lemma to_u64_none v :
  LoaderKV.to_u64 v = None ->
  LoaderKV.to_u32 v = None /\
  (LoaderKV.to_f32 v = None <->
   forall b, Gguf.payload v <> Gguf.P_f32 b /\ Gguf.payload v <> Gguf.P_f64 b).
Proof.
  intros H.
  assert (LoaderKV.to_u32 v = None) as H32.
  { destruct (LoaderKV.to_u32 v) as [x|] eqn:E; [|reflexivity].
    apply to_u32_to_u64 in E. congruence. }
  split; [exact H32|].
  unfold LoaderKV.to_f32. rewrite H32, H.
  destruct (Gguf.payload v) as [a|a|a|a|a|a|a|a|a|a|a|a|a];
    (split; [intros E; try discriminate E; intros b; split; discriminate|]);
    intros E; try reflexivity; exfalso;
    first [ destruct (E a) as [E1 _]; apply E1; reflexivity
          | destruct (E a) as [_ E1]; apply E1; reflexivity ].
Qed.

(** X8. The integer coercions of the accessors agree and never wrap.  For a
    value as [read_value] returns it: [to_u32] gives [x] only for
    [0 <= x <= 2^32 - 1], and then [to_u64] gives the same [x]; [to_u64]
    gives [y] only for [0 <= y <= 2^64 - 1], and then [to_u32] gives [y] if
    [y] fits 32 bits and nothing otherwise, and [to_f32] gives the [float]
    nearest to [y]; a negative signed value gives nothing in all three;
    and where [to_u64] gives nothing, so does [to_u32], and [to_f32] gives
    a value only for a [float] or a [double]. *)
Theorem kv_coercions_agree (v : Gguf.Value) :
  value_wf v ->
  (forall x, LoaderKV.to_u32 v = Some x ->
     0 <= x <= u32_max /\ LoaderKV.to_u64 v = Some x) /\
  (forall y, LoaderKV.to_u64 v = Some y ->
     0 <= y <= U64.max /\
     LoaderKV.to_u32 v = (if y <=? u32_max then Some y else None) /\
     LoaderKV.to_f32 v = Some (F32.of_Z y)) /\
  (forall x, (Gguf.payload v = Gguf.P_i32 x \/ Gguf.payload v = Gguf.P_i64 x) -> x < 0 ->
     LoaderKV.to_u32 v = None /\ LoaderKV.to_u64 v = None /\ LoaderKV.to_f32 v = None) /\
  (LoaderKV.to_u64 v = None ->
     LoaderKV.to_u32 v = None /\
     (LoaderKV.to_f32 v = None <->
      forall b, Gguf.payload v <> Gguf.P_f32 b /\ Gguf.payload v <> Gguf.P_f64 b)).
Proof.
  intros Hwf. split; [|split; [|split]].
  - intros x H. split; [eapply to_u32_range; eassumption | apply to_u32_to_u64; exact H].
  - intros y H. apply to_u64_spec; assumption.
  - intros x Hp Hx.
    assert (LoaderKV.to_u64 v = None) as H64.
    { unfold LoaderKV.to_u64. destruct Hp as [-> | ->];
        (destruct (Z.ltb_spec x 0); [reflexivity | lia]). }
    destruct (to_u64_none v H64) as [H32 Hf]. split; [exact H32|]. split; [exact H64|].
    apply Hf. intros b. destruct Hp as [-> | ->]; split; discriminate.
  - apply to_u64_none.
Qed.

(** The theorem at the 64-bit value [2^32]: it has no 32-bit reading, and its
    [float] is [2^32]. *)
Lemma kv_coercions_agree_witness :
  LoaderKV.to_u32 (Gguf.mk_value Gguf.Uint64 (Gguf.P_u64 (2 ^ 32))) = None /\
  LoaderKV.to_f32 (Gguf.mk_value Gguf.Uint64 (Gguf.P_u64 (2 ^ 32)))
    = Some (S754_finite false 8388608 9).
Proof.
  destruct (kv_coercions_agree (Gguf.mk_value Gguf.Uint64 (Gguf.P_u64 (2 ^ 32))))
    as (_ & H & _).
  - vm_compute. split; [discriminate | reflexivity].
  - destruct (H (2 ^ 32) eq_refl) as (_ & H32 & Hf). split; [exact H32 | exact Hf].
Defined.

(** X9. What the accessors of a loaded file see.  For a key that some
    metadata entry has, [kv_u32], [kv_u64], [kv_f32] and [kv_string] read
    the value of the FIRST entry written under the key (a later entry under
    the same key is not reachable through them); for a key that no entry
    has, all four return nothing. *)
Theorem kv_accessors_read_first_entry (mapped : list byte) (ld : Loader.GGUFLoader)
    (k : string) :
  Loader.construct mapped = Ok ld ->
  (forall i kv,
     first_occurrence Gguf.key (Gguf.metadata (Loader.gguf_ ld)) k i ->
     Gguf.metadata (Loader.gguf_ ld) !! i = Some kv ->
     LoaderKV.kv_u32 ld k = LoaderKV.to_u32 (Gguf.value kv) /\
     LoaderKV.kv_u64 ld k = LoaderKV.to_u64 (Gguf.value kv) /\
     LoaderKV.kv_f32 ld k = LoaderKV.to_f32 (Gguf.value kv) /\
     LoaderKV.kv_string ld k =
       match Gguf.payload (Gguf.value kv) with
       | Gguf.P_string s => Some s
       | _ => None
       end) /\
  ((forall kv, kv ∈ Gguf.metadata (Loader.gguf_ ld) -> Gguf.key kv <> k) ->
   LoaderKV.kv_u32 ld k = None /\ LoaderKV.kv_u64 ld k = None /\
   LoaderKV.kv_f32 ld k = None /\ LoaderKV.kv_string ld k = None).
Proof.
  intros H. destruct (find_value_first mapped ld k H) as (Hfirst & Hnone & _).
  unfold LoaderKV.kv_u32, LoaderKV.kv_u64, LoaderKV.kv_f32, LoaderKV.kv_string.
  split.
  - intros i kv Hi Hkv. rewrite (Hfirst i kv Hi Hkv). repeat split.
  - intros Hk. rewrite (Hnone Hk). repeat split.
Qed.

(** The theorem at [file_dup_key], whose two entries under ["k"] hold 1 and
    then 2: the accessors give 1. *)
Lemma kv_accessors_read_first_entry_witness :
  exists ld, Loader.construct file_dup_key = Ok ld /\
    LoaderKV.kv_u32 ld "k" = Some 1 /\ LoaderKV.kv_u64 ld "k" = Some 1 /\
    LoaderKV.kv_string ld "k" = None.
Proof.
  assert (exists ld, Loader.construct file_dup_key = Ok ld /\
            Gguf.metadata (Loader.gguf_ ld) !! 0%nat
              = Some {| Gguf.key := "k";
                        Gguf.value := Gguf.mk_value Gguf.Uint32 (Gguf.P_u32 1) |})
    as (ld & Hld & H0).
  { eexists. split; [vm_compute; reflexivity | reflexivity]. }
  exists ld. split; [exact Hld|].
  destruct (kv_accessors_read_first_entry file_dup_key ld "k" Hld) as [Hfirst _].
  destruct (Hfirst 0%nat _ ltac:(split; [rewrite H0; reflexivity | intros j Hj; lia]) H0)
    as (H32 & H64 & _ & Hs).
  split; [exact H32|]. split; [exact H64 | exact Hs].
Defined.

(** ** gguf_loader.cpp: tensor views and [config] *)

Lemma ascending_lookup ts idx : forall p a b,
  ascending ts idx -> idx !! p = Some a -> idx !! S p = Some b ->
  Loader.offset_at ts a <= Loader.offset_at ts b.
Proof.
  induction idx as [|x [|y rest] IH]; intros p a b Hasc Ha Hb.
  - rewrite lookup_nil in Ha. discriminate.
  - destruct p; simpl in Hb; rewrite ?lookup_nil in Hb; discriminate.
  - destruct Hasc as [Hxy Hasc]. destruct p as [|p].
    + simpl in Ha, Hb. injection Ha as <-. injection Hb as <-. exact Hxy.
    + apply (IH p a b Hasc); assumption.
Qed.

(** The sizes that the constructor has recorded: at every index, the gap to
    the next offset in sorted order (to the end of the file for the last),
    which is not negative and ends inside the file. *)
Lemma construct_sizes mapped ld i ti :
  Z.of_nat (length mapped) <= U64.max ->
  Loader.construct mapped = Ok ld ->
  Gguf.tensors (Loader.gguf_ ld) !! i = Some ti ->
  exists gap,
    Loader.tensor_size_from_offsets_ ld !! i = Some gap /\
    0 <= gap /\
    Gguf.data_section_offset (Loader.gguf_ ld) + Gguf.offset ti + gap
      <= Z.of_nat (length mapped).
Proof.
  intros Hsz H Hti. apply construct_inv in H as (_ & Hparse & Hrun).
  set (f := Loader.gguf_ ld) in *.
  destruct (parse_tensors_in_file _ _ Hparse) as ([Hd Hdle] & Hoff & Hin).
  destruct (sorted_idx_is_sort (Gguf.tensors f)) as [Hperm Hasc].
  unfold offsets_nonneg in Hoff. rewrite Forall_forall in Hoff, Hin.
  assert (forall j, j ∈ Loader.sorted_idx (Gguf.tensors f) ->
            (j < length (Gguf.tensors f))%nat /\ 0 <= Loader.offset_at (Gguf.tensors f) j /\
            Gguf.data_section_offset f + Loader.offset_at (Gguf.tensors f) j
              <= Z.of_nat (length mapped)) as Hall.
  { intros j Hj. rewrite Hperm in Hj. apply elem_of_seq in Hj as [_ Hj]. simpl in Hj.
    split; [assumption|].
    destruct (lookup_lt_is_Some_2 (Gguf.tensors f) j Hj) as [t Ht].
    unfold Loader.offset_at. rewrite Ht.
    assert (t ∈ Gguf.tensors f) as Htin by (eapply list_elem_of_lookup_2; eassumption).
    destruct (Hin t Htin) as (H1 & _ & _). split; [apply Hoff; assumption | assumption]. }
  destruct (assign_sizes_spec (Gguf.data_section_offset f) (Z.of_nat (length mapped))
              (Gguf.tensors f) Hd Hsz (Loader.sorted_idx (Gguf.tensors f))
              (repeat 0 (length (Gguf.tensors f))))
    as (sizes & Hrun' & _ & _ & Hgap).
  - rewrite Hperm. apply NoDup_seq.
  - assumption.
  - intros j Hj. rewrite repeat_length. apply Hall. exact Hj.
  - rewrite Hrun in Hrun'. injection Hrun' as Hs.
    assert (i ∈ Loader.sorted_idx (Gguf.tensors f)) as Hi.
    { rewrite Hperm. apply elem_of_seq. split; [lia|]. simpl.
      eapply lookup_lt_Some. eassumption. }
    apply list_elem_of_lookup_1 in Hi as [p Hp].
    exists (offset_gap (Gguf.data_section_offset f) (Z.of_nat (length mapped))
              (Gguf.tensors f) (Loader.sorted_idx (Gguf.tensors f)) p i).
    split; [rewrite Hs; apply Hgap; exact Hp|].
    assert (Loader.offset_at (Gguf.tensors f) i = Gguf.offset ti) as Hoi.
    { unfold Loader.offset_at. rewrite Hti. reflexivity. }
    destruct (Hall i ltac:(eapply list_elem_of_lookup_2; eassumption)) as (_ & Hi0 & Hile).
    unfold offset_gap.
    destruct (Loader.sorted_idx (Gguf.tensors f) !! S p) as [nxt|] eqn:En.
    + pose proof (ascending_lookup _ _ _ _ _ Hasc Hp En) as Hle.
      destruct (Hall nxt ltac:(eapply list_elem_of_lookup_2; eassumption)) as (_ & _ & Hnle).
      lia.
    + lia.
Qed.

(** [maybe_get_tensor] on a loader built from a file never throws. *)
Lemma maybe_get_tensor_view mapped ld nm i ti :
  Z.of_nat (length mapped) <= U64.max ->
  Loader.construct mapped = Ok ld ->
  Gguf.tensor_index_by_name (Loader.gguf_ ld) !! nm = Some i ->
  Gguf.tensors (Loader.gguf_ ld) !! i = Some ti ->
  exists nbytes,
    Loader.maybe_get_tensor ld nm
      = Ok (Some {| Loader.tv_name := Gguf.name ti;
                    Loader.tv_dims := Gguf.dims ti;
                    Loader.tv_ggml_type := Gguf.ggml_type ti;
                    Loader.tv_data :=
                      drop (Z.to_nat (Gguf.data_section_offset (Loader.gguf_ ld)
                                      + Gguf.offset ti)) mapped;
                    Loader.tv_nbytes := nbytes;
                    Loader.tv_file_offset :=
                      Gguf.data_section_offset (Loader.gguf_ ld) + Gguf.offset ti |}) /\
    0 <= nbytes /\
    0 <= Gguf.data_section_offset (Loader.gguf_ ld) + Gguf.offset ti /\
    Gguf.data_section_offset (Loader.gguf_ ld) + Gguf.offset ti + nbytes
      <= Z.of_nat (length mapped) /\
    (forall nb, Gguf.tensor_nbytes ti = Some nb -> nbytes = nb).
Proof.
  intros Hsz H Hidx Hti.
  destruct (construct_sizes mapped ld i ti Hsz H Hti) as (gap & Hgap & Hg0 & Hgle).
  apply construct_inv in H as (Hmapped & Hparse & _).
  destruct (parse_tensors_in_file _ _ Hparse) as ([Hd Hdle] & Hoff & Hin).
  unfold offsets_nonneg in Hoff. rewrite Forall_forall in Hoff, Hin.
  assert (ti ∈ Gguf.tensors (Loader.gguf_ ld)) as Htin
    by (eapply list_elem_of_lookup_2; eassumption).
  specialize (Hoff ti Htin). destruct (Hin ti Htin) as (Hle & Hmax & Hnb).
  unfold Loader.maybe_get_tensor. rewrite Hidx, Hti, Hmapped.
  rewrite checked_add_u64_ok by lia. cbn [rbind].
  set (abs_off := Gguf.data_section_offset (Loader.gguf_ ld) + Gguf.offset ti) in *.
  assert (forall nbytes, 0 <= nbytes -> abs_off + nbytes <= Z.of_nat (length mapped) ->
            (abs_off >? Z.of_nat (length mapped))
            || (U64.add abs_off nbytes >? Z.of_nat (length mapped)) = false) as Hchk.
  { intros nbytes H0 H1. unfold U64.add. rewrite u64_wrap_small by lia.
    destruct (Z.gtb_spec abs_off (Z.of_nat (length mapped))); [lia|].
    destruct (Z.gtb_spec (abs_off + nbytes) (Z.of_nat (length mapped))); [lia|].
    reflexivity. }
  destruct (Gguf.tensor_nbytes ti) as [nb|] eqn:En.
  - pose proof (tensor_nbytes_nonneg _ _ En) as Hnb0.
    destruct (Hnb nb eq_refl) as [Hnble _].
    exists nb. rewrite Hchk by lia.
    split; [reflexivity|]. repeat split; try lia. intros nb' [= <-]. reflexivity.
  - exists gap. rewrite nth_lookup, Hgap. simpl default. rewrite Hchk by lia.
    split; [reflexivity|]. repeat split; try lia. intros nb' [= ].
Qed.

(** X10. Tensor views of a loaded file.  On a loader built from a file,
    [get_tensor] never throws "tensor view out of bounds" or "u64
    overflow": for a name of the directory it returns the view of the FIRST
    tensor of that name, whose bytes [file_offset .. file_offset + nbytes)
    lie inside the mapping (in unbounded integers), with [nbytes] the value
    of [tensor_nbytes] when the type is known; for any other name it throws
    "tensor not found". *)
Theorem get_tensor_view_in_mapping (mapped : list byte) (ld : Loader.GGUFLoader)
    (nm : string) :
  Z.of_nat (length mapped) <= U64.max ->
  Loader.construct mapped = Ok ld ->
  (forall i ti,
     first_occurrence Gguf.name (Gguf.tensors (Loader.gguf_ ld)) nm i ->
     Gguf.tensors (Loader.gguf_ ld) !! i = Some ti ->
     exists tv,
       Loader.get_tensor ld nm = Ok tv /\
       Loader.tv_name tv = nm /\
       Loader.tv_dims tv = Gguf.dims ti /\
       Loader.tv_ggml_type tv = Gguf.ggml_type ti /\
       Loader.tv_file_offset tv
         = Gguf.data_section_offset (Loader.gguf_ ld) + Gguf.offset ti /\
       0 <= Loader.tv_file_offset tv /\ 0 <= Loader.tv_nbytes tv /\
       Loader.tv_file_offset tv + Loader.tv_nbytes tv <= Z.of_nat (length mapped) /\
       Loader.tv_nbytes tv <= Z.of_nat (length (Loader.tv_data tv)) /\
       (forall nb, Gguf.tensor_nbytes ti = Some nb -> Loader.tv_nbytes tv = nb)) /\
  ((forall t, t ∈ Gguf.tensors (Loader.gguf_ ld) -> Gguf.name t <> nm) ->
   Loader.maybe_get_tensor ld nm = Ok None /\
   Loader.get_tensor ld nm = Err (E_tensor_not_found nm)).
Proof.
  intros Hsz H.
  pose proof H as Hc. apply construct_inv in Hc as (_ & Hparse & _).
  apply parse_file_indexed in Hparse as [[_ Hidx] _].
  split.
  - intros i ti Hfirst Hti.
    assert (Gguf.name ti = nm) as Hname.
    { destruct Hfirst as [Hf _]. rewrite Hti in Hf. simpl in Hf. congruence. }
    apply Hidx in Hfirst.
    destruct (maybe_get_tensor_view mapped ld nm i ti Hsz H Hfirst Hti)
      as (nbytes & Hget & Hn0 & Ho0 & Hnle & Hnb).
    eexists. unfold Loader.get_tensor. rewrite Hget. cbn [rbind].
    split; [reflexivity|]. simpl.
    repeat split; try assumption; try lia.
    rewrite length_drop. lia.
  - intros Hnone.
    assert (Gguf.tensor_index_by_name (Loader.gguf_ ld) !! nm = None) as E.
    { destruct (Gguf.tensor_index_by_name (Loader.gguf_ ld) !! nm) as [i|] eqn:E;
        [|reflexivity].
      apply Hidx in E as [E _].
      destruct (Gguf.tensors (Loader.gguf_ ld) !! i) as [t|] eqn:Et; [|discriminate].
      injection E as E. exfalso. apply (Hnone t); [|exact E].
      eapply list_elem_of_lookup_2. eassumption. }
    unfold Loader.get_tensor, Loader.maybe_get_tensor. rewrite E. split; reflexivity.
Qed.

(** The theorem at [file_dup_name], whose two tensors named ["w"] are at the
    offsets 0 and 32 of the data section, which starts at byte 96. *)
Lemma get_tensor_view_in_mapping_witness :
  exists ld tv,
    Loader.construct file_dup_name = Ok ld /\
    Loader.get_tensor ld "w" = Ok tv /\
    Loader.tv_file_offset tv = Gguf.data_section_offset (Loader.gguf_ ld) + 0 /\
    Loader.get_tensor ld "v" = Err (E_tensor_not_found "v").
Proof.
  assert (exists ld, Loader.construct file_dup_name = Ok ld /\
            map Gguf.name (Gguf.tensors (Loader.gguf_ ld)) = ["w"; "w"]%string /\
            Gguf.tensors (Loader.gguf_ ld) !! 0%nat
              = Some {| Gguf.name := "w"; Gguf.dims := [8]; Gguf.ggml_type := 0;
                        Gguf.offset := 0 |})
    as (ld & Hld & Hnames & H0).
  { eexists. split; [vm_compute; reflexivity | split; reflexivity]. }
  destruct (get_tensor_view_in_mapping file_dup_name ld "w"
              ltac:(vm_compute; discriminate) Hld) as [Hview _].
  destruct (Hview 0%nat _ ltac:(split; [rewrite H0; reflexivity | intros j Hj; lia]) H0)
    as (tv & Hget & _ & _ & _ & Hoff & _).
  destruct (get_tensor_view_in_mapping file_dup_name ld "v"
              ltac:(vm_compute; discriminate) Hld) as [_ Hnone].
  exists ld, tv. split; [exact Hld|]. split; [exact Hget|]. split; [exact Hoff|].
  apply Hnone. intros t Ht Hn.
  assert (Gguf.name t ∈ map Gguf.name (Gguf.tensors (Loader.gguf_ ld))) as Hin.
  { apply list_elem_of_fmap. exists t. split; [reflexivity | exact Ht]. }
  rewrite Hnames, Hn in Hin.
  apply elem_of_cons in Hin as [Hin | Hin]; [discriminate|].
  apply elem_of_cons in Hin as [Hin | Hin]; [discriminate|].
  apply not_elem_of_nil in Hin. exact Hin.
Defined.

Lemma parse_tensor_dims_u64 r out r' out' :
  tensors_dims_u64 out -> Gguf.parse_tensor (r, out) = Ok (r', out') ->
  tensors_dims_u64 out'.
Proof.
  unfold Gguf.parse_tensor, tensors_dims_u64. intros Hwf H.
  inv_bind H. destruct a as [nm r1]. inv_bind H. destruct a as [n_dims r2].
  inv_bind H. destruct a as [r3 ds]. inv_bind H. destruct a as [ty r4].
  inv_bind H. destruct a as [off r5]. injection H as _ <-. simpl.
  apply Forall_app. split; [exact Hwf|]. constructor; [|constructor]. simpl.
  refine (for_u64_inv (fun st => dims_u64 (snd st)) Gguf.read_dim _ _
            (r2, []) (r3, ds) _ Ha1).
  - intros [ra da] [rb db] Hs Hb. unfold Gguf.read_dim in Hb.
    inv_bind Hb. destruct a as [d rr]. injection Hb as _ <-. simpl in *.
    apply Forall_app. split; [exact Hs|]. constructor; [|constructor].
    match goal with
    | Hr : Reader.read_u64 ra = Ok (d, _) |- _ =>
        unfold Reader.read_u64 in Hr; apply read_bound in Hr; [|lia]
    end.
    unfold U64.max. lia.
  - constructor.
Qed.

Lemma parse_dims_u64 data f : Gguf.parse data = Ok f -> tensors_dims_u64 f.
Proof.
  intros H. apply parse_ok_inv in H as (r & out & Hdir & -> & _).
  destruct (read_directory_inv _ _ _ Hdir) as (h & r4 & r5 & out1 & _ & _ & Hkv & Hts & _).
  assert (tensors_dims_u64 out1) as H1.
  { refine (for_u64_inv (fun st => tensors_dims_u64 (snd st)) Gguf.parse_kv _ _
              (r4, Gguf.empty_file h) (r5, out1) _ Hkv).
    - intros [ra oa] [rb ob] Hs Hb. simpl in *.
      apply parse_kv_inv in Hb as [kv ->]. exact Hs.
    - constructor. }
  refine (for_u64_inv (fun st => tensors_dims_u64 (snd st)) Gguf.parse_tensor _ _
            (r5, out1) (r, out) H1 Hts).
  intros [ra oa] [rb ob] Hs Hb. simpl in *. eapply parse_tensor_dims_u64; eassumption.
Qed.

(** [maybe_get_tensor] returns, for every name, nothing or the view of a
    tensor of the directory. *)
Lemma maybe_get_tensor_total mapped ld nm :
  Z.of_nat (length mapped) <= U64.max ->
  Loader.construct mapped = Ok ld ->
  exists o, Loader.maybe_get_tensor ld nm = Ok o /\
    forall tv, o = Some tv ->
      exists ti, ti ∈ Gguf.tensors (Loader.gguf_ ld) /\
        Loader.tv_dims tv = Gguf.dims ti /\ Loader.tv_ggml_type tv = Gguf.ggml_type ti /\
        0 <= Loader.tv_nbytes tv /\
        Loader.tv_nbytes tv <= Z.of_nat (length (Loader.tv_data tv)) /\
        (forall nb, Gguf.tensor_nbytes ti = Some nb -> Loader.tv_nbytes tv = nb).
Proof.
  intros Hsz H.
  destruct (Gguf.tensor_index_by_name (Loader.gguf_ ld) !! nm) as [i|] eqn:Ei.
  - destruct (Gguf.tensors (Loader.gguf_ ld) !! i) as [ti|] eqn:Eti.
    + destruct (maybe_get_tensor_view mapped ld nm i ti Hsz H Ei Eti)
        as (nbytes & Hget & Hn0 & Ho0 & Hnle & Hnb).
      eexists. split; [exact Hget|]. intros tv [= <-]. exists ti. simpl.
      split; [eapply list_elem_of_lookup_2; eassumption|].
      repeat split; try assumption. rewrite length_drop. lia.
    + exists None. unfold Loader.maybe_get_tensor. rewrite Ei, Eti.
      split; [reflexivity | discriminate].
  - exists None. unfold Loader.maybe_get_tensor. rewrite Ei.
    split; [reflexivity | discriminate].
Qed.

Lemma kv_u32_range mapped ld k :
  Loader.construct mapped = Ok ld ->
  0 <= LoaderKV.value_or (LoaderKV.kv_u32 ld k) 0 <= u32_max.
Proof.
  intros H. destruct (find_value_first mapped ld k H) as (_ & _ & Hwf).
  unfold LoaderKV.kv_u32.
  destruct (LoaderKV.find_value ld k) as [v|]; [|simpl; unfold u32_max; lia].
  destruct (LoaderKV.to_u32 v) as [x|] eqn:E; [|simpl; unfold u32_max; lia].
  simpl. eapply to_u32_range; [apply Hwf; reflexivity | exact E].
Qed.

(** X11. [config] of a loaded file never throws, and the configuration it
    returns is consistent: every integer field is a 32-bit value;
    [head_dim * n_heads = d_model] when [n_heads] is not zero and divides
    [d_model], and [head_dim = 0] otherwise; [kv_dim] is
    [n_kv_heads * head_dim] reduced modulo [2^32]. *)
Theorem config_consistent (mapped : list byte) (ld : Loader.GGUFLoader) :
  Z.of_nat (length mapped) <= U64.max ->
  Loader.construct mapped = Ok ld ->
  exists cfg,
    LoaderKV.config ld = Ok cfg /\
    Forall (fun x => 0 <= x <= u32_max) (u32_fields cfg) /\
    (LoaderKV.n_heads cfg <> 0 ->
     LoaderKV.d_model cfg mod LoaderKV.n_heads cfg = 0 ->
     LoaderKV.head_dim cfg * LoaderKV.n_heads cfg = LoaderKV.d_model cfg) /\
    (LoaderKV.n_heads cfg = 0 \/ LoaderKV.d_model cfg mod LoaderKV.n_heads cfg <> 0 ->
     LoaderKV.head_dim cfg = 0) /\
    LoaderKV.kv_dim cfg
      = (LoaderKV.n_kv_heads cfg * LoaderKV.head_dim cfg) mod 2 ^ 32.
Proof.
  intros Hsz H.
  destruct (maybe_get_tensor_total mapped ld "token_embd.weight" Hsz H) as (o & Hget & Ho).
  pose proof H as Hc. apply construct_inv in Hc as (_ & Hparse & _).
  pose proof (parse_dims_u64 _ _ Hparse) as Hdims.
  unfold tensors_dims_u64 in Hdims. rewrite Forall_forall in Hdims.
  unfold LoaderKV.config. rewrite Hget. cbn [rbind].
  eexists. split; [reflexivity|].
  pose proof (kv_u32_range mapped ld "llama.block_count" H) as Hl.
  pose proof (kv_u32_range mapped ld "llama.embedding_length" H) as Hdm.
  pose proof (kv_u32_range mapped ld "llama.attention.head_count" H) as Hnh.
  pose proof (kv_u32_range mapped ld "llama.attention.head_count_kv" H) as Hnkv.
  pose proof (kv_u32_range mapped ld "llama.feed_forward_length" H) as Hffn.
  pose proof (kv_u32_range mapped ld "llama.context_length" H) as Hctx.
  pose proof (kv_u32_range mapped ld "llama.rope.dimension_count" H) as Hrd.
  set (dm := LoaderKV.value_or (LoaderKV.kv_u32 ld "llama.embedding_length") 0) in *.
  set (nh := LoaderKV.value_or (LoaderKV.kv_u32 ld "llama.attention.head_count") 0) in *.
  set (nkv := LoaderKV.value_or (LoaderKV.kv_u32 ld "llama.attention.head_count_kv") 0) in *.
  unfold u32_fields. cbn [LoaderKV.n_layers LoaderKV.d_model LoaderKV.n_heads
    LoaderKV.n_kv_heads LoaderKV.head_dim LoaderKV.kv_dim LoaderKV.ffn_hidden_dim
    LoaderKV.vocab_size LoaderKV.context_length LoaderKV.rope_dim].
  set (hd := if negb (nh =? 0) && (dm mod nh =? 0) then dm / nh else 0).
  assert (0 <= hd <= u32_max /\
          (nh <> 0 -> dm mod nh = 0 -> hd * nh = dm) /\
          (nh = 0 \/ dm mod nh <> 0 -> hd = 0)) as (Hhd & Hmul & Hzero).
  { subst hd. destruct (Z.eqb_spec nh 0) as [E0 | E0]; simpl.
    - split; [unfold u32_max; lia|]. split; [contradiction | reflexivity].
    - destruct (Z.eqb_spec (dm mod nh) 0) as [Em | Em].
      + assert (dm = nh * (dm / nh)) as Hdiv.
        { pose proof (Z.div_mod dm nh E0). lia. }
        assert (0 <= dm / nh) by (apply Z.div_pos; lia).
        split; [nia|]. split; [intros; lia | intros [? | ?]; contradiction].
      + split; [unfold u32_max; lia|]. split; [contradiction | reflexivity]. }
  split; [|split; [exact Hmul | split; [exact Hzero | reflexivity]]].
  repeat (constructor; [assumption|]).
  constructor.
  { pose proof (Z.mod_pos_bound (nkv * hd) (2 ^ 32) ltac:(lia)). unfold u32_max. lia. }
  constructor; [assumption|].
  constructor.
  { destruct o as [tv|]; [|unfold u32_max; lia].
    destruct (Ho tv eq_refl) as (ti & Hti & Hd & _). rewrite Hd.
    specialize (Hdims ti Hti).
    destruct (Gguf.dims ti) as [|d0 [|d1 [|d2 rest]]]; try (unfold u32_max; lia).
    destruct (Z.leb_spec d0 u32_max); simpl; [|unfold u32_max; lia].
    destruct (Z.leb_spec d1 u32_max); simpl; [|unfold u32_max; lia].
    unfold dims_u64 in Hdims.
    apply Forall_cons in Hdims as [_ Hdims]. apply Forall_cons in Hdims as [Hd1 _]. lia. }
  repeat (constructor; [assumption|]). constructor.
Qed.

(** The theorem at [file_llama_kv]: 4 heads of 2 floats, 2 KV heads. *)
Lemma config_consistent_witness :
  exists ld cfg,
    Loader.construct file_llama_kv = Ok ld /\ LoaderKV.config ld = Ok cfg /\
    LoaderKV.head_dim cfg = 2 /\ LoaderKV.kv_dim cfg = 4 /\
    LoaderKV.head_dim cfg * LoaderKV.n_heads cfg = LoaderKV.d_model cfg.
Proof.
  assert (exists ld cfg, Loader.construct file_llama_kv = Ok ld /\
            LoaderKV.config ld = Ok cfg /\
            LoaderKV.head_dim cfg = 2 /\ LoaderKV.kv_dim cfg = 4 /\
            LoaderKV.n_heads cfg = 4 /\ LoaderKV.d_model cfg = 8)
    as (ld & cfg & Hld & Hcfg & Hhd & Hkv & Hnh & Hdm).
  { eexists _, _. split; [vm_compute; reflexivity|].
    split; [vm_compute; reflexivity|]. repeat split. }
  destruct (config_consistent file_llama_kv ld ltac:(vm_compute; discriminate) Hld)
    as (cfg' & Hcfg' & _ & Hmul & _).
  rewrite Hcfg in Hcfg'. injection Hcfg' as <-.
  exists ld, cfg. repeat split; try assumption.
  apply Hmul; [rewrite Hnh; discriminate | rewrite Hdm, Hnh; reflexivity].
Defined.

(** ** weights.cpp: element counts and the loaded buffer *)

Lemma checked_mul_u64_some a b c :
  0 <= a -> 0 <= b -> Weights.checked_mul_u64 a b = Ok c ->
  c = a * b /\ 0 <= c <= U64.max.
Proof.
  intros Ha Hb H. apply (mul_overflow_u64_some a b c Ha Hb).
  unfold Weights.checked_mul_u64 in H. unfold Gguf.mul_overflow_u64.
  destruct ((a =? 0) || (b =? 0)); [congruence|].
  destruct (a >? U64.max / b); [discriminate | congruence].
Qed.

Lemma product_from_spec ds : forall n c,
  0 <= n <= U64.max -> dims_u64 ds -> Weights.product_from n ds = Ok c ->
  c = n * product ds /\ 0 <= c <= U64.max.
Proof.
  induction ds as [|d ds IH]; intros n c Hn Hds H.
  - injection H as <-. unfold product. simpl. lia.
  - apply Forall_cons in Hds as [Hd Hds]. cbn [Weights.product_from] in H.
    inv_bind H. apply checked_mul_u64_some in Ha as [-> Hb]; try lia.
    destruct (IH _ _ Hb Hds H) as [-> Hc]. rewrite product_cons.
    split; [ring | lia].
Qed.

Lemma load_rows_length dequant_row src row_bytes (L : nat) :
  (forall row y, dequant_row row = Ok y -> length y = L) ->
  forall rows ys,
    Weights.load_rows dequant_row src row_bytes rows = Ok ys ->
    length ys = (length rows * L)%nat.
Proof.
  intros Hrow. induction rows as [|r rows IH]; intros ys H.
  - injection H as <-. reflexivity.
  - cbn [Weights.load_rows] in H. inv_bind H. inv_bind H. injection H as <-.
    rewrite length_app, (Hrow _ _ Ha), (IH _ Ha0). simpl. lia.
Qed.

Lemma length_concat_const {A} (ls : list (list A)) (L : nat) :
  Forall (fun l => length l = L) ls -> length (concat ls) = (length ls * L)%nat.
Proof.
  induction 1 as [|l ls Hl _ IH]; [reflexivity|].
  simpl. rewrite length_app, Hl, IH. reflexivity.
Qed.

Lemma dequant_q4_block_length x : length (Quants.dequant_q4_block x) = 256%nat.
Proof.
  unfold Quants.dequant_q4_block.
  rewrite (length_concat_const _ 64).
  - rewrite length_map, length_seq. reflexivity.
  - apply Forall_map. apply Forall_forall. intros g _.
    unfold Quants.dequant_q4_group.
    destruct (Quants.get_scale_min_k4 _ _) as [sc1 m1].
    destruct (Quants.get_scale_min_k4 _ _) as [sc2 m2].
    rewrite length_app, !length_map, !length_seq. reflexivity.
Qed.

Lemma dequant_q6_half_length d ql qh sc :
  length (Quants.dequant_q6_half d ql qh sc) = 128%nat.
Proof.
  unfold Quants.dequant_q6_half.
  assert (forall (ls : list nat) (y : list spec_float)
                 (f : list spec_float -> nat -> list spec_float),
            (forall y l, length (f y l) = length y) ->
            length (fold_left f ls y) = length y) as Hfold.
  { induction ls as [|l ls IH]; intros y f Hf; [reflexivity|].
    simpl. rewrite IH by assumption. apply Hf. }
  rewrite Hfold.
  - apply repeat_length.
  - intros y l. rewrite !length_insert. reflexivity.
Qed.

Lemma dequant_q6_block_length x : length (Quants.dequant_q6_block x) = 256%nat.
Proof.
  unfold Quants.dequant_q6_block.
  rewrite (length_concat_const _ 128).
  - rewrite length_map, length_seq. reflexivity.
  - apply Forall_map. apply Forall_forall. intros n _. apply dequant_q6_half_length.
Qed.

(** The number of floats that a row dequantizer writes: [256 * nb]. *)
Lemma dequantize_row_q4_k_length x k y :
  Quants.dequantize_row_q4_k x k = Ok y ->
  length y = (Z.to_nat (Quants.int_ (Z.quot k Quants.QK_K)) * 256)%nat.
Proof.
  unfold Quants.dequantize_row_q4_k. destruct (negb _); [discriminate|].
  intros [= <-]. rewrite (length_concat_const _ 256).
  - rewrite length_map, length_seq. reflexivity.
  - apply Forall_map. apply Forall_forall. intros i _. apply dequant_q4_block_length.
Qed.

Lemma dequantize_row_q6_k_length x k y :
  Quants.dequantize_row_q6_k x k = Ok y ->
  length y = (Z.to_nat (Z.quot k Quants.QK_K) * 256)%nat.
Proof.
  unfold Quants.dequantize_row_q6_k. destruct (negb _); [discriminate|].
  intros [= <-]. rewrite (length_concat_const _ 256).
  - rewrite length_map, length_seq. reflexivity.
  - apply Forall_map. apply Forall_forall. intros i _. apply dequant_q6_block_length.
Qed.

Lemma allocate_f32_spec ds al n :
  dims_u64 ds -> Weights.allocate_f32 ds al = Ok n ->
  n = product ds /\ 0 < n /\ 4 * n <= U64.max.
Proof.
  unfold Weights.allocate_f32, Weights.numel_u64. intros Hds H.
  inv_bind H. rename a into n0. inv_bind H. rename a into bytes.
  apply product_from_spec in Ha as [Hn Hn0]; [|unfold U64.max; lia | assumption].
  apply checked_mul_u64_some in Ha0 as [Hb Hb0]; [|lia | lia].
  destruct (bytes >? U64.max); [discriminate|].
  inv_bind H. injection H as <-.
  unfold Weights.allocate in Ha. destruct (Z.eqb_spec bytes 0); [discriminate|].
  lia.
Qed.

(** The floats that [load_tensor_as_f32] writes are as many as the product
    of the dimensions. *)
Lemma load_tensor_storage (ld : Loader.GGUFLoader) (nm : string) (alignment : Z)
    (t : Loader.TensorView) (out : Weights.TensorF32) :
  Loader.get_tensor ld nm = Ok t ->
  dims_u64 (Loader.tv_dims t) ->
  (Loader.tv_ggml_type t = 12 -> hd 0 (Loader.tv_dims t) < 2 ^ 39) ->
  Weights.load_tensor_as_f32 ld nm alignment = Ok out ->
  Weights.tf_dims out = Loader.tv_dims t /\
  Weights.tf_numel out = product (Loader.tv_dims t) /\
  Z.of_nat (length (Weights.tf_storage out)) = Weights.tf_numel out.
Proof.
  intros Hget Hds Hq4 H. unfold Weights.load_tensor_as_f32 in H.
  rewrite Hget in H. cbn [rbind] in H.
  destruct (Loader.tv_dims t) as [|row_len rest] eqn:Edims; [discriminate|].
  inv_bind H. rename a into numel.
  destruct (allocate_f32_spec _ _ _ Hds Ha) as (Hnumel & Hpos & Hfit).
  pose proof Hds as Hds'. apply Forall_cons in Hds' as [Hrow Hrest].
  rewrite product_cons in Hnumel.
  assert (forall dequant row_bytes n_rows ys,
            Weights.product_tail_u64 (row_len :: rest) 1 = Ok n_rows ->
            (forall row y, dequant row = Ok y -> length y = Z.to_nat row_len) ->
            Weights.load_rows dequant (Loader.tv_data t) row_bytes (seq 0 (Z.to_nat n_rows))
              = Ok ys ->
            Z.of_nat (length ys) = numel) as Hrows.
  { intros dequant row_bytes n_rows ys Hn Hlen Hload.
    unfold Weights.product_tail_u64 in Hn. simpl drop in Hn.
    apply product_from_spec in Hn as [Hn Hn0]; [|unfold U64.max; lia | assumption].
    rewrite (load_rows_length _ _ _ _ Hlen _ _ Hload), length_seq.
    rewrite Nat2Z.inj_mul, !Z2Nat.id by lia.
    rewrite drop_0 in Hn. rewrite Hn, Hnumel. ring. }
  destruct (Z.eqb_spec (Loader.tv_ggml_type t) 0) as [E0 | E0].
  { inv_bind H. destruct (_ <? _); [discriminate|]. injection H as <-. simpl.
    rewrite length_map, length_seq. repeat split; try lia. }
  destruct (Z.eqb_spec (Loader.tv_ggml_type t) 1) as [E1 | E1].
  { inv_bind H. destruct (_ <? _); [discriminate|]. injection H as <-. simpl.
    rewrite length_map, length_seq. repeat split; try lia. }
  assert (Reader.to_signed 64 row_len = row_len) as Hsigned.
  { unfold Reader.to_signed. destruct (Z.ltb_spec row_len (2 ^ (64 - 1))); [reflexivity|].
    (* a row of [2^63] elements or more has no 4-byte size in 64 bits *)
    exfalso. assert (1 <= product rest) by nia. unfold U64.max in *. nia. }
  destruct (Z.eqb_spec (Loader.tv_ggml_type t) 12) as [E12 | E12].
  { destruct (Z.eqb_spec (row_len mod Quants.QK_K) 0) as [Hmod | Hmod]; [|discriminate].
    simpl negb in H. cbv iota in H.
    inv_bind H. rename a into n_rows. inv_bind H. rename a into row_bytes.
    inv_bind H. rename a into expected_bytes.
    destruct (_ <? _); [discriminate|]. inv_bind H. rename a into ys.
    injection H as <-. simpl.
    split; [reflexivity|]. split; [lia|].
    refine (Hrows _ _ _ _ Ha0 _ Ha3).
    intros row y Hy. apply dequantize_row_q4_k_length in Hy. rewrite Hy, Hsigned.
    specialize (Hq4 E12). simpl in Hq4. unfold Quants.QK_K in *.
    rewrite Z.quot_div_nonneg by lia.
    assert (0 <= row_len / 256 < 2 ^ 31) as Hq.
    { split; [apply Z.div_pos; lia | apply Z.div_lt_upper_bound; lia]. }
    unfold Quants.int_. rewrite Z.mod_small by lia.
    unfold Reader.to_signed. destruct (Z.ltb_spec (row_len / 256) (2 ^ (32 - 1))); [|lia].
    pose proof (Z.div_mod row_len 256 ltac:(lia)). lia. }
  destruct (Z.eqb_spec (Loader.tv_ggml_type t) 14) as [E14 | E14]; [|discriminate].
  destruct (Z.eqb_spec (row_len mod Quants.QK_K) 0) as [Hmod | Hmod]; [|discriminate].
  simpl negb in H. cbv iota in H.
  inv_bind H. rename a into n_rows. inv_bind H. rename a into row_bytes.
  inv_bind H. rename a into expected_bytes.
  destruct (_ <? _); [discriminate|]. inv_bind H. rename a into ys.
  injection H as <-. simpl.
  split; [reflexivity|]. split; [lia|].
  refine (Hrows _ _ _ _ Ha0 _ Ha3).
  intros row y Hy. apply dequantize_row_q6_k_length in Hy. rewrite Hy, Hsigned.
  unfold Quants.QK_K in *. rewrite Z.quot_div_nonneg by lia.
  assert (0 <= row_len / 256) by (apply Z.div_pos; lia).
  pose proof (Z.div_mod row_len 256 ltac:(lia)). lia.
Qed.

(** X12. The buffer that [load_tensor_as_f32] returns is filled exactly.
    For a view with 64-bit dimensions (and, for Q4_K, a row of fewer than
    [2^39] elements, so that the block count fits the [int] of
    [dequantize_row_q4_k]): on success the result keeps the dimensions of
    the view, [numel] is their product, which is positive and whose 4-byte
    size fits 64 bits, and the number of floats written is [numel]. *)
Theorem load_tensor_fills_buffer (ld : Loader.GGUFLoader) (nm : string) (alignment : Z)
    (t : Loader.TensorView) (out : Weights.TensorF32) :
  Loader.get_tensor ld nm = Ok t ->
  dims_u64 (Loader.tv_dims t) ->
  (Loader.tv_ggml_type t = 12 -> hd 0 (Loader.tv_dims t) < 2 ^ 39) ->
  Weights.load_tensor_as_f32 ld nm alignment = Ok out ->
  Weights.tf_dims out = Loader.tv_dims t /\
  Weights.tf_numel out = product (Loader.tv_dims t) /\
  0 < Weights.tf_numel out /\ 4 * Weights.tf_numel out <= U64.max /\
  Z.of_nat (length (Weights.tf_storage out)) = Weights.tf_numel out.
Proof.
  intros Hget Hds Hq4 H.
  destruct (load_tensor_storage ld nm alignment t out Hget Hds Hq4 H)
    as (Hdims & Hnumel & Hlen).
  split; [exact Hdims|]. split; [exact Hnumel|].
  (* the element count is the one that [allocate_f32] has accepted *)
  unfold Weights.load_tensor_as_f32 in H. rewrite Hget in H. cbn [rbind] in H.
  destruct (Loader.tv_dims t) as [|row_len rest] eqn:Edims; [discriminate|].
  inv_bind H. rename a into numel.
  destruct (allocate_f32_spec _ _ _ Hds Ha) as (Hn & Hpos & Hfit).
  rewrite Hnumel, <- Hn. split; [exact Hpos|]. split; [exact Hfit|].
  rewrite Hlen, Hnumel. symmetry. exact Hn.
Qed.

(** The theorem at the first tensor ["w"] of [file_dup_name]: 8 floats. *)
Lemma load_tensor_fills_buffer_witness :
  exists ld out,
    Loader.construct file_dup_name = Ok ld /\
    Weights.load_tensor_as_f32 ld "w" 64 = Ok out /\
    Weights.tf_numel out = 8 /\ length (Weights.tf_storage out) = 8%nat.
Proof.
  assert (exists ld t out,
            Loader.construct file_dup_name = Ok ld /\
            Loader.get_tensor ld "w" = Ok t /\ Loader.tv_dims t = [8] /\
            Loader.tv_ggml_type t = 0 /\
            Weights.load_tensor_as_f32 ld "w" 64 = Ok out)
    as (ld & t & out & Hld & Ht & Hdims & Hty & Hout).
  { eexists _, _, _. split; [vm_compute; reflexivity|].
    split; [vm_compute; reflexivity|]. split; [reflexivity|]. split; [reflexivity|].
    vm_compute. reflexivity. }
  destruct (load_tensor_fills_buffer ld "w" 64 t out Ht) as (_ & Hn & _ & _ & Hlen).
  - rewrite Hdims. repeat constructor; vm_compute; discriminate.
  - rewrite Hty. discriminate.
  - exact Hout.
  - rewrite Hdims in Hn. change (product [8]) with 8 in Hn. exists ld, out.
    split; [exact Hld|]. split; [exact Hout|]. split; [exact Hn|].
    rewrite Hn in Hlen. lia.
Defined.

Lemma rbind_err {A B} (m : result A) (k : A -> result B) (e : error) :
  rbind m k = Err e -> m = Err e \/ exists a, m = Ok a /\ k a = Err e.
Proof. destruct m as [a|e']; simpl; [eauto | intros [= <-]; auto]. Qed.

Lemma checked_mul_u64_err a b e : Weights.checked_mul_u64 a b = Err e -> e = E_u64_overflow.
Proof.
  unfold Weights.checked_mul_u64. destruct ((a =? 0) || (b =? 0)); [discriminate|].
  destruct (a >? U64.max / b); [congruence | discriminate].
Qed.

Lemma product_from_err ds : forall n e,
  Weights.product_from n ds = Err e -> e = E_u64_overflow.
Proof.
  induction ds as [|d ds IH]; intros n e H; [discriminate|].
  cbn [Weights.product_from] in H. apply rbind_err in H as [H | (n1 & _ & H)].
  - eapply checked_mul_u64_err; eassumption.
  - eapply IH; eassumption.
Qed.

Lemma allocate_f32_err ds al e :
  Weights.allocate_f32 ds al = Err e ->
  e = E_u64_overflow \/ e = E_alloc_bytes_zero \/ e = E_alloc_alignment \/
  e = E_posix_memalign_failed.
Proof.
  unfold Weights.allocate_f32, Weights.numel_u64. intros H.
  apply rbind_err in H as [H | (n & Hn & H)].
  { left. eapply product_from_err; eassumption. }
  apply rbind_err in H as [H | (bytes & Hb & H)].
  { left. eapply checked_mul_u64_err; eassumption. }
  destruct (Z.gtb_spec bytes U64.max) as [Hgt | _].
  { (* [bytes_u64] is a 64-bit value: the test cannot succeed *)
    exfalso. unfold Weights.checked_mul_u64 in Hb.
    destruct ((n =? 0) || (4 =? 0)); [injection Hb as <-; unfold U64.max in Hgt; lia|].
    destruct (n >? U64.max / 4); [discriminate|]. injection Hb as <-.
    unfold U64.mul, U64.wrap, U64.max in Hgt.
    pose proof (Z.mod_pos_bound (n * 4) (2 ^ 64) ltac:(lia)). lia. }
  apply rbind_err in H as [H | (u & _ & H)]; [|discriminate].
  unfold Weights.allocate in H. destruct (bytes =? 0); [injection H as <-; auto|].
  destruct (_ || _); [injection H as <-; auto|].
  destruct (negb _); [injection H as <-; auto | discriminate].
Qed.

Lemma load_rows_err dequant_row src row_bytes rows e :
  Weights.load_rows dequant_row src row_bytes rows = Err e ->
  exists row, dequant_row row = Err e.
Proof.
  induction rows as [|r rows IH]; [discriminate|].
  cbn [Weights.load_rows]. intros H.
  apply rbind_err in H as [H | (y & _ & H)]; [eauto|].
  apply rbind_err in H as [H | (ys & _ & H)]; [auto | discriminate].
Qed.

Lemma product_pos_inv ds : dims_u64 ds -> 0 < product ds -> Forall (fun d => 0 < d) ds.
Proof.
  induction 1 as [|d ds Hd _ IH]; intros Hp; [constructor|].
  rewrite product_cons in Hp.
  assert (0 < d) as Hd0 by (destruct (Z.eq_dec d 0) as [-> | ?]; lia).
  constructor; [assumption | apply IH].
  apply (Z.mul_pos_cancel_l d); assumption.
Qed.

(** X13. What [load_tensor_as_f32] can throw on a loaded file.  For a
    loader built from a file, the only errors are "tensor not found",
    "tensor has no dims", "u64 overflow", the three of [AlignedBuffer::allocate]
    ("bytes=0", "alignment must be power of 2", "posix_memalign failed"),
    "row_len not multiple of 256" for Q4_K and Q6_K, and "unsupported
    ggml_type".  In particular it never throws "tensor truncated" (the bytes
    that the range check of [parse] has granted to the tensor are the bytes
    that the conversion reads), never "tensor too large for this process",
    never "tensor view out of bounds", and the [assert] of the row
    dequantizers never fails. *)
Theorem load_tensor_possible_errors (mapped : list byte) (ld : Loader.GGUFLoader)
    (nm : string) (alignment : Z) (e : error) :
  Z.of_nat (length mapped) <= U64.max ->
  Loader.construct mapped = Ok ld ->
  Weights.load_tensor_as_f32 ld nm alignment = Err e ->
  e = E_tensor_not_found nm \/ e = E_tensor_no_dims nm \/ e = E_u64_overflow \/
  e = E_alloc_bytes_zero \/ e = E_alloc_alignment \/ e = E_posix_memalign_failed \/
  e = E_q4k_row_len nm \/ e = E_q6k_row_len nm \/
  exists ty, e = E_unsupported_type ty nm.
Proof.
  intros Hsz Hc H.
  destruct (maybe_get_tensor_total mapped ld nm Hsz Hc) as (o & Hmg & Ho).
  pose proof Hc as Hc'. apply construct_inv in Hc' as (_ & Hparse & _).
  pose proof (parse_dims_u64 _ _ Hparse) as Hdims.
  unfold tensors_dims_u64 in Hdims. rewrite Forall_forall in Hdims.
  unfold Weights.load_tensor_as_f32, Loader.get_tensor in H. rewrite Hmg in H.
  cbn [rbind] in H.
  destruct o as [t|]; cbn [rbind] in H; [|injection H as <-; auto].
  destruct (Ho t eq_refl) as (ti & Hti & Hd & Hty & Hnb0 & _ & Hnb).
  specialize (Hdims ti Hti). rewrite <- Hd in Hdims.
  destruct (Loader.tv_dims t) as [|row_len rest] eqn:Edims;
    cbv beta iota in H; [injection H as <-; auto 10|].
  apply rbind_err in H as [H | (numel & Halloc & H)].
  { apply allocate_f32_err in H as [-> | [-> | [-> | ->]]]; auto 10. }
  destruct (allocate_f32_spec _ _ _ Hdims Halloc) as (Hnumel & Hpos & Hfit).
  rewrite product_cons in Hnumel.
  pose proof (product_pos_inv _ Hdims ltac:(rewrite product_cons; lia)) as Hallpos.
  pose proof Hdims as Hdims'. apply Forall_cons in Hdims' as [Hrow Hrest].
  pose proof Hallpos as Hallpos'. apply Forall_cons in Hallpos' as [Hrowpos Hrestpos].
  pose proof (product_pos _ Hrestpos) as Hprest.
  (* the byte count that [parse] has checked, for each known type *)
  assert (forall tr,
            Gguf.ggml_type_traits (Gguf.ggml_type ti) = Some tr ->
            row_len mod Gguf.block_size tr = 0 ->
            Gguf.type_size tr <= 4 * Gguf.block_size tr ->
            Loader.tv_nbytes t
              = row_len / Gguf.block_size tr * product rest * Gguf.type_size tr) as Hview.
  { intros tr Htr Hmod Hts.
    destruct (ggml_type_traits_inv _ _ Htr) as [Hbs Hts0].
    assert (ceil_div row_len (Gguf.block_size tr) = row_len / Gguf.block_size tr) as Hceil.
    { unfold ceil_div. destruct Hbs as [Hbs | Hbs]; rewrite Hbs in Hmod |- *.
      - rewrite !Z.div_1_r. lia.
      - clear -Hmod. Z.div_mod_to_equations. lia. }
    pose proof (tensor_nbytes_fits ti tr row_len rest Htr (eq_sym Hd) Hdims Hrowpos Hrestpos)
      as Hfits.
    rewrite Hceil in Hfits. apply Hnb. apply Hfits.
    assert (row_len = Gguf.block_size tr * (row_len / Gguf.block_size tr)) as Hdiv.
    { pose proof (Z.div_mod row_len (Gguf.block_size tr) ltac:(lia)). lia. }
    assert (0 <= row_len / Gguf.block_size tr) by (apply Z.div_pos; lia).
    nia. }
  assert (Reader.to_signed 64 row_len = row_len) as Hsigned.
  { unfold Reader.to_signed. destruct (Z.ltb_spec row_len (2 ^ (64 - 1))); [reflexivity|].
    exfalso. unfold U64.max in *. nia. }
  assert (forall x y, row_len mod Quants.QK_K = 0 ->
            Quants.dequantize_row_q4_k x (Reader.to_signed 64 row_len) <> Err y) as Hq4.
  { intros x y Hmod. unfold Quants.dequantize_row_q4_k. rewrite Hsigned.
    rewrite Z.rem_mod_nonneg by (unfold Quants.QK_K; lia). rewrite Hmod. discriminate. }
  assert (forall x y, row_len mod Quants.QK_K = 0 ->
            Quants.dequantize_row_q6_k x (Reader.to_signed 64 row_len) <> Err y) as Hq6.
  { intros x y Hmod. unfold Quants.dequantize_row_q6_k. rewrite Hsigned.
    rewrite Z.rem_mod_nonneg by (unfold Quants.QK_K; lia). rewrite Hmod. discriminate. }
  rewrite Hty in *.
  destruct (Z.eqb_spec (Gguf.ggml_type ti) 0) as [E0 | E0].
  { apply rbind_err in H as [H | (expected & Hexp & H)].
    { apply checked_mul_u64_err in H as ->. auto 10. }
    exfalso. apply checked_mul_u64_some in Hexp as [-> _]; [|lia|lia].
    rewrite (Hview {| Gguf.traits_name := "F32"; Gguf.block_size := 1; Gguf.type_size := 4 |})
      in H; [| rewrite E0; reflexivity | apply Z.mod_1_r | simpl; lia].
    simpl in H. rewrite Z.div_1_r in H.
    destruct (Z.ltb_spec (row_len * product rest * 4) (numel * 4)); [lia | discriminate]. }
  destruct (Z.eqb_spec (Gguf.ggml_type ti) 1) as [E1 | E1].
  { apply rbind_err in H as [H | (expected & Hexp & H)].
    { apply checked_mul_u64_err in H as ->. auto 10. }
    exfalso. apply checked_mul_u64_some in Hexp as [-> _]; [|lia|lia].
    rewrite (Hview {| Gguf.traits_name := "F16"; Gguf.block_size := 1; Gguf.type_size := 2 |})
      in H; [| rewrite E1; reflexivity | apply Z.mod_1_r | simpl; lia].
    simpl in H. rewrite Z.div_1_r in H.
    destruct (Z.ltb_spec (row_len * product rest * 2) (numel * 2)); [lia | discriminate]. }
  assert (forall n_rows, Weights.product_tail_u64 (row_len :: rest) 1 = Ok n_rows ->
            n_rows = product rest) as Hnrows.
  { intros n_rows Hn. unfold Weights.product_tail_u64 in Hn. simpl drop in Hn.
    rewrite drop_0 in Hn.
    apply product_from_spec in Hn as [-> _]; [lia | unfold U64.max; lia | assumption]. }
  destruct (Z.eqb_spec (Gguf.ggml_type ti) 12) as [E12 | E12].
  { destruct (Z.eqb_spec (row_len mod Quants.QK_K) 0) as [Hmod | Hmod];
      [|injection H as <-; auto 10].
    simpl negb in H. cbv iota in H.
    apply rbind_err in H as [H | (n_rows & Hn & H)].
    { apply product_from_err in H as ->. auto 10. }
    apply rbind_err in H as [H | (row_bytes & Hrb & H)].
    { apply checked_mul_u64_err in H as ->. auto 10. }
    apply rbind_err in H as [H | (expected & Hexp & H)].
    { apply checked_mul_u64_err in H as ->. auto 10. }
    exfalso. apply Hnrows in Hn as ->.
    assert (0 <= row_len / Quants.QK_K) by (apply Z.div_pos; unfold Quants.QK_K; lia).
    apply checked_mul_u64_some in Hrb as [-> _]; [|lia|lia].
    apply checked_mul_u64_some in Hexp as [-> _]; [|lia|lia].
    rewrite (Hview {| Gguf.traits_name := "Q4_K"; Gguf.block_size := 256;
                      Gguf.type_size := 144 |})
      in H; [| rewrite E12; reflexivity | exact Hmod | simpl; lia].
    simpl in H. unfold Quants.QK_K in H.
    destruct (Z.ltb_spec (row_len / 256 * product rest * 144)
                (row_len / 256 * 144 * product rest)); [lia|].
    apply rbind_err in H as [H | (ys & _ & H)]; [|discriminate].
    apply load_rows_err in H as [row H]. exact (Hq4 _ _ Hmod H). }
  destruct (Z.eqb_spec (Gguf.ggml_type ti) 14) as [E14 | E14];
    [|injection H as <-; eauto 12].
  destruct (Z.eqb_spec (row_len mod Quants.QK_K) 0) as [Hmod | Hmod];
    [|injection H as <-; auto 10].
  simpl negb in H. cbv iota in H.
  apply rbind_err in H as [H | (n_rows & Hn & H)].
  { apply product_from_err in H as ->. auto 10. }
  apply rbind_err in H as [H | (row_bytes & Hrb & H)].
  { apply checked_mul_u64_err in H as ->. auto 10. }
  apply rbind_err in H as [H | (expected & Hexp & H)].
  { apply checked_mul_u64_err in H as ->. auto 10. }
  exfalso. apply Hnrows in Hn as ->.
  assert (0 <= row_len / Quants.QK_K) by (apply Z.div_pos; unfold Quants.QK_K; lia).
  apply checked_mul_u64_some in Hrb as [-> _]; [|lia|lia].
  apply checked_mul_u64_some in Hexp as [-> _]; [|lia|lia].
  rewrite (Hview {| Gguf.traits_name := "Q6_K"; Gguf.block_size := 256;
                    Gguf.type_size := 210 |})
    in H; [| rewrite E14; reflexivity | exact Hmod | simpl; lia].
  simpl in H. unfold Quants.QK_K in H.
  destruct (Z.ltb_spec (row_len / 256 * product rest * 210)
              (row_len / 256 * 210 * product rest)); [lia|].
  apply rbind_err in H as [H | (ys & _ & H)]; [|discriminate].
  apply load_rows_err in H as [row H]. exact (Hq6 _ _ Hmod H).
Qed.

(** The theorem at the Q4_K tensor ["q"] of 100 elements of
    [file_partial_rows]. *)
Lemma load_tensor_possible_errors_witness :
  exists ld e,
    Loader.construct file_partial_rows = Ok ld /\
    Weights.load_tensor_as_f32 ld "q" 64 = Err e /\
    e <> E_tensor_truncated "q" /\ e <> E_tensor_too_large.
Proof.
  assert (exists ld e, Loader.construct file_partial_rows = Ok ld /\
            Weights.load_tensor_as_f32 ld "q" 64 = Err e) as (ld & e & Hld & He).
  { eexists _, _. split; [vm_compute; reflexivity|]. vm_compute. reflexivity. }
  exists ld, e. split; [exact Hld|]. split; [exact He|].
  destruct (load_tensor_possible_errors file_partial_rows ld "q" 64 e
              ltac:(vm_compute; discriminate) Hld He)
    as [-> | [-> | [-> | [-> | [-> | [-> | [-> | [-> | [ty ->]]]]]]]]];
    split; discriminate.
Defined.

(** ** dequant_q4_k.cpp, dequant_q6_k.cpp: the floats written *)



(** ** layer0.cpp: the slots of the KV cache *)

Lemma slot_index_bounds n m d h p :
  0 < d -> 0 <= h < n -> 0 <= p < m ->
  0 <= (h * m + p) * d /\ (h * m + p) * d + d <= n * m * d.
Proof.
  intros Hd Hh Hp.
  assert (0 <= h * m) by (apply Z.mul_nonneg_nonneg; lia).
  assert ((h + 1) * m <= n * m) by (apply Z.mul_le_mono_nonneg_r; lia).
  assert ((h * m + p + 1) * d <= n * m * d) by (apply Z.mul_le_mono_nonneg_r; lia).
  split; [apply Z.mul_nonneg_nonneg; lia | lia].
Qed.

Lemma slot_index_apart m d h1 p1 h2 p2 :
  0 < d -> 0 <= h1 -> 0 <= h2 -> 0 <= p1 < m -> 0 <= p2 < m ->
  (h1, p1) <> (h2, p2) ->
  (h1 * m + p1) * d + d <= (h2 * m + p2) * d \/
  (h2 * m + p2) * d + d <= (h1 * m + p1) * d.
Proof.
  intros Hd Hh1 Hh2 Hp1 Hp2 Hne.
  set (i1 := h1 * m + p1). set (i2 := h2 * m + p2).
  assert (i1 <> i2) as Hidx.
  { subst i1 i2. intros Heq. apply Hne.
    assert (h1 = h2) as ->.
    { destruct (Z.lt_trichotomy h1 h2) as [Hlt | [Heq' | Hgt]]; [exfalso | exact Heq' | exfalso].
      - assert ((h1 + 1) * m <= h2 * m) by (apply Z.mul_le_mono_nonneg_r; lia). lia.
      - assert ((h2 + 1) * m <= h1 * m) by (apply Z.mul_le_mono_nonneg_r; lia). lia. }
    f_equal. lia. }
  destruct (Z_lt_le_dec i1 i2); [left | right].
  - assert ((i1 + 1) * d <= i2 * d) by (apply Z.mul_le_mono_nonneg_r; lia). lia.
  - assert ((i2 + 1) * d <= i1 * d) by (apply Z.mul_le_mono_nonneg_r; lia). lia.
Qed.

(** Where the element count of the cache fits [std::size_t], the index of
    a slot does not wrap. *)
Lemma slot_no_wrap c h p :
  0 < Layer0.head_dim_ c ->
  Layer0.n_kv_heads_ c * Layer0.max_seq_ c * Layer0.head_dim_ c <= U64.max ->
  0 <= h < Layer0.n_kv_heads_ c -> 0 <= p < Layer0.max_seq_ c ->
  Layer0.slot c h p = Ok (slot_index c h p).
Proof.
  intros Hd Hfit Hh Hp. unfold Layer0.slot, slot_index.
  destruct (Z.geb_spec h (Layer0.n_kv_heads_ c)); [lia|].
  destruct (Z.geb_spec p (Layer0.max_seq_ c)); [lia|]. simpl.
  destruct (slot_index_bounds _ _ _ h p Hd Hh Hp) as [Hlo Hhi].
  assert (0 <= h * Layer0.max_seq_ c) by (apply Z.mul_nonneg_nonneg; lia).
  assert (h * Layer0.max_seq_ c + p <= (h * Layer0.max_seq_ c + p) * Layer0.head_dim_ c)
    by nia.
  unfold U64.mul, U64.add.
  rewrite (u64_wrap_small (h * Layer0.max_seq_ c)) by lia.
  rewrite (u64_wrap_small (h * Layer0.max_seq_ c + p)) by lia.
  rewrite u64_wrap_small by lia. reflexivity.
Qed.

(** X15. The slots of the KV cache.  In a cache whose element count
    [n_kv_heads * max_seq * head_dim] fits [std::size_t], for head and
    position indices inside the cache (the others make [k_ptr] and [v_ptr]
    throw), the slot of [head_dim] floats at [k_ptr(kv_head, pos)] lies
    inside the floats of the cache, and the slots of two different pairs
    [(kv_head, pos)] do not overlap.  Where the count does not fit, the
    constructor allocates the wrapped count and the slot index wraps as
    well: [KVCacheLayer(6001, 2931542417, 2^20)] holds [2^20] floats, and
    the slots of [(0, 0)] and of [(6000, 2931542416)] both start at index
    0. *)
Theorem kv_slots_in_bounds_and_disjoint :
  (forall (c : Layer0.KVCacheLayer) (h1 p1 h2 p2 : Z) (off1 off2 : nat),
     0 <= h1 -> 0 <= p1 -> 0 <= h2 -> 0 <= p2 ->
     0 < Layer0.head_dim_ c ->
     Layer0.n_kv_heads_ c * Layer0.max_seq_ c * Layer0.head_dim_ c <= U64.max ->
     Layer0.slot c h1 p1 = Ok off1 ->
     Layer0.slot c h2 p2 = Ok off2 ->
     Z.of_nat off1 + Layer0.head_dim_ c
       <= Layer0.n_kv_heads_ c * Layer0.max_seq_ c * Layer0.head_dim_ c /\
     ((h1, p1) <> (h2, p2) ->
      Z.of_nat off1 + Layer0.head_dim_ c <= Z.of_nat off2 \/
      Z.of_nat off2 + Layer0.head_dim_ c <= Z.of_nat off1)) /\
  (exists c,
     Cache.construct 6001 2931542417 (2 ^ 20) = Cache.Done c /\
     Z.of_nat (length (Layer0.k_ c)) = 2 ^ 20 /\
     Layer0.slot c 0 0 = Ok 0%nat /\ Layer0.slot c 6000 2931542416 = Ok 0%nat).
Proof.
  split.
  - intros c h1 p1 h2 p2 off1 off2 Hh1 Hp1 Hh2 Hp2 Hhd Hfit Hs1 Hs2.
    assert (h1 < Layer0.n_kv_heads_ c /\ p1 < Layer0.max_seq_ c) as [Hn1 Hm1].
    { unfold Layer0.slot in Hs1.
      destruct (Z.geb_spec h1 (Layer0.n_kv_heads_ c)); [discriminate|].
      destruct (Z.geb_spec p1 (Layer0.max_seq_ c)); [discriminate|]. lia. }
    assert (h2 < Layer0.n_kv_heads_ c /\ p2 < Layer0.max_seq_ c) as [Hn2 Hm2].
    { unfold Layer0.slot in Hs2.
      destruct (Z.geb_spec h2 (Layer0.n_kv_heads_ c)); [discriminate|].
      destruct (Z.geb_spec p2 (Layer0.max_seq_ c)); [discriminate|]. lia. }
    rewrite slot_no_wrap in Hs1 by lia. rewrite slot_no_wrap in Hs2 by lia.
    injection Hs1 as <-. injection Hs2 as <-. unfold slot_index.
    destruct (slot_index_bounds (Layer0.n_kv_heads_ c) (Layer0.max_seq_ c)
                (Layer0.head_dim_ c) h1 p1 Hhd ltac:(lia) ltac:(lia)) as [H10 H11].
    destruct (slot_index_bounds (Layer0.n_kv_heads_ c) (Layer0.max_seq_ c)
                (Layer0.head_dim_ c) h2 p2 Hhd ltac:(lia) ltac:(lia)) as [H20 H21].
    rewrite !Z2Nat.id by assumption.
    split; [exact H11|].
    intros Hne. apply slot_index_apart; try assumption; lia.
  - eexists. split; [reflexivity|].
    split; [cbn [Layer0.k_]; rewrite repeat_length; vm_compute; reflexivity|].
    split; vm_compute; reflexivity.
Qed.

(** The theorem at a cache of 2 KV heads, 4 positions and 2 floats per
    slot: the slots of (0, 3) and (1, 0). *)
Lemma kv_slots_in_bounds_and_disjoint_witness :
  (6 + 2 <= 2 * 4 * 2) /\ (6 + 2 <= 8 \/ 8 + 2 <= 6).
Proof.
  destruct (proj1 kv_slots_in_bounds_and_disjoint
              {| Layer0.n_kv_heads_ := 2; Layer0.max_seq_ := 4; Layer0.head_dim_ := 2;
                 Layer0.k_ := []; Layer0.v_ := [] |} 0 3 1 0 6%nat 8%nat)
    as [H1 H2];
    [lia | lia | lia | lia | simpl; lia | vm_compute; discriminate
    | reflexivity | reflexivity |].
  split; [exact H1 | apply H2; discriminate].
Defined.

(** ** layer0.cpp: writing the KV cache *)

Lemma window_lookup (p : list spec_float) off n i :
  Layer0.window p off n !! i = if decide (i < n)%nat then p !! (off + i)%nat else None.
Proof. unfold Layer0.window. rewrite lookup_take, lookup_drop. reflexivity. Qed.

Lemma window_length (p : list spec_float) off n :
  (off + n <= length p)%nat -> length (Layer0.window p off n) = n.
Proof. intros H. unfold Layer0.window. rewrite length_take, length_drop. lia. Qed.

Lemma store_lookup (dst src : list spec_float) off i :
  (off + length src <= length dst)%nat ->
  Layer0.store dst off src !! i =
    if decide (i < off)%nat then dst !! i
    else if decide (i < off + length src)%nat then src !! (i - off)%nat
    else dst !! i.
Proof.
  intros Hfit. unfold Layer0.store.
  assert (length (take off dst) = off) as Hlen by (rewrite length_take; lia).
  destruct (decide (i < off)%nat) as [Hi | Hi].
  - rewrite lookup_app_l by lia. apply lookup_take_lt. assumption.
  - rewrite lookup_app_r by lia. rewrite Hlen.
    destruct (decide (i < off + length src)%nat) as [Hj | Hj].
    + apply lookup_app_l. lia.
    + rewrite lookup_app_r by lia. rewrite lookup_drop. f_equal. lia.
Qed.

Lemma store_length (dst src : list spec_float) off :
  (off + length src <= length dst)%nat ->
  length (Layer0.store dst off src) = length dst.
Proof.
  intros H. unfold Layer0.store. rewrite !length_app, length_take, length_drop. lia.
Qed.

Lemma window_store_same (dst src : list spec_float) off :
  (off + length src <= length dst)%nat ->
  Layer0.window (Layer0.store dst off src) off (length src) = src.
Proof.
  intros H. apply list_eq. intros i. rewrite window_lookup.
  destruct (decide (i < length src)%nat) as [Hi | Hi].
  - rewrite store_lookup by assumption.
    destruct (decide (off + i < off)%nat); [lia|].
    destruct (decide (off + i < off + length src)%nat); [|lia].
    f_equal. lia.
  - symmetry. apply lookup_ge_None. lia.
Qed.

Lemma window_store_other (dst src : list spec_float) off off' n :
  (off + length src <= length dst)%nat ->
  (off' + n <= off \/ off + length src <= off')%nat ->
  Layer0.window (Layer0.store dst off src) off' n = Layer0.window dst off' n.
Proof.
  intros H Hd. apply list_eq. intros i. rewrite !window_lookup.
  destruct (decide (i < n)%nat) as [Hi | Hi]; [|reflexivity].
  rewrite store_lookup by assumption.
  destruct (decide (off' + i < off)%nat); [reflexivity|].
  destruct (decide (off' + i < off + length src)%nat); [lia | reflexivity].
Qed.

Lemma slot_in_range c h p :
  cache_wf c ->
  0 <= h < Layer0.n_kv_heads_ c -> 0 <= p < Layer0.max_seq_ c ->
  Layer0.slot c h p = Ok (slot_index c h p).
Proof.
  intros (_ & _ & Hd & Hlk & _ & Hfit). apply slot_no_wrap; [exact Hd | lia].
Qed.

Lemma in_bounds_ok {A} (p : list A) n : (n <= length p)%nat -> in_bounds p n = Ok tt.
Proof. intros H. unfold in_bounds. destruct (Nat.leb_spec n (length p)); [reflexivity | lia]. Qed.

Lemma in_bounds_inv {A} (p : list A) n u : in_bounds p n = Ok u -> (n <= length p)%nat.
Proof. unfold in_bounds. destruct (Nat.leb_spec n (length p)); [auto | discriminate]. Qed.

Lemma element_ptr_ok v i : (i < length v)%nat -> Layer0.element_ptr v i = Ok (skipn i v).
Proof.
  intros H. unfold Layer0.element_ptr. rewrite in_bounds_ok by (rewrite length_drop; lia).
  reflexivity.
Qed.

Lemma memcpy_at_ok v off src n :
  (0 < n)%nat -> (off + n <= length v)%nat -> (n <= length src)%nat ->
  Cache.memcpy_at v off src n = Ok (Layer0.store v off (firstn n src)).
Proof.
  intros Hn Hv Hsrc. unfold Cache.memcpy_at. rewrite element_ptr_ok by lia. cbn [rbind].
  rewrite in_bounds_ok by exact Hsrc. cbn [rbind].
  rewrite in_bounds_ok by (rewrite length_drop; lia). reflexivity.
Qed.

(** The loop of [write] over a list of distinct KV heads. *)
Lemma write_heads_spec pos k v : forall hs c,
  cache_wf c -> 0 <= pos < Layer0.max_seq_ c ->
  Layer0.n_kv_heads_ c * Layer0.head_dim_ c <= Z.of_nat (length k) ->
  Layer0.n_kv_heads_ c * Layer0.head_dim_ c <= Z.of_nat (length v) ->
  NoDup hs -> (forall h, h ∈ hs -> Z.of_nat h < Layer0.n_kv_heads_ c) ->
  exists c',
    Cache.write_heads pos k v hs c = Ok c' /\ cache_wf c' /\ same_geometry c' c /\
    (forall h, h ∈ hs -> slot_holds c' (Z.of_nat h) pos k v) /\
    (forall h p, 0 <= h < Layer0.n_kv_heads_ c -> 0 <= p < Layer0.max_seq_ c ->
       (p = pos -> Z.to_nat h ∉ hs) -> same_slot c' c h p).
Proof.
  induction hs as [|h0 hs IH]; intros c Hwf Hpos Hk Hv Hnd Hin.
  { exists c. split; [reflexivity|]. split; [assumption|]. split; [repeat split|].
    split; [intros h Hh; apply elem_of_nil in Hh; contradiction|].
    intros h p _ _ _. split; reflexivity. }
  apply NoDup_cons in Hnd as [Hh0 Hnd].
  pose proof (Hin h0 ltac:(apply list_elem_of_here)) as Hh0n.
  pose proof Hwf as Hwf0.
  destruct Hwf as (Hn & Hm & Hd & Hlk & Hlv & Hfit).
  set (n := Layer0.n_kv_heads_ c) in *. set (m := Layer0.max_seq_ c) in *.
  set (d := Layer0.head_dim_ c) in *. set (hd := Z.to_nat d).
  destruct (slot_index_bounds n m d (Z.of_nat h0) pos Hd ltac:(lia) Hpos) as [Hi0 Hi1].
  assert (h0 * hd + hd <= length k /\ h0 * hd + hd <= length v)%nat as [Hsk Hsv].
  { assert ((Z.of_nat h0 + 1) * d <= n * d) by (apply Z.mul_le_mono_nonneg_r; lia).
    subst hd. split; nia. }
  set (off0 := slot_index c (Z.of_nat h0) pos).
  assert (Z.of_nat off0 = (Z.of_nat h0 * m + pos) * d) as Hoff0.
  { subst off0. unfold slot_index. fold m d. lia. }
  set (ksrc := Layer0.window k (h0 * hd) hd). set (vsrc := Layer0.window v (h0 * hd) hd).
  assert (length ksrc = hd /\ length vsrc = hd) as [Hlks Hlvs].
  { subst ksrc vsrc. split; apply window_length; assumption. }
  assert (off0 + length ksrc <= length (Layer0.k_ c))%nat as Hfk by (subst hd; lia).
  assert (off0 + length vsrc <= length (Layer0.v_ c))%nat as Hfv by (subst hd; lia).
  set (c1 := {| Layer0.n_kv_heads_ := n; Layer0.max_seq_ := m; Layer0.head_dim_ := d;
                Layer0.k_ := Layer0.store (Layer0.k_ c) off0 ksrc;
                Layer0.v_ := Layer0.store (Layer0.v_ c) off0 vsrc |}).
  assert (Cache.write_head pos k v c h0 = Ok c1) as Hstep.
  { unfold Cache.write_head.
    rewrite (slot_in_range c (Z.of_nat h0) pos Hwf0) by (fold n m; lia).
    cbn [rbind]. fold d hd off0.
    rewrite memcpy_at_ok by (rewrite ?length_drop; subst hd; lia). cbn [rbind].
    rewrite memcpy_at_ok by (rewrite ?length_drop; subst hd; lia). reflexivity. }
  destruct (IH c1) as (c' & Hrun & Hwf' & Hgeo & Hholds & Hframe).
  { unfold cache_wf. simpl. rewrite !store_length by assumption. repeat split; assumption. }
  { exact Hpos. }
  { exact Hk. }
  { exact Hv. }
  { exact Hnd. }
  { intros h Hh. apply Hin. apply list_elem_of_further. exact Hh. }
  exists c'. split; [cbn [Cache.write_heads]; rewrite Hstep; exact Hrun|].
  split; [exact Hwf'|]. split; [exact Hgeo|].
  destruct Hgeo as (Hgn & Hgm & Hgd). simpl in Hgn, Hgm, Hgd.
  assert (forall h p, slot_index c' h p = slot_index c h p) as Hsi.
  { intros h p. unfold slot_index. rewrite Hgm, Hgd. reflexivity. }
  split.
  - intros h Hh. apply elem_of_cons in Hh as [-> | Hh]; [|apply Hholds; exact Hh].
    (* the head written first: the later runs leave its slot alone *)
    destruct (Hframe (Z.of_nat h0) pos ltac:(simpl; lia) ltac:(simpl; lia)) as [Fk Fv].
    { intros _. rewrite Nat2Z.id. exact Hh0. }
    unfold slot_holds. rewrite Hgd, Hsi, Nat2Z.id. fold hd off0.
    rewrite ?Hgd, ?Hsi in Fk, Fv. fold hd off0 in Fk, Fv. simpl in Fk, Fv.
    rewrite Fk, Fv.
    pose proof (window_store_same (Layer0.k_ c) ksrc off0 Hfk) as Wk.
    pose proof (window_store_same (Layer0.v_ c) vsrc off0 Hfv) as Wv.
    rewrite Hlks in Wk. rewrite Hlvs in Wv. split; [exact Wk | exact Wv].
  - intros h p Hh Hp Hout.
    destruct (Hframe h p ltac:(simpl; lia) ltac:(simpl; lia)) as [Fk Fv].
    { intros E Hc. apply (Hout E). apply list_elem_of_further. exact Hc. }
    unfold same_slot. rewrite Hgd, Hsi. fold hd.
    rewrite ?Hgd, ?Hsi in Fk, Fv. fold hd in Fk, Fv. simpl in Fk, Fv.
    rewrite Fk, Fv.
    assert ((h, p) <> (Z.of_nat h0, pos)) as Hne.
    { intros [= -> ->]. apply (Hout eq_refl). rewrite Nat2Z.id. apply list_elem_of_here. }
    destruct (slot_index_bounds n m d h p Hd Hh Hp) as [Hj0 Hj1].
    assert (Z.of_nat (slot_index c h p) = (h * m + p) * d) as Hoff.
    { unfold slot_index. fold m d. lia. }
    assert (slot_index c h p + hd <= off0 \/ off0 + hd <= slot_index c h p)%nat as Hapart.
    { destruct (slot_index_apart m d h p (Z.of_nat h0) pos Hd ltac:(lia) ltac:(lia) Hp Hpos Hne);
        [left | right]; subst hd; lia. }
    split; apply window_store_other; try assumption; rewrite ?Hlks, ?Hlvs; exact Hapart.
Qed.

Lemma cache_construct_wf n m d :
  0 < n -> 0 < m -> 0 < d -> n * m * d <= U64.max ->
  exists c, Cache.construct n m d = Cache.Done c /\ cache_wf c /\
    Layer0.n_kv_heads_ c = n /\ Layer0.max_seq_ c = m /\ Layer0.head_dim_ c = d.
Proof.
  intros Hn Hm Hd Hfit. unfold Cache.construct.
  destruct (Z.eqb_spec n 0); [lia|]. destruct (Z.eqb_spec m 0); [lia|].
  destruct (Z.eqb_spec d 0); [lia|]. simpl.
  eexists. split; [reflexivity|]. unfold cache_wf. simpl.
  assert (0 < n * m) by (apply Z.mul_pos_pos; lia).
  assert (n * m <= n * m * d) by (apply Z.le_mul_diag_r; lia).
  unfold U64.mul. rewrite (u64_wrap_small (n * m)) by lia.
  rewrite u64_wrap_small by (split; [apply Z.mul_nonneg_nonneg; lia | lia]).
  rewrite repeat_length, Z2Nat.id by (apply Z.mul_nonneg_nonneg; lia).
  repeat split; assumption.
Qed.



(** ** kernels: what the in-place loops write *)

(** A loop whose run [i] leaves the slots it does not own leaves the slots
    that none of its runs owns. *)
Lemma fold_left_frame {I : Type} (f : list spec_float -> I -> list spec_float)
    (owns : I -> nat -> Prop) :
  (forall x i, length (f x i) = length x) ->
  (forall x i j, ~ owns i j -> Kernels.fat (f x i) j = Kernels.fat x j) ->
  forall l x,
    length (fold_left f l x) = length x /\
    forall j, (forall i, i ∈ l -> ~ owns i j) ->
      Kernels.fat (fold_left f l x) j = Kernels.fat x j.
Proof.
  intros Hlen Hframe. induction l as [|i l IH]; intros x; simpl.
  - split; [reflexivity | intros; reflexivity].
  - destruct (IH (f x i)) as [Hl Hf]. split; [rewrite Hl; apply Hlen|].
    intros j Hj. rewrite Hf by (intros i' Hi'; apply Hj; apply list_elem_of_further; exact Hi').
    apply Hframe. apply Hj. apply list_elem_of_here.
Qed.

(** A loop that writes [g i] to slot [i], for [i = a .. a + k - 1]. *)
Lemma fold_left_write (g : nat -> spec_float) k : forall a x,
  (a + k <= length x)%nat ->
  let x' := fold_left (fun x i => <[i := g i]> x) (seq a k) x in
  length x' = length x /\
  (forall j, (j < a \/ a + k <= j)%nat -> Kernels.fat x' j = Kernels.fat x j) /\
  (forall j, (a <= j < a + k)%nat -> Kernels.fat x' j = g j).
Proof.
  induction k as [|k IH]; intros a x Hlen; simpl.
  - split; [reflexivity|]. split; [reflexivity|]. intros j Hj. lia.
  - destruct (IH (S a) (<[a := g a]> x)) as (Hl & Hout & Hin_);
      [rewrite length_insert; lia|].
    rewrite length_insert in Hl. split; [assumption|]. split.
    + intros j Hj. rewrite Hout by lia. apply fat_insert_ne. lia.
    + intros j Hj. destruct (decide (j = a)) as [-> | Hne].
      * rewrite Hout by lia. apply fat_insert_eq. lia.
      * apply Hin_. lia.
Qed.



(** X18. [set_zero] and [softmax_inplace_f32] write only the first [n]
    slots.  For [n] slots behind the pointer: both keep the length of the
    array and leave the slots from [n] on untouched, and [set_zero] leaves
    [+0.0] in each of the first [n]. *)
Theorem inplace_kernels_write_first_n
    (expf : spec_float -> spec_float) (x : list spec_float) (n : nat) :
  (n <= length x)%nat ->
  (length (Kernels.set_zero x n) = length x /\
   (forall i, (i < n)%nat -> Kernels.fat (Kernels.set_zero x n) i = F32.zero) /\
   (forall i, (n <= i)%nat -> Kernels.fat (Kernels.set_zero x n) i = Kernels.fat x i)) /\
  (length (Kernels.softmax_inplace_f32 expf x n) = length x /\
   (forall i, (n <= i)%nat ->
      Kernels.fat (Kernels.softmax_inplace_f32 expf x n) i = Kernels.fat x i)).
Proof.
  intros Hn. split.
  - unfold Kernels.set_zero.
    destruct (fold_left_write (fun _ => F32.zero) n 0 x ltac:(lia)) as (Hl & Hframe & Hval).
    split; [exact Hl|]. split.
    + intros i Hi. apply Hval. lia.
    + intros i Hi. apply Hframe. lia.
  - unfold Kernels.softmax_inplace_f32.
    destruct (Nat.eqb_spec n 0) as [-> | _]; [split; reflexivity|].
    unfold Kernels.softmax_exp.
    set (max_v := Kernels.softmax_max x n).
    (* the array after the second loop does not depend on the sum *)
    assert (forall l x0 s0,
              fst (fold_left
                     (fun '(x, sum) i =>
                        let e := expf (F32.sub (Kernels.fat x i) max_v) in
                        (<[i := e]> x, F64.add sum (F64.of_f32 e)))
                     l (x0, s0))
              = fold_left (fun x i => <[i := expf (F32.sub (Kernels.fat x i) max_v)]> x)
                  l x0) as Hfst.
    { induction l as [|i l IH]; intros x0 s0; [reflexivity|]. simpl. apply IH. }
    match goal with
    | |- context [fold_left ?f (seq 0 n) (x, F64.zero)] =>
        specialize (Hfst (seq 0 n) x F64.zero);
        destruct (fold_left f (seq 0 n) (x, F64.zero)) as [x1 sum]
    end.
    simpl in Hfst. subst x1.
    destruct (fold_left_frame
                (fun x i => <[i := expf (F32.sub (Kernels.fat x i) max_v)]> x)
                (fun i j => i = j)
                ltac:(intros; apply length_insert)
                ltac:(intros; apply fat_insert_ne; assumption)
                (seq 0 n) x) as [Hl1 Hf1].
    unfold Kernels.softmax_scale.
    destruct (fold_left_frame
                (fun x i => <[i := F32.mul (Kernels.fat x i) (Kernels.softmax_inv_sum sum)]> x)
                (fun i j => i = j)
                ltac:(intros; apply length_insert)
                ltac:(intros; apply fat_insert_ne; assumption)
                (seq 0 n)
                (fold_left (fun x i => <[i := expf (F32.sub (Kernels.fat x i) max_v)]> x)
                   (seq 0 n) x)) as [Hl2 Hf2].
    split; [rewrite Hl2; exact Hl1|].
    intros i Hi.
    rewrite Hf2 by (intros i' Hi' ->; apply elem_of_seq in Hi'; lia).
    apply Hf1. intros i' Hi' ->. apply elem_of_seq in Hi'. lia.
Qed.

(** The theorem at the array (1, 2, 3) with [n = 2] and an exponential that
    underflows. *)
Lemma inplace_kernels_write_first_n_witness :
  Kernels.fat (Kernels.softmax_inplace_f32 exp_underflow (map F32.of_Z [1; 2; 3]) 2) 2
  = F32.of_Z 3.
Proof.
  destruct (inplace_kernels_write_first_n exp_underflow (map F32.of_Z [1; 2; 3]) 2)
    as [_ [_ Hframe]]; [simpl; lia|].
  rewrite (Hframe 2%nat) by lia. reflexivity.
Defined.

(** ** kernels/rope.h: what [apply_inplace] touches *)



(** ** gguf_loader.cpp and layer0.cpp: the configuration and the buffers *)

(** X20. A configuration read from a file matches the buffers of
    [Layer0Context].  When [config()] of a loaded file passes the checks of
    the constructor of [Layer0Context] (no zero field, [n_heads] a multiple
    of [n_kv_heads]), then [d_model = n_heads * head_dim] and
    [kv_dim = n_kv_heads * head_dim] hold in unbounded integers (the 32-bit
    product has not wrapped), [kv_dim <= d_model], and [n_heads] is
    [group * n_kv_heads] for the [group] of [step]: the [n_heads] heads that
    [step] walks through fill [q_] exactly and the [n_kv_heads] heads fill
    [k_] and [v_] exactly. *)
Theorem loaded_config_matches_buffers (mapped : list byte) (ld : Loader.GGUFLoader)
    (cfg : LoaderKV.ModelConfig) :
  Loader.construct mapped = Ok ld ->
  LoaderKV.config ld = Ok cfg ->
  Layer0.config_ok (layer0_config cfg) = true ->
  LoaderKV.d_model cfg = LoaderKV.n_heads cfg * LoaderKV.head_dim cfg /\
  LoaderKV.kv_dim cfg = LoaderKV.n_kv_heads cfg * LoaderKV.head_dim cfg /\
  LoaderKV.kv_dim cfg <= LoaderKV.d_model cfg /\
  0 < Layer0.group (layer0_config cfg) /\
  LoaderKV.n_heads cfg = Layer0.group (layer0_config cfg) * LoaderKV.n_kv_heads cfg.
Proof.
  intros Hc Hcfg Hok.
  pose proof (kv_u32_range mapped ld "llama.embedding_length" Hc) as Hdm.
  pose proof (kv_u32_range mapped ld "llama.attention.head_count" Hc) as Hnh.
  pose proof (kv_u32_range mapped ld "llama.attention.head_count_kv" Hc) as Hnkv.
  unfold LoaderKV.config in Hcfg. inv_bind Hcfg. injection Hcfg as <-.
  unfold Layer0.config_ok, Layer0.group, layer0_config in *. simpl in *.
  set (dm := LoaderKV.value_or (LoaderKV.kv_u32 ld "llama.embedding_length") 0) in *.
  set (nh := LoaderKV.value_or (LoaderKV.kv_u32 ld "llama.attention.head_count") 0) in *.
  set (nkv := LoaderKV.value_or (LoaderKV.kv_u32 ld "llama.attention.head_count_kv") 0) in *.
  set (hd := if negb (nh =? 0) && (dm mod nh =? 0) then dm / nh else 0) in *.
  apply andb_prop in Hok as [Hnz Hdiv].
  apply negb_true_iff in Hnz.
  repeat (apply orb_false_elim in Hnz as [Hnz ?]).
  repeat match goal with
         | H : (_ =? _) = false |- _ => apply Z.eqb_neq in H
         | H : (_ =? _) = true |- _ => apply Z.eqb_eq in H
         end.
  assert (dm = nh * hd /\ 0 < hd) as [Hdmeq Hhdpos].
  { subst hd. destruct (Z.eqb_spec nh 0) as [|Hnh0]; [contradiction|]. simpl in *.
    destruct (Z.eqb_spec (dm mod nh) 0) as [Hm|]; [|contradiction].
    pose proof (Z.div_mod dm nh Hnh0).
    assert (0 <= dm / nh) by (apply Z.div_pos; lia). lia. }
  assert (nh = nh / nkv * nkv /\ 0 < nh / nkv) as [Hgrp Hgpos].
  { pose proof (Z.div_mod nh nkv ltac:(assumption)).
    assert (0 <= nh / nkv) by (apply Z.div_pos; lia).
    split; [lia|]. destruct (Z.eq_dec (nh / nkv) 0) as [E|]; [|lia].
    rewrite E in *. lia. }
  assert (nkv * hd <= dm) as Hle.
  { rewrite Hdmeq. apply Z.mul_le_mono_nonneg_r; [lia|].
    assert (1 * nkv <= nh / nkv * nkv) by (apply Z.mul_le_mono_nonneg_r; lia). lia. }
  assert ((nkv * hd) mod 2 ^ 32 = nkv * hd) as Hnowrap.
  { apply Z.mod_small. unfold u32_max in *. split; [apply Z.mul_nonneg_nonneg; lia | lia]. }
  rewrite Hnowrap. repeat split; try assumption; lia.
Qed.

(** The theorem at [file_llama_ffn]: 4 heads of 2 floats, 2 KV heads. *)
Lemma loaded_config_matches_buffers_witness :
  exists ld cfg,
    Loader.construct file_llama_ffn = Ok ld /\ LoaderKV.config ld = Ok cfg /\
    LoaderKV.d_model cfg = LoaderKV.n_heads cfg * LoaderKV.head_dim cfg /\
    LoaderKV.kv_dim cfg = LoaderKV.n_kv_heads cfg * LoaderKV.head_dim cfg.
Proof.
  assert (exists ld cfg, Loader.construct file_llama_ffn = Ok ld /\
            LoaderKV.config ld = Ok cfg /\
            Layer0.config_ok (layer0_config cfg) = true)
    as (ld & cfg & Hld & Hcfg & Hok).
  { eexists _, _. split; [vm_compute; reflexivity|].
    split; [vm_compute; reflexivity|]. reflexivity. }
  destruct (loaded_config_matches_buffers file_llama_ffn ld cfg Hld Hcfg Hok)
    as (H1 & H2 & _).
  exists ld, cfg. repeat split; assumption.
Defined.

(** ** layer0.cpp: [Layer0Context::step] *)

Lemma insert_loop_length {I : Type} (idx : I -> nat) (g : list spec_float -> I -> spec_float)
    (l : list I) (x : list spec_float) :
  length (fold_left (fun x i => <[idx i := g x i]> x) l x) = length x.
Proof.
  revert x. induction l as [|i l IH]; intros x; simpl; [reflexivity|].
  rewrite IH. apply length_insert.
Qed.

Lemma matvec_length W in_dim out_dim x y :
  length (Matvec.matvec_colmajor_f32 W in_dim out_dim x y) = length y.
Proof.
  unfold Matvec.matvec_colmajor_f32.
  apply (insert_loop_length (fun j => j)
           (fun _ j => F64.to_f32 (Matvec.column_sum x (skipn (j * Z.to_nat in_dim) W)
                                     (Z.to_nat in_dim)))).
Qed.

Lemma add_inplace_length a b n : length (Step.add_inplace a b n) = length a.
Proof.
  unfold Step.add_inplace.
  apply (insert_loop_length (fun i => i) (fun a i => F32.add (Kernels.fat a i) (Kernels.fat b i))).
Qed.

(** An initialized RoPE cache whose [rope_dim] fits the head never makes
    [apply_inplace] throw, and the array keeps its length. *)
Lemma apply_inplace_ok cosf sinf rc x n_heads head_dim pos :
  0 < Rope.rope_dim_ rc -> Rope.rope_dim_ rc mod 2 = 0 ->
  Rope.rope_dim_ rc <= head_dim ->
  exists x', Rope.apply_inplace cosf sinf rc x n_heads head_dim pos = Ok x' /\
             length x' = length x.
Proof.
  intros Hpos Heven Hle. unfold Rope.apply_inplace.
  destruct (Z.eqb_spec (Rope.rope_dim_ rc) 0); [lia|].
  destruct (Z.gtb_spec (Rope.rope_dim_ rc) head_dim); [lia|].
  rewrite Heven. simpl. eexists. split; [reflexivity|].
  apply (fold_left_frame
           (fun x h => fold_left (Rope.rotate_pair cosf sinf rc pos (h * Z.to_nat head_dim)%nat)
                         (seq 0 (Z.to_nat (Rope.rope_dim_ rc / 2))) x)
           (fun _ _ => True)).
  - intros y h.
    apply (fold_left_frame (Rope.rotate_pair cosf sinf rc pos (h * Z.to_nat head_dim)%nat)
             (fun _ _ => True)).
    + intros; apply rotate_pair_frame.
    + intros y0 i j Hn. exfalso. apply Hn. exact I.
  - intros y h j Hn. exfalso. apply Hn. exact I.
Qed.

Lemma fat_app_l (l1 l2 : list spec_float) i :
  (i < length l1)%nat -> Kernels.fat (l1 ++ l2) i = Kernels.fat l1 i.
Proof. intros H. unfold Kernels.fat. rewrite !nth_lookup, lookup_app_l by exact H. reflexivity. Qed.

Lemma fat_take (l : list spec_float) n i :
  (i < n)%nat -> Kernels.fat (take n l) i = Kernels.fat l i.
Proof. intros H. unfold Kernels.fat. rewrite !nth_lookup, lookup_take_lt by exact H. reflexivity. Qed.

Lemma fat_lookup (l : list spec_float) i :
  (i < length l)%nat -> l !! i = Some (Kernels.fat l i).
Proof.
  intros H. unfold Kernels.fat. rewrite nth_lookup.
  destruct (lookup_lt_is_Some_2 l i H) as [x ->]. reflexivity.
Qed.

(** A loop of updates at the indices it runs over works on the front part
    of an array as it does on the whole array. *)
Lemma fold_left_app_local (f : list spec_float -> nat -> list spec_float) :
  (forall l1 l2 i, (i < length l1)%nat ->
     f (l1 ++ l2) i = f l1 i ++ l2 /\ length (f l1 i) = length l1) ->
  forall k a l1 l2, (a + k <= length l1)%nat ->
    fold_left f (seq a k) (l1 ++ l2) = fold_left f (seq a k) l1 ++ l2.
Proof.
  intros Hf. induction k as [|k IH]; intros a l1 l2 Hk; simpl; [reflexivity|].
  destruct (Hf l1 l2 a ltac:(lia)) as [-> Hlen]. apply IH. lia.
Qed.

Lemma insert_local (g : list spec_float -> nat -> spec_float) :
  (forall l1 l2 i, (i < length l1)%nat -> g (l1 ++ l2) i = g l1 i) ->
  forall l1 l2 i, (i < length l1)%nat ->
    <[i := g (l1 ++ l2) i]> (l1 ++ l2) = <[i := g l1 i]> l1 ++ l2 /\
    length (<[i := g l1 i]> l1) = length l1.
Proof.
  intros Hg l1 l2 i Hi. rewrite Hg by exact Hi. split.
  - apply insert_app_l. exact Hi.
  - apply length_insert.
Qed.

Lemma softmax_max_app (l1 l2 : list spec_float) n :
  (n <= length l1)%nat -> Kernels.softmax_max (l1 ++ l2) n = Kernels.softmax_max l1 n.
Proof.
  intros Hn. unfold Kernels.softmax_max. apply fold_left_seq_ext.
  intros y i Hi. rewrite fat_app_l by lia. reflexivity.
Qed.

Lemma softmax_exp_app expf max_v (l2 : list spec_float) : forall k a l1 sum,
  (a + k <= length l1)%nat ->
  fold_left
    (fun '(x, sum) i =>
       let e := expf (F32.sub (Kernels.fat x i) max_v) in
       (<[i := e]> x, F64.add sum (F64.of_f32 e)))
    (seq a k) (l1 ++ l2, sum)
  = let '(x', sum') :=
      fold_left
        (fun '(x, sum) i =>
           let e := expf (F32.sub (Kernels.fat x i) max_v) in
           (<[i := e]> x, F64.add sum (F64.of_f32 e)))
        (seq a k) (l1, sum) in
    (x' ++ l2, sum').
Proof.
  induction k as [|k IH]; intros a l1 sum Hk; simpl; [reflexivity|].
  rewrite fat_app_l by lia. rewrite insert_app_l by lia.
  apply IH. rewrite length_insert. lia.
Qed.

Lemma softmax_exp_length expf max_v : forall k a l1 sum,
  length (fst (fold_left
    (fun '(x, sum) i =>
       let e := expf (F32.sub (Kernels.fat x i) max_v) in
       (<[i := e]> x, F64.add sum (F64.of_f32 e)))
    (seq a k) (l1, sum))) = length l1.
Proof.
  induction k as [|k IH]; intros a l1 sum; simpl; [reflexivity|].
  rewrite IH. apply length_insert.
Qed.

(** [softmax_inplace_f32(x, n)] on the first [n] slots of a longer array. *)
Lemma softmax_app expf (l1 l2 : list spec_float) :
  Kernels.softmax_inplace_f32 expf (l1 ++ l2) (length l1)
  = Kernels.softmax_inplace_f32 expf l1 (length l1) ++ l2.
Proof.
  unfold Kernels.softmax_inplace_f32.
  destruct (Nat.eqb_spec (length l1) 0) as [E | E].
  - destruct l1; [reflexivity | discriminate].
  - rewrite softmax_max_app by lia. unfold Kernels.softmax_exp.
    rewrite softmax_exp_app by lia.
    pose proof (softmax_exp_length expf (Kernels.softmax_max l1 (length l1))
                  (length l1) 0 l1 F64.zero) as Hlen.
    destruct (fold_left _ (seq 0 (length l1)) (l1, F64.zero)) as [x1 sum] eqn:Efold.
    simpl in Hlen. unfold Kernels.softmax_scale.
    apply (fold_left_app_local
             (fun x i => <[i := F32.mul (Kernels.fat x i) (Kernels.softmax_inv_sum sum)]> x));
      [|lia].
    intros a b i Hi.
    apply (insert_local (fun x i => F32.mul (Kernels.fat x i) (Kernels.softmax_inv_sum sum)));
      [|exact Hi].
    intros a' b' i' Hi'. rewrite fat_app_l by exact Hi'. reflexivity.
Qed.

Lemma softmax_length expf (x : list spec_float) n :
  length (Kernels.softmax_inplace_f32 expf x n) = length x.
Proof.
  unfold Kernels.softmax_inplace_f32. destruct (n =? 0)%nat; [reflexivity|].
  unfold Kernels.softmax_exp.
  pose proof (softmax_exp_length expf (Kernels.softmax_max x n) n 0 x F64.zero) as Hlen.
  destruct (fold_left _ (seq 0 n) (x, F64.zero)) as [x1 sum]. simpl in Hlen.
  unfold Kernels.softmax_scale. rewrite <- Hlen.
  apply (insert_loop_length (fun i => i)
           (fun x i => F32.mul (Kernels.fat x i) (Kernels.softmax_inv_sum sum))).
Qed.

Lemma set_zero_length a n : length (Kernels.set_zero a n) = length a.
Proof.
  unfold Kernels.set_zero. apply (insert_loop_length (fun i => i) (fun _ _ => F32.zero)).
Qed.

Lemma lookup_repeat {A} (x : A) n i : (i < n)%nat -> repeat x n !! i = Some x.
Proof.
  revert i. induction n as [|n IH]; intros i Hi; [lia|].
  destruct i as [|i]; simpl; [reflexivity | apply IH; lia].
Qed.

Lemma set_zero_all (a : list spec_float) :
  Kernels.set_zero a (length a) = repeat F32.zero (length a).
Proof.
  destruct (fold_left_write (fun _ => F32.zero) (length a) 0 a ltac:(lia)) as (Hl & _ & Hin).
  fold (Kernels.set_zero a (length a)) in Hl, Hin.
  apply list_eq. intros i. destruct (decide (i < length a)%nat) as [Hi | Hi].
  - rewrite fat_lookup by lia. rewrite Hin by lia.
    symmetry. apply lookup_repeat. exact Hi.
  - rewrite !lookup_ge_None_2; [reflexivity | rewrite repeat_length; lia | lia].
Qed.

Lemma set_zero_full (a : list spec_float) n :
  length a = n -> Kernels.set_zero a n = repeat F32.zero n.
Proof. intros <-. apply set_zero_all. Qed.

Lemma dot_f32_windows q k a b n :
  Kernels.dot_f32 (skipn a q) (skipn b k) n
  = Kernels.dot_f32 (Layer0.window q a n) (Layer0.window k b n) n.
Proof.
  unfold Kernels.dot_f32. f_equal. apply fold_left_seq_ext. intros y i Hi.
  rewrite (fat_skipn_window q a n) by lia. rewrite (fat_skipn_window k b n) by lia.
  reflexivity.
Qed.

(** The loop [for (i = 0; i < n; i++) o[i] += p * v[i]] on an array of [n]
    floats. *)
Lemma axpy_zip_with p (vh o : list spec_float) n :
  length o = n -> (n <= length vh)%nat ->
  fold_left (fun o i => <[i := F32.add (Kernels.fat o i) (F32.mul p (Kernels.fat vh i))]> o)
    (seq 0 n) o
  = zip_with (fun a x => F32.add a (F32.mul p x)) o (take n vh).
Proof.
  intros <- Hlen.
  assert (forall k a (y : list spec_float),
            (a + k <= length y)%nat ->
            let y' := fold_left
                        (fun o i => <[i := F32.add (Kernels.fat o i)
                                               (F32.mul p (Kernels.fat vh i))]> o)
                        (seq a k) y in
            length y' = length y /\
            (forall j, (j < a \/ a + k <= j)%nat -> Kernels.fat y' j = Kernels.fat y j) /\
            (forall j, (a <= j < a + k)%nat ->
               Kernels.fat y' j = F32.add (Kernels.fat y j) (F32.mul p (Kernels.fat vh j))))
    as Hloop.
  { induction k as [|k IH]; intros a y Hk; simpl.
    - split; [reflexivity|]. split; [reflexivity | intros j Hj; lia].
    - destruct (IH (S a) (<[a := F32.add (Kernels.fat y a) (F32.mul p (Kernels.fat vh a))]> y))
        as (Hl & Hout & Hin_); [rewrite length_insert; lia|].
      rewrite length_insert in Hl. split; [exact Hl|]. split.
      + intros j Hj. rewrite Hout by lia. apply fat_insert_ne. lia.
      + intros j Hj. destruct (decide (j = a)) as [-> | Hne].
        * rewrite Hout by lia. apply fat_insert_eq. lia.
        * rewrite Hin_ by lia. rewrite fat_insert_ne by lia. reflexivity. }
  destruct (Hloop (length o) 0%nat o ltac:(lia)) as (Hl & _ & Hin_).
  apply list_eq. intros i.
  destruct (decide (i < length o)%nat) as [Hi | Hi].
  - rewrite fat_lookup by lia. rewrite Hin_ by lia.
    rewrite lookup_zip_with. rewrite (fat_lookup o i Hi). simpl.
    rewrite (fat_lookup (take (length o) vh) i) by (rewrite length_take; lia). simpl.
    rewrite fat_take by exact Hi. reflexivity.
  - rewrite lookup_ge_None_2 by lia. symmetry. apply lookup_ge_None_2.
    rewrite length_zip_with, length_take. lia.
Qed.

Lemma take_fold_write (g : nat -> spec_float) n (x : list spec_float) :
  (n <= length x)%nat ->
  take n (fold_left (fun x i => <[i := g i]> x) (seq 0 n) x) = map g (seq 0 n).
Proof.
  intros Hn. destruct (fold_left_write g n 0 x ltac:(lia)) as (Hl & _ & Hin_).
  apply list_eq. intros i. rewrite list_lookup_fmap.
  destruct (decide (i < n)%nat) as [Hi | Hi].
  - rewrite lookup_take_lt by exact Hi. rewrite fat_lookup by lia.
    rewrite Hin_ by lia. rewrite lookup_seq_lt by exact Hi. reflexivity.
  - rewrite lookup_take_ge by lia. rewrite lookup_seq_ge by lia. reflexivity.
Qed.

Lemma map_fat_app (l1 l2 : list spec_float) n :
  length l1 = n -> map (Kernels.fat (l1 ++ l2)) (seq 0 n) = l1.
Proof.
  intros <-. apply list_eq. intros i. rewrite list_lookup_fmap.
  destruct (decide (i < length l1)%nat) as [Hi | Hi].
  - rewrite lookup_seq_lt by exact Hi. simpl. rewrite fat_app_l by exact Hi.
    symmetry. apply fat_lookup. exact Hi.
  - rewrite lookup_seq_ge by lia. symmetry. apply lookup_ge_None_2. lia.
Qed.

Lemma softmax_take expf (x : list spec_float) n :
  (n <= length x)%nat ->
  Kernels.softmax_inplace_f32 expf x n
  = Kernels.softmax_inplace_f32 expf (take n x) n ++ drop n x.
Proof.
  intros Hn. pose proof (softmax_app expf (take n x) (drop n x)) as H.
  rewrite take_drop, length_take in H.
  replace (n `min` length x)%nat with n in H by lia. exact H.
Qed.

Lemma k_ptr_ok c g t :
  cache_wf c -> 0 <= g < Layer0.n_kv_heads_ c -> 0 <= t < Layer0.max_seq_ c ->
  Layer0.k_ptr c g t = Ok (skipn (slot_index c g t) (Layer0.k_ c)) /\
  Layer0.v_ptr c g t = Ok (skipn (slot_index c g t) (Layer0.v_ c)) /\
  (slot_index c g t + Z.to_nat (Layer0.head_dim_ c) <= length (Layer0.k_ c))%nat /\
  (slot_index c g t + Z.to_nat (Layer0.head_dim_ c) <= length (Layer0.v_ c))%nat.
Proof.
  intros Hwf Hg Ht. pose proof Hwf as (Hn & Hm & Hd & Hlk & Hlv & Hfit).
  destruct (slot_index_bounds _ _ _ g t Hd Hg Ht) as [Hlo Hhi].
  assert (Z.of_nat (slot_index c g t)
          = (g * Layer0.max_seq_ c + t) * Layer0.head_dim_ c) as Hoff.
  { unfold slot_index. lia. }
  unfold Layer0.k_ptr, Layer0.v_ptr. rewrite (slot_in_range c g t Hwf Hg Ht). cbn [rbind].
  rewrite !element_ptr_ok by lia. repeat split; lia.
Qed.

Section Attend.
Variable expf : spec_float -> spec_float.
Variable cfg : Layer0.ModelConfig.
Variable c : Layer0.KVCacheLayer.
Hypothesis Hwf : cache_wf c.
Hypothesis Hhd : Layer0.head_dim_ c = Layer0.head_dim cfg.

Let hd := Z.to_nat (Layer0.head_dim cfg).

Lemma scores_spec g qh inv : forall k a probs,
  0 <= g < Layer0.n_kv_heads_ c ->
  Z.of_nat (a + k) <= Layer0.max_seq_ c ->
  (hd <= length qh)%nat ->
  (a + k <= length probs)%nat ->
  Layer0.scores cfg c g qh inv (seq a k) probs
  = Ok (fold_left
          (fun p t =>
             <[t := F32.mul (Kernels.dot_f32 qh
                               (skipn (slot_index c g (Z.of_nat t)) (Layer0.k_ c)) hd)
                      inv]> p)
          (seq a k) probs).
Proof.
  induction k as [|k IH]; intros a probs Hg Hk Hq Hp; [reflexivity|].
  cbn [seq Layer0.scores fold_left].
  destruct (k_ptr_ok c g (Z.of_nat a) Hwf Hg ltac:(lia)) as (-> & _ & Hfk & _).
  cbn [rbind]. fold hd. rewrite Hhd in Hfk. fold hd in Hfk.
  rewrite in_bounds_ok by exact Hq. cbn [rbind].
  rewrite in_bounds_ok by (rewrite length_drop; lia). cbn [rbind].
  rewrite in_bounds_ok by lia. cbn [rbind].
  apply IH; [exact Hg | lia | exact Hq | rewrite length_insert; lia].
Qed.

Lemma mix_spec g probs : forall k a out_h,
  0 <= g < Layer0.n_kv_heads_ c ->
  Z.of_nat (a + k) <= Layer0.max_seq_ c ->
  (a + k <= length probs)%nat ->
  length out_h = hd ->
  exists r,
    Layer0.mix cfg c g probs (seq a k) out_h = Ok r /\ length r = hd /\
    r = fold_left
          (fun out pv => zip_with (fun o x => F32.add o (F32.mul (fst pv) x)) out (snd pv))
          (zip (map (Kernels.fat probs) (seq a k))
               (map (fun t => Layer0.window (Layer0.v_ c) (slot_index c g (Z.of_nat t)) hd)
                  (seq a k)))
          out_h.
Proof.
  induction k as [|k IH]; intros a out_h Hg Hk Hp Ho;
    [exists out_h; repeat split; assumption|].
  destruct (k_ptr_ok c g (Z.of_nat a) Hwf Hg ltac:(lia)) as (_ & Hv & _ & Hfv).
  rewrite Hhd in Hfv. fold hd in Hfv.
  set (out1 := zip_with (fun o x => F32.add o (F32.mul (Kernels.fat probs a) x)) out_h
                 (Layer0.window (Layer0.v_ c) (slot_index c g (Z.of_nat a)) hd)).
  destruct (IH (S a) out1 Hg ltac:(lia) ltac:(lia)) as (r & Hr & Hlr & Hfold).
  { subst out1. rewrite length_zip_with, window_length by lia. lia. }
  exists r. split; [|split; [exact Hlr | exact Hfold]].
  cbn [seq Layer0.mix].
  rewrite in_bounds_ok by lia. cbn [rbind]. rewrite Hv. cbn [rbind]. fold hd.
  rewrite in_bounds_ok by (rewrite length_drop; lia). cbn [rbind].
  rewrite in_bounds_ok by lia. cbn [rbind].
  rewrite (axpy_zip_with _ _ _ hd Ho) by (rewrite length_drop; lia).
  exact Hr.
Qed.

Hypothesis Hgroup : 0 < Layer0.group cfg.
Hypothesis Hheads : Layer0.n_heads cfg = Layer0.group cfg * Layer0.n_kv_heads_ c.
Hypothesis Hheads32 : Layer0.n_heads cfg <= u32_max.
Hypothesis Hseq32 : Layer0.max_seq_ c <= u32_max.

Lemma kv_head_in_range h :
  0 <= h < Layer0.n_heads cfg ->
  Layer0.u32 (Layer0.kv_head_of cfg h) = h / Layer0.group cfg /\
  0 <= h / Layer0.group cfg < Layer0.n_kv_heads_ c.
Proof.
  intros Hh. unfold Layer0.kv_head_of, Layer0.u32.
  assert (0 <= h / Layer0.group cfg) by (apply Z.div_pos; lia).
  assert (h / Layer0.group cfg < Layer0.n_kv_heads_ c)
    by (apply Z.div_lt_upper_bound; lia).
  assert (h / Layer0.group cfg <= h) by (apply Z.div_le_upper_bound; nia).
  split; [|lia]. apply Z.mod_small. unfold u32_max in *. lia.
Qed.

(** One run of the head loop: the window of [attn_out_] of the head [h] is
    the attention of the query head [h] over the keys and values of the KV
    head [h / group], and the rest of [attn_out_] is left alone. *)
Lemma attend_head_spec pos q inv h probs attn_out :
  0 <= pos < Layer0.max_seq_ c ->
  0 <= h < Layer0.n_heads cfg ->
  Layer0.n_heads cfg * Layer0.head_dim cfg <= Z.of_nat (length q) ->
  Layer0.n_heads cfg * Layer0.head_dim cfg <= Z.of_nat (length attn_out) ->
  Layer0.max_seq_ c <= Z.of_nat (length probs) ->
  exists probs' out',
    Layer0.attend_head expf cfg c pos q inv h (probs, attn_out) = Ok (probs', out') /\
    length probs' = length probs /\ length out' = length attn_out /\
    Layer0.window out' (Z.to_nat h * hd) hd
      = attention_of_head expf hd inv (Layer0.window q (Z.to_nat h * hd) hd)
          (cache_keys c (h / Layer0.group cfg) (Z.to_nat pos))
          (cache_values c (h / Layer0.group cfg) (Z.to_nat pos)) /\
    (forall off n, (off + n <= Z.to_nat h * hd \/ Z.to_nat h * hd + hd <= off)%nat ->
       Layer0.window out' off n = Layer0.window attn_out off n).
Proof.
  intros Hpos Hh Hq Ho Hp.
  pose proof Hwf as (Hn & Hm & Hd & Hlk & Hlv & Hfit).
  destruct (kv_head_in_range h Hh) as [Hkv Hg].
  set (g := h / Layer0.group cfg) in *.
  assert (0 < Layer0.head_dim cfg) as Hd' by lia.
  assert (Z.to_nat h * hd + hd <= length q /\ Z.to_nat h * hd + hd <= length attn_out)%nat
    as [Hqh Hoh].
  { assert ((h + 1) * Layer0.head_dim cfg <= Layer0.n_heads cfg * Layer0.head_dim cfg)
      by (apply Z.mul_le_mono_nonneg_r; lia).
    subst hd. split; nia. }
  unfold Layer0.attend_head. fold hd.
  unfold nonzero_divisor. destruct (Z.eqb_spec (Layer0.group cfg) 0) as [|_]; [lia|].
  cbn [rbind].
  rewrite Hkv.
  set (n := S (Z.to_nat pos)).
  assert (Z.to_nat (Layer0.u32 (pos + 1)) = n) as Hn32.
  { unfold Layer0.u32. rewrite Z.mod_small by (unfold u32_max in *; lia). subst n. lia. }
  rewrite Hn32.
  rewrite (scores_spec g (skipn (Z.to_nat h * hd) q) inv n 0 probs Hg)
    by first [rewrite length_drop; lia | subst n; lia].
  cbn [rbind].
  pose (score := fun t =>
         F32.mul (Kernels.dot_f32 (skipn (Z.to_nat h * hd) q)
                    (skipn (slot_index c g (Z.of_nat t)) (Layer0.k_ c)) hd) inv).
  change (fold_left _ (seq 0 n) probs)
    with (fold_left (fun p t => <[t := score t]> p) (seq 0 n) probs).
  set (probs1 := fold_left (fun p t => <[t := score t]> p) (seq 0 n) probs).
  assert (length probs1 = length probs) as Hl1.
  { subst probs1. apply (insert_loop_length (fun t => t) (fun _ t => score t)). }
  rewrite (in_bounds_ok probs1 n) by (subst n; lia). cbn [rbind].
  rewrite in_bounds_ok by (rewrite length_drop; lia). cbn [rbind].
  set (probs2 := Kernels.softmax_inplace_f32 expf probs1 n).
  assert (length probs2 = length probs) as Hl2.
  { subst probs2. rewrite softmax_length. exact Hl1. }
  assert (length (Layer0.window attn_out (Z.to_nat h * hd) hd) = hd) as Hlw
    by (apply window_length; lia).
  rewrite (set_zero_full _ hd Hlw).
  destruct (mix_spec g probs2 n 0 (repeat F32.zero hd) Hg)
    as (out_h & -> & Hloh & Hfold);
    [subst n; lia | subst n; lia | rewrite repeat_length; reflexivity |].
  cbn [rbind].
  (* the reference *)
  assert (take n probs1
          = map (scaled_dot hd inv (Layer0.window q (Z.to_nat h * hd) hd))
              (cache_keys c g (Z.to_nat pos))) as Hscores.
  { subst probs1. rewrite take_fold_write by (subst n; lia).
    unfold cache_keys. rewrite map_map. fold n. apply map_ext. intros t.
    subst score. cbv beta. unfold scaled_dot. rewrite Hhd. fold hd.
    rewrite dot_f32_windows. reflexivity. }
  assert (length (take n probs1) = n) as Hlt by (rewrite length_take; subst n; lia).
  assert (map (Kernels.fat probs2) (seq 0 n)
          = Kernels.softmax_inplace_f32 expf (take n probs1) n) as Hprobs.
  { subst probs2. rewrite softmax_take by (subst n; lia).
    apply map_fat_app. rewrite softmax_length. exact Hlt. }
  assert (out_h = attention_of_head expf hd inv (Layer0.window q (Z.to_nat h * hd) hd)
                    (cache_keys c g (Z.to_nat pos)) (cache_values c g (Z.to_nat pos)))
    as Hout.
  { rewrite Hfold. unfold attention_of_head, weighted_sum. cbv zeta.
    rewrite Hprobs, Hscores. rewrite length_map.
    assert (length (cache_keys c g (Z.to_nat pos)) = n) as ->
      by (unfold cache_keys; rewrite length_map, length_seq; reflexivity).
    unfold cache_values. rewrite Hhd. fold hd n. reflexivity. }
  eexists _, _. split; [reflexivity|].
  split; [exact Hl2|].
  split; [rewrite store_length by lia; reflexivity|].
  split.
  - pose proof (window_store_same attn_out out_h (Z.to_nat h * hd) ltac:(lia)) as Hsame.
    rewrite Hloh in Hsame. rewrite Hsame. exact Hout.
  - intros off m Hoff. apply window_store_other; lia.
Qed.

(** The loop over the query heads [a .. a + k - 1]. *)
Lemma attend_heads_spec pos q inv : forall k a probs attn_out,
  0 <= pos < Layer0.max_seq_ c ->
  Z.of_nat (a + k) <= Layer0.n_heads cfg ->
  Layer0.n_heads cfg * Layer0.head_dim cfg <= Z.of_nat (length q) ->
  Layer0.n_heads cfg * Layer0.head_dim cfg <= Z.of_nat (length attn_out) ->
  Layer0.max_seq_ c <= Z.of_nat (length probs) ->
  exists probs' out',
    Layer0.attend_heads expf cfg c pos q inv (seq a k) (probs, attn_out)
      = Ok (probs', out') /\
    length probs' = length probs /\ length out' = length attn_out /\
    (forall h, (a <= h < a + k)%nat ->
       Layer0.window out' (h * hd) hd
         = attention_of_head expf hd inv (Layer0.window q (h * hd) hd)
             (cache_keys c (Z.of_nat h / Layer0.group cfg) (Z.to_nat pos))
             (cache_values c (Z.of_nat h / Layer0.group cfg) (Z.to_nat pos))) /\
    (forall h, (h < a \/ a + k <= h)%nat ->
       Layer0.window out' (h * hd) hd = Layer0.window attn_out (h * hd) hd).
Proof.
  induction k as [|k IH]; intros a probs attn_out Hpos Hk Hq Ho Hp.
  { exists probs, attn_out. split; [reflexivity|]. repeat split; try reflexivity.
    intros h Hh. lia. }
  cbn [seq Layer0.attend_heads].
  destruct (attend_head_spec pos q inv (Z.of_nat a) probs attn_out Hpos ltac:(lia) Hq Ho Hp)
    as (p1 & o1 & -> & Hlp1 & Hlo1 & Hwin & Hframe).
  cbn [rbind]. rewrite Nat2Z.id in Hwin, Hframe.
  destruct (IH (S a) p1 o1 Hpos ltac:(lia) Hq ltac:(lia) ltac:(lia))
    as (p2 & o2 & Hrun & Hlp2 & Hlo2 & Hin_ & Hout).
  exists p2, o2. split; [exact Hrun|].
  split; [lia|]. split; [lia|]. split.
  - intros h Hh. destruct (decide (h = a)) as [-> | Hne].
    + rewrite Hout by lia. exact Hwin.
    + apply Hin_. lia.
  - intros h Hh. rewrite Hout by lia. apply Hframe.
    destruct Hh as [Hh | Hh]; [left | right]; nia.
Qed.

End Attend.

Lemma rmsnorm_length x w n eps out : length (Step.rmsnorm_f32 x w n eps out) = length out.
Proof.
  unfold Step.rmsnorm_f32. cbv zeta.
  match goal with
  | |- context [F32.div F32.one ?r] =>
      apply (insert_loop_length (fun i => i)
               (fun _ i => F32.mul (F32.mul (Kernels.fat x i) (F32.div F32.one r))
                             (Kernels.fat w i)))
  end.
Qed.

Lemma call_rmsnorm_ok x w n eps out :
  (n <= length x)%nat -> (n <= length w)%nat -> (n <= length out)%nat ->
  Step.call_rmsnorm x w n eps out = Ok (Step.rmsnorm_f32 x w n eps out).
Proof.
  intros Hx Hw Ho. unfold Step.call_rmsnorm. rewrite !in_bounds_ok by assumption.
  reflexivity.
Qed.

Lemma call_matvec_ok W in_dim out_dim x y :
  in_dim * out_dim <= Z.of_nat (length W) ->
  in_dim <= Z.of_nat (length x) -> out_dim <= Z.of_nat (length y) ->
  Step.call_matvec W in_dim out_dim x y = Ok (Matvec.matvec_colmajor_f32 W in_dim out_dim x y).
Proof.
  intros HW Hx Hy. unfold Step.call_matvec.
  rewrite in_bounds_ok by lia. cbn [rbind].
  rewrite in_bounds_ok by (destruct (out_dim =? 0); lia). cbn [rbind].
  rewrite in_bounds_ok by lia. reflexivity.
Qed.

Lemma call_add_inplace_ok a b n :
  (n <= length a)%nat -> (n <= length b)%nat ->
  Step.call_add_inplace a b n = Ok (Step.add_inplace a b n).
Proof.
  intros Ha Hb. unfold Step.call_add_inplace. rewrite !in_bounds_ok by assumption.
  reflexivity.
Qed.

Lemma call_set_zero_ok a n :
  (n <= length a)%nat -> Step.call_set_zero a n = Ok (Kernels.set_zero a n).
Proof. intros Ha. unfold Step.call_set_zero. rewrite in_bounds_ok by assumption. reflexivity. Qed.

Lemma silu_gate_ok expf gate up n :
  (n <= length gate)%nat -> (n <= length up)%nat ->
  exists gate', Step.silu_gate expf gate up n = Ok gate' /\ length gate' = length gate.
Proof.
  intros Hg Hu. unfold Step.silu_gate. rewrite !in_bounds_ok by assumption. cbn [rbind].
  eexists. split; [reflexivity|].
  apply (insert_loop_length (fun i => i)
           (fun g i => F32.mul (Step.silu expf (Kernels.fat g i)) (Kernels.fat up i))).
Qed.

(** An initialized RoPE cache whose [rope_dim] fits the head, on [n_heads]
    heads that lie inside [x]. *)
Lemma call_rope_ok cosf sinf rc x n_heads head_dim pos :
  0 < Rope.rope_dim_ rc -> Rope.rope_dim_ rc mod 2 = 0 ->
  Z.of_nat (length (Rope.inv_freq_ rc)) = Rope.rope_dim_ rc / 2 ->
  Rope.rope_dim_ rc <= head_dim ->
  0 <= n_heads -> n_heads * head_dim <= Z.of_nat (length x) ->
  exists x', Step.call_rope cosf sinf rc x n_heads head_dim pos = Ok x' /\
             length x' = length x.
Proof.
  intros Hpos Heven Hfreq Hle Hn Hx. unfold Step.call_rope.
  destruct (apply_inplace_ok cosf sinf rc x n_heads head_dim pos Hpos Heven Hle)
    as (x' & -> & Hlen).
  cbn [rbind]. rewrite in_bounds_ok by (destruct (n_heads =? 0); lia). cbn [rbind].
  rewrite in_bounds_ok; [exists x'; split; [reflexivity | exact Hlen]|].
  destruct (Z.eqb_spec n_heads 0); [lia|].
  assert ((n_heads - 1) * head_dim + Rope.rope_dim_ rc <= n_heads * head_dim) by nia.
  lia.
Qed.

(** What the checks of the constructor give on 32-bit fields. *)
Lemma config_ok_group (cfg : LoaderKV.ModelConfig) :
  Layer0.config_ok (layer0_config cfg) = true ->
  0 <= LoaderKV.n_heads cfg -> 0 <= LoaderKV.n_kv_heads cfg ->
  0 < LoaderKV.n_kv_heads cfg /\ 0 < Layer0.group (layer0_config cfg) /\
  LoaderKV.n_heads cfg = Layer0.group (layer0_config cfg) * LoaderKV.n_kv_heads cfg /\
  LoaderKV.d_model cfg <> 0 /\ LoaderKV.n_heads cfg <> 0 /\ LoaderKV.head_dim cfg <> 0 /\
  LoaderKV.kv_dim cfg <> 0 /\ LoaderKV.ffn_hidden_dim cfg <> 0.
Proof.
  intros Hok Hnh Hnkv. unfold Layer0.config_ok, layer0_config in Hok. simpl in Hok.
  apply andb_true_iff in Hok as [Hnz Hdiv].
  apply negb_true_iff in Hnz. repeat (apply orb_false_iff in Hnz as [Hnz ?]).
  apply Z.eqb_eq in Hdiv.
  repeat match goal with H : (_ =? 0) = false |- _ => apply Z.eqb_neq in H end.
  unfold Layer0.group, layer0_config. simpl.
  pose proof (Z.div_mod (LoaderKV.n_heads cfg) (LoaderKV.n_kv_heads cfg) ltac:(lia)) as Hdm.
  assert (0 <= LoaderKV.n_heads cfg / LoaderKV.n_kv_heads cfg) by (apply Z.div_pos; lia).
  assert (LoaderKV.n_heads cfg / LoaderKV.n_kv_heads cfg <> 0)
    by (intros E; rewrite E in Hdm; lia).
  repeat split; try assumption; lia.
Qed.

(** One call of [step] in the state [ctx_wf], with sized weights and
    [d_model] floats behind [x]: what it returns, and what it leaves in the
    context. *)
Lemma step_spec expf cosf sinf ctx layer pos x :
  ctx_wf ctx -> layer_sized (Step.cfg_ ctx) layer ->
  LoaderKV.d_model (Step.cfg_ ctx) <= Z.of_nat (length x) ->
  0 <= pos < Layer0.max_seq_ (Step.cache_ ctx) ->
  Rope.rope_dim_ (Step.rope_ ctx) <= LoaderKV.head_dim (Step.cfg_ ctx) ->
  exists ctx' x',
    Step.step expf cosf sinf ctx layer pos x = Cache.Done (ctx', x') /\
    ctx_wf ctx' /\
    Step.cfg_ ctx' = Step.cfg_ ctx /\ Step.rope_ ctx' = Step.rope_ ctx /\
    same_geometry (Step.cache_ ctx') (Step.cache_ ctx) /\
    length x' = length x /\
    (forall h, 0 <= h < LoaderKV.n_kv_heads (Step.cfg_ ctx) ->
       slot_holds (Step.cache_ ctx') h pos (Step.k_ ctx') (Step.v_ ctx')) /\
    (forall h p, 0 <= h < LoaderKV.n_kv_heads (Step.cfg_ ctx) ->
       0 <= p < Layer0.max_seq_ (Step.cache_ ctx) -> p <> pos ->
       same_slot (Step.cache_ ctx') (Step.cache_ ctx) h p) /\
    (forall h, 0 <= h < LoaderKV.n_heads (Step.cfg_ ctx) ->
       let hd := Z.to_nat (LoaderKV.head_dim (Step.cfg_ ctx)) in
       Layer0.window (Step.attn_out_ ctx') (Z.to_nat h * hd) hd
       = attention_of_head expf hd (inv_sqrt_hd (Step.cfg_ ctx))
           (Layer0.window (Step.q_ ctx') (Z.to_nat h * hd) hd)
           (cache_keys (Step.cache_ ctx')
              (h / (LoaderKV.n_heads (Step.cfg_ ctx) / LoaderKV.n_kv_heads (Step.cfg_ ctx)))
              (Z.to_nat pos))
           (cache_values (Step.cache_ ctx')
              (h / (LoaderKV.n_heads (Step.cfg_ ctx) / LoaderKV.n_kv_heads (Step.cfg_ ctx)))
              (Z.to_nat pos))).
Proof.
  intros Hwf Hsized Hx Hpos Hrope.
  pose proof Hwf as (Hok & Hu32 & Hdm & Hkv & Hcwf & Hcn & Hcd & Hrpos & Hreven & Hfreq
                       & Hbd & Hbkv & Hbf & Hbp).
  repeat (apply Forall_cons in Hu32 as [? Hu32]).
  repeat (apply Forall_cons in Hbd as [? Hbd]).
  repeat (apply Forall_cons in Hbkv as [? Hbkv]).
  repeat (apply Forall_cons in Hbf as [? Hbf]).
  destruct Hsized as (Wn & Wq & Wk & Wv & Wo & Wfn & Wg & Wu & Wd).
  set (cfg := Step.cfg_ ctx) in *.
  destruct (config_ok_group cfg Hok ltac:(lia) ltac:(lia))
    as (Hnkv0 & Hg0 & Hgrp & Hd0 & Hnh0 & Hhd0 & Hkv0 & Hf0).
  unfold Step.step. fold cfg.
  destruct (Z.geb_spec pos (Layer0.max_seq_ (Step.cache_ ctx))); [lia|]. cbv zeta.
  set (n := Z.to_nat (LoaderKV.d_model cfg)).
  (* ---- Attention ---- *)
  rewrite call_rmsnorm_ok by (subst n; lia). cbn [Step.lift].
  set (x_norm1 := Step.rmsnorm_f32 x _ n _ _).
  assert (length x_norm1 = length (Step.x_norm_ ctx)) as Lxn1
    by (subst x_norm1; apply rmsnorm_length).
  rewrite (call_matvec_ok (Step.attn_q layer)) by lia. cbn [Step.lift].
  set (q1 := Matvec.matvec_colmajor_f32 (Step.attn_q layer) _ _ _ _).
  assert (length q1 = length (Step.q_ ctx)) as Lq1 by (subst q1; apply matvec_length).
  rewrite (call_matvec_ok (Step.attn_k layer)) by lia. cbn [Step.lift].
  set (k1 := Matvec.matvec_colmajor_f32 (Step.attn_k layer) _ _ _ _).
  assert (length k1 = length (Step.k_ ctx)) as Lk1 by (subst k1; apply matvec_length).
  rewrite (call_matvec_ok (Step.attn_v layer)) by lia. cbn [Step.lift].
  set (v1 := Matvec.matvec_colmajor_f32 (Step.attn_v layer) _ _ _ _).
  assert (length v1 = length (Step.v_ ctx)) as Lv1 by (subst v1; apply matvec_length).
  destruct (call_rope_ok cosf sinf (Step.rope_ ctx) q1 (LoaderKV.n_heads cfg)
              (LoaderKV.head_dim cfg) pos Hrpos Hreven Hfreq Hrope ltac:(lia) ltac:(lia))
    as (q2 & -> & Lq2).
  cbn [Step.lift].
  destruct (call_rope_ok cosf sinf (Step.rope_ ctx) k1 (LoaderKV.n_kv_heads cfg)
              (LoaderKV.head_dim cfg) pos Hrpos Hreven Hfreq Hrope ltac:(lia) ltac:(lia))
    as (k2 & -> & Lk2).
  cbn [Step.lift].
  (* the cache write *)
  destruct (write_heads_spec pos k2 v1
              (seq 0 (Z.to_nat (Layer0.n_kv_heads_ (Step.cache_ ctx)))) (Step.cache_ ctx)
              Hcwf ltac:(lia) ltac:(rewrite Hcn, Hcd; lia) ltac:(rewrite Hcn, Hcd; lia)
              (NoDup_seq _ _))
    as (c1 & Hrun & Hwf1 & Hgeo & Hholds & Hframe).
  { intros h Hh. apply elem_of_seq in Hh. pose proof Hcwf as (? & _). lia. }
  unfold Cache.write.
  destruct (Z.geb_spec pos (Layer0.max_seq_ (Step.cache_ ctx))); [lia|].
  rewrite Hrun. cbn [Step.bind].
  destruct Hgeo as (Hgn & Hgm & Hgd).
  rewrite call_set_zero_ok by (subst n; lia). cbn [Step.lift].
  unfold nonzero_divisor. destruct (Z.eqb_spec (LoaderKV.n_kv_heads cfg) 0) as [|_]; [lia|].
  cbn [Step.lift].
  (* the loop over the query heads *)
  set (attn_out0 := Kernels.set_zero (Step.attn_out_ ctx) n).
  assert (length attn_out0 = length (Step.attn_out_ ctx)) as Lao0
    by (subst attn_out0; apply set_zero_length).
  destruct (attend_heads_spec expf (layer0_config cfg) c1 Hwf1
              ltac:(rewrite Hgd; exact Hcd) Hg0
              ltac:(simpl; rewrite Hgn, Hcn; exact Hgrp)
              ltac:(simpl; lia) ltac:(rewrite Hgm; lia)
              pos q2
              (F32.div F32.one (F32.sqrt (F32.of_Z (LoaderKV.head_dim cfg))))
              (Z.to_nat (LoaderKV.n_heads cfg)) 0%nat (Step.attn_probs_ ctx) attn_out0)
    as (probs1 & attn_out1 & Hatt & Lp1 & Lao1 & Hheads & _).
  { rewrite Hgm. lia. }
  { simpl. lia. }
  { simpl. lia. }
  { simpl. lia. }
  { rewrite Hgm. lia. }
  rewrite Hatt. cbn [Step.lift].
  rewrite (call_matvec_ok (Step.attn_output layer)) by lia. cbn [Step.lift].
  set (tmp1 := Matvec.matvec_colmajor_f32 (Step.attn_output layer) _ _ _ _).
  assert (length tmp1 = length (Step.tmp_d_model_ ctx)) as Lt1
    by (subst tmp1; apply matvec_length).
  rewrite call_add_inplace_ok by (subst n; lia). cbn [Step.lift].
  set (x1 := Step.add_inplace x tmp1 n).
  assert (length x1 = length x) as Lx1 by (subst x1; apply add_inplace_length).
  (* ---- FFN ---- *)
  rewrite call_rmsnorm_ok by (subst n; lia). cbn [Step.lift].
  set (x_norm2 := Step.rmsnorm_f32 x1 _ n _ _).
  assert (length x_norm2 = length x_norm1) as Lxn2 by (subst x_norm2; apply rmsnorm_length).
  rewrite (call_matvec_ok (Step.ffn_gate layer)) by lia. cbn [Step.lift].
  set (gate1 := Matvec.matvec_colmajor_f32 (Step.ffn_gate layer) _ _ _ _).
  assert (length gate1 = length (Step.gate_ ctx)) as Lg1 by (subst gate1; apply matvec_length).
  rewrite (call_matvec_ok (Step.ffn_up layer)) by lia. cbn [Step.lift].
  set (up1 := Matvec.matvec_colmajor_f32 (Step.ffn_up layer) _ _ _ _).
  assert (length up1 = length (Step.up_ ctx)) as Lu1 by (subst up1; apply matvec_length).
  destruct (silu_gate_ok expf gate1 up1 (Z.to_nat (LoaderKV.ffn_hidden_dim cfg)))
    as (gate2 & -> & Lg2); [lia | lia |].
  cbn [Step.lift].
  rewrite (call_matvec_ok (Step.ffn_down layer)) by lia. cbn [Step.lift].
  set (tmp2 := Matvec.matvec_colmajor_f32 (Step.ffn_down layer) _ _ _ _).
  assert (length tmp2 = length tmp1) as Lt2 by (subst tmp2; apply matvec_length).
  rewrite call_add_inplace_ok by (subst n; lia). cbn [Step.lift].
  eexists _, _. split; [reflexivity|].
  cbn [Step.cfg_ Step.rope_ Step.cache_ Step.k_ Step.v_ Step.q_ Step.attn_out_].
  split.
  { unfold ctx_wf.
    cbn [Step.cfg_ Step.rope_ Step.cache_ Step.x_norm_ Step.q_ Step.k_ Step.v_
         Step.attn_out_ Step.tmp_d_model_ Step.gate_ Step.up_ Step.attn_probs_].
    fold cfg. rewrite Hgn, Hgm, Hgd.
    split; [exact Hok|].
    split; [repeat (constructor; [assumption|]); constructor|].
    split; [exact Hdm|]. split; [exact Hkv|]. split; [exact Hwf1|].
    split; [exact Hcn|]. split; [exact Hcd|]. split; [exact Hrpos|].
    split; [exact Hreven|]. split; [exact Hfreq|].
    split; [repeat (constructor; [lia|]); constructor|].
    split; [repeat (constructor; [lia|]); constructor|].
    split; [repeat (constructor; [lia|]); constructor|]. lia. }
  split; [reflexivity|]. split; [reflexivity|].
  split; [repeat split; assumption|].
  split; [rewrite add_inplace_length; exact Lx1|].
  split.
  { intros h Hh. specialize (Hholds (Z.to_nat h)). rewrite Z2Nat.id in Hholds by lia.
    apply Hholds. apply elem_of_seq. lia. }
  split.
  { intros h p Hh Hp Hne. apply Hframe; [lia | lia | intros E; contradiction]. }
  intros h Hh. cbv zeta.
  specialize (Hheads (Z.to_nat h) ltac:(lia)).
  rewrite Z2Nat.id in Hheads by lia. exact Hheads.
Qed.

(** The constructor on 32-bit fields with [d_model = n_heads * head_dim]
    and [kv_dim = n_kv_heads * head_dim]. *)
Lemma construct_wf powf cfg ctx :
  Forall (fun z => 0 <= z <= u32_max)
    [LoaderKV.d_model cfg; LoaderKV.n_heads cfg; LoaderKV.n_kv_heads cfg;
     LoaderKV.head_dim cfg; LoaderKV.kv_dim cfg; LoaderKV.ffn_hidden_dim cfg;
     LoaderKV.context_length cfg; LoaderKV.rope_dim cfg] ->
  LoaderKV.d_model cfg = LoaderKV.n_heads cfg * LoaderKV.head_dim cfg ->
  LoaderKV.kv_dim cfg = LoaderKV.n_kv_heads cfg * LoaderKV.head_dim cfg ->
  Step.construct powf cfg = Cache.Done ctx ->
  ctx_wf ctx /\ Step.cfg_ ctx = cfg /\
  Layer0.max_seq_ (Step.cache_ ctx)
    = (if LoaderKV.context_length cfg =? 0 then 2048 else LoaderKV.context_length cfg).
Proof.
  intros Hrange Hdm Hkv H.
  repeat (apply Forall_cons in Hrange as [? Hrange]).
  assert (Layer0.config_ok (layer0_config cfg) = true) as Hok.
  { unfold Step.construct in H. unfold Layer0.config_ok, layer0_config. simpl.
    destruct (_ || _); [discriminate|].
    destruct (_ =? 0); [reflexivity | discriminate]. }
  destruct (config_ok_group cfg Hok ltac:(lia) ltac:(lia))
    as (Hnkv0 & Hg0 & Hgrp & Hd0 & Hnh0 & Hhd0 & Hkv0 & Hf0).
  unfold Step.construct in H.
  match type of H with
  | (if ?b then _ else _) = _ => destruct b; [discriminate|]
  end.
  destruct (negb _); [discriminate|].
  match type of H with
  | Step.lift ?m _ = _ => destruct m as [rope|e] eqn:Hrope; [|discriminate]
  end.
  cbn [Step.lift] in H.
  set (max_seq := if negb (LoaderKV.context_length cfg =? 0)
                  then LoaderKV.context_length cfg else 2048) in H.
  assert (0 < max_seq <= u32_max) as Hms.
  { subst max_seq. unfold u32_max in *.
    destruct (Z.eqb_spec (LoaderKV.context_length cfg) 0); simpl; lia. }
  destruct (cache_construct_wf (LoaderKV.n_kv_heads cfg) max_seq (LoaderKV.head_dim cfg))
    as (c & Hc & Hcwf & Hcn & Hcm & Hcd); [lia | lia | lia | |].
  { replace (LoaderKV.n_kv_heads cfg * max_seq * LoaderKV.head_dim cfg)
      with (LoaderKV.kv_dim cfg * max_seq) by (rewrite Hkv; ring).
    unfold u32_max, U64.max in *. nia. }
  rewrite Hc in H. cbn [Step.bind] in H. injection H as <-.
  (* the RoPE cache *)
  unfold Rope.reset in Hrope.
  set (rd := if negb (LoaderKV.rope_dim cfg =? 0)
             then LoaderKV.rope_dim cfg else LoaderKV.head_dim cfg) in *.
  assert (0 <= rd) as Hrd0.
  { subst rd. destruct (negb (LoaderKV.rope_dim cfg =? 0)); lia. }
  destruct (Z.eqb_spec rd 0) as [|Hrdnz]; [discriminate|].
  destruct (Z.eqb_spec (rd mod 2) 0) as [Hrdeven|]; [|discriminate].
  simpl in Hrope. destruct (negb (F32.gtb _ _)); [discriminate|].
  injection Hrope as <-.
  split; [|split; [reflexivity|]].
  - unfold ctx_wf.
    cbn [Step.cfg_ Step.rope_ Step.cache_ Step.x_norm_ Step.q_ Step.k_ Step.v_
         Step.attn_out_ Step.tmp_d_model_ Step.gate_ Step.up_ Step.attn_probs_
         Rope.rope_dim_ Rope.inv_freq_].
    rewrite Hcm, length_map, length_seq, !repeat_length.
    assert (0 <= rd / 2) by (apply Z.div_pos; lia).
    rewrite !Z2Nat.id by lia.
    split; [exact Hok|].
    split; [repeat (constructor; [lia|]); constructor|].
    split; [exact Hdm|]. split; [exact Hkv|]. split; [exact Hcwf|].
    split; [exact Hcn|]. split; [exact Hcd|]. split; [lia|].
    split; [exact Hrdeven|]. split; [reflexivity|].
    split; [repeat (constructor; [rewrite repeat_length; lia|]); constructor|].
    split; [repeat (constructor; [rewrite repeat_length; lia|]); constructor|].
    split; [repeat (constructor; [rewrite repeat_length; lia|]); constructor|]. lia.
  - cbn [Step.cache_]. rewrite Hcm. subst max_seq.
    destruct (Z.eqb_spec (LoaderKV.context_length cfg) 0); reflexivity.
Qed.

(** X21. [Layer0Context::step] stays inside its buffers and the KV cache,
    and never rewrites an earlier position.  (1) The constructor, given
    32-bit fields with [d_model = n_heads * head_dim] and [kv_dim =
    n_kv_heads * head_dim] (it checks neither), builds a context in the
    state [ctx_wf], with [context_length] positions (2048 for 0).  (2) In
    that state, with weights of the sizes of [layer_sized] and [d_model]
    floats behind [x], [step] at [pos] throws "step pos out of range" for
    [pos >= max_seq] and "rope_dim > head_dim" when the RoPE dimension
    exceeds [head_dim]; in every other case it returns: no access leaves a
    buffer and no [k_ptr], [v_ptr] or [write] throws, whatever the values
    of the weights and [std::exp], [std::cos], [std::sin] are.  Afterwards
    the state is [ctx_wf] again, [x] has kept its length, the cache slots of
    position [pos] hold the rotated keys [k_] and the values [v_] of this
    call, and the slots of every other position hold what they held before.
    (3) Without [d_model = n_heads * head_dim] the behaviour is undefined:
    the constructor accepts [cfg_bad] ([d_model = 1], 4 heads of 2 floats)
    and [step] then rotates 8 floats in the one float of [q_]. *)
Theorem step_stays_in_cache
    (expf : spec_float -> spec_float) (powf : spec_float -> spec_float -> spec_float)
    (cosf sinf : spec_float -> spec_float) :
  (forall cfg ctx,
     Forall (fun z => 0 <= z <= u32_max)
       [LoaderKV.d_model cfg; LoaderKV.n_heads cfg; LoaderKV.n_kv_heads cfg;
        LoaderKV.head_dim cfg; LoaderKV.kv_dim cfg; LoaderKV.ffn_hidden_dim cfg;
        LoaderKV.context_length cfg; LoaderKV.rope_dim cfg] ->
     LoaderKV.d_model cfg = LoaderKV.n_heads cfg * LoaderKV.head_dim cfg ->
     LoaderKV.kv_dim cfg = LoaderKV.n_kv_heads cfg * LoaderKV.head_dim cfg ->
     Step.construct powf cfg = Cache.Done ctx ->
     ctx_wf ctx /\ Step.cfg_ ctx = cfg /\
     Layer0.max_seq_ (Step.cache_ ctx)
       = (if LoaderKV.context_length cfg =? 0 then 2048 else LoaderKV.context_length cfg)) /\
  (forall ctx layer pos x,
     ctx_wf ctx -> layer_sized (Step.cfg_ ctx) layer ->
     LoaderKV.d_model (Step.cfg_ ctx) <= Z.of_nat (length x) ->
     0 <= pos ->
     (Layer0.max_seq_ (Step.cache_ ctx) <= pos ->
      Step.step expf cosf sinf ctx layer pos x
        = Cache.Throw (Cache.L0_other E_step_pos_out_of_range)) /\
     (pos < Layer0.max_seq_ (Step.cache_ ctx) ->
      LoaderKV.head_dim (Step.cfg_ ctx) < Rope.rope_dim_ (Step.rope_ ctx) ->
      Step.step expf cosf sinf ctx layer pos x
        = Cache.Throw (Cache.L0_other E_rope_dim_gt_head_dim)) /\
     (pos < Layer0.max_seq_ (Step.cache_ ctx) ->
      Rope.rope_dim_ (Step.rope_ ctx) <= LoaderKV.head_dim (Step.cfg_ ctx) ->
      exists ctx' x',
        Step.step expf cosf sinf ctx layer pos x = Cache.Done (ctx', x') /\
        ctx_wf ctx' /\
        Step.cfg_ ctx' = Step.cfg_ ctx /\ Step.rope_ ctx' = Step.rope_ ctx /\
        same_geometry (Step.cache_ ctx') (Step.cache_ ctx) /\
        length x' = length x /\
        (forall h, 0 <= h < LoaderKV.n_kv_heads (Step.cfg_ ctx) ->
           slot_holds (Step.cache_ ctx') h pos (Step.k_ ctx') (Step.v_ ctx')) /\
        (forall h p, 0 <= h < LoaderKV.n_kv_heads (Step.cfg_ ctx) ->
           0 <= p < Layer0.max_seq_ (Step.cache_ ctx) -> p <> pos ->
           same_slot (Step.cache_ ctx') (Step.cache_ ctx) h p))) /\
  (exists ctx,
     Step.construct powf cfg_bad = Cache.Done ctx /\
     Step.step expf cosf sinf ctx zero_weights 0 (repeat F32.zero 8)
       = Cache.Throw (Cache.L0_other E_undefined_behaviour)).
Proof.
  split; [|split].
  - intros cfg ctx. apply construct_wf.
  - intros ctx layer pos x Hwf Hsized Hx Hpos. split; [|split].
    + intros Hge. unfold Step.step.
      destruct (Z.geb_spec pos (Layer0.max_seq_ (Step.cache_ ctx))); [reflexivity | lia].
    + intros Hlt Hgt.
      pose proof Hwf as (Hok & Hu32 & Hdm & Hkv & Hcwf & Hcn & Hcd & Hrpos & Hreven & Hfreq
                           & Hbd & Hbkv & Hbf & Hbp).
      repeat (apply Forall_cons in Hu32 as [? Hu32]).
      repeat (apply Forall_cons in Hbd as [? Hbd]).
      repeat (apply Forall_cons in Hbkv as [? Hbkv]).
      destruct Hsized as (Wn & Wq & Wk & Wv & _).
      unfold Step.step.
      destruct (Z.geb_spec pos (Layer0.max_seq_ (Step.cache_ ctx))); [lia|]. cbv zeta.
      rewrite call_rmsnorm_ok by lia. cbn [Step.lift].
      rewrite (call_matvec_ok (Step.attn_q layer)) by (rewrite ?rmsnorm_length; lia).
      cbn [Step.lift].
      rewrite (call_matvec_ok (Step.attn_k layer)) by (rewrite ?rmsnorm_length; lia).
      cbn [Step.lift].
      rewrite (call_matvec_ok (Step.attn_v layer)) by (rewrite ?rmsnorm_length; lia).
      cbn [Step.lift].
      unfold Step.call_rope at 1. unfold Rope.apply_inplace at 1.
      destruct (Z.eqb_spec (Rope.rope_dim_ (Step.rope_ ctx)) 0); [lia|].
      destruct (Z.gtb_spec (Rope.rope_dim_ (Step.rope_ ctx)) (LoaderKV.head_dim (Step.cfg_ ctx)));
        [reflexivity | lia].
    + intros Hlt Hle.
      destruct (step_spec expf cosf sinf ctx layer pos x Hwf Hsized Hx ltac:(lia) Hle)
        as (ctx' & x' & Hrun & Hwf' & Hc & Hr & Hgeo & Hlen & Hholds & Hframe & _).
      exists ctx', x'. split; [exact Hrun|]. split; [exact Hwf'|]. split; [exact Hc|].
      split; [exact Hr|]. split; [exact Hgeo|]. split; [exact Hlen|].
      split; [exact Hholds | exact Hframe].
  - eexists. split; [reflexivity|]. vm_compute. reflexivity.
Qed.

(** The theorem at [cfg_small], with weights that are zero, at position 1
    of the 4 positions. *)
Lemma step_stays_in_cache_witness :
  exists ctx ctx' x',
    Step.construct (fun _ _ => F32.one) cfg_small = Cache.Done ctx /\
    Step.step (fun _ => F32.one) (fun _ => F32.one) (fun _ => F32.zero)
      ctx zero_weights 1 (repeat F32.zero 8) = Cache.Done (ctx', x') /\
    length x' = 8%nat /\ ctx_wf ctx'.
Proof.
  assert (exists ctx,
            Step.construct (fun _ _ => F32.one) cfg_small = Cache.Done ctx /\
            Rope.rope_dim_ (Step.rope_ ctx) = 2 /\ Step.cfg_ ctx = cfg_small)
    as (ctx & Hctx & Hrd & Hcfg).
  { eexists. split; [vm_compute; reflexivity|]. split; reflexivity. }
  destruct (step_stays_in_cache (fun _ => F32.one) (fun _ _ => F32.one)
              (fun _ => F32.one) (fun _ => F32.zero)) as (Hctor & Hstep & _).
  destruct (Hctor cfg_small ctx) as (Hwf & _ & Hms).
  { repeat constructor; vm_compute; discriminate. }
  { reflexivity. }
  { reflexivity. }
  { exact Hctx. }
  destruct (Hstep ctx zero_weights 1 (repeat F32.zero 8) Hwf) as (_ & _ & Hok).
  { rewrite Hcfg. unfold layer_sized. simpl. lia. }
  { rewrite Hcfg. simpl. lia. }
  { lia. }
  destruct Hok as (ctx' & x' & Hrun & Hwf' & _ & _ & _ & Hlen & _).
  { rewrite Hms. simpl. lia. }
  { rewrite Hrd, Hcfg. simpl. lia. }
  exists ctx, ctx', x'. split; [exact Hctx|]. split; [exact Hrun|].
  split; [rewrite Hlen; reflexivity | exact Hwf'].
Defined.

(** ** layer0.cpp: grouped-query routing *)

(** C8. Grouped-query routing in the layer step.  In the state that the
    constructor establishes, with sized weights, [step] returns, and for
    every query head [h] the [head_dim] floats that it leaves in
    [attn_out_] for [h] are the attention of the query head [h] over the keys
    and the values that the cache holds, at the positions [0 .. pos], for
    the KV head [g = h / (n_heads / n_kv_heads)]: the keys and values at
    [k_ptr(g, t)] and [v_ptr(g, t)], and of no other KV head.  [g] is a KV
    head of the cache, and for 4 query heads and 2 KV heads, heads 0 and 1
    read KV head 0 and heads 2 and 3 read KV head 1. *)
Theorem step_routes_query_heads (expf cosf sinf : spec_float -> spec_float)
    (ctx : Step.Layer0Context) (layer : Step.LayerWeights) (pos : Z)
    (x : list spec_float) :
  ctx_wf ctx -> layer_sized (Step.cfg_ ctx) layer ->
  LoaderKV.d_model (Step.cfg_ ctx) <= Z.of_nat (length x) ->
  0 <= pos < Layer0.max_seq_ (Step.cache_ ctx) ->
  Rope.rope_dim_ (Step.rope_ ctx) <= LoaderKV.head_dim (Step.cfg_ ctx) ->
  let cfg := Step.cfg_ ctx in
  let hd := Z.to_nat (LoaderKV.head_dim cfg) in
  exists ctx' x',
    Step.step expf cosf sinf ctx layer pos x = Cache.Done (ctx', x') /\
    forall h, 0 <= h < LoaderKV.n_heads cfg ->
      let g := h / (LoaderKV.n_heads cfg / LoaderKV.n_kv_heads cfg) in
      0 <= g < LoaderKV.n_kv_heads cfg /\
      (LoaderKV.n_heads cfg = 4 -> LoaderKV.n_kv_heads cfg = 2 ->
       g = if h <? 2 then 0 else 1) /\
      (forall t, 0 <= t <= pos ->
         Layer0.k_ptr (Step.cache_ ctx') g t
           = Ok (skipn (slot_index (Step.cache_ ctx') g t) (Layer0.k_ (Step.cache_ ctx'))) /\
         Layer0.v_ptr (Step.cache_ ctx') g t
           = Ok (skipn (slot_index (Step.cache_ ctx') g t) (Layer0.v_ (Step.cache_ ctx')))) /\
      Layer0.window (Step.attn_out_ ctx') (Z.to_nat h * hd) hd
        = attention_of_head expf hd (inv_sqrt_hd cfg)
            (Layer0.window (Step.q_ ctx') (Z.to_nat h * hd) hd)
            (cache_keys (Step.cache_ ctx') g (Z.to_nat pos))
            (cache_values (Step.cache_ ctx') g (Z.to_nat pos)).
Proof.
  intros Hwf Hsized Hx Hpos Hrope. cbv zeta.
  destruct (step_spec expf cosf sinf ctx layer pos x Hwf Hsized Hx Hpos Hrope)
    as (ctx' & x' & Hrun & Hwf' & Hc & _ & Hgeo & _ & _ & _ & Hheads).
  exists ctx', x'. split; [exact Hrun|].
  intros h Hh.
  pose proof Hwf' as (Hok & Hu32 & _ & _ & Hcwf & Hcn & _).
  repeat (apply Forall_cons in Hu32 as [? Hu32]).
  rewrite Hc in *.
  set (cfg := Step.cfg_ ctx) in *.
  set (g := h / (LoaderKV.n_heads cfg / LoaderKV.n_kv_heads cfg)).
  destruct (config_ok_group cfg Hok ltac:(lia) ltac:(lia))
    as (Hnkv0 & Hg0 & Hgrp & _).
  assert (0 <= g < LoaderKV.n_kv_heads cfg) as Hg.
  { subst g. change (LoaderKV.n_heads cfg / LoaderKV.n_kv_heads cfg)
      with (Layer0.group (layer0_config cfg)).
    split; [apply Z.div_pos; lia | apply Z.div_lt_upper_bound; lia]. }
  split; [exact Hg|]. split; [|split].
  - intros Hn4 Hn2. subst g. rewrite Hn4, Hn2. change (4 / 2) with 2.
    destruct (Z.ltb_spec h 2).
    + apply Z.div_small. lia.
    + assert (h = 1 * 2 + (h - 2)) as -> by lia.
      rewrite Z.div_add_l by lia. rewrite Z.div_small by lia. reflexivity.
  - intros t Ht. destruct Hgeo as (_ & Hgm & _).
    destruct (k_ptr_ok (Step.cache_ ctx') g t Hcwf ltac:(lia) ltac:(lia))
      as (Hk & Hv & _).
    split; assumption.
  - exact (Hheads h Hh).
Qed.

(** The theorem at [cfg_small] (4 query heads, 2 KV heads, 2 floats per
    head) at position 0, with [routing_weights] and the input [x_unit]: the
    values of the two KV heads differ, [attn_out_] holds those of KV head 0
    for the heads 0 and 1 and those of KV head 1 for the heads 2 and 3. *)
Lemma step_routes_query_heads_witness :
  exists ctx ctx' x' a b,
    Step.construct (fun _ _ => F32.one) cfg_small = Cache.Done ctx /\
    Step.step (fun _ => F32.one) (fun _ => F32.one) (fun _ => F32.zero)
      ctx routing_weights 0 x_unit = Cache.Done (ctx', x') /\
    cache_values (Step.cache_ ctx') 0 0 = [a] /\
    cache_values (Step.cache_ ctx') 1 0 = [b] /\
    a <> b /\
    Step.attn_out_ ctx' = a ++ a ++ b ++ b /\
    (forall h, 0 <= h < 4 ->
       Layer0.window (Step.attn_out_ ctx') (Z.to_nat h * 2) 2
       = attention_of_head (fun _ => F32.one) 2 (inv_sqrt_hd cfg_small)
           (Layer0.window (Step.q_ ctx') (Z.to_nat h * 2) 2)
           (cache_keys (Step.cache_ ctx') (if h <? 2 then 0 else 1) 0)
           (cache_values (Step.cache_ ctx') (if h <? 2 then 0 else 1) 0)).
Proof.
  assert (exists ctx,
            Step.construct (fun _ _ => F32.one) cfg_small = Cache.Done ctx /\
            Rope.rope_dim_ (Step.rope_ ctx) = 2 /\ Step.cfg_ ctx = cfg_small /\
            Layer0.max_seq_ (Step.cache_ ctx) = 4)
    as (ctx & Hctx & Hrd & Hcfg & Hms).
  { eexists. split; [vm_compute; reflexivity|]. repeat split. }
  destruct (construct_wf (fun _ _ => F32.one) cfg_small ctx) as (Hwf & _ & _).
  { repeat constructor; vm_compute; discriminate. }
  { reflexivity. }
  { reflexivity. }
  { exact Hctx. }
  destruct (step_routes_query_heads (fun _ => F32.one) (fun _ => F32.one) (fun _ => F32.zero)
              ctx routing_weights 0 x_unit Hwf)
    as (ctx' & x' & Hrun & Hall).
  { rewrite Hcfg. unfold layer_sized. simpl. lia. }
  { rewrite Hcfg. simpl. lia. }
  { rewrite Hms. lia. }
  { rewrite Hrd, Hcfg. simpl. lia. }
  assert (exists a b,
            cache_values (Step.cache_ ctx') 0 0 = [a] /\
            cache_values (Step.cache_ ctx') 1 0 = [b] /\
            a <> b /\ Step.attn_out_ ctx' = a ++ a ++ b ++ b) as (a & b & Ha & Hb & Hab & Hout).
  { pose proof Hctx as Hctx'. vm_compute in Hctx'. injection Hctx' as Hctx'.
    pose proof Hrun as Hrun'. rewrite <- Hctx' in Hrun'. vm_compute in Hrun'.
    injection Hrun' as Hc' _. rewrite <- Hc'.
    eexists _, _. split; [vm_compute; reflexivity|]. split; [vm_compute; reflexivity|].
    split; [vm_compute; discriminate|]. vm_compute. reflexivity. }
  exists ctx, ctx', x', a, b.
  split; [exact Hctx|]. split; [exact Hrun|]. split; [exact Ha|]. split; [exact Hb|].
  split; [exact Hab|]. split; [exact Hout|].
  intros h Hh. rewrite Hcfg in Hall.
  destruct (Hall h ltac:(simpl; lia)) as (_ & Hg & _ & Hwin).
  rewrite <- (Hg eq_refl eq_refl). exact Hwin.
Defined.

(** ** weights.cpp: reading a column of the embedding *)

(** X22. [gather_column] reads inside the tensor.  For a tensor [dim, vocab]
    whose buffer holds [dim * vocab] floats (as [load_tensor_as_f32] leaves
    it) and [dim] slots behind [out_dim]: a [token_id] below [vocab] makes
    it copy the [dim] floats from index [token_id * dim] on, all of them
    inside the buffer (the 64-bit product does not wrap), into
    [out_dim[0 .. dim)], leaving the rest of [out_dim]; a [token_id] of
    [vocab] or more throws "token_id out of range". *)
Theorem gather_column_in_bounds (W : Weights.TensorF32) (dim vocab token_id : Z)
    (out : list spec_float) :
  Weights.tf_dims W = [dim; vocab] ->
  0 <= dim -> 0 <= token_id ->
  Z.of_nat (length (Weights.tf_storage W)) = dim * vocab ->
  dim * vocab <= U64.max ->
  dim <= Z.of_nat (length out) ->
  (vocab <= token_id ->
   Gather.gather_column W token_id out = inl Gather.GE_token_out_of_range) /\
  (token_id < vocab ->
   token_id * dim + dim <= Z.of_nat (length (Weights.tf_storage W)) /\
   exists out',
     Gather.gather_column W token_id out = inr out' /\
     length out' = length out /\
     (forall i, Z.of_nat i < dim ->
        Kernels.fat out' i
          = Kernels.fat (Weights.tf_storage W) (Z.to_nat (token_id * dim) + i)) /\
     (forall i, dim <= Z.of_nat i -> Kernels.fat out' i = Kernels.fat out i)).
Proof.
  intros Hdims Hd Ht Hlen Hfit Hout. unfold Gather.gather_column. rewrite Hdims.
  split.
  - intros Hge. destruct (Z.geb_spec token_id vocab); [reflexivity | lia].
  - intros Hlt. destruct (Z.geb_spec token_id vocab); [lia|].
    assert (token_id * dim + dim <= dim * vocab) as Hin.
    { assert ((token_id + 1) * dim <= vocab * dim) by (apply Z.mul_le_mono_nonneg_r; lia).
      lia. }
    assert (0 <= token_id * dim) by (apply Z.mul_nonneg_nonneg; lia).
    split; [lia|].
    unfold U64.mul. rewrite u64_wrap_small by lia.
    set (off := Z.to_nat (token_id * dim)).
    set (src := firstn (Z.to_nat dim) (skipn off (Weights.tf_storage W))).
    assert (length src = Z.to_nat dim) as Hsrc.
    { subst src. rewrite length_take, length_drop. lia. }
    eexists. split; [reflexivity|].
    assert (0 + length src <= length out)%nat as Hst by lia.
    split; [apply store_length; exact Hst|]. split.
    + intros i Hi. unfold Kernels.fat. rewrite !nth_lookup.
      rewrite store_lookup by exact Hst.
      destruct (decide (i < 0)%nat); [lia|].
      destruct (decide (i < 0 + length src)%nat); [|lia].
      subst src. rewrite lookup_take_lt by lia. rewrite lookup_drop.
      replace (i - 0)%nat with i by lia. reflexivity.
    + intros i Hi. unfold Kernels.fat. rewrite !nth_lookup.
      rewrite store_lookup by exact Hst.
      destruct (decide (i < 0)%nat); [lia|].
      destruct (decide (i < 0 + length src)%nat); [lia | reflexivity].
Qed.

(** The theorem at the 2 x 3 tensor with columns (1, 2), (3, 4), (5, 6) and
    the token 2. *)
Lemma gather_column_in_bounds_witness :
  Gather.gather_column
    {| Weights.tf_dims := [2; 3]; Weights.tf_numel := 6;
       Weights.tf_storage := map F32.of_Z [1; 2; 3; 4; 5; 6] |} 2 (map F32.of_Z [0; 0])
  = inr (map F32.of_Z [5; 6]) /\
  Gather.gather_column
    {| Weights.tf_dims := [2; 3]; Weights.tf_numel := 6;
       Weights.tf_storage := map F32.of_Z [1; 2; 3; 4; 5; 6] |} 3 (map F32.of_Z [0; 0])
  = inl Gather.GE_token_out_of_range.
Proof.
  destruct (gather_column_in_bounds
              {| Weights.tf_dims := [2; 3]; Weights.tf_numel := 6;
                 Weights.tf_storage := map F32.of_Z [1; 2; 3; 4; 5; 6] |}
              2 3 2 (map F32.of_Z [0; 0])) as [_ Hok];
    [reflexivity | lia | lia | reflexivity | vm_compute; discriminate | simpl; lia |].
  destruct (gather_column_in_bounds
              {| Weights.tf_dims := [2; 3]; Weights.tf_numel := 6;
                 Weights.tf_storage := map F32.of_Z [1; 2; 3; 4; 5; 6] |}
              2 3 3 (map F32.of_Z [0; 0])) as [Herr _];
    [reflexivity | lia | lia | reflexivity | vm_compute; discriminate | simpl; lia |].
  destruct Hok as (_ & out' & Hrun & _); [lia|].
  split; [|apply Herr; lia].
  rewrite Hrun. vm_compute in Hrun. injection Hrun as <-. reflexivity.
Defined.

(** ** gguf.cpp: the errors of [parse] *)

Lemma for_pos_err {St} (P : error -> Prop) (body : St -> result St) :
  (forall s e, body s = Err e -> P e) ->
  forall p s e, for_pos p body s = Err e -> P e.
Proof.
  intros Hbody. induction p as [p IH | p IH |]; simpl; intros s e H.
  - apply rbind_err in H as [H | (s1 & _ & H)]; [eauto|].
    apply rbind_err in H as [H | (s2 & _ & H)]; eauto.
  - apply rbind_err in H as [H | (s1 & _ & H)]; eauto.
  - eauto.
Qed.

Lemma for_u64_err {St} (P : error -> Prop) (body : St -> result St) :
  (forall s e, body s = Err e -> P e) ->
  forall n s e, for_u64 n body s = Err e -> P e.
Proof.
  intros Hbody [|p|p] s e H; simpl in H; try discriminate.
  eapply for_pos_err; eassumption.
Qed.

Lemma read_err sz r e : Reader.read sz r = Err e -> e = E_read_past_EOF.
Proof. unfold Reader.read. destruct (_ >? _); [congruence | discriminate]. Qed.

Lemma read_string_err r e :
  Reader.read_string r = Err e -> e = E_read_past_EOF \/ e = E_string_past_EOF.
Proof.
  unfold Reader.read_string. intros H.
  apply rbind_err in H as [H | ([len r1] & _ & H)].
  - left. eapply read_err. eassumption.
  - destruct (_ >? _); [right; congruence | discriminate].
Qed.

(** A count of 64 bits is never too large for [skip_u64]. *)
Lemma skip_u64_err r n e :
  0 <= n <= U64.max -> Gguf.skip_u64 r n = Err e -> e = E_skip_past_EOF.
Proof.
  intros Hn. unfold Gguf.skip_u64, Reader.skip.
  destruct (Z.gtb_spec n U64.max); [lia|].
  destruct (_ >? _); [congruence | discriminate].
Qed.

Lemma read_value_err r t e :
  Gguf.read_value r t = Err e -> In e directory_errors.
Proof.
  unfold directory_errors. intros H.
  assert (forall sz r0 (k : Z * Reader.t -> result (Gguf.Value * Reader.t)),
            (forall a, k a <> Err e) ->
            rbind (Reader.read sz r0) k = Err e -> e = E_read_past_EOF) as Hscalar.
  { intros sz r0 k Hk Hb. apply rbind_err in Hb as [Hb | (a & _ & Hb)].
    - eapply read_err. eassumption.
    - exfalso. exact (Hk a Hb). }
  destruct t; simpl in H;
    try (apply Hscalar in H; [subst e; simpl; auto 10 | intros [x r1]; discriminate]).
  - (* String *)
    apply rbind_err in H as [H | ([s r1] & _ & H)]; [|discriminate].
    apply read_string_err in H as [-> | ->]; simpl; auto 10.
  - (* Array *)
    apply rbind_err in H as [H | ([et r1] & _ & H)].
    { apply read_err in H as ->. simpl. auto 10. }
    apply rbind_err in H as [H | ([n r2] & Hn & H)].
    { apply read_err in H as ->. simpl. auto 10. }
    unfold Reader.read_u64 in Hn. apply read_bound in Hn; [|lia].
    assert (0 <= n <= U64.max) as Hn64 by (unfold U64.max; lia).
    destruct (Gguf.value_type_of_u32 et) as [elem|]; [|injection H as <-; simpl; auto 10].
    assert (forall sz, 0 <= sz ->
              (let* r3 := Gguf.skip_array_payload r2 n sz in
               Ok (Gguf.mk_value Gguf.Array
                     (Gguf.P_array {| Gguf.elem_type := elem; Gguf.length_ := n |}), r3))
              = Err e ->
              e = E_array_skip_overflow \/ e = E_skip_past_EOF) as Hpay.
    { intros sz Hsz Hb. apply rbind_err in Hb as [Hb | (r3 & _ & Hb)]; [|discriminate].
      unfold Gguf.skip_array_payload in Hb.
      destruct (Gguf.mul_overflow_u64 n sz) as [bytes|] eqn:Em; [|left; congruence].
      right. apply mul_overflow_u64_some in Em as [_ Hb64]; [|lia|lia].
      eapply skip_u64_err; eassumption. }
    assert ((let* r3 := Gguf.skip_u64 r2 n in
             Ok (Gguf.mk_value Gguf.Array
                   (Gguf.P_array {| Gguf.elem_type := elem; Gguf.length_ := n |}), r3))
            = Err e -> e = E_skip_past_EOF) as Hbytes.
    { intros Hb. apply rbind_err in Hb as [Hb | (r3 & _ & Hb)]; [|discriminate].
      eapply skip_u64_err; eassumption. }
    destruct elem;
      try (apply Hbytes in H as ->; simpl; auto 10);
      try (apply Hpay in H as [-> | ->]; [simpl; auto 10 | simpl; auto 10 | lia]);
      try (injection H as <-; simpl; auto 10).
    (* array of strings *)
    apply rbind_err in H as [H | (r3 & _ & H)]; [|discriminate].
    apply (for_u64_err (fun e => In e directory_errors)) in H; [exact H|].
    intros s e0 Hb. apply rbind_err in Hb as [Hb | ([str rr] & _ & Hb)]; [|discriminate].
    apply read_string_err in Hb as [-> | ->]; simpl; auto 10.
Qed.

Lemma parse_kv_err st e : Gguf.parse_kv st = Err e -> In e directory_errors.
Proof.
  destruct st as [r out]. unfold Gguf.parse_kv. intros H.
  apply rbind_err in H as [H | ([k r1] & _ & H)].
  { apply read_string_err in H as [-> | ->]; simpl; auto 10. }
  apply rbind_err in H as [H | ([tu r2] & _ & H)].
  { apply read_err in H as ->. simpl. auto 10. }
  destruct (Gguf.value_type_of_u32 tu) as [t|]; [|injection H as <-; simpl; auto 10].
  apply rbind_err in H as [H | ([v r3] & _ & H)]; [|discriminate].
  eapply read_value_err. eassumption.
Qed.

Lemma parse_tensor_err st e : Gguf.parse_tensor st = Err e -> In e directory_errors.
Proof.
  destruct st as [r out]. unfold Gguf.parse_tensor. intros H.
  apply rbind_err in H as [H | ([nm r1] & _ & H)].
  { apply read_string_err in H as [-> | ->]; simpl; auto 10. }
  apply rbind_err in H as [H | ([n_dims r2] & _ & H)].
  { apply read_err in H as ->. simpl. auto 10. }
  apply rbind_err in H as [H | ([r3 ds] & _ & H)].
  { apply (for_u64_err (fun e => e = E_read_past_EOF)) in H; [subst e; simpl; auto 10|].
    intros [ra da] e0 Hb. unfold Gguf.read_dim in Hb.
    apply rbind_err in Hb as [Hb | ([d rr] & _ & Hb)]; [|discriminate].
    eapply read_err. eassumption. }
  apply rbind_err in H as [H | ([ty r4] & _ & H)].
  { apply read_err in H as ->. simpl. auto 10. }
  apply rbind_err in H as [H | ([off r5] & _ & H)]; [|discriminate].
  apply read_err in H as ->. simpl. auto 10.
Qed.

Lemma reserve_err elem_size n e : Gguf.reserve elem_size n = Err e -> e = E_length_error.
Proof. unfold Gguf.reserve. destruct (_ >? _); [congruence | discriminate]. Qed.

Lemma read_directory_err data e :
  Gguf.read_directory data = Err e -> In e directory_errors.
Proof.
  unfold Gguf.read_directory. intros H.
  apply rbind_err in H as [H | ([magic r1] & _ & H)].
  { unfold Reader.read_bytes in H. destruct (_ >? _); [|discriminate].
    injection H as <-. simpl. auto 10. }
  destruct (negb (Gguf.is_magic magic)); [injection H as <-; simpl; auto 10|].
  apply rbind_err in H as [H | ([ver r2] & _ & H)].
  { apply read_err in H as ->. simpl. auto 10. }
  apply rbind_err in H as [H | ([tc r3] & _ & H)].
  { apply read_err in H as ->. simpl. auto 10. }
  apply rbind_err in H as [H | ([kc r4] & _ & H)].
  { apply read_err in H as ->. simpl. auto 10. }
  apply rbind_err in H as [H | (u & _ & H)].
  { apply reserve_err in H as ->. simpl. auto 12. }
  apply rbind_err in H as [H | (st1 & _ & H)].
  { eapply (for_u64_err (fun e => In e directory_errors)); [|exact H].
    intros s e0. apply parse_kv_err. }
  apply rbind_err in H as [H | (u' & _ & H)].
  { apply reserve_err in H as ->. simpl. auto 12. }
  eapply (for_u64_err (fun e => In e directory_errors)); [|exact H].
  intros s e0. apply parse_tensor_err.
Qed.

(** X23. What [parse] can throw.  A failed allocation ([std::bad_alloc])
    apart, every failure of [parse] is one of: the ten errors of reading the
    directory ("read_bytes past EOF", "not a GGUF file (bad magic)", "read
    past EOF", "string past EOF", "skip past EOF", "array skip overflow",
    "array-of-array not supported in gguf", "unknown gguf array element
    type", "unknown gguf value type", and the [std::length_error] of
    [reserve] on a header count above [max_size()]), "data section offset out
    of bounds", or a "tensor offset out of bounds" / "tensor out of bounds"
    that names a tensor of the directory.  "skip too large" is never thrown:
    a 64-bit count always fits [std::size_t].  The [std::length_error] comes
    before any entry is read: a 24-byte header that announces [2^62]
    metadata entries is refused with it, not with "read past EOF". *)
Theorem parse_possible_errors :
  (forall (data : list byte) (e : error),
     Gguf.parse data = Err e ->
     (In e directory_errors \/
      e = E_data_section_out_of_bounds \/
      exists r out, Gguf.read_directory data = Ok (r, out) /\
                    range_error (Gguf.tensors out) e) /\
     e <> E_skip_too_large) /\
  Gguf.parse file_huge_count = Err E_length_error.
Proof.
  split; [|vm_compute; reflexivity].
  intros data e H.
  assert (In e directory_errors \/
          e = E_data_section_out_of_bounds \/
          exists r out, Gguf.read_directory data = Ok (r, out) /\
                        range_error (Gguf.tensors out) e) as Hcases.
  { unfold Gguf.parse in H.
    destruct (Gguf.read_directory data) as [[r out]|e0] eqn:Hdir.
    - cbn [rbind] in H. right.
      match type of H with
      | (if ?c then _ else _) = _ => destruct c; [left; congruence|]
      end.
      apply rbind_err in H as [H | (u & _ & H)]; [|discriminate].
      right. exists r, out. split; [reflexivity|].
      apply check_tensors_err in H. exact H.
    - cbn [rbind] in H. injection H as <-. left. eapply read_directory_err. eassumption. }
  split; [exact Hcases|].
  destruct Hcases as [Hin | [-> | (r & out & _ & t & _ & [-> | ->])]]; try discriminate.
  unfold directory_errors in Hin. simpl in Hin.
  intros ->. repeat (destruct Hin as [Hin | Hin]; [discriminate|]). exact Hin.
Qed.

(** The theorem at [file_array_overflow], refused with "array skip
    overflow". *)
Lemma parse_possible_errors_witness :
  exists e, Gguf.parse file_array_overflow = Err e /\ e <> E_skip_too_large.
Proof.
  assert (exists e, Gguf.parse file_array_overflow = Err e) as [e He].
  { eexists. vm_compute. reflexivity. }
  exists e. split; [exact He|].
  exact (proj2 (proj1 parse_possible_errors file_array_overflow e He)).
Defined.

(** ** weights.cpp: the shapes of loaded weights *)

Lemma loaded_view_dims mapped ld nm t :
  Z.of_nat (length mapped) <= U64.max ->
  Loader.construct mapped = Ok ld ->
  Loader.get_tensor ld nm = Ok t -> dims_u64 (Loader.tv_dims t).
Proof.
  intros Hsz H Hget.
  destruct (maybe_get_tensor_total mapped ld nm Hsz H) as (o & Ho & Hv).
  unfold Loader.get_tensor in Hget. rewrite Ho in Hget. cbn [rbind] in Hget.
  destruct o as [tv|]; [|discriminate]. injection Hget as ->.
  destruct (Hv t eq_refl) as (ti & Hin & Hd & _).
  apply construct_inv in H as (_ & Hparse & _).
  pose proof (parse_dims_u64 _ _ Hparse) as Hdims.
  unfold tensors_dims_u64 in Hdims. rewrite Forall_forall in Hdims.
  rewrite Hd. apply Hdims. exact Hin.
Qed.

(** A tensor that was loaded and then passed [expect_dims]. *)
Lemma load_expect_shaped mapped ld nm al T ds :
  Z.of_nat (length mapped) <= U64.max ->
  Loader.construct mapped = Ok ld ->
  hd 0 ds < 2 ^ 39 ->
  Weights.load_tensor_as_f32 ld nm al = Ok T ->
  LoadWeights.expect ld nm ds = LoadWeights.Done tt ->
  shaped T ds.
Proof.
  intros Hsz H Hhd Hload Hexp. unfold LoadWeights.expect, LoadWeights.lift in Hexp.
  destruct (Loader.get_tensor ld nm) as [t|e] eqn:Hget; [|discriminate].
  unfold LoadWeights.expect_dims in Hexp.
  destruct (decide (Loader.tv_dims t = ds)) as [Ed|]; [|discriminate].
  pose proof (loaded_view_dims _ _ _ _ Hsz H Hget) as Hds.
  destruct (load_tensor_storage ld nm al t T Hget Hds) as (Hd & Hn & Hl).
  - intros _. rewrite Ed. exact Hhd.
  - exact Hload.
  - split; [congruence|]. rewrite Hl, Hn, Ed. reflexivity.
Qed.

Ltac step_load H :=
  repeat match type of H with
  | LoadWeights.lift ?m _ = _ =>
      destruct m eqn:?; cbn [LoadWeights.lift] in H; [|discriminate]
  | LoadWeights.bind ?m _ = _ =>
      destruct m as [[]|] eqn:?; cbn [LoadWeights.bind] in H; [|discriminate]
  end.

Lemma load_layer_shaped mapped ld c al i lw :
  Z.of_nat (length mapped) <= U64.max ->
  Loader.construct mapped = Ok ld ->
  LoaderKV.d_model c < 2 ^ 39 -> LoaderKV.ffn_hidden_dim c < 2 ^ 39 ->
  LoadWeights.load_layer ld c al i = LoadWeights.Done lw ->
  LoadWeights.index lw = i /\ layer_shaped c lw.
Proof.
  intros Hsz H Hdm Hffn Hl. unfold LoadWeights.load_layer in Hl.
  destruct (i >=? LoaderKV.n_layers c) eqn:Ei; [discriminate|].
  cbv zeta in Hl. step_load Hl. injection Hl as <-.
  split; [reflexivity|]. unfold layer_shaped. cbv zeta.
  cbn [LoadWeights.index LoadWeights.attn_norm LoadWeights.attn_q LoadWeights.attn_k
       LoadWeights.attn_v LoadWeights.attn_output LoadWeights.ffn_norm
       LoadWeights.ffn_gate LoadWeights.ffn_up LoadWeights.ffn_down].
  split; [rewrite Z.geb_leb in Ei; apply Z.leb_gt in Ei; exact Ei|].
  repeat split;
    (eapply load_expect_shaped;
       [exact Hsz | exact H | simpl; assumption | eassumption | eassumption]).
Qed.

Lemma load_layers_spec mapped ld c al :
  Z.of_nat (length mapped) <= U64.max ->
  Loader.construct mapped = Ok ld ->
  LoaderKV.d_model c < 2 ^ 39 -> LoaderKV.ffn_hidden_dim c < 2 ^ 39 ->
  forall idxs acc ls,
    LoadWeights.load_layers ld c al idxs acc = LoadWeights.Done ls ->
    exists new, ls = acc ++ new /\ map LoadWeights.index new = idxs /\
      Forall (layer_shaped c) new.
Proof.
  intros Hsz H Hdm Hffn. induction idxs as [|i rest IH]; intros acc ls Hl.
  - injection Hl as <-. exists []. rewrite app_nil_r. repeat split. constructor.
  - cbn [LoadWeights.load_layers] in Hl.
    destruct (LoadWeights.load_layer ld c al i) as [lw|] eqn:Elw;
      cbn [LoadWeights.bind] in Hl; [|discriminate].
    destruct (load_layer_shaped _ _ _ _ _ _ Hsz H Hdm Hffn Elw) as [Hi Hs].
    destruct (IH _ _ Hl) as (new & -> & Hmap & Hall).
    exists (lw :: new). rewrite <- app_assoc. split; [reflexivity|].
    split; [simpl; congruence | constructor; assumption].
Qed.

(** The integer fields that [config] reads or computes are not negative,
    and [d_model] and [ffn_hidden_dim] are 32-bit values. *)
Lemma config_dims_range mapped ld c :
  Loader.construct mapped = Ok ld -> LoaderKV.config ld = Ok c ->
  0 <= LoaderKV.n_layers c /\ 0 <= LoaderKV.d_model c <= u32_max /\
  0 <= LoaderKV.n_heads c /\ 0 <= LoaderKV.head_dim c /\ 0 <= LoaderKV.kv_dim c /\
  0 <= LoaderKV.ffn_hidden_dim c <= u32_max.
Proof.
  intros H Hc. unfold LoaderKV.config in Hc. inv_bind Hc. injection Hc as <-.
  cbn [LoaderKV.n_layers LoaderKV.d_model LoaderKV.n_heads LoaderKV.head_dim
       LoaderKV.kv_dim LoaderKV.ffn_hidden_dim].
  pose proof (kv_u32_range mapped ld "llama.block_count" H) as Hl.
  pose proof (kv_u32_range mapped ld "llama.embedding_length" H) as Hdm.
  pose proof (kv_u32_range mapped ld "llama.attention.head_count" H) as Hnh.
  pose proof (kv_u32_range mapped ld "llama.feed_forward_length" H) as Hffn.
  set (dm := LoaderKV.value_or (LoaderKV.kv_u32 ld "llama.embedding_length") 0) in *.
  set (nh := LoaderKV.value_or (LoaderKV.kv_u32 ld "llama.attention.head_count") 0) in *.
  repeat split; try lia.
  - destruct (Z.eqb_spec nh 0); simpl; [lia|].
    destruct (dm mod nh =? 0); [apply Z.div_pos; lia | lia].
  - apply Z.mod_pos_bound. lia.
Qed.

(** X24. What [load_weights] hands over.  For a loader built from a file:
    when [load_weights] returns, the configuration it returns has non-zero
    [n_layers], [d_model], [n_heads], [head_dim], [kv_dim] and
    [ffn_hidden_dim]; [token_embd] has the shape [d_model, vocab_size] and a
    buffer of as many floats; the two tensors of the head are loaded, with
    the shapes [d_model] and [d_model, vocab_size], exactly when
    [load_lm_head] is set; there is one entry of [layers] for each requested
    index, in the order of the request, each index is below [n_layers], and
    each of the nine tensors of a layer has the shape that the shape checks
    name and a buffer of as many floats as that shape has elements. *)
Theorem load_weights_shapes (mapped : list byte) (ld : Loader.GGUFLoader)
    (layer_indices : list Z) (load_lm_head : bool) (alignment : Z)
    (w : LoadWeights.Weights_) :
  Z.of_nat (length mapped) <= U64.max ->
  Loader.construct mapped = Ok ld ->
  LoadWeights.load_weights ld layer_indices load_lm_head alignment = LoadWeights.Done w ->
  let c := LoadWeights.cfg w in
  let g := LoadWeights.global w in
  (0 < LoaderKV.n_layers c /\ 0 < LoaderKV.d_model c /\ 0 < LoaderKV.n_heads c /\
   0 < LoaderKV.head_dim c /\ 0 < LoaderKV.kv_dim c /\ 0 < LoaderKV.ffn_hidden_dim c) /\
  shaped (LoadWeights.token_embd g) [LoaderKV.d_model c; LoaderKV.vocab_size c] /\
  (if load_lm_head
   then exists t_norm t_out,
          LoadWeights.output_norm g = Some t_norm /\ LoadWeights.output g = Some t_out /\
          shaped t_norm [LoaderKV.d_model c] /\
          shaped t_out [LoaderKV.d_model c; LoaderKV.vocab_size c]
   else LoadWeights.output_norm g = None /\ LoadWeights.output g = None) /\
  map LoadWeights.index (LoadWeights.layers w) = layer_indices /\
  Forall (layer_shaped c) (LoadWeights.layers w).
Proof.
  intros Hsz H Hw. unfold LoadWeights.load_weights in Hw.
  destruct (LoaderKV.config ld) as [c0|] eqn:Ec; cbn [LoadWeights.lift] in Hw;
    [|discriminate].
  destruct (config_dims_range _ _ _ H Ec) as (Hnl & Hdm & Hnh & Hhd & Hkv & Hffn).
  destruct ((LoaderKV.n_layers c0 =? 0) || (LoaderKV.d_model c0 =? 0)
            || (LoaderKV.n_heads c0 =? 0)) eqn:E1; [discriminate|].
  destruct ((LoaderKV.head_dim c0 =? 0) || (LoaderKV.kv_dim c0 =? 0)) eqn:E2;
    [discriminate|].
  destruct (LoaderKV.ffn_hidden_dim c0 =? 0) eqn:E3; [discriminate|].
  apply orb_false_iff in E1 as [E1 E1c]. apply orb_false_iff in E1 as [E1a E1b].
  apply orb_false_iff in E2 as [E2a E2b].
  apply Z.eqb_neq in E1a, E1b, E1c, E2a, E2b, E3.
  destruct (Weights.load_tensor_as_f32 ld "token_embd.weight" alignment)
    as [t_embd|] eqn:Eembd; cbn [LoadWeights.lift] in Hw; [|discriminate].
  destruct (Weights.tf_dims t_embd) as [|d0 [|d1 [|]]] eqn:Edims; try discriminate.
  (* the configuration after the vocabulary size is settled *)
  assert (exists c1, LoadWeights.cfg w = c1 /\
            c1 = LoadWeights.set_vocab_size c0 (LoaderKV.vocab_size c1) /\
            LoadWeights.bind (LoadWeights.expect ld "token_embd.weight"
                                [LoaderKV.d_model c1; LoaderKV.vocab_size c1])
              (fun _ =>
               LoadWeights.bind
                 (if load_lm_head
                  then
                    LoadWeights.lift
                      (Weights.load_tensor_as_f32 ld "output_norm.weight" alignment)
                      (fun t_norm =>
                       LoadWeights.bind
                         (LoadWeights.expect ld "output_norm.weight" [LoaderKV.d_model c1])
                         (fun _ =>
                          LoadWeights.lift
                            (Weights.load_tensor_as_f32 ld "output.weight" alignment)
                            (fun t_out =>
                             LoadWeights.bind
                               (LoadWeights.expect ld "output.weight"
                                  [LoaderKV.d_model c1; LoaderKV.vocab_size c1])
                               (fun _ => LoadWeights.Done (Some t_norm, Some t_out)))))
                  else LoadWeights.Done (None, None))
                 (fun '(o_norm, o_out) =>
                  LoadWeights.bind
                    (LoadWeights.load_layers ld c1 alignment layer_indices [])
                    (fun ls =>
                     LoadWeights.Done
                       {| LoadWeights.cfg := c1;
                          LoadWeights.global :=
                            {| LoadWeights.token_embd := t_embd;
                               LoadWeights.output_norm := o_norm;
                               LoadWeights.output := o_out |};
                          LoadWeights.layers := ls |})))
            = LoadWeights.Done w) as (c1 & Hc1 & Hset & Hrest).
  { destruct (LoaderKV.vocab_size c0 =? 0) eqn:Ev.
    - destruct (d1 >? u32_max); [discriminate|]. cbn [LoadWeights.bind] in Hw.
      exists (LoadWeights.set_vocab_size c0 d1).
      split; [|split; [reflexivity | exact Hw]].
      revert Hw. clear. intros Hw.
      repeat match type of Hw with
      | LoadWeights.bind ?m _ = _ =>
          destruct m as [?|] eqn:?; cbn [LoadWeights.bind] in Hw; [|discriminate]
      | (let '(_, _) := ?p in _) = _ => destruct p
      end.
      injection Hw as <-. reflexivity.
    - cbn [LoadWeights.bind] in Hw. exists c0.
      split; [|split; [destruct c0; reflexivity | exact Hw]].
      revert Hw. clear. intros Hw.
      repeat match type of Hw with
      | LoadWeights.bind ?m _ = _ =>
          destruct m as [?|] eqn:?; cbn [LoadWeights.bind] in Hw; [|discriminate]
      | (let '(_, _) := ?p in _) = _ => destruct p
      end.
      injection Hw as <-. reflexivity. }
  clear Hw. cbv zeta. rewrite Hc1.
  assert (LoaderKV.n_layers c1 = LoaderKV.n_layers c0 /\
          LoaderKV.d_model c1 = LoaderKV.d_model c0 /\
          LoaderKV.n_heads c1 = LoaderKV.n_heads c0 /\
          LoaderKV.head_dim c1 = LoaderKV.head_dim c0 /\
          LoaderKV.kv_dim c1 = LoaderKV.kv_dim c0 /\
          LoaderKV.ffn_hidden_dim c1 = LoaderKV.ffn_hidden_dim c0)
    as (Fnl & Fdm & Fnh & Fhd & Fkv & Fffn)
    by (rewrite Hset; repeat split).
  assert (LoaderKV.d_model c1 < 2 ^ 39) as Hdm39 by (unfold u32_max in Hdm; lia).
  assert (LoaderKV.ffn_hidden_dim c1 < 2 ^ 39) as Hffn39 by (unfold u32_max in Hffn; lia).
  destruct (LoadWeights.expect ld "token_embd.weight" _) as [[]|] eqn:Eexp;
    cbn [LoadWeights.bind] in Hrest; [|discriminate].
  split; [lia|].
  assert (forall nm T ds, hd 0 ds = LoaderKV.d_model c1 ->
            Weights.load_tensor_as_f32 ld nm alignment = Ok T ->
            LoadWeights.expect ld nm ds = LoadWeights.Done tt -> shaped T ds) as Hshape.
  { intros nm T ds Hhd0 HT He. eapply load_expect_shaped; try eassumption.
    rewrite Hhd0. exact Hdm39. }
  destruct load_lm_head.
  - repeat match type of Hrest with
    | context [LoadWeights.lift (Weights.load_tensor_as_f32 ?a ?b ?c) _] =>
        destruct (Weights.load_tensor_as_f32 a b c) eqn:?;
          cbn [LoadWeights.lift LoadWeights.bind] in Hrest; [|discriminate]
    | context [LoadWeights.bind (LoadWeights.expect ?a ?b ?c) _] =>
        destruct (LoadWeights.expect a b c) as [[]|] eqn:?;
          cbn [LoadWeights.lift LoadWeights.bind] in Hrest; [|discriminate]
    end.
    destruct (LoadWeights.load_layers ld c1 alignment layer_indices []) as [ls|] eqn:Els;
      cbn [LoadWeights.bind] in Hrest; [|discriminate].
    injection Hrest as <-. cbn [LoadWeights.global LoadWeights.token_embd
      LoadWeights.output_norm LoadWeights.output LoadWeights.layers].
    destruct (load_layers_spec _ _ _ _ Hsz H Hdm39 Hffn39 _ _ _ Els)
      as (new & -> & Hmap & Hall). simpl app.
    split; [eapply Hshape; [reflexivity | exact Eembd | exact Eexp]|].
    split; [|split; assumption].
    eexists _, _. split; [reflexivity|]. split; [reflexivity|].
    split; eapply Hshape; try eassumption; reflexivity.
  - cbn [LoadWeights.bind] in Hrest.
    destruct (LoadWeights.load_layers ld c1 alignment layer_indices []) as [ls|] eqn:Els;
      cbn [LoadWeights.bind] in Hrest; [|discriminate].
    injection Hrest as <-. cbn [LoadWeights.global LoadWeights.token_embd
      LoadWeights.output_norm LoadWeights.output LoadWeights.layers].
    destruct (load_layers_spec _ _ _ _ Hsz H Hdm39 Hffn39 _ _ _ Els)
      as (new & -> & Hmap & Hall). simpl app.
    split; [eapply Hshape; [reflexivity | exact Eembd | exact Eexp]|].
    split; [split; reflexivity|]. split; assumption.
Qed.

(** The theorem at [file_llama_layer], layer 0 without the head. *)
Lemma load_weights_shapes_witness :
  exists ld w,
    Loader.construct file_llama_layer = Ok ld /\
    LoadWeights.load_weights ld [0] false 64 = LoadWeights.Done w /\
    map LoadWeights.index (LoadWeights.layers w) = [0] /\
    Forall (layer_shaped (LoadWeights.cfg w)) (LoadWeights.layers w).
Proof.
  assert (exists ld w,
            Loader.construct file_llama_layer = Ok ld /\
            LoadWeights.load_weights ld [0] false 64 = LoadWeights.Done w)
    as (ld & w & Hld & Hw).
  { eexists _, _. split; [vm_compute; reflexivity|]. vm_compute. reflexivity. }
  destruct (load_weights_shapes file_llama_layer ld [0] false 64 w
              ltac:(vm_compute; discriminate) Hld Hw) as (_ & _ & _ & Hmap & Hall).
  exists ld, w. split; [exact Hld|]. split; [exact Hw|]. split; [exact Hmap | exact Hall].
Defined.
